(* ===== verification/_CoqProject ===== *)
-Q . S2P
Prelude.v
Abi.v
Quota.v
Authz.v
Ledger.v
Scheduler.v
Queue.v
Extern.v
Blake3.v
Instance.v
Event.v
Observer.v
Stage.v
Dispatch.v
Apply.v
Signature.v
Wal.v
Registry.v
Step.v
Kernel.v
Widths.v
Spec.v
Refinement.v
Budget.v
Progress.v
Isolation.v
Codec.v
Snapshot.v
Replay.v
Acceptance.v
Recovery.v
Macros.v
Dice.v
Wire.v
WireState.v
Durable.v
TestKit.v
Hostile.v
KernelTests.v
WalTests.v
ReplayTests.v
StateTests.v
RuntimeTests.v
DiceTests.v
