(* ===== verification/Prelude.v ===== *)
(** * ArkheKernel verification development

    The repository is a deterministic micro-kernel: a [Kernel] holds isolated
    instances (entities, components, a scheduler, a resource ledger, inboxes),
    [submit] queues actions for an instance, [step] executes one due action
    per instance, and a write-ahead log of canonical inputs, hash-chained and
    optionally signed, lets [replay_into] rebuild the state from the log. This
    library models the crate [arkhe-kernel] ([src/arkhe-kernel/src/], referred
    to by paths below it), the derive macros ([src/arkhe-macros]) and the dice
    example ([src/examples/dice]) as executable functions and proves what
    makes them correct. Definitions keep the names of the code; a clash is
    resolved by naming the type first ([Kernel_from_snapshot],
    [Scheduler_len]).

    ** The parts, bottom up

    - [Prelude] (this file): the two effects of the program, [Outcome] (return
      or panic) and [Result] (Rust's), both monads; saturating machine
      arithmetic on [N]; [BTreeMap] and [BTreeSet] iteration as sorted views
      of [gmap] and [gset] behind the class [BTreeKey]; folds in the two
      monads; sums over maps; the hint database [arkhe].
    - [Abi]: [abi/ids.rs], [abi/principal.rs], [abi/caps.rs], [abi/error.rs].
      A [NonZeroU64] is a [positive], a plain integer an [N], a capability
      mask the [N] of its bits; [⊑c] is mask inclusion.
    - [Quota]: [state/quota.rs].  [Authz]: [state/op.rs], [state/authz.rs].
    - [Ledger]: [state/ledger.rs].  [Scheduler]: [state/scheduler.rs].
    - [Extern]: the interfaces of the codec and the hash (below).
    - [Instance]: [state/instance.rs], [state/config.rs], [state/context.rs],
      [runtime/view.rs]. A [&mut] accessor is a functional update
      ([with_...]).
    - [Event], [Observer]: [runtime/event.rs], [runtime/observer.rs].
    - [Stage], [Dispatch], [Apply]: [runtime/stage.rs], [runtime/dispatch.rs],
      [runtime/apply.rs]: an authorized effect is staged by [dispatch] and
      committed by [apply_stage].
    - [Signature], [Wal]: [persist/signature.rs], [persist/wal.rs].
    - [Registry]: [state/traits.rs], [runtime/registry.rs]. The traits
      [Component], [Action], [Event] are classes; erasing an action's type
      gives an [ActionDyn], its [compute] with the value closed over.
    - [Step], [Kernel]: [runtime/kernel.rs]. [Step] holds [step_one_core], one
      pop of one instance (gate loop, commit or rollback); [Kernel] holds the
      kernel record, every public call, the signal router and the step loop.
    - [Queue]: the contract of the scheduler, a stable priority queue, and the
      proof that the three tables of [Scheduler] implement it.
    - [Spec], [Refinement]: the contract of the kernel, an abstract machine of
      queues and judged actions without indexes, ledger, stage or scratch, and
      the proof that the kernel computes it.
    - [Widths]: a predicate per type saying that its integers are in the range
      of their Rust types, behind the class [Typed], preserved by every
      operation.
    - [Budget], [Progress], [Isolation]: theorems about both: the byte budget
      and the limits of a session; what repeated rounds achieve; what one
      instance can see of the others.
    - [Codec], [Snapshot], [Replay]: [persist/snapshot.rs],
      [persist/replay.rs], and a concrete codec for every persisted type, on
      which the witnesses run.
    - [Acceptance]: what replay accepts, as relations on the kernel.
      [Recovery]: what is left of a log that lost its end. [Hostile]: what a
      log can do to the kernel that replays it.
    - [Macros]: [src/arkhe-macros/src/lib.rs].  [Dice]:
      [src/examples/dice/src/main.rs], a client of everything above.
    - [Durable]: the log of a session, through its bytes and back.
    - [Blake3], [Wire], [WireState], [TestKit]: the published BLAKE3, the
      [postcard] format of the log and of snapshots with the values each can
      hold, and signatures satisfying all assumed laws; none of it models code
      of the repository. On them [KernelTests], [WalTests], [ReplayTests],
      [StateTests], [RuntimeTests], [DiceTests]: the unit tests of the kernel,
      the derives and the dice example, run by evaluation: the model does what
      the authors of the code test, down to the bytes and digests they pin.

    How they interact: [step] walks the instances in key order and calls
    [process_instance_record], which runs [step_one_core], hands the staged
    events to the observers ([deliver]), routes the signals to other instances
    ([route_signal]) and, in [step], appends a [Step] record to the log.
    [replay_records] drives the same [submit_with_id] and
    [process_instance_record] from the records of a log, and re-seals each
    record with a keyless writer.

    ** What the theorems show

    Each property has a claim id C<n> in its doc comment, in order of
    importance.

    - Replay ([Replay]): the exported log of any session replays to the same
      instances and the same chain tip (C1, a simulation between the live
      kernel and the replaying one), through its bytes and back under formats
      that encode only what the Rust types hold (C4, [Durable]); replay of
      arbitrary records never panics (C9) and breaks no kernel whose queued
      ids the log does not repeat (C10), which it does otherwise (C39); which
      logs it accepts, and how it fails on the others (C11); and the same for
      the anchored entry point (C19), whose accepted log is the pinned one
      ([verified_replay_sound]); a forced unload between steps is the case
      replay cannot reproduce (C38). A log cut anywhere recovers the kernel of
      that moment (C12), and only an anchored replay can tell (C22).
    - Refinement ([Queue], [Refinement]): any session of calls computes what
      the abstract kernel specifies, results, events shown and log requests
      included (C3), one step the abstract turn (C16), and the scheduler is a
      stable queue (C8).
    - Sessions ([Kernel], [Widths], [Budget], [Progress]): no call panics and
      the kernel invariant is kept (C2); no integer leaves the range of its
      type (C13); entity and queue limits hold throughout, and the byte limit
      when no action removes a component twice (C14); a round executes one due
      action per instance in order and logs each (C17), and enough rounds
      without [SYSTEM] leave nothing due (C26); observers cannot influence
      state or log (C28); inboxes stay bounded and ordered, and in-flight
      counts are conserved until a forced unload (C29); an instance but its
      mailbox is a function of the calls addressed to it, whatever its
      neighbours do (C7). [submit_exact] and [force_unload_exact] state two
      calls on every branch.
    - One step ([Step], [Budget]): authority only narrows (C5), verdicts and
      counts are those of a reference judge of the operations (C15), denied
      and skipped actions leave no trace but the pop (C27), and the actions
      that defeat the byte budget (C37). [step_memory_budget], [step_quotas]
      and [step_safe] are the per-step forms of the session properties.
    - The log ([Wal], [Signature]): verification accepts exactly the valid
      chains (C20) and, anchored, exactly the pinned ones (C21); every
      writer's log verifies (C18), records what was asked
      ([writer_log_contents]) and re-seals without keys
      ([rebuild_reproduces_tip]); tampering is a hash collision (C6); its
      bytes are those of the repository ([wal_tests_pass] evaluates the pinned
      digests); the hybrid tier needs both signatures
      ([verify_hybrid_and_mode]); a failing PQC provider leaves a record with
      its Ed25519 signature alone, which verification refuses (C40).
    - Snapshots ([Snapshot]): they round-trip ([snapshot_roundtrip]), a
      session resumed from one runs on as the original (C24), every state of
      the machine widths that fits in memory encodes and its digest commits to
      it (C25, [WireState]), hostile bytes are caught (C32).
    - Tables: authorization ([authorize_spec]), the scheduler (C30, C31), the
      ledger (C33), observers and whom a panic evicts (C34), the registry
      ([registered_dispatch]) and quota reduction (C36,
      [quota_envelope_counterexamples]).
    - Clients ([Macros], [Dice]): what the derives accept and emit (C35); a
      roll ([roll_exact]), a session of rolls ([roll_n_exact]), and that the
      demo's comparison of the live run with its replay always succeeds (C23).

    The invariants: [sched_wf] (the three indexes of a scheduler agree),
    [ledger_closed] and [consistent] (entity, component and ledger tables
    describe the same rows), [inst_inv], [inbox_ok], [refs_conserved],
    collected by [kernel_inv]. The specifications the code refines:
    [valid_chain] for [verify_chain], [sched_wf] for [validate], [due_turns]
    for [step], [step_ends] (the ways a step can end) for [step_one_core], and
    the live kernel itself for [replay_into].

    ** Integers, loops, panics

    An unsigned integer is an [N]; every addition, subtraction, multiplication
    and cast of the code is the saturating or truncating operation of its
    width ([sat_add64], [as_u32], ...). Ids and counters saturate in the code,
    so statements about fresh ids say what happens at the maximum or assume
    the counter below it ([counters_ok], [unsaturated]). Every loop of the
    code is a fold or structural recursion over the collection it walks. The
    one definition with fuel is [drain_due], "pop until nothing is due"; its
    fuel is the number of queued rows plus one, and C31 proves that enough. A
    panic ([expect], [unreachable!], a panicking [compute]) is the value
    [Panicked], and totality theorems exclude it.

    ** What is assumed

    Code outside the repository is a class parameter: [Postcard] (encode and
    decode, either may fail), [Blake3], [SigSchemes] (Ed25519 and ML-DSA 65).
    Laws are separate classes that a theorem names: [PostcardTotal],
    [PostcardEncodes] (on the values of the Rust type), [PostcardRoundtrip],
    [PostcardInj], [Blake3Laws] (a digest has 32 bytes), [SigLaws] (fixed
    lengths, codecs that invert, an honestly produced signature verifies under
    the derived key). Witnesses instantiate them with concrete functions.
    [bitflags] masks are their documented bit operations. An action's
    [compute] is any function of its value and context into operations, or a
    panic; where it must return this is the hypothesis [computes_total], and
    where it must not look behind the public accessors of its context,
    [accessors_only]. An observer is any predicate of what was delivered so
    far, telling whether it panics.

    ** What is not modelled

    Lifetime brands ([state/scope.rs], the ['i] of [Effect]) exist at compile
    time only and are erased; module wiring; [zeroize] (no functional effect);
    benchmarks; of the tests, those that only state a trait bound, which hold
    by typing; the formal notes under [src/formal], which concern a sibling
    runtime. The token parser of [syn] is outside the repository: the macros
    are modelled from what it hands to their closure. Debug assertions are
    those of a release build: absent; the dice example is modelled with
    overflow checks, and none ever fires.

    ** Possible extensions

    A bound on the digests two instances with equal private parts can reach;
    [crash_recovery] and [replay_exact] under [PostcardEncodes] as
    [exported_session_replays] is. *)
From stdpp Require Export base gmap list strings sorting.
From stdpp Require Export countable pretty.
From Stdlib Require Export Lia ZArith NArith.
From Stdlib Require Strings.String Strings.Byte.

(** ** Outcomes and results *)

(** A computation of the program either returns or panics ([expect],
    [unreachable!]); the message is the one of the panicking call. *)
Inductive Outcome (A : Type) : Type :=
  | Done (a : A)
  | Panicked (msg : string).
Arguments Done {A} a.
Arguments Panicked {A} msg.

(** Rust's [Result<A, E>], error type first so that [Result E] is a monad. *)
Inductive Result (E A : Type) : Type :=
  | Ok (a : A)
  | Err (e : E).
Arguments Ok {E A} a.
Arguments Err {E A} e.

#[global] Instance Outcome_ret : MRet Outcome := @Done.
#[global] Instance Outcome_bind : MBind Outcome := λ A B f o,
  match o with Done a => f a | Panicked m => Panicked m end.
#[global] Instance Result_ret {E} : MRet (Result E) := @Ok E.
#[global] Instance Result_bind {E} : MBind (Result E) := λ A B f r,
  match r with Ok a => f a | Err e => Err e end.

#[global] Instance Result_eq_dec {E A} `{EqDecision E, EqDecision A} : EqDecision (Result E A).
Proof. solve_decision. Defined.

(** [Option::expect]. *)
Definition expect {A} (msg : string) (o : option A) : Outcome A :=
  match o with Some a => Done a | None => Panicked msg end.

(** [Option::ok_or]. *)
Definition ok_or {E A} (e : E) (o : option A) : Result E A :=
  match o with Some a => Ok a | None => Err e end.

(** [Result::map_err]. *)
Definition map_err {E F A} (f : E → F) (r : Result E A) : Result F A :=
  match r with Ok a => Ok a | Err e => Err (f e) end.

Definition is_ok {E A} (r : Result E A) : bool :=
  match r with Ok _ => true | Err _ => false end.

(** A loop whose body may panic: [for x in l { s = f(s, x) }]. *)
Fixpoint fold_outcome {A S} (f : S → A → Outcome S) (s : S) (l : list A) : Outcome S :=
  match l with
  | [] => Done s
  | x :: l' => s' ← f s x; fold_outcome f s' l'
  end.

(** A loop whose body may return early with an error. *)
Fixpoint fold_result {E A S} (f : S → A → Result E S) (s : S) (l : list A) : Result E S :=
  match l with
  | [] => Ok s
  | x :: l' => s' ← f s x; fold_result f s' l'
  end.

(** ** Machine integers *)

(** Unsigned integers are [N]; the width shows where the code saturates. *)
Definition U32_MAX : N := 4294967295.
Definition U64_MAX : N := 18446744073709551615.
Definition U128_MAX : N := 340282366920938463463374607431768211455.

Definition sat_add32 (a b : N) : N := N.min (a + b) U32_MAX.
Definition sat_add64 (a b : N) : N := N.min (a + b) U64_MAX.
Definition sat_add128 (a b : N) : N := N.min (a + b) U128_MAX.
Definition sat_mul128 (a b : N) : N := N.min (a * b) U128_MAX.
(** Subtraction on [N] truncates at zero, as [saturating_sub] does. *)
Definition sat_sub (a b : N) : N := (a - b)%N.
(** The cast [x as u32]. *)
Definition as_u32 (a : N) : N := (a mod 4294967296)%N.
(** The cast [x as u64]. *)
Definition as_u64 (a : N) : N := (a mod 18446744073709551616)%N.

(** [NonZeroU64::new]: a non-zero integer is a [positive]. *)
Definition NonZero_new (v : N) : option positive :=
  match v with N0 => None | Npos p => Some p end.

(** [len()] of a collection, as an unsigned integer. *)
Definition len {A} (l : list A) : N := N.of_nat (length l).

(** ** Bytes *)

Abbreviation byte := Byte.byte.
Abbreviation bytes := (list Byte.byte).

#[global] Instance byte_eq_dec : EqDecision byte := Byte.byte_eq_dec.

#[global] Instance byte_countable : Countable byte.
Proof. apply (inj_countable Byte.to_N Byte.of_N). apply Byte.of_to_N. Defined.

(** [\[0u8; 32\]]. *)
Definition zero32 : bytes := replicate 32 Byte.x00.

(** ASCII text as bytes (a Rust byte-string literal). *)
Definition byte_str (s : string) : bytes := String.list_byte_of_string s.

(** ** Ordered maps *)

Lemma StronglySorted_filter {A} (R : relation A) (P : A → Prop) `{∀ x, Decision (P x)} (l : list A) :
  StronglySorted R l → StronglySorted R (filter P l).
Proof.
  induction 1 as [|x l Hl IH Hx]; [constructor|]. rewrite filter_cons. destruct (decide (P x)); [|done].
  constructor; [done|]. apply Forall_forall. intros y [_ Hy]%list_elem_of_filter.
  rewrite Forall_forall in Hx. by apply Hx.
Qed.

(** The keys of a [BTreeMap] carry a total order; iteration is ascending. *)
Class BTreeKey (K : Type) `{Countable K} := {
  key_le : relation K;
  key_le_dec :: RelDecision key_le;
  key_le_trans : Transitive key_le;
  key_le_total : ∀ x y, key_le x y ∨ key_le y x;
  key_le_antisymm : ∀ x y, key_le x y → key_le y x → x = y
}.

#[global] Instance N_BTreeKey : BTreeKey N.
Proof. refine {| key_le := N.le |}; intros; lia. Defined.

#[global] Instance positive_BTreeKey : BTreeKey positive.
Proof. refine {| key_le := Pos.le |}; intros; lia. Defined.

Definition pair_le (x y : positive * N) : Prop :=
  (x.1 < y.1)%positive ∨ (x.1 = y.1 ∧ (x.2 ≤ y.2)%N).
#[global] Instance pair_le_dec : RelDecision pair_le.
Proof. intros x y; unfold pair_le; apply _. Defined.
#[global] Instance pair_BTreeKey : BTreeKey (positive * N).
Proof.
  refine {| key_le := pair_le |}; unfold pair_le.
  - intros [] [] []; simpl; intuition (subst; auto; lia).
  - intros [] []; simpl; lia.
  - intros [] []; simpl; intros; f_equal; lia.
Defined.

Section btree.
Context `{BTreeKey K} {A : Type}.
Implicit Types m : gmap K A.

Definition entry_le (x y : K * A) : Prop := key_le x.1 y.1.
#[global] Instance entry_le_dec : RelDecision entry_le.
Proof. intros x y; unfold entry_le; apply _. Defined.

(** [BTreeMap::iter]: the rows in ascending key order. *)
Definition btree_iter m : list (K * A) := merge_sort entry_le (map_to_list m).
(** [BTreeMap::keys]. *)
Definition btree_keys m : list K := (btree_iter m).*1.
(** [BTreeMap::values]. *)
Definition btree_values m : list A := (btree_iter m).*2.
(** [BTreeMap::first_key_value]. *)
Definition first_key_value m : option (K * A) := head (btree_iter m).

#[local] Instance entry_le_trans : Transitive entry_le.
Proof. intros x y z; unfold entry_le; apply key_le_trans. Qed.
#[local] Instance entry_le_total : Total entry_le.
Proof. intros x y; unfold entry_le; apply key_le_total. Qed.

Lemma btree_iter_perm m : btree_iter m ≡ₚ map_to_list m.
Proof. apply merge_sort_Permutation. Qed.

Lemma btree_iter_sorted m : StronglySorted entry_le (btree_iter m).
Proof. apply StronglySorted_merge_sort; apply _. Qed.

Lemma elem_of_btree_iter m k a : (k, a) ∈ btree_iter m ↔ m !! k = Some a.
Proof. by rewrite btree_iter_perm, elem_of_map_to_list. Qed.

Lemma elem_of_btree_keys m k : k ∈ btree_keys m ↔ is_Some (m !! k).
Proof.
  unfold btree_keys. rewrite list_elem_of_fmap. split.
  - intros ([k' a] & -> & Hin). apply elem_of_btree_iter in Hin. eauto.
  - intros [a Ha]. exists (k, a). by rewrite elem_of_btree_iter.
Qed.

Lemma elem_of_btree_values m a : a ∈ btree_values m ↔ ∃ k, m !! k = Some a.
Proof.
  unfold btree_values. rewrite list_elem_of_fmap. split.
  - intros ([k a'] & -> & Hin). exists k. by apply elem_of_btree_iter.
  - intros [k Ha]. exists (k, a). by rewrite elem_of_btree_iter.
Qed.

Lemma btree_keys_NoDup m : NoDup (btree_keys m).
Proof. unfold btree_keys. rewrite btree_iter_perm. apply NoDup_fst_map_to_list. Qed.

Lemma first_key_value_Some m k a :
  first_key_value m = Some (k, a) ↔
  m !! k = Some a ∧ ∀ k', is_Some (m !! k') → key_le k k'.
Proof.
  unfold first_key_value. pose proof (btree_iter_sorted m) as Hs.
  pose proof (elem_of_btree_iter m) as Hin.
  destruct (btree_iter m) as [|[k0 a0] l] eqn:E; simpl.
  - split; [done|]. intros [Hk _]. apply Hin in Hk. by apply elem_of_nil in Hk.
  - apply StronglySorted_inv in Hs as [_ Hmin]. rewrite List.Forall_forall in Hmin.
    assert (m !! k0 = Some a0) as Hk0 by (apply Hin; left).
    assert (∀ k', is_Some (m !! k') → key_le k0 k') as Hle.
    { intros k' [a' Ha']. apply Hin in Ha'.
      apply elem_of_cons in Ha' as [[= -> ->]|Ha'].
      - by destruct (key_le_total k0 k0).
      - apply list_elem_of_In in Ha'. apply (Hmin _ Ha'). }
    split; [by intros [= <- <-]|]. intros [Hk Hk'].
    assert (k0 = k) as -> by (apply key_le_antisymm; eauto). congruence.
Qed.

Lemma first_key_value_None m : first_key_value m = None ↔ m = ∅.
Proof.
  unfold first_key_value. pose proof (elem_of_btree_iter m) as Hin. split.
  - intros Hh. destruct (btree_iter m); [|done]. apply map_empty. intros k.
    destruct (m !! k) eqn:Hk; [|done]. apply Hin in Hk. by apply elem_of_nil in Hk.
  - intros ->. unfold btree_iter. by rewrite map_to_list_empty.
Qed.

(** The iteration is the only ascending list of the rows. *)
Lemma btree_iter_unique m l : StronglySorted entry_le l → l ≡ₚ map_to_list m → btree_iter m = l.
Proof.
  intros Hs Hp. apply (StronglySorted_unique_strong entry_le); [|apply btree_iter_sorted|done|by rewrite btree_iter_perm].
  intros [k1 a1] [k2 a2] H1 H2 H12 H21. rewrite Hp, elem_of_map_to_list in H2. apply elem_of_btree_iter in H1.
  assert (k1 = k2) as -> by (apply key_le_antisymm; [apply H12|apply H21]). congruence.
Qed.

(** Removing the first row leaves the rest of the iteration. *)
Lemma btree_iter_first m k a :
  first_key_value m = Some (k, a) → btree_iter m = (k, a) :: btree_iter (delete k m).
Proof.
  intros Hf. apply first_key_value_Some in Hf as [Hk Hmin]. apply btree_iter_unique.
  - constructor; [apply btree_iter_sorted|]. apply Forall_forall. intros [k' a'] Hin%elem_of_btree_iter.
    apply lookup_delete_Some in Hin as [_ Hin]. apply Hmin. eauto.
  - by rewrite btree_iter_perm, map_to_list_delete.
Qed.

(** Removing a row filters the iteration. *)
Lemma btree_iter_delete m k : btree_iter (delete k m) = filter (λ row, row.1 ≠ k) (btree_iter m).
Proof.
  apply btree_iter_unique.
  - apply StronglySorted_filter, btree_iter_sorted.
  - apply NoDup_Permutation; [|apply NoDup_map_to_list|].
    + apply NoDup_filter. rewrite btree_iter_perm. apply NoDup_map_to_list.
    + intros [k' a']. rewrite list_elem_of_filter, elem_of_btree_iter, elem_of_map_to_list, lookup_delete_Some.
      cbn. naive_solver.
Qed.

(** Insertion of a row into an ascending list. *)
Fixpoint row_insert (x : K * A) (l : list (K * A)) : list (K * A) :=
  match l with
  | [] => [x]
  | y :: l' => if decide (entry_le y x) then y :: row_insert x l' else x :: l
  end.

Lemma row_insert_perm x l : row_insert x l ≡ₚ x :: l.
Proof.
  induction l as [|y l IH]; cbn [row_insert]; [done|]. destruct (decide _); [|done].
  rewrite IH. constructor.
Qed.

Lemma row_insert_sorted x l : StronglySorted entry_le l → StronglySorted entry_le (row_insert x l).
Proof.
  induction 1 as [|y l Hl IH Hy]; cbn [row_insert]; [repeat constructor|].
  destruct (decide (entry_le y x)) as [Hle|Hnle].
  - constructor; [done|]. rewrite row_insert_perm. by constructor.
  - assert (entry_le x y) as Hxy by (destruct (entry_le_total x y); done).
    constructor; [by constructor|]. constructor; [done|]. eapply Forall_impl; [exact Hy|].
    intros z Hz. by transitivity y.
Qed.

(** A fresh row goes to its place in the iteration. *)
Lemma btree_iter_insert m k a : m !! k = None → btree_iter (<[k := a]> m) = row_insert (k, a) (btree_iter m).
Proof.
  intros Hk. apply btree_iter_unique; [apply row_insert_sorted, btree_iter_sorted|].
  by rewrite row_insert_perm, btree_iter_perm, map_to_list_insert.
Qed.
End btree.

(** A [BTreeSet] iterates in ascending order. *)
Definition btree_set_iter `{BTreeKey K} (s : gset K) : list K := merge_sort key_le (elements s).

Lemma elem_of_btree_set_iter `{BTreeKey K} (s : gset K) k : k ∈ btree_set_iter s ↔ k ∈ s.
Proof. unfold btree_set_iter. by rewrite merge_sort_Permutation, elem_of_elements. Qed.

Lemma btree_set_iter_NoDup `{BTreeKey K} (s : gset K) : NoDup (btree_set_iter s).
Proof. unfold btree_set_iter. rewrite merge_sort_Permutation. apply NoDup_elements. Qed.

(** [range((id, TypeCode(0))..=(id, TypeCode(u32::MAX)))]: a [TypeCode] is a
    [u32], so the range is exactly the rows of [id]. *)
Definition range_of_entity {A} (id : positive) (m : gmap (positive * N) A) : list (positive * N * A) :=
  filter (λ kv, kv.1.1 = id) (btree_iter m).

Lemma elem_of_range_of_entity {A} (id : positive) (m : gmap (positive * N) A) (k : positive * N) (a : A) :
  (k, a) ∈ range_of_entity id m ↔ k.1 = id ∧ m !! k = Some a.
Proof. unfold range_of_entity. rewrite list_elem_of_filter, elem_of_btree_iter. done. Qed.

Lemma range_of_entity_NoDup {A} (id : positive) (m : gmap (positive * N) A) : NoDup (range_of_entity id m).*1.
Proof.
  unfold range_of_entity. pose proof (btree_keys_NoDup m) as Hnd. unfold btree_keys in Hnd.
  induction (btree_iter m) as [|[k a] l IH]; simpl in *; [constructor|].
  apply NoDup_cons in Hnd as [Hk Hnd]. rewrite filter_cons. case_decide; simpl; [|auto].
  constructor; [|auto]. contradict Hk. apply list_elem_of_fmap in Hk as ([k' a'] & Heq & Hin).
  apply list_elem_of_filter in Hin as [_ Hin]. apply list_elem_of_fmap. eauto.
Qed.

(** ** Sums over maps *)

Definition map_sum `{Countable K} (m : gmap K N) : N := map_fold (λ _ v acc, v + acc)%N 0%N m.

Lemma map_sum_empty `{Countable K} : map_sum (∅ : gmap K N) = 0%N.
Proof. done. Qed.

Lemma map_sum_insert `{Countable K} (m : gmap K N) k v :
  m !! k = None → map_sum (<[k:=v]> m) = (v + map_sum m)%N.
Proof. intros Hk. unfold map_sum. rewrite map_fold_insert_L; [done|intros; lia|done]. Qed.

Lemma map_sum_delete `{Countable K} (m : gmap K N) k v :
  m !! k = Some v → map_sum m = (v + map_sum (delete k m))%N.
Proof. intros Hk. unfold map_sum. rewrite (map_fold_delete_L _ _ k v m); [done|intros; lia|done]. Qed.

Lemma map_sum_delete_le `{Countable K} (m : gmap K N) k : (map_sum (delete k m) ≤ map_sum m)%N.
Proof.
  destruct (m !! k) as [v|] eqn:E; [rewrite (map_sum_delete m k v E); lia|].
  by rewrite delete_id.
Qed.

Lemma map_sum_replace `{Countable K} (m : gmap K N) k v :
  map_sum (<[k:=v]> m) = (v + map_sum (delete k m))%N.
Proof. rewrite <- insert_delete_eq. apply map_sum_insert, lookup_delete_eq. Qed.

(** The row a key gains or loses, present or not. *)
Lemma map_sum_insert_default `{Countable K} (m : gmap K N) k v :
  (map_sum (<[k:=v]> m) + default 0 (m !! k) = v + map_sum m)%N.
Proof.
  rewrite map_sum_replace. destruct (m !! k) as [w|] eqn:E; cbn [default from_option].
  - rewrite (map_sum_delete m k w E). unfold id. lia.
  - rewrite delete_id by done. lia.
Qed.

(** Pointwise order, an absent row counting as zero. *)
Lemma map_sum_mono `{Countable K} (m1 m2 : gmap K N) :
  (∀ k, default 0 (m1 !! k) ≤ default 0 (m2 !! k))%N → (map_sum m1 ≤ map_sum m2)%N.
Proof.
  revert m2. induction m1 as [|k v m1 Hk IH] using map_ind; intros m2 Hle; [rewrite map_sum_empty; lia|].
  rewrite map_sum_insert by done. pose proof (Hle k) as Hv. rewrite lookup_insert_eq in Hv. cbn in Hv.
  assert (map_sum m1 ≤ map_sum (delete k m2))%N as Hs.
  { apply IH. intros k'. destruct (decide (k' = k)) as [->|Hne]; [rewrite Hk; cbn; lia|].
    specialize (Hle k'). rewrite lookup_insert_ne in Hle by done. by rewrite lookup_delete_ne. }
  destruct (m2 !! k) as [w|] eqn:E; cbn in Hv.
  - rewrite (map_sum_delete m2 k w E). unfold id in Hv. lia.
  - rewrite delete_id in Hs by done. lia.
Qed.

(** ** Shared lemmas *)

Lemma bind_Done {A B} (f : A → Outcome B) (o : Outcome A) b :
  o ≫= f = Done b ↔ ∃ a, o = Done a ∧ f a = Done b.
Proof.
  destruct o as [a|m]; simpl; [|by split; [done|intros (? & ? & ?)]].
  split; [eauto|]. by intros (? & [= <-] & ?).
Qed.

Lemma bind_Ok {E A B} (f : A → Result E B) (r : Result E A) b :
  r ≫= f = Ok b ↔ ∃ a, r = Ok a ∧ f a = Ok b.
Proof.
  destruct r as [a|e]; simpl; [|by split; [done|intros (? & ? & ?)]].
  split; [eauto|]. by intros (? & [= <-] & ?).
Qed.

Lemma expect_Done {A} msg (o : option A) a : expect msg o = Done a ↔ o = Some a.
Proof. destruct o; simpl; naive_solver. Qed.

Lemma map_err_Ok {E F A} (f : E → F) (r : Result E A) a : map_err f r = Ok a ↔ r = Ok a.
Proof. destruct r; simpl; naive_solver. Qed.

Lemma ok_or_Ok {E A} (e : E) (o : option A) a : ok_or e o = Ok a ↔ o = Some a.
Proof. destruct o; simpl; naive_solver. Qed.

Lemma fold_outcome_app {A S} (f : S → A → Outcome S) s l1 l2 :
  fold_outcome f s (l1 ++ l2) = (s' ← fold_outcome f s l1; fold_outcome f s' l2).
Proof. revert s. induction l1 as [|x l1 IH]; intros s; simpl; [done|]. destruct (f s x); simpl; auto. Qed.

Lemma fold_result_app {E A S} (f : S → A → Result E S) s l1 l2 :
  fold_result f s (l1 ++ l2) = (s' ← fold_result f s l1; fold_result f s' l2).
Proof. revert s. induction l1 as [|x l1 IH]; intros s; simpl; [done|]. destruct (f s x); simpl; auto. Qed.

(** A checking loop passes when every element passes. *)
Lemma fold_result_check {E A} (f : A → Result E unit) (l : list A) :
  fold_result (λ _ x, f x) () l = Ok () ↔ ∀ x, x ∈ l → f x = Ok ().
Proof.
  induction l as [|y l IH]; simpl.
  - split; [|done]. intros _ x Hx. by apply elem_of_nil in Hx.
  - split.
    + intros ([] & Hy & Hl)%bind_Ok x [->|Hx]%elem_of_cons; [done|]. by apply IH.
    + intros Hall. rewrite (Hall y) by left. simpl. apply IH. intros x Hx. apply Hall. by right.
Qed.

(** Invariant rule for panicking loops. *)
Lemma fold_outcome_inv {A S} (P : S → Prop) (f : S → A → Outcome S) s l s' :
  P s → (∀ s x s', x ∈ l → P s → f s x = Done s' → P s') →
  fold_outcome f s l = Done s' → P s'.
Proof.
  revert s. induction l as [|x l IH]; simpl; intros s Hs Hf Hl; [by simplify_eq|].
  apply bind_Done in Hl as (s1 & H1 & H2). eapply IH; [| |done].
  - eapply Hf; [left|done..].
  - intros; eapply Hf; [by right|done..].
Qed.

(** Progress rule: a loop whose body never panics under [P] does not panic. *)
Lemma fold_outcome_total {A S} (P : S → Prop) (f : S → A → Outcome S) s l :
  P s → (∀ s x, x ∈ l → P s → ∃ s', f s x = Done s' ∧ P s') →
  ∃ s', fold_outcome f s l = Done s' ∧ P s'.
Proof.
  revert s. induction l as [|x l IH]; simpl; intros s Hs Hf; [eauto|].
  destruct (Hf s x ltac:(left) Hs) as (s1 & H1 & HP). rewrite H1; simpl.
  apply IH; [done|]. intros; apply Hf; [by right|done].
Qed.

Lemma filter_none {A} (P : A → Prop) `{∀ x, Decision (P x)} (l : list A) :
  (∀ x, x ∈ l → ¬ P x) → filter P l = [].
Proof.
  induction l as [|x l IH]; intros Hn; [done|]. rewrite filter_cons.
  rewrite decide_False by (apply Hn; left). apply IH. intros y Hy. apply Hn. by right.
Qed.

Lemma filter_all {A} (P : A → Prop) `{∀ x, Decision (P x)} (l : list A) :
  (∀ x, x ∈ l → P x) → filter P l = l.
Proof.
  induction l as [|x l IH]; intros Ha; [done|]. rewrite filter_cons.
  rewrite decide_True by (apply Ha; left). f_equal. apply IH. intros y Hy. apply Ha. by right.
Qed.

Lemma filter_fmap_list {A B} (f : A → B) (P : B → Prop) `{∀ x, Decision (P x)} (l : list A) :
  filter P (f <$> l) = f <$> filter (λ x, P (f x)) l.
Proof.
  induction l as [|x l IH]; [done|]. rewrite fmap_cons, !filter_cons, IH. by destruct (decide (P (f x))).
Qed.

Lemma filter_ext_in {A} (P Q : A → Prop) `{∀ x, Decision (P x), ∀ x, Decision (Q x)} (l : list A) :
  (∀ x, x ∈ l → P x ↔ Q x) → filter P l = filter Q l.
Proof.
  induction l as [|x l IH]; intros Heq; [done|]. rewrite !filter_cons.
  rewrite IH by (intros y Hy; apply Heq; by right).
  pose proof (Heq x ltac:(left)). by destruct (decide (P x)), (decide (Q x)); try tauto.
Qed.

Lemma sat_succ_nonzero a : ∃ p, NonZero_new (sat_add64 a 1) = Some p ∧ Npos p = sat_add64 a 1.
Proof.
  assert (sat_add64 a 1 ≠ 0)%N by (unfold sat_add64, U64_MAX; lia).
  destruct (sat_add64 a 1) as [|p]; [done|]. by exists p.
Qed.

Lemma sat_add64_le a b : (a ≤ U64_MAX → a ≤ sat_add64 a b)%N.
Proof. unfold sat_add64. lia. Qed.

Lemma sat_add64_exact a b : (a + b ≤ U64_MAX → sat_add64 a b = a + b)%N.
Proof. unfold sat_add64. lia. Qed.

Lemma len_app {A} (l1 l2 : list A) : len (l1 ++ l2) = (len l1 + len l2)%N.
Proof. unfold len. rewrite length_app. lia. Qed.

Lemma len_cons {A} (x : A) l : len (x :: l) = (len l + 1)%N.
Proof. unfold len. simpl. lia. Qed.

(** ** Automation *)

Create HintDb arkhe discriminated.
Create Rewrite HintDb arkhe.
#[export] Hint Rewrite @bind_Done @bind_Ok @expect_Done @map_err_Ok @ok_or_Ok : arkhe.

(** Splits a hypothesis [H : (x ← o; k) = Done r] into the run of [o] and of
    the continuation. *)
Ltac inv_done H :=
  let a := fresh "a" in let H1 := fresh H in
  apply bind_Done in H as (a & H1 & H).

(** Case analysis on the scrutinee of the first [match] or [if] of the goal. *)
Ltac case_match_goal :=
  match goal with
  | |- context [match ?x with _ => _ end] => destruct x eqn:?
  end.

Ltac unfold_sat := unfold sat_add32, sat_add64, sat_add128, sat_sub, U32_MAX, U64_MAX, U128_MAX in *.
