(* ===== verification/Abi.v ===== *)
(** * ABI stratum: identifiers, principals, capability bits, errors

    Models [src/arkhe-kernel/src/abi/]. An identifier that wraps [NonZeroU64]
    is a [positive]: zero is unrepresentable, as in the source. The others
    wrap a plain integer. *)
From S2P Require Import Prelude.

(** ** Identifiers ([abi/ids.rs]) *)

Abbreviation InstanceId := positive (only parsing).
Abbreviation EntityId := positive (only parsing).
Abbreviation Tick := N (only parsing).
Abbreviation TypeCode := N (only parsing).
Abbreviation RouteId := N (only parsing).

(** [InstanceId::new], [InstanceId::get]. *)
Definition InstanceId_new (v : N) : option InstanceId := NonZero_new v.
Definition InstanceId_get (i : InstanceId) : N := Npos i.

(** [EntityId::new], [EntityId::get]. *)
Definition EntityId_new (v : N) : option EntityId := NonZero_new v.
Definition EntityId_get (e : EntityId) : N := Npos e.

(** [Tick::advance]. *)
Definition Tick_ZERO : Tick := 0%N.
Definition Tick_advance (t : Tick) (delta : N) : Tick := sat_add64 t delta.

(** ** Principals ([abi/principal.rs]) *)

Abbreviation ExternalId := N (only parsing).

Inductive Principal : Type :=
  | Unauthenticated
  | External (e : ExternalId)
  | System.

#[global] Instance Principal_eq_dec : EqDecision Principal.
Proof. solve_decision. Defined.

#[global] Instance Principal_countable : Countable Principal.
Proof.
  refine (inj_countable' (λ p, match p with Unauthenticated => inl (inl ()) | External e => inr e | System => inl (inr ()) end)
    (λ s, match s with inl (inl _) => Unauthenticated | inl (inr _) => System | inr e => External e end) _).
  by intros [].
Defined.

(** ** Capability bits ([abi/caps.rs]) *)

(** The [bitflags] type over [u64]: a mask is its bits. *)
Abbreviation CapabilityMask := N (only parsing).

Definition SYSTEM : CapabilityMask := N.shiftl 1 0.
Definition ADMIN_UNLOAD : CapabilityMask := N.shiftl 1 1.
Definition OBSERVER_REGISTER : CapabilityMask := N.shiftl 1 2.
Definition INTROSPECT : CapabilityMask := N.shiftl 1 3.

(** [empty], [all], [&], [contains]: every bit of [b] is a bit of [a]. *)
Definition caps_empty : CapabilityMask := 0%N.
Definition caps_all : CapabilityMask :=
  N.lor (N.lor SYSTEM ADMIN_UNLOAD) (N.lor OBSERVER_REGISTER INTROSPECT).
Definition caps_and (a b : CapabilityMask) : CapabilityMask := N.land a b.
Definition caps_contains (a b : CapabilityMask) : bool := bool_decide (N.land a b = b).

(** The order of authority: [a ⊑ b] when every bit of [a] is a bit of [b]. *)
Definition caps_le (a b : CapabilityMask) : Prop := N.land a b = a.
Infix "⊑c" := caps_le (at level 70).

#[global] Instance caps_le_dec a b : Decision (a ⊑c b).
Proof. unfold caps_le; apply _. Defined.

(** ** Errors ([abi/error.rs]) *)

Inductive ArkheError : Type :=
  | InstanceNotFound
  | CapabilityDenied
  | QuotaExceeded
  | DomainError (code : N) (payload : bytes).

#[global] Instance ArkheError_eq_dec : EqDecision ArkheError.
Proof. solve_decision. Defined.

(** [impl Display for ArkheError]. *)
Definition ArkheError_display (e : ArkheError) : string :=
  match e with
  | InstanceNotFound => "instance not found"
  | CapabilityDenied => "capability denied"
  | QuotaExceeded => "quota exceeded"
  | DomainError code payload =>
      "domain error: code=" +:+ pretty code +:+ " payload_len=" +:+ pretty (len payload)
  end%string.

(** ** Lemmas on capability masks *)

Lemma caps_contains_spec a b : caps_contains a b = true ↔ b ⊑c a.
Proof. unfold caps_contains, caps_le. rewrite bool_decide_eq_true. by rewrite N.land_comm. Qed.

Lemma caps_le_testbit a b : a ⊑c b ↔ ∀ n, N.testbit a n = true → N.testbit b n = true.
Proof.
  unfold caps_le. split.
  - intros H n Hn. rewrite <- H, N.land_spec in Hn. by apply andb_true_iff in Hn as [].
  - intros H. apply N.bits_inj. intros n. rewrite N.land_spec.
    destruct (N.testbit a n) eqn:E; [|done]. by rewrite (H n E).
Qed.

#[global] Instance caps_le_preorder : PreOrder caps_le.
Proof.
  split.
  - intros a. apply N.land_diag.
  - intros a b c. rewrite !caps_le_testbit. auto.
Qed.

Lemma caps_and_le_l a b : caps_and a b ⊑c a.
Proof. apply caps_le_testbit. intros n. unfold caps_and. rewrite N.land_spec. by intros [? ?]%andb_true_iff. Qed.

Lemma caps_and_le_r a b : caps_and a b ⊑c b.
Proof. apply caps_le_testbit. intros n. unfold caps_and. rewrite N.land_spec. by intros [? ?]%andb_true_iff. Qed.

Lemma caps_empty_le a : caps_empty ⊑c a.
Proof. done. Qed.

(** Monotonicity: enlarging both bounds enlarges the intersection. *)
#[global] Instance caps_and_mono : Proper (caps_le ==> caps_le ==> caps_le) caps_and.
Proof.
  intros a a' Ha b b' Hb. rewrite !caps_le_testbit in *. intros n. unfold caps_and.
  rewrite !N.land_spec, !andb_true_iff. intros [? ?]; auto.
Qed.

#[export] Hint Resolve caps_and_le_l caps_and_le_r caps_empty_le : arkhe.
#[export] Hint Rewrite caps_contains_spec : arkhe.
