(* ===== verification/Quota.v ===== *)
(** * Quota reduction

    Models [src/arkhe-kernel/src/state/quota.rs]: the policy enum and the
    deterministic algorithm [apply_quota_reduction]. Children come as the
    slice of [(InstanceId, usage)] pairs the code receives; the debug-build
    assertion that the slice is sorted is not part of the release semantics
    and no theorem below needs it. *)
From S2P Require Import Prelude Abi.

Local Open Scope N_scope.

Inductive QuotaReductionPolicy : Type :=
  | Reject
  | GrandfatherExisting
  | ThrottleProportional.

#[global] Instance QuotaReductionPolicy_eq_dec : EqDecision QuotaReductionPolicy.
Proof. solve_decision. Defined.

(** [#[default]]. *)
Definition QuotaReductionPolicy_default : QuotaReductionPolicy := Reject.

Inductive QuotaReductionError : Type :=
  | WouldViolateChildren (current_usage new_quota : N).

#[global] Instance QuotaReductionError_eq_dec : EqDecision QuotaReductionError.
Proof. solve_decision. Defined.

Definition QuotaReductionError_display (e : QuotaReductionError) : string :=
  match e with
  | WouldViolateChildren current_usage new_quota =>
      "quota reduction would violate children: current_usage=" +:+ pretty current_usage
      +:+ ", new_quota=" +:+ pretty new_quota
  end%string.

(** [children.iter().map(|(_, u)| *u).fold(0u64, u64::saturating_add)]. *)
Definition quota_current_total (children : list (InstanceId * N)) : N :=
  fold_left (λ acc c, sat_add64 acc c.2) children 0.

(** [(current as u128).saturating_mul(target) / total]. *)
Definition quota_scaled (total target current : N) : N := sat_mul128 current target / total.

(** The first throttle loop: scaled shares and the running [allocated]. *)
Definition throttle_scale (total target : N) (children : list (InstanceId * N))
    : list (InstanceId * N) * N :=
  fold_left
    (λ '(out, allocated) '(id, current),
       let scaled := quota_scaled total target current in
       let scaled_u64 := N.min scaled U64_MAX in
       (out ++ [(id, scaled_u64)], sat_add128 allocated scaled))
    children ([], 0).

(** The second throttle loop: [+1] per child until the remainder is spent. *)
Fixpoint throttle_distribute (remainder : N) (out : list (InstanceId * N)) : list (InstanceId * N) :=
  match out with
  | [] => []
  | (id, q) :: rest =>
      if decide (remainder = 0) then out
      else (id, sat_add64 q 1) :: throttle_distribute (remainder - 1) rest
  end.

Definition apply_quota_reduction (policy : QuotaReductionPolicy) (new_quota : N)
    (children : list (InstanceId * N)) : Result QuotaReductionError (list (InstanceId * N)) :=
  let current_total := quota_current_total children in
  match policy with
  | Reject =>
      if decide (new_quota < current_total)
      then Err (WouldViolateChildren current_total new_quota)
      else Ok children
  | GrandfatherExisting => Ok children
  | ThrottleProportional =>
      if decide (children = [] ∨ current_total = 0 ∨ current_total ≤ new_quota) then Ok children
      else
        let '(out, allocated) := throttle_scale current_total new_quota children in
        Ok (throttle_distribute (sat_sub new_quota allocated) out)
  end.

(** ** Sums *)

(** The exact sum of the shares (the mathematical total). *)
Definition quota_sum (l : list (InstanceId * N)) : N := foldr (λ c acc, c.2 + acc) 0 l.

Lemma quota_current_total_acc children acc :
  acc ≤ U64_MAX →
  fold_left (λ acc c, sat_add64 acc c.2) children acc = N.min (acc + quota_sum children) U64_MAX.
Proof.
  revert acc. induction children as [|c cs IH]; simpl; intros acc Hacc; [lia|].
  rewrite IH; unfold sat_add64; lia.
Qed.

Lemma quota_current_total_eq children :
  quota_current_total children = N.min (quota_sum children) U64_MAX.
Proof. unfold quota_current_total. rewrite quota_current_total_acc; [f_equal; lia|unfold U64_MAX; lia]. Qed.

Lemma quota_sum_app l1 l2 : quota_sum (l1 ++ l2) = quota_sum l1 + quota_sum l2.
Proof. induction l1 as [|c l1 IH]; simpl; [lia|]. rewrite IH. lia. Qed.

Definition quota_shares (total target : N) (children : list (InstanceId * N)) : list (InstanceId * N) :=
  (λ '(id, current), (id, current * target / total)) <$> children.

Lemma quota_share_le total target current :
  0 < total → target ≤ total → current * target / total ≤ current.
Proof. intros Ht Hle. apply N.Div0.div_le_upper_bound. nia. Qed.

Lemma quota_shares_fst total target children :
  (quota_shares total target children).*1 = children.*1.
Proof. unfold quota_shares. induction children as [|[id c] cs IH]; simpl; f_equal; auto. Qed.

Lemma quota_shares_sum_le total target children :
  0 < total → target ≤ total →
  quota_sum (quota_shares total target children) ≤ quota_sum children.
Proof.
  intros Ht Hle. induction children as [|[id c] cs IH]; simpl; [lia|].
  pose proof (quota_share_le total target c Ht Hle). lia.
Qed.

Lemma throttle_scale_acc total target children out allocated :
  0 < total → total ≤ U64_MAX → target ≤ total →
  allocated + quota_sum children ≤ U128_MAX → quota_sum children ≤ U64_MAX →
  fold_left
    (λ '(out, allocated) '(id, current),
       let scaled := quota_scaled total target current in
       let scaled_u64 := N.min scaled U64_MAX in
       (out ++ [(id, scaled_u64)], sat_add128 allocated scaled))
    children (out, allocated)
  = (out ++ quota_shares total target children,
     allocated + quota_sum (quota_shares total target children)).
Proof.
  intros Ht HtM Hle. revert out allocated.
  induction children as [|[id c] cs IH]; simpl; intros out allocated Hs Hc.
  { by rewrite app_nil_r, N.add_0_r. }
  pose proof (quota_share_le total target c Ht Hle).
  assert (quota_scaled total target c = c * target / total) as ->.
  { unfold quota_scaled, sat_mul128. f_equal. apply N.min_l.
    transitivity (U64_MAX * U64_MAX); [nia|]. unfold U64_MAX, U128_MAX. lia. }
  assert (sat_add128 allocated (c * target / total) = allocated + c * target / total) as ->
    by (unfold sat_add128; lia).
  rewrite N.min_l by lia. rewrite IH by lia. f_equal; [by rewrite <- app_assoc|lia].
Qed.

Lemma throttle_scale_eq total target children :
  0 < total → total ≤ U64_MAX → target ≤ total → quota_sum children ≤ U64_MAX →
  throttle_scale total target children
  = (quota_shares total target children, quota_sum (quota_shares total target children)).
Proof.
  intros. unfold throttle_scale. rewrite throttle_scale_acc; [done|auto..]. unfold_sat. lia.
Qed.

(** Floor division loses less than one unit per child. *)
Lemma quota_shares_defect total target children :
  0 < total →
  total * quota_sum (quota_shares total target children) ≤ quota_sum children * target ∧
  (children ≠ [] →
   quota_sum children * target < total * (quota_sum (quota_shares total target children) + len children)).
Proof.
  intros Ht. induction children as [|[id c] cs [IH1 IH2]]; simpl; [split; [lia|done]|].
  rewrite len_cons.
  pose proof (N.Div0.mul_div_le (c * target) total).
  pose proof (N.mul_succ_div_gt (c * target) total ltac:(lia)).
  set (d := c * target / total) in *.
  set (q := quota_sum (quota_shares total target cs)) in *.
  split; [nia|]. intros _.
  destruct cs as [|c' cs']; [simpl in *; subst q; simpl; nia|].
  specialize (IH2 ltac:(done)). nia.
Qed.

Lemma throttle_distribute_fst r out : (throttle_distribute r out).*1 = out.*1.
Proof.
  revert r. induction out as [|[id q] out IH]; simpl; intros r; [done|].
  case_decide; simpl; f_equal; auto.
Qed.

Lemma throttle_distribute_sum r out :
  r ≤ len out → Forall (λ c, c.2 < U64_MAX) out →
  quota_sum (throttle_distribute r out) = quota_sum out + r.
Proof.
  revert r. induction out as [|[id q] out IH]; simpl; intros r Hr Hall.
  { unfold len in Hr. simpl in Hr. lia. }
  rewrite len_cons in Hr. apply Forall_cons in Hall as [Hq Hall]. simpl in Hq.
  case_decide; simpl; [lia|]. rewrite IH by (auto; lia). unfold sat_add64. lia.
Qed.

(** Each distributed share is the floor share or one more. *)
Lemma throttle_distribute_near r out :
  Forall2 (λ c d, c.2 ≤ d.2 ≤ c.2 + 1 ∨ U64_MAX < c.2) out (throttle_distribute r out).
Proof.
  revert r. induction out as [|[id q] out IH]; simpl; intros r; [constructor|].
  case_decide.
  - constructor; [simpl; lia|]. clear. induction out; constructor; [lia|auto].
  - constructor; [|auto]. simpl. unfold sat_add64. lia.
Qed.

Lemma quota_sum_elem l c : c ∈ l → c.2 ≤ quota_sum l.
Proof. induction 1; simpl; lia. Qed.

(** The reducing branch, with the saturation side conditions discharged. *)
Lemma throttle_reduces new_quota children :
  quota_sum children ≤ U64_MAX → new_quota < quota_sum children →
  let shares := quota_shares (quota_sum children) new_quota children in
  let remainder := new_quota - quota_sum shares in
  apply_quota_reduction ThrottleProportional new_quota children
    = Ok (throttle_distribute remainder shares) ∧
  quota_sum shares + remainder = new_quota ∧ remainder < len children ∧
  Forall (λ c, c.2 < U64_MAX) shares.
Proof.
  intros Hs Hlt shares remainder.
  assert (quota_current_total children = quota_sum children) as Htot
    by (rewrite quota_current_total_eq; lia).
  assert (children ≠ []) as Hne by (intros ->; simpl in *; lia).
  destruct (quota_shares_defect (quota_sum children) new_quota children) as [Hd1 Hd2]; [lia|].
  specialize (Hd2 Hne). fold shares in Hd1, Hd2.
  repeat split.
  - unfold apply_quota_reduction. rewrite Htot. rewrite decide_False by (intros [?|[?|?]]; [done|lia|lia]).
    rewrite throttle_scale_eq by lia. done.
  - subst remainder. nia.
  - subst remainder. nia.
  - rewrite Forall_forall. intros [id q] Hin. simpl.
    pose proof (quota_sum_elem _ _ Hin) as Hq. simpl in Hq. nia.
Qed.

Lemma quota_share_succ_le total target current :
  target < total → 0 < current → current * target / total + 1 ≤ current.
Proof.
  intros Hlt Hc. assert (current * target / total < current); [|lia].
  apply N.Div0.div_lt_upper_bound. nia.
Qed.

Lemma quota_shares_near total target children r :
  target < total → total ≤ U64_MAX →
  quota_sum children ≤ U64_MAX →
  Forall2 (λ c o, c.2 * target / total ≤ o.2 ≤ c.2 * target / total + 1 ∧ (0 < c.2 → o.2 ≤ c.2))
    children (throttle_distribute r (quota_shares total target children)).
Proof.
  intros Hlt Hm. revert r. induction children as [|[id c] cs IH]; simpl; intros r Hs; [constructor|].
  pose proof (quota_share_le total target c ltac:(lia) ltac:(lia)).
  case_decide.
  - constructor.
    + simpl. split; [lia|]. lia.
    + clear -Hlt. induction cs as [|[id' c'] cs IH]; simpl; [constructor|].
      constructor; [|exact IH].
      pose proof (quota_share_le total target c' ltac:(lia) ltac:(lia)). simpl. lia.
  - constructor; [|apply IH; lia]. simpl. split; [unfold sat_add64; lia|]. intros Hc.
    pose proof (quota_share_succ_le total target c Hlt Hc). unfold sat_add64. lia.
Qed.

(** ** Properties *)

(** C36: the reduction on every policy, for usages that sum within [u64].
    [Reject] accepts exactly when the usages fit the new quota, unchanged, and
    otherwise reports their sum; [GrandfatherExisting] passes them through; so
    does [ThrottleProportional] when nothing has to be reduced. A genuine
    throttling hands out exactly [new_quota]: children keep their order and
    ids, every share is the floor share or one more, and a child with live
    usage never gets more than it used. *)
Theorem apply_quota_reduction_exact policy new_quota children :
  quota_sum children ≤ U64_MAX →
  let total := quota_sum children in
  match policy with
  | Reject => apply_quota_reduction Reject new_quota children =
      (if decide (new_quota < total) then Err (WouldViolateChildren total new_quota) else Ok children)
  | GrandfatherExisting => apply_quota_reduction GrandfatherExisting new_quota children = Ok children
  | ThrottleProportional =>
      (total ≤ new_quota → apply_quota_reduction ThrottleProportional new_quota children = Ok children) ∧
      (new_quota < total →
       ∃ out, apply_quota_reduction ThrottleProportional new_quota children = Ok out ∧
         out.*1 = children.*1 ∧ quota_sum out = new_quota ∧
         Forall2 (λ c o, c.2 * new_quota / total ≤ o.2 ≤ c.2 * new_quota / total + 1 ∧ (0 < c.2 → o.2 ≤ c.2))
           children out)
  end.
Proof.
  intros Hs total. destruct policy.
  1,2: unfold apply_quota_reduction; by rewrite ?quota_current_total_eq, ?N.min_l by done.
  split.
  - intros Hle. unfold apply_quota_reduction. rewrite quota_current_total_eq, N.min_l by done.
    by rewrite decide_True by auto.
  - intros Hlt. destruct (throttle_reduces new_quota children Hs Hlt) as (Hr & Hsum & Hrem & Hall).
    eexists. split; [exact Hr|]. repeat split.
    + by rewrite throttle_distribute_fst, quota_shares_fst.
    + rewrite throttle_distribute_sum; [done| |done]. unfold len, quota_shares in *. rewrite length_fmap. lia.
    + apply quota_shares_near; [done|lia|done].
Qed.

Lemma apply_quota_reduction_exact_witness :
  ∃ out, apply_quota_reduction ThrottleProportional 100 [(1%positive, 100); (2%positive, 100); (3%positive, 100)] = Ok out
    ∧ quota_sum out = 100.
Proof.
  destruct (proj2 (apply_quota_reduction_exact ThrottleProportional 100
    [(1%positive, 100); (2%positive, 100); (3%positive, 100)] ltac:(vm_compute; discriminate)))
    as (out & H1 & _ & H2 & _); [vm_compute; reflexivity|].
  exists out. split; assumption.
Defined.

(** Two inputs on which the algorithm leaves its documented envelope.
    The remainder is handed out by position alone, so a child whose usage is
    zero is inflated above its current usage; and since the total is a
    saturating fold, usages whose sum exceeds [u64::MAX] pass [Reject] and a
    throttled allocation can sum to twice the quota. *)
Theorem quota_envelope_counterexamples :
  apply_quota_reduction ThrottleProportional 5 [(1%positive, 0); (2%positive, 3); (3%positive, 3)]
    = Ok [(1%positive, 1); (2%positive, 2); (3%positive, 2)] ∧
  apply_quota_reduction Reject U64_MAX [(1%positive, U64_MAX); (2%positive, U64_MAX)]
    = Ok [(1%positive, U64_MAX); (2%positive, U64_MAX)] ∧
  apply_quota_reduction ThrottleProportional (U64_MAX - 1) [(1%positive, U64_MAX); (2%positive, U64_MAX)]
    = Ok [(1%positive, U64_MAX - 1); (2%positive, U64_MAX - 1)].
Proof. repeat split; vm_compute; reflexivity. Qed.
