(* ===== verification/Authz.v ===== *)
(** * Operations and authorization

    Models [src/arkhe-kernel/src/state/op.rs] (the [Op] intents an action
    returns) and [src/arkhe-kernel/src/state/authz.rs] (the capability
    resolution and the authorization gate). The lifetime brand and the
    phantom authorization state of [Effect] are type-level: [Effect] is
    indexed by its [AuthState], so that only [authorize] yields an
    [Authorized] effect. *)
From S2P Require Import Prelude Abi.

(** ** [Op] ([state/op.rs]) *)

Inductive Op : Type :=
  | SpawnEntity (id : EntityId) (owner : Principal)
  | DespawnEntity (id : EntityId)
  | SetComponent (entity : EntityId) (type_code : TypeCode) (bs : bytes) (size : N)
  | RemoveComponent (entity : EntityId) (type_code : TypeCode) (size : N)
  | EmitEvent (actor : option EntityId) (event_type_code : TypeCode) (event_bytes : bytes)
  | ScheduleAction (at_ : Tick) (actor : option EntityId) (action_type_code : TypeCode)
      (action_bytes : bytes)
  | SendSignal (target : InstanceId) (route : RouteId) (payload : bytes).

(** ** [Effect] ([state/authz.rs]) *)

Inductive AuthState : Type := Unverified | Authorized.

Record Effect (S : AuthState) : Type := mkEffect {
  eff_instance_id : InstanceId;
  eff_principal : Principal;
  eff_op : Op
}.
Arguments mkEffect {S} _ _ _.
Arguments eff_instance_id {S} _.
Arguments eff_principal {S} _.
Arguments eff_op {S} _.

(** [Effect::new]. *)
Definition Effect_new (instance_id : InstanceId) (principal : Principal) (op : Op)
    : Effect Unverified := mkEffect instance_id principal op.

(** [InstanceScope] ([state/scope.rs]): as for [Effect], the lifetime brand is
    a compile-time mark and erased here. *)
Record InstanceScope : Type := new_for_skeleton { scope_instance_id : InstanceId }.

Inductive DenyReason : Type :=
  | DR_CapabilityDenied
  | DR_InstanceMismatch
  | DR_OperationRestricted
  | DR_NotImplemented.

Definition DenyReason_display (r : DenyReason) : string :=
  match r with
  | DR_CapabilityDenied => "capability denied"
  | DR_InstanceMismatch => "instance mismatch"
  | DR_OperationRestricted => "operation restricted"
  | DR_NotImplemented => "authorize not implemented"
  end.

(** [effective_caps]. *)
Definition effective_caps (default_caps : CapabilityMask) (principal : Principal)
    (ceiling : CapabilityMask) : CapabilityMask :=
  match principal with
  | System | External _ => caps_and default_caps ceiling
  | Unauthenticated => caps_empty
  end.

(** [match_op_cap]. *)
Definition match_op_cap (op : Op) (caps : CapabilityMask) : bool :=
  match op with
  | SpawnEntity _ _ | DespawnEntity _ | SetComponent _ _ _ _
  | RemoveComponent _ _ _ | EmitEvent _ _ _ => true
  | ScheduleAction _ _ _ _ | SendSignal _ _ _ => caps_contains caps SYSTEM
  end.

(** [authorize]. *)
Definition authorize (caps : CapabilityMask) (effect : Effect Unverified)
    : Result DenyReason (Effect Authorized) :=
  let authorized := mkEffect (eff_instance_id effect) (eff_principal effect) (eff_op effect) in
  match eff_principal effect with
  | Unauthenticated => Err DR_CapabilityDenied
  | System | External _ =>
      if negb (caps_contains caps SYSTEM) && negb (match_op_cap (eff_op effect) caps)
      then Err DR_CapabilityDenied
      else Ok authorized
  end.

(** ** Lemmas *)

(** Operations that need the [SYSTEM] bit. *)
Definition op_privileged (op : Op) : bool :=
  match op with ScheduleAction _ _ _ _ | SendSignal _ _ _ => true | _ => false end.

Lemma effective_caps_le_ceiling d p c : effective_caps d p c ⊑c c.
Proof. destruct p; simpl; auto with arkhe. Qed.

Lemma effective_caps_le_default d p c : effective_caps d p c ⊑c d.
Proof. destruct p; simpl; auto with arkhe. Qed.

#[global] Instance effective_caps_mono d p : Proper (caps_le ==> caps_le) (effective_caps d p).
Proof. intros c c' Hc. destruct p; simpl; [done|by apply caps_and_mono..]. Qed.

#[export] Hint Resolve effective_caps_le_ceiling effective_caps_le_default : arkhe.

Lemma authorize_Ok caps e e' :
  authorize caps e = Ok e' →
  eff_instance_id e' = eff_instance_id e ∧ eff_principal e' = eff_principal e ∧
  eff_op e' = eff_op e ∧ eff_principal e ≠ Unauthenticated ∧
  (op_privileged (eff_op e) = true → SYSTEM ⊑c caps).
Proof.
  unfold authorize. destruct e as [i p op]; simpl.
  destruct p; simpl; [done|..];
    (destruct (caps_contains caps SYSTEM) eqn:Hs; simpl;
     [intros [= <-]; simpl; repeat split; try done; intros _; by apply caps_contains_spec|]);
    destruct op; simpl; rewrite ?Hs; simpl; intros [= <-]; simpl; repeat split; done.
Qed.

(** ** Properties *)

(** [authorize] on every branch. An effect is authorized exactly when its
    principal is authenticated and, for a scheduling or signalling operation,
    the capabilities hold [SYSTEM]; the authorized effect carries the same
    instance, principal and operation; every denial is [CapabilityDenied]. *)
Theorem authorize_spec caps instance principal op :
  authorize caps (Effect_new instance principal op)
  = if decide (principal ≠ Unauthenticated ∧ (op_privileged op = true → SYSTEM ⊑c caps))
    then Ok (mkEffect instance principal op)
    else Err DR_CapabilityDenied.
Proof.
  assert (caps_contains caps SYSTEM = true ↔ SYSTEM ⊑c caps) as Hs by apply caps_contains_spec.
  case_decide as Hd; unfold authorize, Effect_new; cbn [eff_instance_id eff_principal eff_op].
  - destruct Hd as [Hp Hop]. destruct principal; [done|..];
      destruct op; cbn [match_op_cap op_privileged] in *; destruct (caps_contains caps SYSTEM);
      try done; (assert (false = true) by (apply Hs, Hop; done); done).
  - destruct principal; [done|..]; destruct op; cbn [match_op_cap op_privileged] in *;
      destruct (caps_contains caps SYSTEM); try done;
      (destruct Hd; split; [done|]; intros Hop; first [discriminate Hop|by apply Hs]).
Qed.
