(* ===== verification/Ledger.v ===== *)
(** * Resource ledger

    Models [src/arkhe-kernel/src/state/ledger.rs]: per-component declared
    sizes, the set of known entities, and the cached byte total. *)
From S2P Require Import Prelude Abi.

Local Open Scope N_scope.

Record ResourceLedger : Type := mkLedger {
  led_entities : gset EntityId;
  component_sizes : gmap (EntityId * TypeCode) N;
  total_bytes : N
}.

(** [ResourceLedger::new]. *)
Definition ledger_new : ResourceLedger := mkLedger ∅ ∅ 0.

(** [total_entities]: the count, clamped to [u32]. *)
Definition total_entities (l : ResourceLedger) : N :=
  N.min (N.of_nat (size (led_entities l))) U32_MAX.

(** [component_size]. *)
Definition component_size (l : ResourceLedger) (entity : EntityId) (tc : TypeCode) : option N :=
  component_sizes l !! (entity, tc).

(** [entity_bytes]: saturating sum of the rows of [id]. *)
Definition entity_bytes (l : ResourceLedger) (id : EntityId) : N :=
  fold_left (λ acc kv, sat_add64 acc kv.2) (range_of_entity id (component_sizes l)) 0.

(** [type_count]. *)
Definition type_count (l : ResourceLedger) (tc : TypeCode) : N :=
  N.min (len (filter (λ k : EntityId * TypeCode, k.2 = tc) (btree_keys (component_sizes l)))) U32_MAX.

(** [add_entity]: [true] on a fresh insertion. *)
Definition ledger_add_entity (l : ResourceLedger) (id : EntityId) : bool * ResourceLedger :=
  (bool_decide (id ∉ led_entities l),
   mkLedger ({[id]} ∪ led_entities l) (component_sizes l) (total_bytes l)).

(** The cascade loop of [remove_entity]. *)
Definition ledger_drop_row (st : N * ResourceLedger) (k : EntityId * TypeCode) : N * ResourceLedger :=
  let '(freed, l) := st in
  match component_sizes l !! k with
  | Some size =>
      (sat_add64 freed size,
       mkLedger (led_entities l) (delete k (component_sizes l)) (sat_sub (total_bytes l) size))
  | None => (freed, l)
  end.

(** [remove_entity]: the freed bytes. *)
Definition ledger_remove_entity (l : ResourceLedger) (id : EntityId) : N * ResourceLedger :=
  if decide (id ∈ led_entities l) then
    let l1 := mkLedger (led_entities l ∖ {[id]}) (component_sizes l) (total_bytes l) in
    let keys := (range_of_entity id (component_sizes l1)).*1 in
    fold_left ledger_drop_row keys (0, l1)
  else (0, l).

(** [add_component]: attach or replace, adjusting the total by the delta. *)
Definition ledger_add_component (l : ResourceLedger) (entity : EntityId) (tc : TypeCode) (size : N)
    : bool * ResourceLedger :=
  if decide (entity ∈ led_entities l) then
    let sizes' := <[(entity, tc) := size]> (component_sizes l) in
    let total' :=
      match component_sizes l !! (entity, tc) with
      | Some old =>
          if decide (old ≤ size) then sat_add64 (total_bytes l) (size - old)
          else sat_sub (total_bytes l) (old - size)
      | None => sat_add64 (total_bytes l) size
      end in
    (true, mkLedger (led_entities l) sizes' total')
  else (false, l).

(** [remove_component]: the stored size is authoritative, [_size] is ignored. *)
Definition ledger_remove_component (l : ResourceLedger) (entity : EntityId) (tc : TypeCode) (_size : N)
    : bool * ResourceLedger :=
  if decide (entity ∈ led_entities l) then
    match component_sizes l !! (entity, tc) with
    | Some old =>
        (true, mkLedger (led_entities l) (delete (entity, tc) (component_sizes l))
                 (sat_sub (total_bytes l) old))
    | None => (true, l)
    end
  else (false, l).

(** ** Invariants *)

(** The rows belong to known entities. *)
Definition ledger_closed (l : ResourceLedger) : Prop :=
  ∀ k s, component_sizes l !! k = Some s → k.1 ∈ led_entities l.

(** The cache never exceeds the exact sum, nor the width of the counter. *)
Definition ledger_bounded (l : ResourceLedger) : Prop :=
  total_bytes l ≤ map_sum (component_sizes l) ∧ total_bytes l ≤ U64_MAX.

(** The cache is the exact sum. *)
Definition ledger_exact (l : ResourceLedger) : Prop :=
  total_bytes l = map_sum (component_sizes l).

(** ** The cascade *)

Lemma ledger_drop_rows keys freed l :
  NoDup keys → (∀ k, k ∈ keys → is_Some (component_sizes l !! k)) →
  ∃ dropped freed' l',
    fold_left ledger_drop_row keys (freed, l) = (freed', l') ∧
    led_entities l' = led_entities l ∧
    (∀ k, component_sizes l' !! k = if decide (k ∈ keys) then None else component_sizes l !! k) ∧
    map_sum (component_sizes l) = dropped + map_sum (component_sizes l') ∧
    total_bytes l' = total_bytes l - dropped ∧
    freed' = (if decide (freed ≤ U64_MAX) then N.min (freed + dropped) U64_MAX else freed').
Proof.
  revert freed l. induction keys as [|k keys IH]; cbn [fold_left]; intros freed l Hnd Hin.
  { exists 0, freed, l. split_and!; [done|done| |lia|lia|case_decide; lia].
    intros k. by rewrite decide_False by (intros Hn; by apply elem_of_nil in Hn). }
  apply NoDup_cons in Hnd as [Hk Hnd].
  destruct (Hin k ltac:(left)) as [s Hs]. unfold ledger_drop_row at 2. rewrite Hs.
  set (l1 := mkLedger _ _ _).
  destruct (IH (sat_add64 freed s) l1 Hnd) as (d & f' & l' & Hf & He & Hl & Hsum & Ht & Hfr).
  { intros k' Hk'. simpl. assert (k ≠ k') by (intros ->; contradiction). rewrite lookup_delete_ne by done. apply Hin, list_elem_of_further, Hk'. }
  exists (s + d), f', l'. split; [done|]. split; [done|]. split; [|split; [|split]].
  - intros k'. rewrite Hl. simpl. destruct (decide (k' = k)) as [->|Hne].
    + rewrite (decide_True (P := k ∈ k :: keys)) by left. rewrite lookup_delete_eq. by destruct (decide (k ∈ keys)).
    + rewrite lookup_delete_ne by done. apply decide_ext.
      rewrite elem_of_cons. clear -Hne. tauto.
  - simpl in Hsum. rewrite (map_sum_delete _ _ _ Hs). lia.
  - rewrite Ht. simpl. unfold sat_sub. lia.
  - rewrite Hfr. unfold sat_add64. repeat case_decide; lia.
Qed.

(** The whole of [remove_entity] on a known entity. *)
Lemma ledger_remove_entity_known l id :
  id ∈ led_entities l →
  ∃ dropped l',
    ledger_remove_entity l id = (N.min dropped U64_MAX, l') ∧
    led_entities l' = led_entities l ∖ {[id]} ∧
    (∀ k, component_sizes l' !! k = if decide (k.1 = id) then None else component_sizes l !! k) ∧
    map_sum (component_sizes l) = dropped + map_sum (component_sizes l') ∧
    total_bytes l' = total_bytes l - dropped.
Proof.
  intros Hid. unfold ledger_remove_entity. rewrite decide_True by done.
  destruct (ledger_drop_rows (range_of_entity id (component_sizes l)).*1 0
    (mkLedger (led_entities l ∖ {[id]}) (component_sizes l) (total_bytes l)))
    as (d & f & l' & Hf & He & Hl & Hsum & Ht & Hfr).
  - apply range_of_entity_NoDup.
  - simpl. intros k ([k' a] & -> & Hin)%list_elem_of_fmap.
    apply elem_of_range_of_entity in Hin as [_ Hin]. eauto.
  - exists d, l'. cbn [led_entities component_sizes total_bytes] in *. rewrite Hf. split; [|split; [done|split; [|done]]].
    + f_equal. rewrite Hfr. by rewrite decide_True by (unfold U64_MAX; lia).
    + intros k. rewrite Hl. destruct (decide (k.1 = id)) as [Hk|Hk].
      * destruct (decide (k ∈ _)) as [Hin|Hin]; [done|]. destruct (component_sizes l !! k) eqn:E; [|done].
        destruct Hin. apply list_elem_of_fmap. eexists (k, _). split; [done|].
        by apply elem_of_range_of_entity.
      * rewrite decide_False; [done|]. intros ([k' a] & -> & Hin)%list_elem_of_fmap.
        by apply elem_of_range_of_entity in Hin as [? _].
Qed.

Lemma ledger_remove_entity_unknown l id :
  id ∉ led_entities l → ledger_remove_entity l id = (0, l).
Proof. intros. unfold ledger_remove_entity. by rewrite decide_False. Qed.

Lemma fold_sat_add64 {A} (f : A → N) (l : list A) acc :
  acc ≤ U64_MAX →
  fold_left (λ acc x, sat_add64 acc (f x)) l acc = N.min (acc + foldr (λ x s, f x + s) 0 l) U64_MAX.
Proof.
  revert acc. induction l as [|x l IH]; simpl; intros acc Hacc; [lia|].
  rewrite IH; unfold sat_add64; lia.
Qed.

(** ** Preservation *)

Lemma ledger_new_closed : ledger_closed ledger_new.
Proof. intros k s. unfold ledger_new. cbn [component_sizes]. by rewrite lookup_empty. Qed.

Lemma ledger_new_bounded : ledger_bounded ledger_new.
Proof. unfold ledger_bounded, ledger_new, U64_MAX. cbn. lia. Qed.

Lemma ledger_add_component_known l e tc s :
  e ∈ led_entities l →
  led_entities (ledger_add_component l e tc s).2 = led_entities l ∧
  component_sizes (ledger_add_component l e tc s).2 = <[(e, tc) := s]> (component_sizes l).
Proof. intros He. unfold ledger_add_component. by rewrite decide_True. Qed.

Lemma ledger_remove_component_known l e tc s :
  e ∈ led_entities l →
  led_entities (ledger_remove_component l e tc s).2 = led_entities l ∧
  component_sizes (ledger_remove_component l e tc s).2 = delete (e, tc) (component_sizes l).
Proof.
  intros He. unfold ledger_remove_component. rewrite decide_True by done.
  destruct (component_sizes l !! (e, tc)) eqn:E; simpl; [done|]. by rewrite delete_id.
Qed.

Lemma ledger_add_entity_closed l id : ledger_closed l → ledger_closed (ledger_add_entity l id).2.
Proof. intros Hc k s Hk. simpl in *. apply elem_of_union_r. eauto. Qed.

Lemma ledger_add_component_closed l e tc s :
  ledger_closed l → ledger_closed (ledger_add_component l e tc s).2.
Proof.
  intros Hc. destruct (decide (e ∈ led_entities l)) as [He|He].
  - destruct (ledger_add_component_known l e tc s He) as [H1 H2]. intros k v.
    rewrite H1, H2. destruct (decide (k = (e, tc))) as [->|Hne]; [done|].
    rewrite lookup_insert_ne by done. apply Hc.
  - unfold ledger_add_component. by rewrite decide_False.
Qed.

Lemma ledger_remove_component_closed l e tc s :
  ledger_closed l → ledger_closed (ledger_remove_component l e tc s).2.
Proof.
  intros Hc. destruct (decide (e ∈ led_entities l)) as [He|He].
  - destruct (ledger_remove_component_known l e tc s He) as [H1 H2]. intros k v.
    rewrite H1, H2. intros [_ Hk]%lookup_delete_Some. eauto.
  - unfold ledger_remove_component. by rewrite decide_False.
Qed.

Lemma ledger_remove_entity_closed l id :
  ledger_closed l → ledger_closed (ledger_remove_entity l id).2.
Proof.
  intros Hc. destruct (decide (id ∈ led_entities l)) as [He|He].
  - destruct (ledger_remove_entity_known l id He) as (d & l' & Heq & H1 & H2 & _).
    rewrite Heq. intros k v Hk. simpl in *. rewrite H2 in Hk. rewrite H1.
    destruct (decide (k.1 = id)); [done|]. apply elem_of_difference. split; [eauto|].
    by rewrite elem_of_singleton.
  - by rewrite ledger_remove_entity_unknown.
Qed.

#[export] Hint Resolve ledger_add_entity_closed ledger_add_component_closed
  ledger_remove_component_closed ledger_remove_entity_closed : arkhe.

Lemma ledger_add_component_bounded l e tc s :
  ledger_bounded l → ledger_bounded (ledger_add_component l e tc s).2.
Proof.
  intros [H1 H2]. unfold ledger_bounded, ledger_add_component.
  destruct (decide (e ∈ led_entities l)); [|done]. cbn [snd component_sizes total_bytes].
  rewrite map_sum_replace. destruct (component_sizes l !! (e, tc)) as [old|] eqn:E.
  - rewrite (map_sum_delete _ _ _ E) in H1. destruct (decide (old ≤ s)); unfold_sat; lia.
  - rewrite delete_id by done. unfold_sat. lia.
Qed.

Lemma ledger_remove_component_bounded l e tc s :
  ledger_bounded l → ledger_bounded (ledger_remove_component l e tc s).2.
Proof.
  intros [H1 H2]. unfold ledger_bounded, ledger_remove_component.
  destruct (decide (e ∈ led_entities l)); [|done].
  destruct (component_sizes l !! (e, tc)) as [old|] eqn:E; [|done]. simpl.
  rewrite (map_sum_delete _ _ _ E) in H1. unfold_sat. lia.
Qed.

Lemma ledger_remove_entity_bounded l id :
  ledger_bounded l → ledger_bounded (ledger_remove_entity l id).2.
Proof.
  intros [H1 H2]. destruct (decide (id ∈ led_entities l)) as [He|He].
  - destruct (ledger_remove_entity_known l id He) as (d & l' & Heq & _ & _ & H3 & H4).
    rewrite Heq. unfold ledger_bounded. simpl. lia.
  - by rewrite ledger_remove_entity_unknown.
Qed.

#[export] Hint Resolve ledger_add_component_bounded ledger_remove_component_bounded
  ledger_remove_entity_bounded : arkhe.

(** An exact cache stays exact while the sum fits the counter. *)
Lemma ledger_add_component_exact l e tc s :
  ledger_exact l → map_sum (component_sizes (ledger_add_component l e tc s).2) ≤ U64_MAX →
  ledger_exact (ledger_add_component l e tc s).2.
Proof.
  unfold ledger_exact, ledger_add_component. intros Hx. destruct (decide (e ∈ led_entities l)); [|done].
  cbn [snd component_sizes total_bytes]. rewrite map_sum_replace.
  destruct (component_sizes l !! (e, tc)) as [old|] eqn:E.
  - rewrite (map_sum_delete _ _ _ E) in Hx. destruct (decide (old ≤ s)); unfold_sat; lia.
  - rewrite delete_id by done. unfold_sat. lia.
Qed.

Lemma ledger_remove_component_exact l e tc s :
  ledger_exact l → ledger_exact (ledger_remove_component l e tc s).2.
Proof.
  unfold ledger_exact, ledger_remove_component. intros Hx. destruct (decide (e ∈ led_entities l)); [|done].
  destruct (component_sizes l !! (e, tc)) as [old|] eqn:E; [|done]. cbn.
  rewrite (map_sum_delete _ _ _ E) in Hx. unfold_sat. lia.
Qed.

Lemma ledger_remove_entity_exact l id : ledger_exact l → ledger_exact (ledger_remove_entity l id).2.
Proof.
  unfold ledger_exact. intros Hx. destruct (decide (id ∈ led_entities l)) as [He|He].
  - destruct (ledger_remove_entity_known l id He) as (d & l' & -> & _ & _ & H3 & H4). cbn. lia.
  - by rewrite ledger_remove_entity_unknown.
Qed.

#[export] Hint Resolve ledger_add_component_exact ledger_remove_component_exact ledger_remove_entity_exact : arkhe.

(** [entity_bytes] is the clamped exact sum of the rows of the entity. *)
Lemma entity_bytes_dropped l id :
  id ∈ led_entities l → (ledger_remove_entity l id).1 = entity_bytes l id.
Proof.
  intros He. unfold ledger_remove_entity. rewrite decide_True by done.
  unfold entity_bytes. cbn [component_sizes].
  pose proof (range_of_entity_NoDup id (component_sizes l)) as Hnd.
  assert (∀ kv, kv ∈ range_of_entity id (component_sizes l) →
            component_sizes l !! kv.1 = Some kv.2) as Hin.
  { intros [k a] Hk. by apply elem_of_range_of_entity in Hk as [_ Hk]. }
  assert (∀ rows freed l0, NoDup rows.*1 →
    (∀ kv, kv ∈ rows → component_sizes l0 !! kv.1 = Some kv.2) →
    (fold_left ledger_drop_row rows.*1 (freed, l0)).1
    = fold_left (λ acc kv, sat_add64 acc kv.2) rows freed) as Hgen; [|by apply Hgen].
  clear. intros rows. induction rows as [|[k a] rows IH]; intros freed l0 Hnd Hin; [done|].
  cbn [fmap list_fmap fst snd fold_left] in *. apply NoDup_cons in Hnd as [Hk Hnd].
  pose proof (Hin (k, a) ltac:(left)) as Hka. cbn [fst snd] in Hka.
  unfold ledger_drop_row at 2. rewrite Hka. apply IH; [done|].
  intros [k' a'] Hin'. simpl. rewrite lookup_delete_ne; [by apply (Hin (k', a')); right|].
  intros <-. apply Hk. apply list_elem_of_fmap. eexists (k, a'). done.
Qed.

(** ** Properties *)

(** C33: the ledger is an exact account. While the declared sizes sum to at
    most [u64::MAX], every mutator keeps the cached total equal to the sum of
    the stored rows and every row attached to a known entity; the boolean a
    mutator returns is the membership test, and an operation on an unknown
    entity changes nothing. *)
Theorem ledger_total_exact l e tc size :
  ledger_closed l → ledger_exact l → map_sum (component_sizes l) ≤ U64_MAX →
  (let '(fresh, l') := ledger_add_entity l e in
     fresh = bool_decide (e ∉ led_entities l) ∧ ledger_closed l' ∧ ledger_exact l') ∧
  (let '(known, l') := ledger_add_component l e tc size in
     known = bool_decide (e ∈ led_entities l) ∧ ledger_closed l' ∧ (known = false → l' = l) ∧
     (known = true → component_size l' e tc = Some size) ∧
     (map_sum (component_sizes l') ≤ U64_MAX → ledger_exact l')) ∧
  (let '(known, l') := ledger_remove_component l e tc size in
     known = bool_decide (e ∈ led_entities l) ∧ ledger_closed l' ∧ (known = false → l' = l) ∧
     component_size l' e tc = None ∧ ledger_exact l') ∧
  (let '(freed, l') := ledger_remove_entity l e in
     ledger_closed l' ∧ ledger_exact l' ∧ total_bytes l = freed + total_bytes l').
Proof.
  intros Hc Hx Hm. unfold ledger_exact in *. split_and!.
  - simpl. split_and!; [done|by apply ledger_add_entity_closed|done].
  - pose proof (ledger_add_component_closed l e tc size Hc) as Hc'.
    unfold ledger_add_component in *. destruct (decide (e ∈ led_entities l)) as [He|He].
    + rewrite bool_decide_eq_true_2 by done. split_and!; [done|done|done| |].
      * intros _. unfold component_size. simpl. apply lookup_insert_eq.
      * pose proof (ledger_add_component_exact l e tc size Hx) as Hx'.
        unfold ledger_add_component in Hx'. by rewrite decide_True in Hx'.
    + by rewrite bool_decide_eq_false_2 by done.
  - pose proof (ledger_remove_component_closed l e tc size Hc) as Hc'.
    unfold ledger_remove_component in *. destruct (decide (e ∈ led_entities l)) as [He|He].
    + rewrite bool_decide_eq_true_2 by done.
      destruct (component_sizes l !! (e, tc)) as [old|] eqn:E; [|done]. simpl in *.
      split_and!; [done..| |].
      * unfold component_size. apply lookup_delete_eq.
      * rewrite (map_sum_delete _ _ _ E) in Hx. unfold_sat. lia.
    + rewrite bool_decide_eq_false_2 by done. split_and!; [done..| |done].
      unfold component_size. destruct (_ !! _) eqn:E; [|done]. by apply Hc in E.
  - pose proof (ledger_remove_entity_closed l e Hc) as Hc'.
    destruct (decide (e ∈ led_entities l)) as [He|He].
    + destruct (ledger_remove_entity_known l e He) as (d & l' & Heq & _ & _ & H3 & H4).
      rewrite Heq in *. simpl in *. split; [done|]. lia.
    + rewrite ledger_remove_entity_unknown in * by done. done.
Qed.

Lemma ledger_total_exact_witness :
  let l := (ledger_add_entity ledger_new 1%positive).2 in
  ledger_closed l ∧ ledger_exact (ledger_add_component l 1%positive 7 100).2.
Proof.
  intros l. assert (ledger_closed l) as Hc by (apply ledger_add_entity_closed, ledger_new_closed).
  split; [exact Hc|].
  destruct (ledger_total_exact l 1%positive 7 100 Hc eq_refl ltac:(vm_compute; discriminate))
    as (_ & H & _).
  destruct (ledger_add_component l 1%positive 7 100) as [known l'] eqn:E.
  destruct H as (_ & _ & _ & _ & H). apply H.
  vm_compute in E. injection E as _ <-. vm_compute. discriminate.
Defined.

(** Despawn cascades. Removing a known entity returns the bytes
    attributed to it, drops exactly its rows, leaves every other row and every
    other entity as they were, and a second removal is a no-op. *)
Theorem ledger_remove_entity_cascade l id :
  id ∈ led_entities l →
  let '(freed, l') := ledger_remove_entity l id in
  freed = entity_bytes l id ∧
  led_entities l' = led_entities l ∖ {[id]} ∧
  (∀ tc, component_size l' id tc = None) ∧ entity_bytes l' id = 0 ∧
  (∀ e tc, e ≠ id → component_size l' e tc = component_size l e tc) ∧
  ledger_remove_entity l' id = (0, l').
Proof.
  intros He. pose proof (entity_bytes_dropped l id He) as Hfreed.
  destruct (ledger_remove_entity_known l id He) as (d & l' & Heq & H1 & H2 & _).
  rewrite Heq in *. simpl in Hfreed. unfold component_size. split_and!; try done.
  - intros tc. rewrite H2. by rewrite decide_True.
  - unfold entity_bytes. destruct (range_of_entity id (component_sizes l')) as [|[k a] r] eqn:E; [done|].
    exfalso. assert ((k, a) ∈ range_of_entity id (component_sizes l')) as Hin by (rewrite E; left).
    apply elem_of_range_of_entity in Hin as [Hk Hl]. rewrite H2 in Hl.
    by rewrite decide_True in Hl.
  - intros e tc Hne. rewrite H2. by rewrite decide_False.
  - apply ledger_remove_entity_unknown. rewrite H1. set_solver.
Qed.

Lemma ledger_remove_entity_cascade_witness :
  let l := (ledger_add_component (ledger_add_entity ledger_new 3%positive).2 3%positive 7 100).2 in
  3%positive ∈ led_entities l ∧ entity_bytes (ledger_remove_entity l 3%positive).2 3%positive = 0.
Proof.
  intros l. assert (3%positive ∈ led_entities l) as H by (apply elem_of_union_l, elem_of_singleton_2; reflexivity).
  split; [exact H|]. pose proof (ledger_remove_entity_cascade l 3%positive H) as Hc.
  destruct (ledger_remove_entity l 3%positive) as [f l'].
  destruct Hc as (_ & _ & _ & H0 & _). exact H0.
Defined.
