(* ===== verification/Scheduler.v ===== *)
(** * Scheduler

    Models [src/arkhe-kernel/src/state/scheduler.rs]: the three tables
    [ready], [by_id], [by_actor] kept in lockstep, with immediate-remove
    cancellation. [expect] calls are outcomes that may panic. *)
From S2P Require Import Prelude Abi.

Local Open Scope N_scope.

Abbreviation ScheduledActionId := positive (only parsing).

(** [ScheduledActionId::new]. *)
Definition ScheduledActionId_new (v : N) : option ScheduledActionId := NonZero_new v.
Definition ScheduledActionId_get (i : ScheduledActionId) : N := Npos i.

(** ** Data *)

Record SchedKey : Type := mkSchedKey {
  key_at : Tick;
  key_seq : N;
  key_id : ScheduledActionId
}.

#[global] Instance SchedKey_eq_dec : EqDecision SchedKey.
Proof. solve_decision. Defined.
#[global] Instance SchedKey_countable : Countable SchedKey.
Proof.
  refine (inj_countable' (λ k, (key_at k, key_seq k, key_id k))
    (λ '(a, s, i), mkSchedKey a s i) _). by intros [].
Defined.

(** The derived [Ord] of [SchedKey]: tick, then sequence, then id. *)
Definition SchedKey_le (x y : SchedKey) : Prop :=
  key_at x < key_at y ∨
  (key_at x = key_at y ∧
   (key_seq x < key_seq y ∨ (key_seq x = key_seq y ∧ (key_id x ≤ key_id y)%positive))).
#[global] Instance SchedKey_le_dec : RelDecision SchedKey_le.
Proof. intros x y; unfold SchedKey_le; apply _. Defined.
#[global] Instance SchedKey_BTreeKey : BTreeKey SchedKey.
Proof.
  refine {| key_le := SchedKey_le |}; unfold SchedKey_le.
  - intros [] [] []; simpl; lia.
  - intros [] []; simpl; lia.
  - intros [] []; simpl; intros; f_equal; lia.
Defined.

Record ScheduledEntry : Type := mkEntry {
  se_id : ScheduledActionId;
  se_at : Tick;
  se_actor : option EntityId;
  se_principal : Principal;
  se_type_code : TypeCode;
  se_bytes : bytes;
  se_caps_ceiling : CapabilityMask
}.

Record Scheduler : Type := mkScheduler {
  ready : gmap SchedKey ScheduledEntry;
  by_id : gmap ScheduledActionId SchedKey;
  by_actor : gmap EntityId (gset ScheduledActionId);
  next_seq : N;
  next_id : N
}.

(** ** Operations *)

(** [Scheduler::new]. *)
Definition Scheduler_new : Scheduler := mkScheduler ∅ ∅ ∅ 0 0.

(** [len], [is_empty]. *)
Definition Scheduler_len (s : Scheduler) : N := N.of_nat (size (ready s)).
Definition Scheduler_is_empty (s : Scheduler) : bool := bool_decide (size (ready s) = 0%nat).

(** [self.by_actor.entry(actor).or_default().insert(id)] when an actor is set. *)
Definition by_actor_insert (actor : option EntityId) (id : ScheduledActionId)
    (m : gmap EntityId (gset ScheduledActionId)) : gmap EntityId (gset ScheduledActionId) :=
  match actor with
  | Some a => <[a := {[id]} ∪ default ∅ (m !! a)]> m
  | None => m
  end.

(** Dropping [id] from its actor's set, and the set once it is empty. *)
Definition by_actor_remove (actor : option EntityId) (id : ScheduledActionId)
    (m : gmap EntityId (gset ScheduledActionId)) : gmap EntityId (gset ScheduledActionId) :=
  match actor with
  | Some a =>
      match m !! a with
      | Some ids =>
          let ids' := ids ∖ {[id]} in
          if decide (ids' = ∅) then delete a m else <[a := ids']> m
      | None => m
      end
  | None => m
  end.

(** [schedule_with_id]: insert under a caller-provided id. *)
Definition schedule_with_id (s : Scheduler) (id : ScheduledActionId) (at_ : Tick)
    (actor : option EntityId) (principal : Principal) (caps_ceiling : CapabilityMask)
    (type_code : TypeCode) (bs : bytes) : Scheduler :=
  let next_id' := if decide (next_id s < ScheduledActionId_get id)
                  then ScheduledActionId_get id else next_id s in
  let seq := next_seq s in
  let key := mkSchedKey at_ seq id in
  let entry := mkEntry id at_ actor principal type_code bs caps_ceiling in
  mkScheduler
    (<[key := entry]> (ready s)) (<[id := key]> (by_id s)) (by_actor_insert actor id (by_actor s))
    (sat_add64 (next_seq s) 1) next_id'.

(** [schedule]: the auto-allocating form. *)
Definition schedule (s : Scheduler) (at_ : Tick) (actor : option EntityId) (principal : Principal)
    (caps_ceiling : CapabilityMask) (type_code : TypeCode) (bs : bytes)
    : Outcome (ScheduledActionId * Scheduler) :=
  let next_id' := sat_add64 (next_id s) 1 in
  id ← expect "next_id incremented before use; never zero" (ScheduledActionId_new next_id');
  let seq := next_seq s in
  let key := mkSchedKey at_ seq id in
  let entry := mkEntry id at_ actor principal type_code bs caps_ceiling in
  mret (id, mkScheduler
    (<[key := entry]> (ready s)) (<[id := key]> (by_id s)) (by_actor_insert actor id (by_actor s))
    (sat_add64 (next_seq s) 1) next_id').

(** [cancel]: three-table removal; [None] for an id that is not scheduled. *)
Definition cancel (s : Scheduler) (id : ScheduledActionId)
    : Outcome (option ScheduledEntry * Scheduler) :=
  match by_id s !! id with
  | None => mret (None, s)
  | Some key =>
      entry ← expect "ready/by_id consistency violated" (ready s !! key);
      mret (Some entry,
            mkScheduler (delete key (ready s)) (delete id (by_id s))
              (by_actor_remove (se_actor entry) id (by_actor s)) (next_seq s) (next_id s))
  end.

(** One turn of the [cancel_by_actor] loop. *)
Definition cancel_step (st : list ScheduledEntry * Scheduler) (id : ScheduledActionId)
    : list ScheduledEntry * Scheduler :=
  let '(cancelled, s) := st in
  match by_id s !! id with
  | None => (cancelled, s)
  | Some key =>
      let s1 := mkScheduler (ready s) (delete id (by_id s)) (by_actor s) (next_seq s) (next_id s) in
      match ready s !! key with
      | None => (cancelled, s1)
      | Some entry =>
          (cancelled ++ [entry],
           mkScheduler (delete key (ready s1)) (by_id s1) (by_actor s1) (next_seq s1) (next_id s1))
      end
  end.

(** [cancel_by_actor]. *)
Definition cancel_by_actor (s : Scheduler) (actor : EntityId) : list ScheduledEntry * Scheduler :=
  match by_actor s !! actor with
  | None => ([], s)
  | Some ids =>
      fold_left cancel_step (btree_set_iter ids)
        ([], mkScheduler (ready s) (by_id s) (delete actor (by_actor s)) (next_seq s) (next_id s))
  end.

(** [pop_due]: the earliest entry whose tick has come. *)
Definition pop_due (s : Scheduler) (now : Tick) : Outcome (option ScheduledEntry * Scheduler) :=
  match first_key_value (ready s) with
  | None => mret (None, s)
  | Some (key, _) =>
      if decide (now < key_at key) then mret (None, s)
      else
        entry ← expect "first_key_value just returned this key" (ready s !! key);
        mret (Some entry,
              mkScheduler (delete key (ready s)) (delete (se_id entry) (by_id s))
                (by_actor_remove (se_actor entry) (se_id entry) (by_actor s))
                (next_seq s) (next_id s))
  end.

(** ** Snapshot validation *)

Definition check (b : bool) (reason : string) : Result string unit :=
  if b then Ok () else Err reason.

Definition validate_ready_row (s : Scheduler) (row : SchedKey * ScheduledEntry) : Result string unit :=
  let '(key, entry) := row in
  _ ← check (bool_decide (se_id entry = key_id key)) "scheduler entry id does not match its key";
  check (bool_decide (by_id s !! se_id entry = Some key))
    "scheduler by_id does not map back to the ready key".

Definition validate_actor_id (s : Scheduler) (actor : EntityId) (id : ScheduledActionId)
    : Result string unit :=
  match by_id s !! id with
  | None => Err "scheduler by_actor references an unknown id"%string
  | Some key =>
      match ready s !! key with
      | Some entry => check (bool_decide (se_actor entry = Some actor)) "scheduler by_actor actor mismatch"
      | None => Err "scheduler by_actor actor mismatch"%string
      end
  end.

Definition validate_actor_row (s : Scheduler) (row : EntityId * gset ScheduledActionId)
    : Result string unit :=
  let '(actor, ids) := row in
  _ ← check (bool_decide (ids ≠ ∅)) "scheduler by_actor holds an empty actor set";
  fold_result (λ _ id, validate_actor_id s actor id) () (btree_set_iter ids).

Definition validate_entry_indexed (s : Scheduler) (entry : ScheduledEntry) : Result string unit :=
  match se_actor entry with
  | None => Ok ()
  | Some actor =>
      match by_actor s !! actor with
      | Some ids => check (bool_decide (se_id entry ∈ ids))
                      "scheduler ready entry missing from its by_actor index"
      | None => Err "scheduler ready entry missing from its by_actor index"%string
      end
  end.

Definition validate_counters (s : Scheduler) (key : SchedKey) : Result string unit :=
  _ ← check (bool_decide (key_seq key < next_seq s)) "scheduler next_seq not monotonic over live keys";
  check (bool_decide (ScheduledActionId_get (key_id key) ≤ next_id s))
    "scheduler next_id not monotonic over live ids".

(** [Scheduler::validate]. *)
Definition validate (s : Scheduler) : Result string unit :=
  _ ← check (bool_decide (size (ready s) = size (by_id s))) "scheduler ready/by_id size mismatch";
  _ ← fold_result (λ _ row, validate_ready_row s row) () (btree_iter (ready s));
  _ ← fold_result (λ _ row, validate_actor_row s row) () (btree_iter (by_actor s));
  _ ← fold_result (λ _ entry, validate_entry_indexed s entry) () (btree_values (ready s));
  fold_result (λ _ key, validate_counters s key) () (btree_keys (ready s)).

(** The client loop [while let Some(e) = s.pop_due(now) { out.push(e) }],
    with as many turns as the caller allows. *)
Fixpoint drain_due (fuel : nat) (s : Scheduler) (now : Tick) : Outcome (list ScheduledEntry * Scheduler) :=
  match fuel with
  | O => mret ([], s)
  | S fuel' =>
      r ← pop_due s now;
      match r with
      | (None, s') => mret ([], s')
      | (Some e, s') =>
          rest ← drain_due fuel' s' now;
          mret (e :: rest.1, rest.2)
      end
  end.

(** ** The lockstep invariant *)

Record sched_wf (s : Scheduler) : Prop := {
  wf_ready : ∀ key e, ready s !! key = Some e → se_id e = key_id key ∧ by_id s !! key_id key = Some key;
  wf_by_id : ∀ id key, by_id s !! id = Some key → is_Some (ready s !! key) ∧ key_id key = id;
  wf_actor : ∀ a ids, by_actor s !! a = Some ids →
    ids ≠ ∅ ∧ ∀ id, id ∈ ids → ∃ key e, by_id s !! id = Some key ∧ ready s !! key = Some e ∧ se_actor e = Some a;
  wf_indexed : ∀ key e a, ready s !! key = Some e → se_actor e = Some a →
    ∃ ids, by_actor s !! a = Some ids ∧ se_id e ∈ ids;
  wf_counters : ∀ key e, ready s !! key = Some e →
    key_seq key < next_seq s ∧ ScheduledActionId_get (key_id key) ≤ next_id s
}.

(** The removal that [cancel] and [pop_due] both perform. *)
Definition sched_remove (s : Scheduler) (key : SchedKey) (e : ScheduledEntry) : Scheduler :=
  mkScheduler (delete key (ready s)) (delete (se_id e) (by_id s))
    (by_actor_remove (se_actor e) (se_id e) (by_actor s)) (next_seq s) (next_id s).

Lemma by_actor_insert_lookup actor id m a :
  by_actor_insert actor id m !! a
  = if decide (actor = Some a) then Some ({[id]} ∪ default ∅ (m !! a)) else m !! a.
Proof.
  destruct actor as [a'|]; simpl; [|done]. destruct (decide (a' = a)) as [->|Hne].
  - rewrite lookup_insert_eq. by rewrite decide_True.
  - rewrite lookup_insert_ne by done. rewrite decide_False; [done|congruence].
Qed.

Lemma by_actor_remove_lookup actor id m a :
  by_actor_remove actor id m !! a
  = if decide (actor = Some a)
    then ids ← m !! a; (if decide (ids ∖ {[id]} = ∅) then None else Some (ids ∖ {[id]}))
    else m !! a.
Proof.
  destruct actor as [a'|]; simpl; [|done]. destruct (decide (a' = a)) as [->|Hne].
  - rewrite decide_True by done. destruct (m !! a) as [ids|] eqn:E; simpl; [|done].
    destruct (decide (ids ∖ {[id]} = ∅)); [apply lookup_delete_eq|apply lookup_insert_eq].
  - rewrite decide_False by congruence. destruct (m !! a') as [ids|]; [|done].
    destruct (decide (ids ∖ {[id]} = ∅)); [by rewrite lookup_delete_ne|by rewrite lookup_insert_ne].
Qed.

Lemma Scheduler_new_wf : sched_wf Scheduler_new.
Proof. split; cbn; intros *; rewrite lookup_empty; done. Qed.

(** Two rows with the same id are the same row. *)
Lemma sched_wf_key_inj s k1 k2 e1 e2 :
  sched_wf s → ready s !! k1 = Some e1 → ready s !! k2 = Some e2 → se_id e1 = se_id e2 → k1 = k2.
Proof.
  intros Hwf H1 H2 Heq. destruct (wf_ready s Hwf _ _ H1) as [E1 F1].
  destruct (wf_ready s Hwf _ _ H2) as [E2 F2]. congruence.
Qed.

Lemma sched_remove_ready s key e k' e' :
  sched_wf s → ready s !! key = Some e →
  ready (sched_remove s key e) !! k' = Some e' → ready s !! k' = Some e' ∧ k' ≠ key ∧ se_id e' ≠ se_id e.
Proof.
  intros Hwf Hk H. simpl in H. apply lookup_delete_Some in H as [Hne H].
  split_and!; [done|done|]. intros Heq. apply Hne. by eapply sched_wf_key_inj.
Qed.

Lemma sched_remove_wf s key e :
  sched_wf s → ready s !! key = Some e → sched_wf (sched_remove s key e).
Proof.
  intros Hwf Hk. destruct (wf_ready s Hwf _ _ Hk) as [Hid Hby]. split.
  - intros k' e' H. destruct (sched_remove_ready _ _ _ _ _ Hwf Hk H) as (H' & _ & Hne).
    destruct (wf_ready s Hwf _ _ H') as [H1 H2]. split; [done|].
    simpl. rewrite lookup_delete_ne; congruence.
  - intros id k' H. simpl in *. apply lookup_delete_Some in H as [Hne H].
    destruct (wf_by_id s Hwf _ _ H) as [[e' He'] H2]. split; [|done].
    rewrite lookup_delete_ne; [by eexists|congruence].
  - intros a ids H. simpl in H. rewrite by_actor_remove_lookup in H.
    assert (∃ ids0, by_actor s !! a = Some ids0 ∧ ids ≠ ∅ ∧ ∀ id, id ∈ ids → id ∈ ids0 ∧
              (se_actor e = Some a → id ≠ se_id e)) as (ids0 & H0 & Hne & Hsub).
    { destruct (decide (se_actor e = Some a)) as [Ha|Ha].
      - destruct (by_actor s !! a) as [ids0|] eqn:E; [|done]. simpl in H.
        destruct (decide (ids0 ∖ _ = ∅)); [done|]. injection H as <-. exists ids0.
        split_and!; [done|done|]. intros id [? Hn]%elem_of_difference.
        split; [done|]. intros _ ->. apply Hn. by apply elem_of_singleton.
      - exists ids. split_and!; [done|by destruct (wf_actor s Hwf _ _ H)|done]. }
    split; [done|]. intros id Hin. destruct (Hsub id Hin) as [Hin0 Hne'].
    destruct (wf_actor s Hwf _ _ H0) as [_ Hex]. destruct (Hex id Hin0) as (k' & e' & H1 & H2 & H3).
    assert (id ≠ se_id e).
    { intros ->. assert (k' = key) by congruence. subst k'. apply Hne'; congruence. }
    exists k', e'. simpl. rewrite lookup_delete_ne by done.
    rewrite lookup_delete_ne; [done|]. intros <-. destruct (wf_by_id s Hwf _ _ H1) as [_ E]. congruence.
  - intros k' e' a H Ha. destruct (sched_remove_ready _ _ _ _ _ Hwf Hk H) as (H' & _ & Hne).
    destruct (wf_indexed s Hwf _ _ _ H' Ha) as (ids & H1 & H2).
    simpl. rewrite by_actor_remove_lookup. destruct (decide (se_actor e = Some a)).
    + rewrite H1. simpl. assert (se_id e' ∈ ids ∖ {[se_id e]}) as Hin
        by (apply elem_of_difference; by rewrite elem_of_singleton).
      destruct (decide (ids ∖ {[se_id e]} = ∅)) as [E|E]; [|by eexists].
      rewrite E in Hin. by apply elem_of_empty in Hin.
    + by exists ids.
  - intros k' e' H. destruct (sched_remove_ready _ _ _ _ _ Hwf Hk H) as (H' & _).
    apply (wf_counters s Hwf _ _ H').
Qed.

(** Inserting under a fresh id. *)
Lemma schedule_with_id_wf s id at_ actor p c tc bs :
  sched_wf s → by_id s !! id = None → next_seq s < U64_MAX →
  sched_wf (schedule_with_id s id at_ actor p c tc bs).
Proof.
  intros Hwf Hfresh Hseq. unfold schedule_with_id.
  set (key := mkSchedKey at_ (next_seq s) id). set (e := mkEntry id at_ actor p tc bs c).
  assert (∀ k' e', ready s !! k' = Some e' → key_id k' ≠ id) as Hids.
  { intros k' e' H Heq. destruct (wf_ready s Hwf _ _ H) as [_ H2]. congruence. }
  assert (ready s !! key = None) as Hkey.
  { destruct (ready s !! key) eqn:E; [|done]. by apply Hids in E. }
  split; cbn [ready by_id by_actor next_seq next_id].
  - intros k' e' [[<- <-]|[Hne H]]%lookup_insert_Some.
    + simpl. by rewrite lookup_insert_eq.
    + destruct (wf_ready s Hwf _ _ H) as [H1 H2]. split; [done|].
      rewrite lookup_insert_ne; [done|]. intros Heq. by apply (Hids _ _ H).
  - intros id' k' [[<- <-]|[Hne H]]%lookup_insert_Some.
    + rewrite lookup_insert_eq. split; [by eexists|done].
    + destruct (wf_by_id s Hwf _ _ H) as [[e' He'] H2]. split; [|done].
      rewrite lookup_insert_ne; [by eexists|]. intros <-. by rewrite Hkey in He'.
  - intros a ids. rewrite by_actor_insert_lookup.
    assert (∀ id', id' ∈ default ∅ (by_actor s !! a) → ∃ k' e',
      <[id:=key]> (by_id s) !! id' = Some k' ∧ <[key:=e]> (ready s) !! k' = Some e' ∧ se_actor e' = Some a) as Hold.
    { intros id' Hin. destruct (by_actor s !! a) as [ids0|] eqn:E; [|by apply elem_of_empty in Hin].
      destruct (wf_actor s Hwf _ _ E) as [_ Hex]. destruct (Hex id' Hin) as (k' & e' & H1 & H2 & H3).
      exists k', e'. rewrite lookup_insert_ne by congruence. rewrite lookup_insert_ne by congruence. done. }
    destruct (decide (actor = Some a)) as [->|Ha].
    + intros [= <-]. split; [set_solver|]. intros id' [->%elem_of_singleton|Hin]%elem_of_union; [|eauto].
      exists key, e. by rewrite !lookup_insert_eq.
    + intros H. split; [by destruct (wf_actor s Hwf _ _ H)|].
      intros id' Hin. apply Hold. by rewrite H.
  - intros k' e' a [[<- <-]|[Hne H]]%lookup_insert_Some Ha; rewrite by_actor_insert_lookup.
    + simpl in Ha. rewrite decide_True by done. eexists. split; [done|]. simpl. set_solver.
    + destruct (wf_indexed s Hwf _ _ _ H Ha) as (ids & H1 & H2). rewrite H1.
      destruct (decide (actor = Some a)); eexists; (split; [done|]); [simpl; by apply elem_of_union_r|done].
  - intros k' e' [[<- <-]|[Hne H]]%lookup_insert_Some; unfold sat_add64.
    + simpl. unfold ScheduledActionId_get in *. destruct (decide _); lia.
    + destruct (wf_counters s Hwf _ _ H). destruct (decide _); lia.
Qed.

(** ** Validation reflects the invariant *)

Lemma check_Ok b reason : check b reason = Ok () ↔ b = true.
Proof. by destruct b. Qed.

Lemma check_seq_Ok b reason (r : Result string unit) :
  (_ ← check b reason; r) = Ok () ↔ b = true ∧ r = Ok ().
Proof. destruct b; simpl; [tauto|]. split; [done|by intros []]. Qed.

Lemma ready_ids_NoDup s :
  (∀ key e, ready s !! key = Some e → by_id s !! key_id key = Some key) →
  NoDup (key_id <$> btree_keys (ready s)).
Proof.
  intros Hr. apply NoDup_fmap_2_strong; [|apply btree_keys_NoDup].
  intros k1 k2 [e1 H1]%elem_of_btree_keys [e2 H2]%elem_of_btree_keys Heq.
  apply Hr in H1. apply Hr in H2. congruence.
Qed.

(** Equal sizes turn the injection of [ready] into [by_id] into a bijection. *)
Lemma ready_by_id_surjective s :
  (∀ key e, ready s !! key = Some e → by_id s !! key_id key = Some key) →
  size (ready s) = size (by_id s) →
  ∀ id key, by_id s !! id = Some key → is_Some (ready s !! key) ∧ key_id key = id.
Proof.
  intros Hr Hsize id key Hid.
  set (ids := list_to_set (key_id <$> btree_keys (ready s)) : gset positive).
  assert (ids ⊆ dom (by_id s)) as Hsub.
  { intros i. unfold ids. rewrite elem_of_list_to_set, list_elem_of_fmap.
    intros (k & -> & [e He]%elem_of_btree_keys). apply Hr in He. apply elem_of_dom. eauto. }
  assert (size ids = size (dom (by_id s))) as Hsz.
  { unfold ids. rewrite size_list_to_set by by apply ready_ids_NoDup.
    rewrite length_fmap. unfold btree_keys. rewrite length_fmap, btree_iter_perm.
    by rewrite length_map_to_list, size_dom. }
  assert (id ∈ ids) as Hin.
  { assert (ids = dom (by_id s)) as -> by (apply set_subseteq_size_eq; [done|lia]).
    apply elem_of_dom. eauto. }
  unfold ids in Hin. rewrite elem_of_list_to_set, list_elem_of_fmap in Hin.
  destruct Hin as (k & -> & [e He]%elem_of_btree_keys).
  pose proof (Hr _ _ He) as Hk. assert (k = key) as -> by congruence. by split; [eexists|].
Qed.

Lemma sched_wf_size s : sched_wf s → size (ready s) = size (by_id s).
Proof.
  intros Hwf.
  assert (∀ key e, ready s !! key = Some e → by_id s !! key_id key = Some key) as Hr
    by (intros key e H; by destruct (wf_ready s Hwf _ _ H)).
  transitivity (size (list_to_set (key_id <$> btree_keys (ready s)) : gset positive)).
  - rewrite size_list_to_set by by apply ready_ids_NoDup.
    rewrite length_fmap. unfold btree_keys. rewrite length_fmap, btree_iter_perm.
    by rewrite length_map_to_list.
  - rewrite <- (size_dom (D := gset positive) (by_id s)). apply set_size_proper. intros i.
    rewrite elem_of_list_to_set, list_elem_of_fmap, elem_of_dom. split.
    + intros (k & -> & [e He]%elem_of_btree_keys). apply Hr in He. eauto.
    + intros [k Hk]. destruct (wf_by_id s Hwf _ _ Hk) as [Hk' <-].
      exists k. by rewrite elem_of_btree_keys.
Qed.

Lemma validate_ready_rows s :
  fold_result (λ _ row, validate_ready_row s row) () (btree_iter (ready s)) = Ok () ↔
  ∀ key e, ready s !! key = Some e → se_id e = key_id key ∧ by_id s !! key_id key = Some key.
Proof.
  rewrite fold_result_check. split.
  - intros H key e He. apply elem_of_btree_iter in He. specialize (H _ He).
    simpl in H. apply check_seq_Ok in H as [H1 H2]. rewrite check_Ok in H2.
    apply bool_decide_eq_true in H1. apply bool_decide_eq_true in H2. by rewrite H1 in H2.
  - intros H [key e] He. apply elem_of_btree_iter in He. destruct (H _ _ He) as [H1 H2].
    simpl. apply check_seq_Ok. rewrite check_Ok, !bool_decide_eq_true. by rewrite H1.
Qed.

Lemma validate_actor_rows s :
  fold_result (λ _ row, validate_actor_row s row) () (btree_iter (by_actor s)) = Ok () ↔
  ∀ a ids, by_actor s !! a = Some ids →
    ids ≠ ∅ ∧ ∀ id, id ∈ ids → ∃ key e, by_id s !! id = Some key ∧ ready s !! key = Some e ∧ se_actor e = Some a.
Proof.
  assert (∀ a id, validate_actor_id s a id = Ok () ↔
    ∃ key e, by_id s !! id = Some key ∧ ready s !! key = Some e ∧ se_actor e = Some a) as Hid.
  { intros a id. unfold validate_actor_id. destruct (by_id s !! id) as [key|] eqn:E1.
    2: { split; [done|]. by intros (? & ? & ? & _). }
    destruct (ready s !! key) as [e|] eqn:E2.
    2: { split; [done|]. intros (? & ? & [= <-] & ? & _). congruence. }
    rewrite check_Ok, bool_decide_eq_true. split; [intros; by exists key, e|].
    intros (? & ? & [= <-] & ? & ?). congruence. }
  rewrite fold_result_check. split.
  - intros H a ids Ha. apply elem_of_btree_iter in Ha. specialize (H _ Ha). simpl in H.
    apply check_seq_Ok in H as [H1%bool_decide_eq_true H2]. split; [done|].
    intros id Hin. apply Hid. rewrite fold_result_check in H2. apply H2.
    by apply elem_of_btree_set_iter.
  - intros H [a ids] Ha. apply elem_of_btree_iter in Ha. destruct (H _ _ Ha) as [H1 H2].
    simpl. apply check_seq_Ok. rewrite bool_decide_eq_true. split; [done|].
    apply fold_result_check. intros id Hin. apply Hid, H2. by apply elem_of_btree_set_iter.
Qed.

Lemma validate_entries_indexed s :
  fold_result (λ _ entry, validate_entry_indexed s entry) () (btree_values (ready s)) = Ok () ↔
  ∀ key e a, ready s !! key = Some e → se_actor e = Some a →
    ∃ ids, by_actor s !! a = Some ids ∧ se_id e ∈ ids.
Proof.
  rewrite fold_result_check. split.
  - intros H key e a He Ha. specialize (H e). rewrite elem_of_btree_values in H.
    specialize (H (ex_intro _ key He)). unfold validate_entry_indexed in H. rewrite Ha in H.
    destruct (by_actor s !! a) as [ids|]; [|done]. apply check_Ok, bool_decide_eq_true in H. eauto.
  - intros H e [key He]%elem_of_btree_values. unfold validate_entry_indexed.
    destruct (se_actor e) as [a|] eqn:Ha; [|done]. destruct (H _ _ _ He Ha) as (ids & -> & Hin).
    apply check_Ok. by apply bool_decide_eq_true.
Qed.

Lemma validate_all_counters s :
  fold_result (λ _ key, validate_counters s key) () (btree_keys (ready s)) = Ok () ↔
  ∀ key e, ready s !! key = Some e → key_seq key < next_seq s ∧ ScheduledActionId_get (key_id key) ≤ next_id s.
Proof.
  rewrite fold_result_check. split.
  - intros H key e He. specialize (H key). rewrite elem_of_btree_keys in H.
    specialize (H (ex_intro _ e He)). apply check_seq_Ok in H as [H1%bool_decide_eq_true H2].
    apply check_Ok, bool_decide_eq_true in H2. done.
  - intros H key [e He]%elem_of_btree_keys. destruct (H _ _ He). apply check_seq_Ok.
    by rewrite check_Ok, !bool_decide_eq_true.
Qed.

Lemma validate_wf s : validate s = Ok () ↔ sched_wf s.
Proof.
  unfold validate. rewrite check_seq_Ok, bool_decide_eq_true. split.
  - intros (Hsz & H). apply bind_Ok in H as ([] & H1 & H). apply bind_Ok in H as ([] & H2 & H).
    apply bind_Ok in H as ([] & H3 & H4).
    pose proof (proj1 (validate_ready_rows s) H1) as H1'.
    split; [done| |by apply validate_actor_rows|by apply validate_entries_indexed
           |by apply validate_all_counters].
    apply ready_by_id_surjective; [|done]. intros key e He. by destruct (H1' _ _ He).
  - intros Hwf. split; [by apply sched_wf_size|].
    apply bind_Ok. exists (). split; [apply validate_ready_rows, Hwf|].
    apply bind_Ok. exists (). split; [apply validate_actor_rows, Hwf|].
    apply bind_Ok. exists (). split; [apply validate_entries_indexed, Hwf|].
    apply validate_all_counters, Hwf.
Qed.

(** ** Behaviour of the removals *)

Lemma pop_due_cases s now :
  (pop_due s now = Done (None, s) ∧ ∀ k, is_Some (ready s !! k) → now < key_at k) ∨
  (∃ key e, pop_due s now = Done (Some e, sched_remove s key e) ∧
     first_key_value (ready s) = Some (key, e) ∧ ready s !! key = Some e ∧ key_at key ≤ now ∧
     ∀ k, is_Some (ready s !! k) → SchedKey_le key k).
Proof.
  unfold pop_due. destruct (first_key_value (ready s)) as [[key e]|] eqn:E.
  - pose proof E as E'. apply first_key_value_Some in E' as [Hk Hmin].
    destruct (decide (now < key_at key)) as [Hlt|Hle].
    + left. split; [done|]. intros k Hs. specialize (Hmin k Hs).
      unfold key_le in Hmin. simpl in Hmin. unfold SchedKey_le in Hmin. lia.
    + right. exists key, e. rewrite Hk. simpl. split_and!; try done. lia.
  - left. split; [done|]. apply first_key_value_None in E. intros k [e He].
    by rewrite E, lookup_empty in He.
Qed.

Lemma pop_due_wf s now r s' : sched_wf s → pop_due s now = Done (r, s') → sched_wf s'.
Proof.
  intros Hwf H. destruct (pop_due_cases s now) as [[Heq _]|(key & e & Heq & _ & Hk & _)];
    rewrite Heq in H; injection H as <- <-; [done|by apply sched_remove_wf].
Qed.

Lemma cancel_cases s id :
  sched_wf s →
  (by_id s !! id = None ∧ cancel s id = Done (None, s)) ∨
  (∃ key e, by_id s !! id = Some key ∧ ready s !! key = Some e ∧ se_id e = id ∧
     cancel s id = Done (Some e, sched_remove s key e)).
Proof.
  intros Hwf. unfold cancel. destruct (by_id s !! id) as [key|] eqn:E; [right|by left].
  destruct (wf_by_id s Hwf _ _ E) as [[e He] Hid]. destruct (wf_ready s Hwf _ _ He) as [H1 _].
  exists key, e. rewrite He. simpl. assert (se_id e = id) as Heq by congruence.
  split_and!; try done. unfold sched_remove. by rewrite Heq.
Qed.

Lemma sched_remove_size s key e :
  ready s !! key = Some e → size (ready s) = S (size (ready (sched_remove s key e))).
Proof. intros H. simpl. rewrite map_size_delete_Some by by eexists. assert (size (ready s) ≠ 0%nat); [|lia].
  intros Hz. apply map_size_empty_inv in Hz. by rewrite Hz, lookup_empty in H. Qed.

Lemma schedule_with_id_size s id at_ actor p c tc bs :
  (size (ready (schedule_with_id s id at_ actor p c tc bs)) ≤ S (size (ready s)))%nat.
Proof. unfold schedule_with_id. cbn [ready]. rewrite map_size_insert. destruct (ready s !! _); cbv [Datatypes.id]; lia. Qed.

(** The rows [cancel_by_actor] visits are dropped, the others stay. *)
Lemma cancel_steps ids s cs :
  NoDup ids →
  (∀ id, id ∈ ids → ∃ key e, by_id s !! id = Some key ∧ ready s !! key = Some e ∧ key_id key = id ∧ se_id e = id) →
  ∃ new s', fold_left cancel_step ids (cs, s) = (cs ++ new, s') ∧
    by_actor s' = by_actor s ∧ next_seq s' = next_seq s ∧ next_id s' = next_id s ∧
    (∀ id, by_id s' !! id = if decide (id ∈ ids) then None else by_id s !! id) ∧
    (∀ k, ready s' !! k = if decide (key_id k ∈ ids ∧ by_id s !! key_id k = Some k) then None else ready s !! k) ∧
    (∀ e, e ∈ new ↔ ∃ id key, id ∈ ids ∧ by_id s !! id = Some key ∧ ready s !! key = Some e) ∧
    se_id <$> new = ids.
Proof.
  revert s cs. induction ids as [|id ids IH]; intros s cs Hnd Hin.
  { exists [], s. cbn [fold_left]. rewrite app_nil_r. split_and!; try done.
    intros e. split; [intros H; by apply elem_of_nil in H|].
    intros (? & ? & H & _). by apply elem_of_nil in H. }
  apply NoDup_cons in Hnd as [Hni Hnd].
  destruct (Hin id ltac:(left)) as (key & e & H1 & H2 & H3 & H0).
  cbn [fold_left]. unfold cancel_step at 2. rewrite H1, H2.
  set (s1 := mkScheduler _ _ _ _ _).
  assert (∀ id', id' ∈ ids → ∃ k e', by_id s !! id' = Some k ∧ ready s !! k = Some e' ∧ (key_id k = id' ∧ se_id e' = id')
            ∧ by_id s1 !! id' = Some k ∧ ready s1 !! k = Some e') as Hin1.
  { intros id' Hid'. destruct (Hin id' ltac:(by right)) as (k & e' & G1 & G2 & G3 & G4).
    assert (id ≠ id') by (intros ->; done). exists k, e'. subst s1. simpl.
    rewrite !lookup_delete_ne by congruence. done. }
  destruct (IH s1 (cs ++ [e]) Hnd) as (new & s' & Hf & Ha & Hs & Hi & Hby & Hrd & Hnew & Hids).
  { intros id' Hid'. destruct (Hin1 id' Hid') as (k & e' & ? & ? & [? ?] & ? & ?). eauto 6. }
  exists (e :: new), s'. rewrite Hf, <- app_assoc. split_and!; try done.
  - intros id'. rewrite Hby. subst s1. simpl. destruct (decide (id' = id)) as [->|Hne].
    + rewrite (decide_True (P := id ∈ id :: ids)) by left. rewrite lookup_delete_eq.
      by destruct (decide (id ∈ ids)).
    + rewrite lookup_delete_ne by done. apply decide_ext. rewrite elem_of_cons. clear -Hne. tauto.
  - intros k. rewrite Hrd. subst s1. simpl. destruct (decide (k = key)) as [->|Hne].
    + rewrite (decide_True (P := _ ∧ by_id s !! _ = Some _)) by (rewrite H3; split; [left|done]).
      rewrite (lookup_delete_eq (ready s)). by case_match.
    + rewrite (lookup_delete_ne (ready s)) by done. apply decide_ext. rewrite elem_of_cons.
      destruct (decide (key_id k = id)) as [E|E].
      * rewrite E, lookup_delete_eq. split; [by intros []|]. intros [_ ?]. congruence.
      * rewrite lookup_delete_ne by done. clear -E. tauto.
  - intros e'. rewrite elem_of_cons, Hnew. split.
    + intros [->|(id' & k & Hid' & G1 & G2)]; [exists id, key; split_and!; [left|done|done]|].
      destruct (Hin1 id' Hid') as (k' & e'' & F1 & F2 & F3 & F4 & F5).
      exists id', k'. split_and!; [by right|done|congruence].
    + intros (id' & k & [->|Hid']%elem_of_cons & G1 & G2); [left; congruence|right].
      destruct (Hin1 id' Hid') as (k' & e'' & F1 & F2 & F3 & F4 & F5).
      exists id', k'. split_and!; [done|done|congruence].
  - rewrite fmap_cons. by f_equal.
Qed.

(** The client loop returns the due rows in key order. *)
Lemma drain_due_prefix fuel s now :
  sched_wf s → (size (ready s) < fuel)%nat →
  ∃ s', drain_due fuel s now
    = Done ((filter (λ row, key_at row.1 ≤ now) (btree_iter (ready s))).*2, s') ∧
    sched_wf s' ∧ ∀ k e, ready s' !! k = Some e ↔ ready s !! k = Some e ∧ now < key_at k.
Proof.
  revert s. induction fuel as [|fuel IH]; intros s Hwf Hfuel; [lia|]. cbn [drain_due].
  destruct (pop_due_cases s now) as [[Heq Hall]|(key & e & Heq & Hfirst & Hk & Hle & Hmin)]; rewrite Heq.
  - simpl. exists s. split_and!; [|done|].
    + rewrite filter_none; [done|]. intros [k e] Hin%elem_of_btree_iter. simpl.
      specialize (Hall k (ex_intro _ e Hin)). lia.
    + intros k e. split; [|by intros []]. intros He. split; [done|]. apply Hall. eauto.
  - simpl. pose proof (sched_remove_wf s key e Hwf Hk) as Hwf'.
    pose proof (sched_remove_size s key e Hk) as Hsz.
    destruct (IH (sched_remove s key e) Hwf' ltac:(lia)) as (s' & Hd & Hwf'' & Hr).
    rewrite Hd. simpl. exists s'. split_and!; [|done|].
    + rewrite (btree_iter_first _ _ _ Hfirst), filter_cons. by rewrite decide_True by done.
    + intros k e'. rewrite Hr. simpl. rewrite lookup_delete_Some. split; [tauto|].
      intros [He Hlt]. split_and!; [intros <-; lia|done|done].
Qed.

(** Scheduling keeps the rows that were there and adds the new one. *)
Lemma schedule_with_id_ready s id at_ actor p c tc bs k e :
  ready (schedule_with_id s id at_ actor p c tc bs) !! k = Some e →
  (k = mkSchedKey at_ (next_seq s) id ∧ e = mkEntry id at_ actor p tc bs c) ∨ ready s !! k = Some e.
Proof.
  unfold schedule_with_id. cbn [ready]. intros [[<- <-]|[_ H]]%lookup_insert_Some; auto.
Qed.

(** Below saturation the insertion sequence counts the insertions. *)
Lemma schedule_with_id_seq s id at_ actor p c tc bs :
  next_seq (schedule_with_id s id at_ actor p c tc bs) < U64_MAX →
  next_seq (schedule_with_id s id at_ actor p c tc bs) = next_seq s + 1.
Proof. unfold schedule_with_id. cbn [next_seq]. unfold sat_add64. lia. Qed.

Lemma schedule_with_id_next_id s id at_ actor p c tc bs :
  next_id (schedule_with_id s id at_ actor p c tc bs) = N.max (next_id s) (ScheduledActionId_get id).
Proof. unfold schedule_with_id. cbn [next_id]. destruct (decide _); lia. Qed.

(** Membership in an actor's set is ownership of the row. *)
Lemma sched_wf_owned s a ids k e :
  sched_wf s → by_actor s !! a = Some ids → ready s !! k = Some e →
  key_id k ∈ ids ↔ se_actor e = Some a.
Proof.
  intros Hwf Ha Hk. destruct (wf_ready s Hwf _ _ Hk) as [H1 H2]. split.
  - intros Hin. destruct (wf_actor s Hwf _ _ Ha) as [_ Hex].
    destruct (Hex _ Hin) as (k' & e' & G1 & G2 & G3). congruence.
  - intros He. destruct (wf_indexed s Hwf _ _ _ Hk He) as (ids' & G1 & G2). congruence.
Qed.

(** The effect of [cancel_by_actor] on the rows. *)
Lemma cancel_by_actor_rows s a :
  sched_wf s →
  let '(cancelled, s') := cancel_by_actor s a in
  (∀ e, e ∈ cancelled ↔ ∃ key, ready s !! key = Some e ∧ se_actor e = Some a) ∧
  (∀ key e, ready s' !! key = Some e ↔ ready s !! key = Some e ∧ se_actor e ≠ Some a) ∧
  (∀ id key, by_id s' !! id = Some key ↔
     by_id s !! id = Some key ∧ ∀ e, ready s !! key = Some e → se_actor e ≠ Some a) ∧
  by_actor s' = delete a (by_actor s) ∧ next_seq s' = next_seq s ∧ next_id s' = next_id s ∧
  se_id <$> cancelled = btree_set_iter (default ∅ (by_actor s !! a)).
Proof.
  intros Hwf. unfold cancel_by_actor. destruct (by_actor s !! a) as [ids|] eqn:Ha.
  2: { assert (∀ k e, ready s !! k = Some e → se_actor e ≠ Some a) as Hno.
       { intros k e Hk He. destruct (wf_indexed s Hwf _ _ _ Hk He) as (? & ? & _). congruence. }
       rewrite delete_id by done. split_and!; try done.
       - intros e. split; [intros H; by apply elem_of_nil in H|]. intros (k & Hk & He). by apply Hno in Hk.
       - intros k e. split; [|by intros []]. intros Hk. split; [done|by eapply Hno].
       - intros id k. split; [|by intros []]. intros Hk. split; [done|]. intros e He. by eapply Hno. }
  set (s0 := mkScheduler _ _ _ _ _).
  assert (∀ id, id ∈ btree_set_iter ids → ∃ key e, by_id s0 !! id = Some key ∧
            ready s0 !! key = Some e ∧ key_id key = id ∧ se_actor e = Some a) as Hids.
  { intros id Hin%elem_of_btree_set_iter. destruct (wf_actor s Hwf _ _ Ha) as [_ Hex].
    destruct (Hex id Hin) as (k & e & G1 & G2 & G3). destruct (wf_by_id s Hwf _ _ G1) as [_ G4].
    by exists k, e. }
  destruct (cancel_steps (btree_set_iter ids) s0 [] (btree_set_iter_NoDup ids))
    as (new & s' & Hf & Hac & Hsq & Hni & Hby & Hrd & Hnew & Hord).
  { intros id Hin. destruct (Hids id Hin) as (k & e & ? & F & ? & _). exists k, e. destruct (wf_ready s Hwf _ _ F). split_and!; congruence. }
  rewrite Hf. simpl. subst s0. cbn [ready by_id by_actor next_seq next_id] in *. split_and!; try done.
  - intros e. rewrite Hnew. split.
    + intros (id & k & Hin & G1 & G2). exists k. split; [done|].
      destruct (Hids id Hin) as (k' & e' & F1 & F2 & F3 & F4). congruence.
    + intros (k & G1 & G2). destruct (wf_ready s Hwf _ _ G1) as [G3 G4].
      exists (key_id k), k. split_and!; [|done|done].
      apply elem_of_btree_set_iter. by apply (sched_wf_owned s a ids k e).
  - intros k e. rewrite Hrd. destruct (decide _) as [[Hin Hk]|Hn].
    + split; [done|]. intros [G1 G2]. apply elem_of_btree_set_iter in Hin.
      by apply (sched_wf_owned s a ids k e) in Hin.
    + split; [|by intros []]. intros G1. split; [done|]. intros G2. apply Hn.
      destruct (wf_ready s Hwf _ _ G1) as [_ G3]. split; [|done].
      apply elem_of_btree_set_iter. by apply (sched_wf_owned s a ids k e).
  - intros id k. rewrite Hby. destruct (decide _) as [Hin|Hn].
    + split; [done|]. intros [G1 G2]. destruct (Hids id Hin) as (k' & e' & F1 & F2 & F3 & F4).
      assert (k' = k) as -> by congruence. by apply G2 in F2.
    + split; [|by intros []]. intros G1. split; [done|]. intros e G2 G3. apply Hn.
      destruct (wf_by_id s Hwf _ _ G1) as [_ <-]. apply elem_of_btree_set_iter.
      by apply (sched_wf_owned s a ids k e).
Qed.

Lemma cancel_by_actor_wf s a : sched_wf s → sched_wf (cancel_by_actor s a).2.
Proof.
  intros Hwf. pose proof (cancel_by_actor_rows s a Hwf) as H.
  destruct (cancel_by_actor s a) as [cs s']. destruct H as (_ & Hrd & Hby & Hac & Hsq & Hni & _). simpl.
  split.
  - intros k e [G1 G2]%Hrd. destruct (wf_ready s Hwf _ _ G1) as [F1 F2]. split; [done|].
    apply Hby. split; [done|]. intros e' He'. congruence.
  - intros id k [G1 G2]%Hby. destruct (wf_by_id s Hwf _ _ G1) as [[e He] F2]. split; [|done].
    exists e. apply Hrd. split; [done|]. by apply G2.
  - intros a' ids. rewrite Hac. intros [Hne Ha]%lookup_delete_Some.
    destruct (wf_actor s Hwf _ _ Ha) as [F1 F2]. split; [done|]. intros id Hin.
    destruct (F2 id Hin) as (k & e & G1 & G2 & G3). exists k, e. rewrite Hby, Hrd.
    split_and!; [done| |done|congruence|done]. intros e' He'. congruence.
  - intros k e a' [G1 G2]%Hrd Ha'. destruct (wf_indexed s Hwf _ _ _ G1 Ha') as (ids & F1 & F2).
    exists ids. rewrite Hac. split; [|done]. rewrite lookup_delete_ne; [done|congruence].
  - intros k e [G1 _]%Hrd. rewrite Hsq, Hni. apply (wf_counters s Hwf _ _ G1).
Qed.

(** ** Properties *)

(** C30: [validate] is exact. It accepts a scheduler precisely when the three
    tables are in lockstep and the counters dominate the live keys; on an
    accepted scheduler [cancel] never reaches its consistency [expect] and
    [pop_due] and [cancel] keep the tables in lockstep. *)
Theorem validate_exact s :
  (validate s = Ok () ↔ sched_wf s) ∧
  (validate s = Ok () →
   (∀ id, ∃ r s', cancel s id = Done (r, s') ∧ validate s' = Ok () ∧ (r = None ↔ by_id s !! id = None)) ∧
   (∀ now, ∃ r s', pop_due s now = Done (r, s') ∧ validate s' = Ok ())).
Proof.
  split; [apply validate_wf|]. rewrite validate_wf. intros Hwf. split.
  - intros id. destruct (cancel_cases s id Hwf) as [[H1 H2]|(k & e & H1 & H2 & H3 & H4)].
    + exists None, s. rewrite validate_wf. done.
    + exists (Some e), (sched_remove s k e). rewrite validate_wf, H1.
      split_and!; [done|by apply sched_remove_wf|done].
  - intros now. destruct (pop_due_cases s now) as [[Heq _]|(key & e & Heq & _ & Hk & _)]; rewrite Heq.
    + exists None, s. by rewrite validate_wf.
    + exists (Some e), (sched_remove s key e). rewrite validate_wf. split; [done|by apply sched_remove_wf].
Qed.

Lemma validate_exact_witness :
  let s := schedule_with_id Scheduler_new 1%positive 5 (Some 2%positive) System 15 1 [] in
  validate s = Ok () ∧ ∃ r s', cancel s 1%positive = Done (r, s') ∧ validate s' = Ok ().
Proof.
  intros s. assert (validate s = Ok ()) as H by (vm_compute; reflexivity). split; [exact H|].
  destruct (proj2 (validate_exact s) H) as [Hc _].
  destruct (Hc 1%positive) as (r & s' & H1 & H2 & _). exists r, s'. split; assumption.
Defined.

(** C31: execution order. From a consistent scheduler, popping until nothing
    is due terminates within one turn more than there are rows, never panics,
    and returns exactly the due entries in ascending [(at, seq, id)] order;
    what remains is exactly the future rows, still consistent. *)
Theorem drain_due_sorted s now :
  sched_wf s →
  ∃ s', drain_due (S (size (ready s))) s now
    = Done ((filter (λ row, key_at row.1 ≤ now) (btree_iter (ready s))).*2, s') ∧
    StronglySorted (λ x y, SchedKey_le x.1 y.1) (filter (λ row, key_at row.1 ≤ now) (btree_iter (ready s))) ∧
    sched_wf s' ∧ ∀ k e, ready s' !! k = Some e ↔ ready s !! k = Some e ∧ now < key_at k.
Proof.
  intros Hwf. destruct (drain_due_prefix (S (size (ready s))) s now Hwf) as (s' & H1 & H2 & H3); [lia|].
  exists s'. split_and!; try done.
  apply StronglySorted_filter. exact (btree_iter_sorted (ready s)).
Qed.

Lemma drain_due_sorted_witness :
  let s := schedule_with_id (schedule_with_id (schedule_with_id Scheduler_new 1 8 None System 0 1 [])
             2 3 None System 0 1 []) 3 12 None System 0 1 [] in
  ∃ rows s', drain_due 4 s 9 = Done (rows, s') ∧ se_id <$> rows = [2; 1]%positive ∧ sched_wf s'.
Proof.
  intros s. assert (sched_wf s) as Hwf
    by (repeat (apply schedule_with_id_wf; [|reflexivity|reflexivity]); apply Scheduler_new_wf).
  destruct (drain_due_sorted s 9 Hwf) as (s' & H1 & _ & H2 & _).
  eexists _, s'. split; [exact H1|]. split; [vm_compute; reflexivity|exact H2].
Defined.

(** [schedule_with_id] and [cancel_by_actor] on a consistent scheduler.
    Scheduling under a fresh id keeps consistency, makes the id cancellable
    and adds one row; cancelling by actor removes every entry of the actor and
    no other, returns exactly the removed entries, and keeps consistency. *)
Theorem schedule_and_cancel_by_actor s id at_ actor p c tc bs a :
  sched_wf s → by_id s !! id = None → next_seq s < U64_MAX →
  (let s' := schedule_with_id s id at_ actor p c tc bs in
   sched_wf s' ∧ size (ready s') = S (size (ready s)) ∧
   ∃ key, by_id s' !! id = Some key ∧ key_at key = at_ ∧
     ∃ e, ready s' !! key = Some e ∧ se_caps_ceiling e = c ∧ se_principal e = p) ∧
  (let '(cancelled, s') := cancel_by_actor s a in
   sched_wf s' ∧ by_actor s' !! a = None ∧
   (∀ e, e ∈ cancelled ↔ ∃ key, ready s !! key = Some e ∧ se_actor e = Some a) ∧
   (∀ key e, ready s' !! key = Some e ↔ ready s !! key = Some e ∧ se_actor e ≠ Some a)).
Proof.
  intros Hwf Hfresh Hseq. split.
  - intros s'. split_and!.
    + by apply schedule_with_id_wf.
    + subst s'. simpl. rewrite map_size_insert. destruct (ready s !! _) eqn:E; [|done].
      destruct (wf_ready s Hwf _ _ E) as [_ H]. simpl in H. congruence.
    + exists (mkSchedKey at_ (next_seq s) id). subst s'. simpl. rewrite !lookup_insert_eq.
      split_and!; [done|done|]. by eexists.
  - pose proof (cancel_by_actor_wf s a Hwf) as Hwf'. pose proof (cancel_by_actor_rows s a Hwf) as H.
    destruct (cancel_by_actor s a) as [cs s']. destruct H as (H1 & H2 & _ & H4 & _).
    split_and!; [done| |done|done]. rewrite H4. apply lookup_delete_eq.
Qed.

Lemma schedule_and_cancel_by_actor_witness :
  sched_wf (schedule_with_id Scheduler_new 1%positive 5 (Some 2%positive) System 15 1 []) ∧
  by_actor (cancel_by_actor Scheduler_new 2%positive).2 !! 2%positive = None.
Proof.
  destruct (schedule_and_cancel_by_actor Scheduler_new 1%positive 5 (Some 2%positive) System 15 1 []
    2%positive Scheduler_new_wf eq_refl ltac:(reflexivity)) as [[H1 _] H2].
  split; [exact H1|]. destruct (cancel_by_actor Scheduler_new 2%positive) as [cs s'].
  destruct H2 as (_ & H2 & _). exact H2.
Defined.
