(* ===== verification/Queue.v ===== *)
(** * The scheduler as a queue

    The contract of [src/arkhe-kernel/src/state/scheduler.rs], stated without
    its indexes: a queue of rows, a row being a due tick and an entry, kept in
    execution order by stable insertion on the tick. There are no sequence
    numbers, no id table and no actor table. [Scheduler]'s three-table
    operations refine this queue. *)
From S2P Require Import Prelude Abi Scheduler.

Local Open Scope N_scope.

(** ** The abstract queue *)

Abbreviation Row := (Tick * ScheduledEntry)%type (only parsing).
Abbreviation Queue := (list Row) (only parsing).

(** Behind every row due at the same tick or earlier: FIFO within a tick. *)
Fixpoint enqueue (x : Row) (q : Queue) : Queue :=
  match q with
  | [] => [x]
  | y :: q' => if decide (y.1 ≤ x.1) then y :: enqueue x q' else x :: q
  end.

(** The front row, if it is due. *)
Definition dequeue (now : Tick) (q : Queue) : option ScheduledEntry * Queue :=
  match q with
  | [] => (None, q)
  | y :: q' => if decide (y.1 ≤ now) then (Some y.2, q') else (None, q)
  end.

Definition row_has_id (id : ScheduledActionId) (r : Row) : Prop := se_id r.2 = id.
Definition row_has_actor (a : EntityId) (r : Row) : Prop := se_actor r.2 = Some a.

#[global] Instance row_has_id_dec id r : Decision (row_has_id id r).
Proof. unfold row_has_id. apply _. Defined.
#[global] Instance row_has_actor_dec a r : Decision (row_has_actor a r).
Proof. unfold row_has_actor. apply _. Defined.

(** Ascending ids. *)
Definition entry_id_le (x y : ScheduledEntry) : Prop := (se_id x ≤ se_id y)%positive.
#[global] Instance entry_id_le_dec : RelDecision entry_id_le.
Proof. intros x y. unfold entry_id_le. apply _. Defined.
#[global] Instance entry_id_le_trans : Transitive entry_id_le.
Proof. intros x y z. unfold entry_id_le. lia. Qed.
#[global] Instance entry_id_le_total : Total entry_id_le.
Proof. intros x y. unfold entry_id_le. lia. Qed.

(** Cancellation drops the matching rows and returns them. *)
Definition drop_id (id : ScheduledActionId) (q : Queue) : option ScheduledEntry * Queue :=
  (head (filter (row_has_id id) q).*2, filter (λ r, ¬ row_has_id id r) q).
Definition drop_actor (a : EntityId) (q : Queue) : list ScheduledEntry * Queue :=
  (merge_sort entry_id_le (filter (row_has_actor a) q).*2, filter (λ r, ¬ row_has_actor a r) q).

(** ** The abstraction function *)

Definition row_of (x : SchedKey * ScheduledEntry) : Row := (key_at x.1, x.2).
Definition queue_of (s : Scheduler) : Queue := row_of <$> btree_iter (ready s).

Lemma queue_of_new : queue_of Scheduler_new = [].
Proof. reflexivity. Qed.

Lemma queue_of_length s : len (queue_of s) = Scheduler_len s.
Proof.
  unfold queue_of, Scheduler_len, len. by rewrite length_fmap, btree_iter_perm, length_map_to_list.
Qed.

(** Below the next sequence number, key order is tick order. *)
Lemma row_insert_enqueue k e l :
  (∀ x, x ∈ l → key_seq x.1 < key_seq k) →
  row_of <$> row_insert (k, e) l = enqueue (key_at k, e) (row_of <$> l).
Proof.
  induction l as [|y l IH]; intros Hl; cbn [row_insert]; [done|].
  rewrite fmap_cons. cbn [enqueue]. change ((row_of y).1) with (key_at y.1).
  specialize (Hl y ltac:(left)) as Hy.
  assert (entry_le y (k, e) ↔ key_at y.1 ≤ key_at k) as Hiff.
  { change (entry_le y (k, e)) with (SchedKey_le y.1 k). unfold SchedKey_le. lia. }
  change ((key_at k, e).1) with (key_at k).
  rewrite (decide_ext _ _ _ _ Hiff). destruct (decide (key_at y.1 ≤ key_at k)); [|done].
  rewrite fmap_cons, IH; [done|]. intros x Hx. apply Hl. by right.
Qed.

(** Scheduling is stable insertion. *)
Lemma queue_of_schedule s id at_ actor p c tc bs :
  sched_wf s →
  queue_of (schedule_with_id s id at_ actor p c tc bs)
  = enqueue (at_, mkEntry id at_ actor p tc bs c) (queue_of s).
Proof.
  intros Hwf. unfold queue_of, schedule_with_id. cbn [ready].
  set (k := mkSchedKey at_ (next_seq s) id).
  assert (∀ k' e', ready s !! k' = Some e' → key_seq k' < key_seq k) as Hseq
    by (intros k' e' H; by destruct (wf_counters s Hwf _ _ H)).
  rewrite btree_iter_insert.
  - rewrite row_insert_enqueue; [done|]. intros [k' e'] Hin%elem_of_btree_iter. by eapply Hseq.
  - destruct (ready s !! k) eqn:E; [|done]. apply Hseq in E. lia.
Qed.

(** Popping is taking the front row when it is due. *)
Lemma queue_of_first s key e :
  first_key_value (ready s) = Some (key, e) →
  queue_of s = (key_at key, e) :: queue_of (sched_remove s key e).
Proof. intros Hf. unfold queue_of. by rewrite (btree_iter_first _ _ _ Hf). Qed.

Lemma pop_due_queue s now :
  ∃ s', pop_due s now = Done ((dequeue now (queue_of s)).1, s') ∧
    queue_of s' = (dequeue now (queue_of s)).2 ∧ next_seq s' = next_seq s ∧ next_id s' = next_id s ∧
    (sched_wf s → sched_wf s').
Proof.
  destruct (pop_due_cases s now) as [[Hp Hn]|(key & e & Hp & Hf & Hk & Hle & _)]; rewrite Hp.
  - exists s. assert (dequeue now (queue_of s) = (None, queue_of s)) as ->; [|done].
    unfold queue_of. destruct (btree_iter (ready s)) as [|[k e] l] eqn:E; [done|].
    cbn. rewrite decide_False; [done|]. assert ((k, e) ∈ btree_iter (ready s)) as Hin by (rewrite E; left).
    apply elem_of_btree_iter in Hin. specialize (Hn k ltac:(eauto)). lia.
  - exists (sched_remove s key e). rewrite (queue_of_first s key e Hf). cbn [dequeue fst snd].
    rewrite decide_True by done. split_and!; try done. intros Hwf. by apply sched_remove_wf.
Qed.

(** Removal by key is removal by id. *)
Lemma queue_of_remove s key e :
  sched_wf s → ready s !! key = Some e →
  queue_of (sched_remove s key e) = filter (λ r, ¬ row_has_id (se_id e) r) (queue_of s).
Proof.
  intros Hwf Hk. unfold queue_of. cbn [sched_remove ready]. rewrite btree_iter_delete, filter_fmap_list.
  f_equal. apply filter_ext_in. intros [k' e'] Hin%elem_of_btree_iter. unfold row_has_id. cbn. split.
  - intros Hne Heq. apply Hne. by eapply sched_wf_key_inj.
  - intros Hne ->. apply Hne. congruence.
Qed.

(** In a consistent scheduler the id table says which ids are queued. *)
Lemma by_id_queue s id : sched_wf s → by_id s !! id = None ↔ filter (row_has_id id) (queue_of s) = [].
Proof.
  intros Hwf. unfold queue_of. rewrite filter_fmap_list. split.
  - intros Hn. rewrite filter_none; [done|]. intros [k e] Hin%elem_of_btree_iter. unfold row_has_id. cbn. intros <-.
    destruct (wf_ready s Hwf _ _ Hin) as [H1 H2]. congruence.
  - intros Hn. destruct (by_id s !! id) as [k|] eqn:E; [exfalso|done].
    destruct (wf_by_id s Hwf _ _ E) as [[e He] Hid]. destruct (wf_ready s Hwf _ _ He) as [H1 _].
    apply fmap_nil_inv in Hn. assert ((k, e) ∈ @nil (SchedKey * ScheduledEntry)) as Hin; [|by apply elem_of_nil in Hin].
    rewrite <- Hn. apply list_elem_of_filter. rewrite elem_of_btree_iter. split; [unfold row_has_id; cbn; congruence|done].
Qed.

(** [cancel] returns and drops the row with the id. *)
Lemma cancel_queue s id :
  sched_wf s →
  ∃ s', cancel s id = Done ((drop_id id (queue_of s)).1, s') ∧ queue_of s' = (drop_id id (queue_of s)).2 ∧
    next_seq s' = next_seq s ∧ next_id s' = next_id s ∧ sched_wf s'.
Proof.
  intros Hwf. destruct (cancel_cases s id Hwf) as [[Hn ->]|(key & e & Hby & Hk & Hid & ->)].
  - exists s. apply (by_id_queue s id Hwf) in Hn as Hf. unfold drop_id. rewrite Hf. cbn [fst snd]. split_and!; try done.
    apply eq_sym, filter_all. intros r Hr Hrow.
    assert (r ∈ filter (row_has_id id) (queue_of s)) as Hin by by apply list_elem_of_filter.
    rewrite Hf in Hin. by apply elem_of_nil in Hin.
  - exists (sched_remove s key e). unfold drop_id. cbn [fst snd]. rewrite (queue_of_remove s key e Hwf Hk), Hid.
    split_and!; try done; [|by apply sched_remove_wf]. do 2 f_equal.
    assert (∀ r, r ∈ filter (row_has_id id) (queue_of s) → r.2 = e) as Hall.
    { intros r [Hr (x & -> & Hx)%list_elem_of_fmap]%list_elem_of_filter. destruct x as [k' e'].
      apply elem_of_btree_iter in Hx. unfold row_has_id in Hr. cbn in *.
      assert (k' = key) as -> by (eapply sched_wf_key_inj; [done|exact Hx|exact Hk|congruence]). congruence. }
    destruct (filter (row_has_id id) (queue_of s)) as [|r l] eqn:E.
    + apply (by_id_queue s id Hwf) in E. congruence.
    + cbn. by rewrite (Hall r) by left.
Qed.

Lemma queue_ids_NoDup s : sched_wf s → NoDup (se_id <$> (queue_of s).*2).
Proof.
  intros Hwf. unfold queue_of. rewrite <- !list_fmap_compose.
  apply NoDup_fmap_2_strong.
  - intros [k1 e1] [k2 e2] H1%elem_of_btree_iter H2%elem_of_btree_iter. cbn. intros Heq.
    assert (k1 = k2) as -> by by eapply sched_wf_key_inj. congruence.
  - rewrite btree_iter_perm. apply NoDup_map_to_list.
Qed.

(** Entries with distinct ids have one ascending arrangement. *)
Lemma sort_by_id_unique l1 l2 :
  StronglySorted Pos.le (se_id <$> l1) → NoDup (se_id <$> l1) → l1 ≡ₚ l2 → l1 = merge_sort entry_id_le l2.
Proof.
  intros Hs Hnd Hp. apply (StronglySorted_unique_strong entry_id_le).
  - intros x y Hx Hy Hxy Hyx. rewrite merge_sort_Permutation, <- Hp in Hy.
    assert (se_id x = se_id y) as Heq by (unfold entry_id_le in *; lia).
    apply list_elem_of_lookup_1 in Hx as [i Hi]. apply list_elem_of_lookup_1 in Hy as [j Hj].
    assert (i = j) as ->; [|congruence].
    eapply (NoDup_lookup _ _ _ (se_id x) Hnd); rewrite list_lookup_fmap; [by rewrite Hi|rewrite Hj, Heq; done].
  - clear -Hs. remember (se_id <$> l1) as l eqn:E. revert l1 E.
    induction Hs as [|i l Hl IH Hi]; intros [|x l1] [=]; [constructor|]. subst. constructor; [by apply IH|].
    by rewrite Forall_fmap in Hi.
  - apply StronglySorted_merge_sort; apply _.
  - by rewrite merge_sort_Permutation.
Qed.

(** [cancel_by_actor] returns the actor's rows in id order and drops them. *)
Lemma cancel_by_actor_queue s a :
  sched_wf s →
  cancel_by_actor s a = ((drop_actor a (queue_of s)).1, (cancel_by_actor s a).2) ∧
  queue_of (cancel_by_actor s a).2 = (drop_actor a (queue_of s)).2.
Proof.
  intros Hwf. pose proof (cancel_by_actor_rows s a Hwf) as H.
  destruct (cancel_by_actor s a) as [cs s'] eqn:E. cbn [snd]. destruct H as (Hcs & Hrd & _ & _ & _ & _ & Hids).
  unfold drop_actor. cbn [fst snd].
  assert (∀ e, e ∈ (filter (row_has_actor a) (queue_of s)).*2 ↔ e ∈ cs) as Hin.
  { intros e. rewrite Hcs, list_elem_of_fmap. split.
    - intros (r & -> & [Hr (x & -> & Hx)%list_elem_of_fmap]%list_elem_of_filter). destruct x as [k e].
      apply elem_of_btree_iter in Hx. eauto.
    - intros (k & Hk & Ha). exists (row_of (k, e)). split; [done|]. apply list_elem_of_filter. split; [done|].
      apply list_elem_of_fmap. exists (k, e). by rewrite elem_of_btree_iter. }
  split.
  - f_equal. apply sort_by_id_unique.
    + rewrite Hids. apply StronglySorted_merge_sort; intros x; [intros y z|intros y]; cbn; lia.
    + rewrite Hids. apply btree_set_iter_NoDup.
    + apply NoDup_Permutation; [eapply NoDup_fmap_1; rewrite Hids; apply btree_set_iter_NoDup| |].
      * eapply (NoDup_fmap_1 se_id). eapply sublist_NoDup; [apply (queue_ids_NoDup s Hwf)|].
        do 2 apply fmap_sublist. apply sublist_filter.
      * intros e. symmetry. apply Hin.
  - unfold queue_of. rewrite filter_fmap_list. f_equal. apply btree_iter_unique.
    + apply StronglySorted_filter, btree_iter_sorted.
    + apply NoDup_Permutation; [apply NoDup_filter; rewrite btree_iter_perm; apply NoDup_map_to_list
        |apply NoDup_map_to_list|].
      intros [k e]. rewrite list_elem_of_filter, elem_of_btree_iter, elem_of_map_to_list, Hrd.
      unfold row_has_actor. cbn. tauto.
Qed.

(** ** Sequences of operations *)

(** The mutating interface of the scheduler and what each call returns. *)
Inductive SchedOp : Type :=
  | OpSchedule (at_ : Tick) (actor : option EntityId) (principal : Principal) (caps_ceiling : CapabilityMask)
      (type_code : TypeCode) (bs : bytes)
  | OpScheduleWithId (id : ScheduledActionId) (at_ : Tick) (actor : option EntityId) (principal : Principal)
      (caps_ceiling : CapabilityMask) (type_code : TypeCode) (bs : bytes)
  | OpCancel (id : ScheduledActionId)
  | OpCancelByActor (actor : EntityId)
  | OpPopDue (now : Tick)
  | OpLen.

Inductive SchedOut : Type :=
  | OutId (id : ScheduledActionId)
  | OutUnit
  | OutEntry (e : option ScheduledEntry)
  | OutEntries (es : list ScheduledEntry)
  | OutLen (n : N).

(** The code. *)
Definition sched_op (s : Scheduler) (op : SchedOp) : Outcome (SchedOut * Scheduler) :=
  match op with
  | OpSchedule at_ actor p c tc bs => r ← schedule s at_ actor p c tc bs; mret (OutId r.1, r.2)
  | OpScheduleWithId id at_ actor p c tc bs => mret (OutUnit, schedule_with_id s id at_ actor p c tc bs)
  | OpCancel id => r ← cancel s id; mret (OutEntry r.1, r.2)
  | OpCancelByActor a => let '(es, s') := cancel_by_actor s a in mret (OutEntries es, s')
  | OpPopDue now => r ← pop_due s now; mret (OutEntry r.1, r.2)
  | OpLen => mret (OutLen (Scheduler_len s), s)
  end.

Fixpoint sched_run (s : Scheduler) (ops : list SchedOp) : Outcome (list SchedOut * Scheduler) :=
  match ops with
  | [] => mret ([], s)
  | op :: ops' =>
      r ← sched_op s op;
      rest ← sched_run r.2 ops';
      mret (r.1 :: rest.1, rest.2)
  end.

(** The contract's state: the rows, the largest id seen, the arrivals. *)
Record AbsQueue : Type := mkAbsQueue { aq_rows : Queue; aq_last_id : N; aq_arrivals : N }.
Definition AbsQueue_empty : AbsQueue := mkAbsQueue [] 0 0.

Definition abs_enqueue (q : AbsQueue) (id : ScheduledActionId) (at_ : Tick) (actor : option EntityId)
    (p : Principal) (c : CapabilityMask) (tc : TypeCode) (bs : bytes) : AbsQueue :=
  mkAbsQueue (enqueue (at_, mkEntry id at_ actor p tc bs c) (aq_rows q))
    (N.max (aq_last_id q) (ScheduledActionId_get id)) (aq_arrivals q + 1).

(** The contract: no result is promised once a 64-bit counter is exhausted,
    nor for scheduling under an id that is queued already. *)
Definition queue_op (q : AbsQueue) (op : SchedOp) : option (SchedOut * AbsQueue) :=
  match op with
  | OpSchedule at_ actor p c tc bs =>
      if decide (aq_arrivals q < U64_MAX ∧ aq_last_id q < U64_MAX) then
        let id := N.succ_pos (aq_last_id q) in
        Some (OutId id, abs_enqueue q id at_ actor p c tc bs)
      else None
  | OpScheduleWithId id at_ actor p c tc bs =>
      if decide (aq_arrivals q < U64_MAX ∧ filter (row_has_id id) (aq_rows q) = []) then
        Some (OutUnit, abs_enqueue q id at_ actor p c tc bs)
      else None
  | OpCancel id =>
      let '(e, rows) := drop_id id (aq_rows q) in
      Some (OutEntry e, mkAbsQueue rows (aq_last_id q) (aq_arrivals q))
  | OpCancelByActor a =>
      let '(es, rows) := drop_actor a (aq_rows q) in
      Some (OutEntries es, mkAbsQueue rows (aq_last_id q) (aq_arrivals q))
  | OpPopDue now =>
      let '(e, rows) := dequeue now (aq_rows q) in
      Some (OutEntry e, mkAbsQueue rows (aq_last_id q) (aq_arrivals q))
  | OpLen => Some (OutLen (len (aq_rows q)), q)
  end.

Fixpoint queue_run (q : AbsQueue) (ops : list SchedOp) : option (list SchedOut * AbsQueue) :=
  match ops with
  | [] => Some ([], q)
  | op :: ops' =>
      r ← queue_op q op;
      rest ← queue_run r.2 ops';
      Some (r.1 :: rest.1, rest.2)
  end.

(** The refinement relation. *)
Record refines_queue (s : Scheduler) (q : AbsQueue) : Prop := {
  rq_wf : sched_wf s;
  rq_rows : queue_of s = aq_rows q;
  rq_last : next_id s = aq_last_id q;
  rq_arrivals : next_seq s = aq_arrivals q
}.

Lemma refines_queue_new : refines_queue Scheduler_new AbsQueue_empty.
Proof. split; [apply Scheduler_new_wf|done..]. Qed.

(** Below the limit [schedule] is [schedule_with_id] under the next id. *)
Lemma schedule_next_id s at_ actor p c tc bs :
  next_id s < U64_MAX →
  schedule s at_ actor p c tc bs
  = Done (N.succ_pos (next_id s), schedule_with_id s (N.succ_pos (next_id s)) at_ actor p c tc bs).
Proof.
  intros Hlt. unfold schedule. rewrite (sat_add64_exact (next_id s) 1) by lia. unfold ScheduledActionId_new, NonZero_new.
  destruct (next_id s + 1) as [|id] eqn:E; [lia|]. cbn [expect mbind Outcome_bind].
  assert (Npos (N.succ_pos (next_id s)) = Npos id) as Heq by (rewrite N.succ_pos_spec, <- E; lia).
  injection Heq as ->. unfold schedule_with_id, ScheduledActionId_get.
  rewrite decide_True by (rewrite <- E; lia). by rewrite <- E.
Qed.

Lemma schedule_refines s q id at_ actor p c tc bs :
  refines_queue s q → aq_arrivals q < U64_MAX → by_id s !! id = None →
  refines_queue (schedule_with_id s id at_ actor p c tc bs) (abs_enqueue q id at_ actor p c tc bs).
Proof.
  intros [Hwf Hr Hi Ha] Hlt Hfresh. split.
  - apply schedule_with_id_wf; [done|done|by rewrite Ha].
  - rewrite queue_of_schedule by done. by rewrite Hr.
  - rewrite schedule_with_id_next_id. cbn [abs_enqueue aq_last_id]. by rewrite Hi.
  - cbn. rewrite Ha. apply sat_add64_exact. lia.
Qed.

(** One call. *)
Lemma sched_op_refines s q op out q' :
  refines_queue s q → queue_op q op = Some (out, q') →
  ∃ s', sched_op s op = Done (out, s') ∧ refines_queue s' q'.
Proof.
  intros R Hq. pose proof R as [Hwf Hr Hi Ha].
  destruct op as [at_ actor p c tc bs|id at_ actor p c tc bs|id|a|now|]; cbn [queue_op sched_op] in *.
  - destruct (decide _) as [[H1 H2]|]; [|done]. injection Hq as <- <-. rewrite <- Hi in *.
    rewrite schedule_next_id by done. eexists. split; [reflexivity|]. apply schedule_refines; [done|done|].
    destruct (by_id s !! N.succ_pos (next_id s)) as [k|] eqn:E; [exfalso|done].
    destruct (wf_by_id s Hwf _ _ E) as [[e He] Hid]. destruct (wf_counters s Hwf _ _ He) as [_ Hle].
    rewrite Hid in Hle. unfold ScheduledActionId_get in Hle. rewrite N.succ_pos_spec in Hle. lia.
  - destruct (decide _) as [[H1 H2]|]; [|done]. injection Hq as <- <-. eexists. split; [reflexivity|].
    apply schedule_refines; [done|done|]. apply by_id_queue; [done|by rewrite Hr].
  - destruct (cancel_queue s id Hwf) as (s' & -> & H1 & H2 & H3 & H4). rewrite Hr in *.
    destruct (drop_id id (aq_rows q)) as [e rows]. injection Hq as <- <-. eexists. split; [reflexivity|].
    cbn [fst snd] in *. split; cbn; [done|congruence..].
  - destruct (cancel_by_actor_queue s a Hwf) as [E H1]. rewrite E in *. rewrite Hr in *.
    pose proof (cancel_by_actor_wf s a Hwf) as H2. pose proof (cancel_by_actor_rows s a Hwf) as H3.
    destruct (cancel_by_actor s a) as [es s']. destruct H3 as (_ & _ & _ & _ & H3 & H4 & _).
    destruct (drop_actor a (aq_rows q)) as [es' rows]. injection Hq as <- <-. eexists. split; [reflexivity|].
    cbn [snd] in *. split; cbn; [done|congruence..].
  - destruct (pop_due_queue s now) as (s' & -> & H1 & H2 & H3 & H4). rewrite Hr in *.
    destruct (dequeue now (aq_rows q)) as [e rows]. injection Hq as <- <-. eexists. split; [reflexivity|].
    cbn [fst snd] in *. split; cbn; [by apply H4|congruence..].
  - injection Hq as <- <-. exists s. rewrite <- Hr, queue_of_length. done.
Qed.

(** Without explicit ids the contract answers until a counter is exhausted. *)
Definition auto_id (op : SchedOp) : Prop := match op with OpScheduleWithId _ _ _ _ _ _ _ => False | _ => True end.

Lemma queue_run_defined q ops :
  Forall auto_id ops → aq_arrivals q + len ops ≤ U64_MAX → aq_last_id q + len ops ≤ U64_MAX →
  is_Some (queue_run q ops).
Proof.
  revert q. induction ops as [|op ops IH]; intros q Hall Ha Hl; cbn [queue_run]; [eauto|].
  apply Forall_cons in Hall as [Hop Hall]. rewrite len_cons in *.
  assert (∃ out q1, queue_op q op = Some (out, q1) ∧ aq_arrivals q1 ≤ aq_arrivals q + 1 ∧
            aq_last_id q1 ≤ aq_last_id q + 1) as (out & q1 & -> & H1 & H2).
  { destruct op; try done; cbn [queue_op]; try (destruct (drop_id _ _)); try (destruct (drop_actor _ _));
      try (destruct (dequeue _ _)); try (do 2 eexists; split; [reflexivity|]; cbn; lia).
    rewrite decide_True by lia. do 2 eexists. split; [reflexivity|]. cbn [abs_enqueue aq_arrivals aq_last_id].
    unfold ScheduledActionId_get. rewrite N.succ_pos_spec. lia. }
  cbn [mbind option_bind snd]. destruct (IH q1 Hall) as [[outs q'] ->]; [lia|lia|]. eexists. reflexivity.
Qed.

(** ** Properties *)

(** C8: the scheduler refines a queue. Whatever sequence of calls is made
    (automatic and explicit ids, cancellations, actor cancellations, pops,
    length queries), the three-table scheduler returns call by call what the
    abstract queue returns, never panics, and still represents the queue; the
    queue answers as long as no 64-bit counter is exhausted and no queued id
    is scheduled again, in particular on every sequence of fewer than 2^64-1
    calls without explicit ids. *)
Theorem scheduler_refines_queue s q ops :
  refines_queue s q →
  (∀ outs q', queue_run q ops = Some (outs, q') →
     ∃ s', sched_run s ops = Done (outs, s') ∧ refines_queue s' q') ∧
  (Forall auto_id ops → len ops < U64_MAX → is_Some (queue_run AbsQueue_empty ops)).
Proof.
  intros R. split; [|intros Ha Hlen; apply queue_run_defined; [done|cbn; lia..]].
  revert s q R. induction ops as [|op ops IH]; intros s q R outs q' Hq; cbn [queue_run sched_run] in *.
  { injection Hq as <- <-. eauto. }
  destruct (queue_op q op) as [[out q1]|] eqn:E1; [|done]. cbn [mbind option_bind snd] in Hq.
  destruct (queue_run q1 ops) as [[outs1 q2]|] eqn:E2; [|done]. injection Hq as <- <-.
  destruct (sched_op_refines s q op out q1 R E1) as (s1 & -> & R1). cbn [mbind Outcome_bind snd].
  destruct (IH s1 q1 R1 outs1 q2 E2) as (s' & -> & R'). by exists s'.
Qed.

Definition ex_sched_ops : list SchedOp :=
  [OpSchedule 8 (Some 4%positive) System 0 1 []; OpSchedule 3 None System 0 2 [];
   OpScheduleWithId 9 8 (Some 4%positive) System 0 3 []; OpSchedule 3 None System 0 4 [];
   OpPopDue 5; OpCancel 10; OpCancel 10; OpCancelByActor 4; OpPopDue 100; OpLen].

Lemma scheduler_refines_queue_witness :
  ∃ outs s', sched_run Scheduler_new ex_sched_ops = Done (outs, s') ∧ sched_wf s' ∧
    (λ o, match o with OutEntries es => se_id <$> es | OutEntry (Some e) => [se_id e] | OutId id => [id] | _ => [] end)
      <$> outs = [[1]; [2]; []; [10]; [2]; [10]; []; [1; 9]; []; []]%positive.
Proof.
  destruct (queue_run AbsQueue_empty ex_sched_ops) as [[outs q']|] eqn:E; [|vm_compute in E; discriminate E].
  destruct (proj1 (scheduler_refines_queue Scheduler_new AbsQueue_empty ex_sched_ops refines_queue_new) outs q' E)
    as (s' & H1 & H2).
  exists outs, s'. split; [exact H1|]. split; [exact (rq_wf _ _ H2)|].
  vm_compute in E. injection E as <- _. reflexivity.
Defined.
