(* ===== verification/Extern.v ===== *)
(** * Third-party code as interfaces

    The [postcard] codec and the [blake3] hash live outside the repository:
    they are operations of a class, and what the kernel relies on is stated as
    a separate class of laws that a theorem names when it needs it. *)
From S2P Require Import Prelude.

(** [postcard::to_allocvec] / [postcard::from_bytes] at a type; the error is
    the message the library formats. *)
Class Postcard (A : Type) : Type := {
  to_allocvec : A → Result string bytes;
  from_bytes : bytes → Result string A
}.

(** Encoding never fails (all-derive type graphs). *)
Class PostcardTotal (A : Type) `{Postcard A} : Prop :=
  postcard_total : ∀ x : A, ∃ b, to_allocvec x = Ok b.

(** Encoding does not fail on the values [P] describes. *)
Class PostcardEncodes (A : Type) `{Postcard A} (P : A → Prop) : Prop :=
  postcard_encodes : ∀ x : A, P x → ∃ b, to_allocvec x = Ok b.

(** Decoding inverts encoding. *)
Class PostcardRoundtrip (A : Type) `{Postcard A} : Prop :=
  postcard_roundtrip : ∀ (x : A) b, to_allocvec x = Ok b → from_bytes b = Ok x.

(** Distinct values have distinct encodings (for a type that is encoded and
    never decoded). *)
Class PostcardInj (A : Type) `{Postcard A} : Prop :=
  postcard_inj : ∀ (x y : A) b, to_allocvec x = Ok b → to_allocvec y = Ok b → x = y.

(** [blake3::hash], [blake3::derive_key], and a keyed hasher fed with the
    given bytes. *)
Class Blake3 : Type := {
  blake3_hash : bytes → bytes;
  blake3_derive_key : bytes → bytes → bytes;
  blake3_keyed : bytes → bytes → bytes
}.

(** A digest has 32 bytes. *)
Class Blake3Laws `{Blake3} : Prop := {
  blake3_hash_length : ∀ m, length (blake3_hash m) = 32%nat;
  blake3_keyed_length : ∀ k m, length (blake3_keyed k m) = 32%nat
}.

#[global] Instance postcard_roundtrip_inj `{PostcardRoundtrip A} : PostcardInj A.
Proof. intros x y b Hx%postcard_roundtrip Hy%postcard_roundtrip. congruence. Qed.

(** ** Concrete instances for the witnesses *)

(** A codec for one value only: it encodes everything as the empty string and
    decodes that string as the distinguished value. *)
Definition constant_postcard {A} (x0 : A) : Postcard A := {|
  to_allocvec := λ _, Ok [];
  from_bytes := λ _, Ok x0
|}.

(** A hash that returns its message: every property of a hash that is only
    about equality of inputs holds for it. *)
Definition identity_blake3 : Blake3 := {|
  blake3_hash := λ m, m;
  blake3_derive_key := λ ctx m, ctx ++ m;
  blake3_keyed := λ k m, k ++ m
|}.

(** A hash to 32 bytes that keeps the last 32 of the padded message. *)
Definition tail32 (m : bytes) : bytes := take 32 (rev m ++ replicate 32 Byte.x00).
Definition tail_blake3 : Blake3 := {|
  blake3_hash := tail32;
  blake3_derive_key := λ _ m, tail32 m;
  blake3_keyed := λ _ m, tail32 m
|}.

Lemma tail_blake3_laws : @Blake3Laws tail_blake3.
Proof.
  split; intros; cbn; unfold tail32; rewrite length_take, length_app, length_replicate; lia.
Qed.

(** A codec for any countable type: the bits of its code, one per byte. It is
    total and inverts. *)
Fixpoint pos_bits (p : positive) : bytes :=
  match p with
  | xH => []
  | xO p => Byte.x00 :: pos_bits p
  | xI p => Byte.x01 :: pos_bits p
  end.
Definition bit_of (b : byte) (p : positive) : positive :=
  if decide (b = Byte.x00) then xO p else xI p.
Definition bits_pos (bs : bytes) : positive := foldr bit_of xH bs.

Lemma bits_pos_bits p : bits_pos (pos_bits p) = p.
Proof. induction p; simpl; unfold bits_pos in *; cbn; by rewrite ?IHp. Qed.

Definition countable_postcard {A} `{Countable A} : Postcard A := {|
  to_allocvec := λ x, Ok (pos_bits (encode x));
  from_bytes := λ b, match decode (bits_pos b) with Some x => Ok x | None => Err "malformed"%string end
|}.

Lemma countable_postcard_total {A} `{Countable A} : @PostcardTotal A countable_postcard.
Proof. intros x. eexists. reflexivity. Qed.

Lemma countable_postcard_roundtrip {A} `{Countable A} : @PostcardRoundtrip A countable_postcard.
Proof. intros x b [= <-]. cbn. by rewrite bits_pos_bits, decode_encode. Qed.
