(* ===== verification/Blake3.v ===== *)
(** * BLAKE3, executable

    The hash the repository takes from the [blake3] crate, written out from
    the published specification (compression function, chunks, binary tree,
    the three modes), as an instance of the interface of [Extern]. It models
    no code of the repository: no theorem needs it, they hold for any hash of
    that interface; it is what the translated unit tests run on, and [WireTests]
    compares it with the digests those tests pin. *)
From S2P Require Import Prelude Extern.

Local Open Scope N_scope.

(** ** Words and the compression function *)

Definition mask32 : N := 4294967295.
Definition add32 (x y : N) : N := N.land (x + y) mask32.
Definition rotr32 (x n : N) : N := N.lor (N.shiftr x n) (N.land (N.shiftl x (32 - n)) mask32).

Definition IV : list N :=
  [0x6A09E667; 0xBB67AE85; 0x3C6EF372; 0xA54FF53A; 0x510E527F; 0x9B05688C; 0x1F83D9AB; 0x5BE0CD19].
Definition MSG_PERMUTATION : list nat := [2; 6; 3; 10; 7; 0; 4; 13; 1; 11; 12; 5; 9; 14; 15; 8]%nat.

Definition word_of (bs : bytes) : N := foldr (λ b acc, Byte.to_N b + 256 * acc) 0 bs.
Definition word (s : list N) (i : nat) : N := nth i s 0.
Definition quarter (a b c d : nat) (s : list N) (mx my : N) : list N :=
  let va := add32 (add32 (word s a) (word s b)) mx in
  let vd := rotr32 (N.lxor (word s d) va) 16 in
  let vc := add32 (word s c) vd in
  let vb := rotr32 (N.lxor (word s b) vc) 12 in
  let va := add32 (add32 va vb) my in
  let vd := rotr32 (N.lxor vd va) 8 in
  let vc := add32 vc vd in
  let vb := rotr32 (N.lxor vb vc) 7 in
  <[a := va]> (<[b := vb]> (<[c := vc]> (<[d := vd]> s))).
Definition round (s m : list N) : list N :=
  let s := quarter 0 4 8 12 s (word m 0) (word m 1) in
  let s := quarter 1 5 9 13 s (word m 2) (word m 3) in
  let s := quarter 2 6 10 14 s (word m 4) (word m 5) in
  let s := quarter 3 7 11 15 s (word m 6) (word m 7) in
  let s := quarter 0 5 10 15 s (word m 8) (word m 9) in
  let s := quarter 1 6 11 12 s (word m 10) (word m 11) in
  let s := quarter 2 7 8 13 s (word m 12) (word m 13) in
  quarter 3 4 9 14 s (word m 14) (word m 15).
(** Seven rounds, the message permuted in between. *)
Fixpoint rounds (n : nat) (s m : list N) {struct n} : list N :=
  match n with
  | O => s
  | S n' => rounds n' (round s m) (word m <$> MSG_PERMUTATION)
  end.
Definition compress (cv m : list N) (counter block_len flags : N) : list N :=
  let s := rounds 7 (cv ++ take 4 IV ++ [N.land counter mask32; N.shiftr counter 32; block_len; flags]) m in
  zip_with N.lxor (take 8 s) (drop 8 s).

(** The flags. *)
Definition CHUNK_START : N := 1.
Definition CHUNK_END : N := 2.
Definition PARENT : N := 4.
Definition ROOT : N := 8.
Definition KEYED_HASH : N := 16.
Definition DERIVE_KEY_CONTEXT : N := 32.
Definition DERIVE_KEY_MATERIAL : N := 64.

(** ** Chunks

    A chunk of 1024 bytes is at most 16 blocks of 64; the empty message is one
    empty block. *)
Fixpoint split_every (fuel n : nat) (bs : bytes) : list bytes :=
  match fuel with
  | O => []
  | S fuel' => if decide (length bs ≤ n)%nat then [bs] else take n bs :: split_every fuel' n (drop n bs)
  end.
Definition words_of (n : nat) (bs : bytes) : list N :=
  (λ i, word_of (take 4 (drop (4 * i) bs))) <$> seq 0 n.
Definition block_words (bs : bytes) : list N := words_of 16 (bs ++ replicate (64 - length bs) Byte.x00).
Fixpoint chunk_blocks (cv : list N) (counter flags start : N) (root : N) (blocks : list bytes) {struct blocks} : list N :=
  match blocks with
  | [] => cv
  | [b] => compress cv (block_words b) counter (N.of_nat (length b)) (flags + start + CHUNK_END + root)
  | b :: blocks' => chunk_blocks (compress cv (block_words b) counter 64 (flags + start)) counter flags 0 root blocks'
  end.
Definition chunk_cv (key : list N) (flags counter root : N) (chunk : bytes) : list N :=
  chunk_blocks key counter flags CHUNK_START root (split_every 17 64 chunk).
(** ** The tree

    Pairing neighbours level by level, an odd last node moving up unchanged,
    builds the tree of the specification, whose left subtrees are complete. *)
Fixpoint merge_level (key : list N) (flags root : N) (cvs : list (list N)) {struct cvs} : list (list N) :=
  match cvs with
  | l :: r :: cvs' => compress key (l ++ r) 0 64 (flags + PARENT + root) :: merge_level key flags root cvs'
  | _ => cvs
  end.
Fixpoint merge (fuel : nat) (key : list N) (flags : N) (cvs : list (list N)) {struct fuel} : list N :=
  match fuel with
  | O => []
  | S fuel' =>
      match cvs with
      | [] => []
      | [cv] => cv
      | [l; r] => compress key (l ++ r) 0 64 (flags + PARENT + ROOT)
      | _ => merge fuel' key flags (merge_level key flags 0 cvs)
      end
  end.
Definition tree (key : list N) (flags : N) (m : bytes) : list N :=
  match split_every (S (length m)) 1024 m with
  | [c] => chunk_cv key flags 0 ROOT c
  | cs => merge (length cs) key flags (imap (λ i c, chunk_cv key flags (N.of_nat i) 0 c) cs)
  end.
(** ** The three modes *)

(** The four bytes of a word, least first. *)
Fixpoint le_digits (n : nat) (v : N) : bytes :=
  match n with
  | O => []
  | S n' => default Byte.x00 (Byte.of_N (v mod 256)) :: le_digits n' (v / 256)
  end.
Definition out (ws : list N) : bytes := mjoin (le_digits 4 <$> ws).
Definition b3_hash (m : bytes) : bytes := out (tree IV 0 m).
Definition b3_keyed (k m : bytes) : bytes := out (tree (words_of 8 k) KEYED_HASH m).
Definition b3_derive (ctx m : bytes) : bytes := out (tree (tree IV DERIVE_KEY_CONTEXT ctx) DERIVE_KEY_MATERIAL m).

#[export] Instance standard_blake3 : Blake3 := {|
  blake3_hash := b3_hash;
  blake3_derive_key := b3_derive;
  blake3_keyed := b3_keyed
|}.

(** ** A digest has 32 bytes *)

Lemma le_digits_length n v : length (le_digits n v) = n.
Proof. revert v. induction n as [|n IH]; intros v; cbn [le_digits length]; [done|]. by rewrite IH. Qed.

Lemma out_length ws : length (out ws) = (4 * length ws)%nat.
Proof.
  unfold out. induction ws as [|w ws IH]; [done|]. change (mjoin (le_digits 4 <$> w :: ws))
    with (le_digits 4 w ++ mjoin (le_digits 4 <$> ws)). rewrite length_app, le_digits_length, IH. cbn [length]. lia.
Qed.

Lemma quarter_length a b c d s mx my : length (quarter a b c d s mx my) = length s.
Proof. unfold quarter. by rewrite !length_insert. Qed.

Lemma rounds_length n s m : length (rounds n s m) = length s.
Proof.
  revert s m. induction n as [|n IH]; intros s m; cbn [rounds]; [done|]. rewrite IH. unfold round.
  by rewrite !quarter_length.
Qed.

Lemma compress_length cv m counter block_len flags :
  length cv = 8%nat → length (compress cv m counter block_len flags) = 8%nat.
Proof.
  intros Hcv. unfold compress. rewrite length_zip_with, length_take, length_drop, rounds_length, !length_app, Hcv. done.
Qed.

#[local] Opaque compress.

Lemma chunk_blocks_length cv counter flags start root blocks :
  length cv = 8%nat → length (chunk_blocks cv counter flags start root blocks) = 8%nat.
Proof.
  revert cv start. induction blocks as [|b [|b' blocks] IH]; intros cv start Hcv; [done|by apply compress_length|].
  change (length (chunk_blocks (compress cv (block_words b) counter 64 (flags + start)) counter flags 0 root (b' :: blocks))
    = 8%nat). apply IH, compress_length, Hcv.
Qed.

(** Induction two elements at a time. *)
Lemma list_pair_ind {A} (P : list A → Prop) :
  P [] → (∀ x, P [x]) → (∀ x y l, P l → P (x :: y :: l)) → ∀ l, P l.
Proof.
  intros H0 H1 H2 l. enough (P l ∧ ∀ x, P (x :: l)) as [? _]; [done|].
  induction l as [|x l [IH1 IH2]]; split; auto.
Qed.

Lemma merge_level_props key flags root cvs :
  length key = 8%nat → Forall (λ cv, length cv = 8%nat) cvs →
  Forall (λ cv, length cv = 8%nat) (merge_level key flags root cvs) ∧
  (cvs ≠ [] → merge_level key flags root cvs ≠ []) ∧
  (length (merge_level key flags root cvs) ≤ length cvs)%nat ∧
  (2 ≤ length cvs → length (merge_level key flags root cvs) < length cvs)%nat.
Proof.
  intros Hk. induction cvs as [| |l r cvs IH] using list_pair_ind; intros Hcvs; cbn [merge_level length].
  - split_and!; [done|done|lia|lia].
  - split_and!; [done|done|lia|lia].
  - do 2 apply Forall_cons in Hcvs as [_ Hcvs]. destruct (IH Hcvs) as (H1 & _ & H3 & _).
    split_and!; [constructor; [by apply compress_length|done]|done|lia|lia].
Qed.

Lemma merge_length fuel key flags cvs :
  length key = 8%nat → Forall (λ cv, length cv = 8%nat) cvs → cvs ≠ [] → (length cvs ≤ fuel)%nat →
  length (merge fuel key flags cvs) = 8%nat.
Proof.
  intros Hk. revert cvs. induction fuel as [|fuel IH]; intros cvs Hcvs Hne Hle; [by destruct cvs; cbn in Hle; [|lia]|].
  destruct cvs as [|l [|r [|x cvs]]]; [done|by apply Forall_cons in Hcvs as [? _]|by apply compress_length|].
  destruct (merge_level_props key flags 0 (l :: r :: x :: cvs) Hk Hcvs) as (H1 & H2 & _ & H4).
  change (length (merge fuel key flags (merge_level key flags 0 (l :: r :: x :: cvs))) = 8%nat).
  cbn [length] in *. apply IH; [done|by apply H2|lia].
Qed.

Lemma split_every_nonempty fuel n bs : split_every (S fuel) n bs ≠ [].
Proof. cbn [split_every]. by case_decide. Qed.

Lemma tree_length key flags m : length key = 8%nat → length (tree key flags m) = 8%nat.
Proof.
  intros Hk. unfold tree. pose proof (split_every_nonempty (length m) 1024 m) as Hne.
  destruct (split_every (S (length m)) 1024 m) as [|c [|c' cs]]; [done|by apply chunk_blocks_length|].
  apply merge_length; [done| |done|by rewrite length_imap].
  apply Forall_forall. intros cv (i & x & -> & _)%elem_of_lookup_imap_1. by apply chunk_blocks_length.
Qed.

#[export] Instance standard_blake3_laws : Blake3Laws.
Proof.
  split; intros; cbn [blake3_hash blake3_keyed standard_blake3]; unfold b3_hash, b3_keyed;
    rewrite out_length, tree_length;
    (reflexivity || (unfold words_of; by rewrite length_fmap, length_seq) || done).
Qed.
