(* ===== verification/Instance.v ===== *)
(** * Per-instance state

    Models [state/config.rs], [state/instance.rs], [state/context.rs] and the
    read projection [runtime/view.rs]. [BTreeMap]s are [gmap]s, iterated in key order
    through [btree_iter]; a [VecDeque] is a list with the back at the end. The
    [*_mut] accessors of the code are the [with_*] setters here. *)
From S2P Require Import Prelude Abi Extern Quota Ledger Scheduler.

Local Open Scope N_scope.

(** ** Data *)

(** [InstanceConfig] ([state/config.rs]). *)
Record InstanceConfig : Type := mkConfig {
  default_caps : CapabilityMask;
  max_entities : N;
  max_scheduled : N;
  max_inbox_per_route : N;
  memory_budget_bytes : N;
  parent : option InstanceId;
  quota_reduction : QuotaReductionPolicy
}.

(** [InstanceConfig::default]. *)
Definition InstanceConfig_default : InstanceConfig :=
  mkConfig caps_empty 0 0 0 0 None Reject.

Record EntityMeta : Type := mkMeta { owner : Principal; created : Tick }.

Record InboundSignal : Type := mkSignal {
  sig_from : InstanceId;
  sig_principal : Principal;
  sig_payload : bytes;
  sig_seq : N
}.

Record IdCounters : Type := mkCounters {
  next_entity : N;
  next_scheduled : N;
  next_source_seq : N
}.
Definition IdCounters_default : IdCounters := mkCounters 0 0 0.

Record Instance_ : Type := mkInstance {
  inst_id : InstanceId;
  config : InstanceConfig;
  entities : gmap EntityId EntityMeta;
  components : gmap (EntityId * TypeCode) bytes;
  scheduler : Scheduler;
  id_counters : IdCounters;
  ledger : ResourceLedger;
  inflight_refs : gmap RouteId N;
  signal_inbox : gmap RouteId (list InboundSignal);
  inbox_seq : N;
  wall_remainder : N;
  local_tick : N
}.

(** [InstanceSnapshot]: the same fields, in the same order. *)
Record InstanceSnapshot : Type := mkSnapshot {
  snap_id : InstanceId;
  snap_config : InstanceConfig;
  snap_entities : gmap EntityId EntityMeta;
  snap_components : gmap (EntityId * TypeCode) bytes;
  snap_scheduler : Scheduler;
  snap_id_counters : IdCounters;
  snap_ledger : ResourceLedger;
  snap_inflight_refs : gmap RouteId N;
  snap_signal_inbox : gmap RouteId (list InboundSignal);
  snap_inbox_seq : N;
  snap_wall_remainder : N;
  snap_local_tick : N
}.

(** ** Construction and read accessors *)

(** [Instance::new]. *)
Definition Instance_new (id : InstanceId) (cfg : InstanceConfig) : Instance_ :=
  mkInstance id cfg ∅ ∅ Scheduler_new IdCounters_default ledger_new ∅ ∅ 0 0 0.

Definition entities_len (i : Instance_) : N := N.of_nat (size (entities i)).
Definition components_len (i : Instance_) : N := N.of_nat (size (components i)).
Definition inflight_refs_len (i : Instance_) : N := N.of_nat (size (inflight_refs i)).
Definition inflight_refs_for (i : Instance_) (route : RouteId) : N := default 0 (inflight_refs i !! route).
Definition entity_meta (i : Instance_) (e : EntityId) : option EntityMeta := entities i !! e.
Definition component (i : Instance_) (e : EntityId) (tc : TypeCode) : option bytes := components i !! (e, tc).

(** [entities_iter]: ascending [EntityId]. *)
Definition entities_iter (i : Instance_) : list (EntityId * EntityMeta) := btree_iter (entities i).

(** [components_by_type_iter]: the rows of one type, ascending. *)
Definition components_by_type_iter (i : Instance_) (type_code : TypeCode) : list (EntityId * bytes) :=
  omap (λ '((eid, tc), bs), if decide (tc = type_code) then Some (eid, bs) else None)
    (btree_iter (components i)).

(** [inbox_len]. *)
Definition inbox_len (i : Instance_) (route : RouteId) : N := len (default [] (signal_inbox i !! route)).

(** ** Setters *)

Definition with_entities (i : Instance_) (x : gmap EntityId EntityMeta) : Instance_ :=
  mkInstance (inst_id i) (config i) x (components i) (scheduler i) (id_counters i) (ledger i)
    (inflight_refs i) (signal_inbox i) (inbox_seq i) (wall_remainder i) (local_tick i).
Definition with_components (i : Instance_) (x : gmap (EntityId * TypeCode) bytes) : Instance_ :=
  mkInstance (inst_id i) (config i) (entities i) x (scheduler i) (id_counters i) (ledger i)
    (inflight_refs i) (signal_inbox i) (inbox_seq i) (wall_remainder i) (local_tick i).
Definition with_scheduler (i : Instance_) (x : Scheduler) : Instance_ :=
  mkInstance (inst_id i) (config i) (entities i) (components i) x (id_counters i) (ledger i)
    (inflight_refs i) (signal_inbox i) (inbox_seq i) (wall_remainder i) (local_tick i).
Definition with_id_counters (i : Instance_) (x : IdCounters) : Instance_ :=
  mkInstance (inst_id i) (config i) (entities i) (components i) (scheduler i) x (ledger i)
    (inflight_refs i) (signal_inbox i) (inbox_seq i) (wall_remainder i) (local_tick i).
Definition with_ledger (i : Instance_) (x : ResourceLedger) : Instance_ :=
  mkInstance (inst_id i) (config i) (entities i) (components i) (scheduler i) (id_counters i) x
    (inflight_refs i) (signal_inbox i) (inbox_seq i) (wall_remainder i) (local_tick i).
Definition with_inflight_refs (i : Instance_) (x : gmap RouteId N) : Instance_ :=
  mkInstance (inst_id i) (config i) (entities i) (components i) (scheduler i) (id_counters i) (ledger i)
    x (signal_inbox i) (inbox_seq i) (wall_remainder i) (local_tick i).

(** ** Mutators *)

(** [insert_entity]. *)
Definition insert_entity (i : Instance_) (id : EntityId) (meta : EntityMeta) : Instance_ :=
  with_entities i (<[id := meta]> (entities i)).

(** [remove_entity]: drops every component row of the entity, then the entity. *)
Definition remove_entity (i : Instance_) (id : EntityId) : option EntityMeta * Instance_ :=
  let orphaned := (range_of_entity id (components i)).*1 in
  let i1 := with_components i (fold_left (λ m k, delete k m) orphaned (components i)) in
  (entities i1 !! id, with_entities i1 (delete id (entities i1))).

(** [insert_component], [remove_component]. *)
Definition insert_component (i : Instance_) (key : EntityId * TypeCode) (bs : bytes) : Instance_ :=
  with_components i (<[key := bs]> (components i)).
Definition remove_component (i : Instance_) (key : EntityId * TypeCode) : option bytes * Instance_ :=
  (components i !! key, with_components i (delete key (components i))).

(** [advance_wall_remainder], [advance_local_tick]. *)
Definition advance_wall_remainder (i : Instance_) (delta : N) : Instance_ :=
  mkInstance (inst_id i) (config i) (entities i) (components i) (scheduler i) (id_counters i) (ledger i)
    (inflight_refs i) (signal_inbox i) (inbox_seq i) (sat_add128 (wall_remainder i) delta) (local_tick i).
Definition advance_local_tick (i : Instance_) (delta : N) : Instance_ :=
  mkInstance (inst_id i) (config i) (entities i) (components i) (scheduler i) (id_counters i) (ledger i)
    (inflight_refs i) (signal_inbox i) (inbox_seq i) (wall_remainder i) (sat_add64 (local_tick i) delta).

(** [deliver_signal]: enqueue under the next [inbox_seq]. *)
Definition deliver_signal (i : Instance_) (route : RouteId) (signal : InboundSignal) : N * Instance_ :=
  let seq := inbox_seq i in
  let signal' := mkSignal (sig_from signal) (sig_principal signal) (sig_payload signal) seq in
  (seq, mkInstance (inst_id i) (config i) (entities i) (components i) (scheduler i) (id_counters i) (ledger i)
    (inflight_refs i) (<[route := default [] (signal_inbox i !! route) ++ [signal']]> (signal_inbox i))
    (sat_add64 (inbox_seq i) 1) (wall_remainder i) (local_tick i)).

(** ** Snapshot and digest *)

(** [to_snapshot], [from_snapshot]. *)
Definition to_snapshot (i : Instance_) : InstanceSnapshot :=
  mkSnapshot (inst_id i) (config i) (entities i) (components i) (scheduler i) (id_counters i) (ledger i)
    (inflight_refs i) (signal_inbox i) (inbox_seq i) (wall_remainder i) (local_tick i).
Definition from_snapshot (s : InstanceSnapshot) : Instance_ :=
  mkInstance (snap_id s) (snap_config s) (snap_entities s) (snap_components s) (snap_scheduler s)
    (snap_id_counters s) (snap_ledger s) (snap_inflight_refs s) (snap_signal_inbox s)
    (snap_inbox_seq s) (snap_wall_remainder s) (snap_local_tick s).

(** [state_digest]: the hash of the encoded snapshot, zero if encoding fails. *)
Definition state_digest `{Postcard InstanceSnapshot, Blake3} (i : Instance_) : bytes :=
  match to_allocvec (to_snapshot i) with
  | Ok bs => blake3_hash bs
  | Err _ => zero32
  end.

(** ** Action context ([state/context.rs]) *)

Record ActionContext : Type := mkContext {
  ctx_actor : option EntityId;
  ctx_now : Tick;
  ctx_instance_id : InstanceId;
  ctx_instance : Instance_
}.

(** [ActionContext::new] and its accessors. *)
Definition ActionContext_new (actor : option EntityId) (now : Tick) (id : InstanceId)
    (i : Instance_) : ActionContext := mkContext actor now id i.
Definition ctx_entities_len (c : ActionContext) : N := entities_len (ctx_instance c).
Definition ctx_components_len (c : ActionContext) : N := components_len (ctx_instance c).
Definition ctx_local_tick (c : ActionContext) : N := local_tick (ctx_instance c).

(** ** Read view ([runtime/view.rs]) *)

Record InstanceView : Type := mkView { view_instance : Instance_ }.

Definition view_id (v : InstanceView) : InstanceId := inst_id (view_instance v).
Definition view_entity_count (v : InstanceView) : N := entities_len (view_instance v).
Definition view_component_count (v : InstanceView) : N := components_len (view_instance v).
Definition view_local_tick (v : InstanceView) : N := local_tick (view_instance v).
Definition view_entity_meta (v : InstanceView) (e : EntityId) : option EntityMeta :=
  entity_meta (view_instance v) e.
Definition view_component (v : InstanceView) (e : EntityId) (tc : TypeCode) : option bytes :=
  component (view_instance v) e tc.
Definition view_entities (v : InstanceView) : list (EntityId * EntityMeta) :=
  entities_iter (view_instance v).
Definition view_components_by_type (v : InstanceView) (tc : TypeCode) : list (EntityId * bytes) :=
  components_by_type_iter (view_instance v) tc.

(** ** Lemmas *)

Lemma from_to_snapshot i : from_snapshot (to_snapshot i) = i.
Proof. by destruct i. Qed.

Lemma to_from_snapshot s : to_snapshot (from_snapshot s) = s.
Proof. by destruct s. Qed.

Lemma fold_delete_lookup {A} (keys : list (positive * N)) (m : gmap (positive * N) A) k :
  fold_left (λ m k, delete k m) keys m !! k = if decide (k ∈ keys) then None else m !! k.
Proof.
  revert m. induction keys as [|k0 keys IH]; intros m; cbn [fold_left]; [done|].
  rewrite IH. destruct (decide (k = k0)) as [->|Hne].
  - rewrite (decide_True (P := k0 ∈ k0 :: keys)) by left. rewrite lookup_delete_eq. by case_match.
  - rewrite lookup_delete_ne by done. apply decide_ext. rewrite elem_of_cons. tauto.
Qed.

Lemma remove_entity_components i id k :
  components (remove_entity i id).2 !! k = if decide (k.1 = id) then None else components i !! k.
Proof.
  cbn. rewrite fold_delete_lookup. destruct (decide (k.1 = id)) as [Hk|Hk].
  - destruct (decide (k ∈ _)) as [Hin|Hin]; [done|]. destruct (components i !! k) eqn:E; [|done].
    destruct Hin. apply list_elem_of_fmap. eexists (k, _). split; [done|].
    by apply elem_of_range_of_entity.
  - rewrite decide_False; [done|]. intros ([k' a] & -> & Hin)%list_elem_of_fmap.
    by apply elem_of_range_of_entity in Hin as [? _].
Qed.
