(* ===== verification/Event.v ===== *)
(** * Kernel events and observer masks

    Models [src/arkhe-kernel/src/runtime/event.rs]. *)
From S2P Require Import Prelude Abi Scheduler.

Local Open Scope N_scope.

Inductive SignalDropReason : Type := QueueFull | TargetNotFound | Cancelled.
Inductive DeferReason : Type := SchedulerBusy | BudgetExceeded.

Inductive KernelEvent : Type :=
  | ActionExecuted (instance : InstanceId) (action_type : TypeCode) (at_ : Tick)
  | ActionFailed (instance : InstanceId) (action_type : TypeCode) (reason : bytes)
  | EffectFailed (instance : InstanceId) (reason : bytes)
  | ObserverPanic (observer_index : N)
  | ObserverEvicted (observer_index : N) (panic_at_seq : N) (panic_count_before_eviction : N)
  | SignalDropped (target : InstanceId) (route : RouteId) (reason : SignalDropReason)
  | ModuleForceUnloaded (route_id : RouteId) (live_refs_at_unload : N)
  | ActionDeferredToNextTick (action_id : ScheduledActionId) (reason : DeferReason)
  | ObserversFlushed (barrier_ticket : N) (event_count : N)
  | DomainEventEmitted (instance : InstanceId) (actor : option EntityId) (event_type_code : TypeCode)
      (bs : bytes)
  | SignalDelivered (from : InstanceId) (target : InstanceId) (route : RouteId).

#[global] Instance SignalDropReason_eq_dec : EqDecision SignalDropReason.
Proof. solve_decision. Defined.
#[global] Instance DeferReason_eq_dec : EqDecision DeferReason.
Proof. solve_decision. Defined.
#[global] Instance KernelEvent_eq_dec : EqDecision KernelEvent.
Proof. solve_decision. Defined.

(** [ObserverHandle]. *)
Abbreviation ObserverHandle := N (only parsing).

(** [EventMask]: one bit per variant. *)
Abbreviation EventMask := N (only parsing).

Definition EM_ACTION_EXECUTED : EventMask := N.shiftl 1 0.
Definition EM_ACTION_FAILED : EventMask := N.shiftl 1 1.
Definition EM_EFFECT_FAILED : EventMask := N.shiftl 1 2.
Definition EM_OBSERVER_PANIC : EventMask := N.shiftl 1 3.
Definition EM_OBSERVER_EVICTED : EventMask := N.shiftl 1 4.
Definition EM_SIGNAL_DROPPED : EventMask := N.shiftl 1 5.
Definition EM_MODULE_FORCE_UNLOADED : EventMask := N.shiftl 1 6.
Definition EM_ACTION_DEFERRED : EventMask := N.shiftl 1 7.
Definition EM_OBSERVERS_FLUSHED : EventMask := N.shiftl 1 8.
Definition EM_DOMAIN_EVENT_EMITTED : EventMask := N.shiftl 1 9.
Definition EM_SIGNAL_DELIVERED : EventMask := N.shiftl 1 10.
Definition EM_ALL : EventMask := 0x7FF.

(** [impl Default for EventMask]. *)
Definition EventMask_default : EventMask := EM_ALL.

(** [EventMask::contains] on the bits. *)
Definition mask_contains (m b : EventMask) : bool := bool_decide (N.land m b = b).

(** The bit of each variant. *)
Definition event_bit (event : KernelEvent) : EventMask :=
  match event with
  | ActionExecuted _ _ _ => EM_ACTION_EXECUTED
  | ActionFailed _ _ _ => EM_ACTION_FAILED
  | EffectFailed _ _ => EM_EFFECT_FAILED
  | ObserverPanic _ => EM_OBSERVER_PANIC
  | ObserverEvicted _ _ _ => EM_OBSERVER_EVICTED
  | SignalDropped _ _ _ => EM_SIGNAL_DROPPED
  | ModuleForceUnloaded _ _ => EM_MODULE_FORCE_UNLOADED
  | ActionDeferredToNextTick _ _ => EM_ACTION_DEFERRED
  | ObserversFlushed _ _ => EM_OBSERVERS_FLUSHED
  | DomainEventEmitted _ _ _ _ => EM_DOMAIN_EVENT_EMITTED
  | SignalDelivered _ _ _ => EM_SIGNAL_DELIVERED
  end.

(** [EventMask::matches]. *)
Definition mask_matches (m : EventMask) (event : KernelEvent) : bool := mask_contains m (event_bit event).

(** Is this event a domain emission? ([matches!(e, DomainEventEmitted { .. })]) *)
Definition is_domain_event (event : KernelEvent) : bool :=
  match event with DomainEventEmitted _ _ _ _ => true | _ => false end.

(** ** Lemmas *)

Lemma mask_all_matches event : mask_matches EM_ALL event = true.
Proof. destruct event; reflexivity. Qed.

Lemma mask_matches_single e1 e2 : mask_matches (event_bit e1) e2 = bool_decide (event_bit e1 = event_bit e2).
Proof. destruct e1, e2; reflexivity. Qed.
