(* ===== verification/Observer.v ===== *)
(** * Observer registry

    Models [src/arkhe-kernel/src/runtime/observer.rs]. An observer is a trait
    object with interior state and effects of its own, possibly shared with
    other observers. All the kernel sees of it is whether [on_event] panics,
    and that can depend on everything delivered before: an observer is a
    predicate of the delivery log so far and the event. The log itself
    ([deliveries]) is kept beside the registry's own fields. *)
From S2P Require Import Prelude Abi Scheduler Event.

Local Open Scope N_scope.

(** [KernelObserver::on_event], seen from the kernel: [true] is a panic. *)
Definition KernelObserver : Type := list (ObserverHandle * KernelEvent) → KernelEvent → bool.

Record ObserverSlot : Type := mkSlot { slot_observer : KernelObserver; slot_mask : EventMask }.

Record ObserverRegistry : Type := mkRegistry {
  slots : gmap ObserverHandle ObserverSlot;
  evicted : gset ObserverHandle;
  next_handle : N;
  deliveries : list (ObserverHandle * KernelEvent)
}.

(** [ObserverRegistry::new]. *)
Definition ObserverRegistry_new : ObserverRegistry := mkRegistry ∅ ∅ 0 [].

(** [register_filtered]. *)
Definition register_filtered (r : ObserverRegistry) (obs : KernelObserver) (mask : EventMask)
    : ObserverHandle * ObserverRegistry :=
  let h := next_handle r in
  (h, mkRegistry (<[h := mkSlot obs mask]> (slots r)) (evicted r) (sat_add64 (next_handle r) 1)
        (deliveries r)).

(** [register]. *)
Definition register_all (r : ObserverRegistry) (obs : KernelObserver)
    : ObserverHandle * ObserverRegistry := register_filtered r obs EM_ALL.

(** One turn of the [deliver] loop: skip evicted, missing and filtered
    handles; call the observer under [catch_unwind]; evict on panic. *)
Definition deliver_one (event : KernelEvent) (st : list ObserverHandle * ObserverRegistry)
    (handle : ObserverHandle) : list ObserverHandle * ObserverRegistry :=
  let '(newly_evicted, r) := st in
  if decide (handle ∈ evicted r) then (newly_evicted, r)
  else match slots r !! handle with
  | None => (newly_evicted, r)
  | Some slot =>
      if negb (mask_matches (slot_mask slot) event) then (newly_evicted, r)
      else
        let panicked := slot_observer slot (deliveries r) event in
        let log := deliveries r ++ [(handle, event)] in
        if panicked
        then (newly_evicted ++ [handle],
              mkRegistry (delete handle (slots r)) ({[handle]} ∪ evicted r) (next_handle r) log)
        else (newly_evicted, mkRegistry (slots r) (evicted r) (next_handle r) log)
  end.

(** [deliver]: ascending handles, over the keys present at the start. *)
Definition deliver (r : ObserverRegistry) (event : KernelEvent)
    : list ObserverHandle * ObserverRegistry :=
  fold_left (deliver_one event) (btree_keys (slots r)) ([], r).

Definition is_evicted (r : ObserverRegistry) (h : ObserverHandle) : bool :=
  bool_decide (h ∈ evicted r).
Definition observers_len (r : ObserverRegistry) : N := N.of_nat (size (slots r)).

(** ** Invariant *)

(** Live and evicted handles are disjoint and below the next handle. *)
Definition registry_wf (r : ObserverRegistry) : Prop :=
  (∀ h, is_Some (slots r !! h) → h ∉ evicted r ∧ h < next_handle r) ∧
  (∀ h, h ∈ evicted r → h < next_handle r).

(** The handles that [deliver] notifies. *)
Definition notified (r : ObserverRegistry) (event : KernelEvent) (h : ObserverHandle) : Prop :=
  h ∉ evicted r ∧ ∃ slot, slots r !! h = Some slot ∧ mask_matches (slot_mask slot) event = true.

#[global] Instance notified_dec r event h : Decision (notified r event h).
Proof.
  unfold notified. destruct (decide (h ∈ evicted r)); [right; tauto|].
  destruct (slots r !! h) as [slot|] eqn:E; [|right; intros (_ & ? & ? & _); done].
  destruct (mask_matches (slot_mask slot) event) eqn:Em; [left; eauto|].
  right. intros (_ & s & [= <-] & Hm). congruence.
Defined.

Lemma ObserverRegistry_new_wf : registry_wf ObserverRegistry_new.
Proof.
  split; intros h; cbn; [intros [? H]; by rewrite lookup_empty in H|intros H; by apply elem_of_empty in H].
Qed.

Lemma register_filtered_wf r obs mask :
  registry_wf r → next_handle r < U64_MAX → registry_wf (register_filtered r obs mask).2.
Proof.
  intros [H1 H2] Hlt. unfold register_filtered, registry_wf. cbn. unfold sat_add64. split.
  - intros h [s [[<- <-]|[Hne Hs]]%lookup_insert_Some].
    + split; [|lia]. intros Hin%H2. lia.
    + destruct (H1 h ltac:(eauto)). split; [done|lia].
  - intros h Hh%H2. lia.
Qed.

(** The observer of the [n]th handle of [hs] panics on the event, in the state
    the deliveries before its turn left it in. *)
Definition panics_at (r : ObserverRegistry) (event : KernelEvent) (hs : list ObserverHandle) (n : nat) : Prop :=
  ∃ h slot, hs !! n = Some h ∧ slots r !! h = Some slot ∧
    slot_observer slot (deliveries r ++ ((λ h', (h', event)) <$> take n hs)) event = true.

(** The first turn, and the turns after it. *)
Lemma panics_at_0 r event h hs slot :
  slots r !! h = Some slot → (panics_at r event (h :: hs) 0 ↔ slot_observer slot (deliveries r) event = true).
Proof.
  intros Hs. unfold panics_at. cbn [lookup list_lookup take fmap list_fmap]. rewrite app_nil_r.
  split; [intros (? & ? & [= <-] & Hs' & Hp); congruence|eauto].
Qed.

Lemma panics_at_S r r1 event h hs n :
  deliveries r1 = deliveries r ++ [(h, event)] → (∀ h', h' ∈ hs → slots r1 !! h' = slots r !! h') →
  panics_at r event (h :: hs) (S n) ↔ panics_at r1 event hs n.
Proof.
  intros Hd Hs. unfold panics_at. cbn [lookup list_lookup take fmap list_fmap]. rewrite Hd.
  setoid_rewrite <- app_assoc. cbn [app]. split; intros (h' & slot & Hn & Hl & Hp); exists h', slot;
    (split; [exact Hn|]); pose proof (list_elem_of_lookup_2 _ _ _ Hn) as Hin; specialize (Hs h' Hin);
    (split; [congruence|exact Hp]).
Qed.

(** One more handle in front: [gone1] is what the later turns evict. *)
Lemma panics_at_cons r r1 event h (hs : list ObserverHandle) slot (gone gone1 : list ObserverHandle) :
  slots r !! h = Some slot → deliveries r1 = deliveries r ++ [(h, event)] →
  (∀ h', h' ∈ hs → slots r1 !! h' = slots r !! h') →
  (h ∈ gone ↔ slot_observer slot (deliveries r) event = true) → (∀ h', h' ∈ hs → (h' ∈ gone ↔ h' ∈ gone1)) →
  (∀ n h', hs !! n = Some h' → (h' ∈ gone1 ↔ panics_at r1 event hs n)) →
  ∀ n h', (h :: hs) !! n = Some h' → (h' ∈ gone ↔ panics_at r event (h :: hs) n).
Proof.
  intros Hs Hd Hsl Hh Hrest IH [|n] h' Hn; cbn [lookup list_lookup] in Hn.
  - injection Hn as <-. by rewrite Hh, panics_at_0.
  - rewrite Hrest by (by eapply list_elem_of_lookup_2). rewrite (panics_at_S r r1) by done. by apply IH.
Qed.

Lemma deliver_one_skip event new r h : ¬ notified r event h → deliver_one event (new, r) h = (new, r).
Proof.
  intros Hn. unfold deliver_one. destruct (decide (h ∈ evicted r)) as [|He]; [done|].
  destruct (slots r !! h) as [slot|] eqn:E; [|done].
  destruct (mask_matches (slot_mask slot) event) eqn:Em; [|done].
  destruct Hn. split; [done|]. eauto.
Qed.

(** A turn of [h] does not change whom the later turns notify. *)
Lemma notified_filter_ext event r r1 h (hs : list ObserverHandle) :
  h ∉ hs → evicted r1 = evicted r ∨ evicted r1 = {[h]} ∪ evicted r →
  (∀ h', h' ≠ h → slots r1 !! h' = slots r !! h') →
  filter (notified r1 event) hs = filter (notified r event) hs.
Proof.
  intros Hh He Hsl. apply filter_ext_in. intros h' Hin. unfold notified.
  assert (h' ≠ h) by (intros ->; done). rewrite Hsl by done.
  destruct He as [-> | ->]; [done|]. rewrite not_elem_of_union, not_elem_of_singleton. tauto.
Qed.

(** The loop over a list of distinct handles. *)
Lemma deliver_loop event hs new r :
  NoDup hs → registry_wf r →
  ∃ gone r', fold_left (deliver_one event) hs (new, r) = (new ++ gone, r') ∧ registry_wf r' ∧
    deliveries r' = deliveries r ++ ((λ h, (h, event)) <$> filter (notified r event) hs) ∧
    (gone `sublist_of` filter (notified r event) hs) ∧
    (∀ n h, filter (notified r event) hs !! n = Some h →
       (h ∈ gone ↔ panics_at r event (filter (notified r event) hs) n)) ∧
    (∀ h, slots r' !! h = if decide (h ∈ gone) then None else slots r !! h) ∧
    (∀ h, h ∈ evicted r' ↔ h ∈ gone ∨ h ∈ evicted r) ∧ next_handle r' = next_handle r.
Proof.
  revert new r. induction hs as [|h hs IH]; intros new r Hnd Hwf.
  { exists [], r. cbn [fold_left]. rewrite !app_nil_r. split_and!; try done.
    intros h. split; [by right|]. intros [H|H]; [by apply elem_of_nil in H|done]. }
  apply NoDup_cons in Hnd as [Hh Hnd]. cbn [fold_left].
  rewrite filter_cons. destruct (decide (notified r event h)) as [Hn|Hn].
  - destruct Hn as [Hne (slot & Hs & Hm)].
    unfold deliver_one at 2. rewrite decide_False, Hs, Hm by done. simpl.
    destruct (slot_observer slot (deliveries r) event) eqn:Hp.
    + set (r1 := mkRegistry _ _ _ _).
      destruct (IH (new ++ [h]) r1 Hnd) as (gone & r' & Hf & Hwf' & Hd & Hsub & Hpan & Hsl & Hev & Hnh).
      { destruct Hwf as [W1 W2]. split; subst r1; simpl.
        - intros h' [s [Hne' Hs']%lookup_delete_Some]. destruct (W1 h' ltac:(eauto)).
          split; [|done]. rewrite not_elem_of_union, not_elem_of_singleton. done.
        - intros h' [->%elem_of_singleton|Hin]%elem_of_union; [|by apply W2].
          by destruct (W1 h ltac:(eauto)). }
      assert (filter (notified r1 event) hs = filter (notified r event) hs) as Hf1
        by (apply (notified_filter_ext _ _ _ h); [done|by right|intros; subst r1; simpl; by rewrite lookup_delete_ne]).
      rewrite Hf1 in Hd, Hsub, Hpan.
      exists (h :: gone), r'. rewrite Hf, <- app_assoc. pose proof (panics_at_cons r r1 event h) as Hcons.
      subst r1; cbn [slots deliveries evicted next_handle] in *.
      split_and!; try done.
      * by rewrite Hd, <- app_assoc.
      * by constructor.
      * apply (Hcons _ slot _ gone); try done.
        -- intros h' [_ Hin]%list_elem_of_filter. rewrite lookup_delete_ne by congruence. done.
        -- split; [done|by left].
        -- intros h' [_ Hin]%list_elem_of_filter. rewrite elem_of_cons. split; [intros [->|?]; done|by right].
      * intros h'. rewrite Hsl. destruct (decide (h' = h)) as [->|Hne'].
        -- rewrite (decide_True (P := h ∈ h :: gone)) by left. rewrite lookup_delete_eq. by case_match.
        -- rewrite lookup_delete_ne by done. apply decide_ext. rewrite elem_of_cons. tauto.
      * intros h'. rewrite Hev, elem_of_cons, elem_of_union, elem_of_singleton. tauto.
    + set (r1 := mkRegistry _ _ _ _).
      destruct (IH new r1 Hnd Hwf) as (gone & r' & Hf & Hwf' & Hd & Hsub & Hpan & Hsl & Hev & Hnh).
      rewrite (notified_filter_ext event r r1 h) in Hd, Hsub, Hpan by auto.
      exists gone, r'. rewrite Hf. pose proof (panics_at_cons r r1 event h) as Hcons.
      subst r1; cbn [slots deliveries evicted next_handle] in *. split_and!; try done.
      * by rewrite Hd, <- app_assoc.
      * by apply sublist_cons.
      * apply (Hcons _ slot _ gone); try done.
        rewrite Hp. split; [|done]. intros Hin. pose proof (elem_of_sublist _ _ _ Hin Hsub) as Hin'.
        by apply list_elem_of_filter in Hin' as [_ ?].
  - rewrite deliver_one_skip by done. by apply IH.
Qed.

Lemma deliver_wf r event : registry_wf r → registry_wf (deliver r event).2.
Proof.
  intros Hwf. unfold deliver.
  destruct (deliver_loop event (btree_keys (slots r)) [] r (btree_keys_NoDup _) Hwf)
    as (gone & r' & -> & H & _). done.
Qed.

(** What a delivery evicts is what the registry loses. *)
Lemma deliver_evicts r event :
  registry_wf r → len (deliver r event).1 + observers_len (deliver r event).2 = observers_len r.
Proof.
  intros Hwf. unfold deliver.
  destruct (deliver_loop event (btree_keys (slots r)) [] r (btree_keys_NoDup _) Hwf)
    as (gone & r' & -> & _ & _ & Hsub & _ & Hsl & _). cbn [fst snd app]. unfold observers_len, len.
  assert (NoDup gone) as Hnd by (refine (sublist_NoDup _ _ _ Hsub); apply NoDup_filter, btree_keys_NoDup).
  assert (∀ h, h ∈ gone → is_Some (slots r !! h)) as Hin.
  { intros h Hh. apply elem_of_btree_keys. pose proof (elem_of_sublist _ _ _ Hh Hsub) as Hf.
    by apply list_elem_of_filter in Hf as [_ ?]. }
  assert (slots r' = foldr delete (slots r) gone) as ->.
  { apply map_eq. intros h. rewrite Hsl. case_decide; [by rewrite lookup_foldr_delete|by rewrite lookup_foldr_delete_not_elem_of]. }
  clear Hsub Hsl. induction Hnd as [|h gone Hnin Hnd IH]; [cbn; lia|]. cbn [foldr length].
  rewrite <- IH by (intros; apply Hin; by right). destruct (Hin h) as [slot Hs]; [by left|].
  rewrite map_size_delete, lookup_foldr_delete_not_elem_of, Hs by done. cbn.
  assert (size (foldr delete (slots r) gone) ≠ 0%nat); [|lia]. intros H0%map_size_empty_inv.
  assert (foldr delete (slots r) gone !! h = Some slot) as Hl by by rewrite lookup_foldr_delete_not_elem_of.
  by rewrite H0, lookup_empty in Hl.
Qed.

(** ** Properties *)

(** C34: delivery and first-panic eviction. [deliver] notifies, in ascending
    handle order and once each, exactly the live observers whose mask selects
    the event. The handles it returns are those, and only those, whose observer
    panics on the event in the state the earlier deliveries (this call's
    included) left it in; in handle order, they leave the slots and join the
    evicted set, are never notified again, and every other slot and eviction
    stays. *)
Theorem deliver_exact r event :
  registry_wf r →
  let hs := filter (notified r event) (btree_keys (slots r)) in
  let '(gone, r') := deliver r event in
  registry_wf r' ∧
  deliveries r' = deliveries r ++ ((λ h, (h, event)) <$> hs) ∧
  (gone `sublist_of` hs) ∧ (∀ n h, hs !! n = Some h → (h ∈ gone ↔ panics_at r event hs n)) ∧
  (∀ h, slots r' !! h = if decide (h ∈ gone) then None else slots r !! h) ∧
  (∀ h, h ∈ evicted r' ↔ h ∈ gone ∨ h ∈ evicted r) ∧
  (∀ h event', h ∈ gone → ¬ notified r' event' h).
Proof.
  intros Hwf hs. unfold deliver.
  destruct (deliver_loop event (btree_keys (slots r)) [] r (btree_keys_NoDup _) Hwf)
    as (gone & r' & -> & H1 & H2 & H3 & H4 & H5 & H6 & _).
  simpl. split_and!; try done. intros h event' Hin [Hne _]. apply Hne, H6. by left.
Qed.

(** Three observers: the second panics as soon as the first was notified, the
    third does not panic; exactly the second is evicted. *)
Definition ex_registry : ObserverRegistry :=
  let r0 := (register_all ObserverRegistry_new (λ _ _, false)).2 in
  let r1 := (register_all r0 (λ log _, bool_decide (log ≠ []))).2 in
  (register_all r1 (λ _ _, false)).2.

Lemma deliver_exact_witness :
  registry_wf ex_registry ∧
  ∃ gone r', deliver ex_registry (ObserverPanic 3) = (gone, r') ∧ registry_wf r' ∧
    gone = [1] ∧ deliveries r' = [(0, ObserverPanic 3); (1, ObserverPanic 3); (2, ObserverPanic 3)].
Proof.
  assert (registry_wf ex_registry) as H
    by (repeat (apply register_filtered_wf; [|reflexivity]); exact ObserverRegistry_new_wf).
  split; [exact H|]. pose proof (deliver_exact ex_registry (ObserverPanic 3) H) as Hd. cbv zeta in Hd.
  destruct (deliver ex_registry (ObserverPanic 3)) as [gone r'] eqn:E. destruct Hd as (Hw & Hl & _).
  exists gone, r'. split; [reflexivity|]. split; [exact Hw|].
  split; [vm_compute in E; injection E as <- _; reflexivity|].
  rewrite Hl. vm_compute. reflexivity.
Defined.
