(* ===== verification/Stage.v ===== *)
(** * Step stage

    Models [src/arkhe-kernel/src/runtime/stage.rs]: the nine staging buckets
    of one step, [clear], and the byte projection used by the memory budget. *)
From S2P Require Import Prelude Abi Authz Ledger Scheduler Instance Event.

Local Open Scope N_scope.

(** ** Data *)

Inductive StagedStateDelta : Type :=
  | SD_SpawnEntity (id : EntityId) (meta : EntityMeta)
  | SD_DespawnEntity (id : EntityId)
  | SD_SetComponent (entity : EntityId) (type_code : TypeCode) (bs : bytes) (size : N)
  | SD_RemoveComponent (entity : EntityId) (type_code : TypeCode) (size : N).

Inductive ScheduledEntryDelta : Type :=
  | SchedAdd (entry : ScheduledEntry)
  | SchedRemove (id : ScheduledActionId).

Record PendingSignal : Type := mkPending {
  ps_target : InstanceId;
  ps_route : RouteId;
  ps_payload : bytes;
  ps_principal : Principal
}.

Record IdCountersDelta : Type := mkCountersDelta {
  next_entity_advance : N;
  next_scheduled_advance : N;
  next_source_seq_advance : N
}.

Inductive LedgerOp : Type :=
  | LO_AddEntity (id : EntityId)
  | LO_RemoveEntity (id : EntityId)
  | LO_AddComponent (entity : EntityId) (type_code : TypeCode) (size : N)
  | LO_RemoveComponent (entity : EntityId) (type_code : TypeCode) (size : N).

Record ResourceLedgerDelta : Type := mkLedgerDelta { ledger_ops : list LedgerOp }.

Record StepStage : Type := mkStage {
  state_ops : list StagedStateDelta;
  events : list KernelEvent;
  schedule_deltas : list ScheduledEntryDelta;
  pending_signals : list PendingSignal;
  stage_id_counters : IdCountersDelta;
  ledger_delta : ResourceLedgerDelta;
  wall_remainder_delta : N;
  local_tick_delta : N;
  observer_eviction_pending : list ObserverHandle
}.

(** [StepStage::default]. *)
Definition StepStage_default : StepStage :=
  mkStage [] [] [] [] (mkCountersDelta 0 0 0) (mkLedgerDelta []) 0 0 [].

(** [StepStage::clear]: every bucket reset. *)
Definition clear (s : StepStage) : StepStage :=
  {| state_ops := [];
     events := [];
     schedule_deltas := [];
     pending_signals := [];
     stage_id_counters := mkCountersDelta 0 0 0;
     ledger_delta := mkLedgerDelta [];
     wall_remainder_delta := 0;
     local_tick_delta := 0;
     observer_eviction_pending := [] |}.

(** The body of the projection loop. *)
Definition project_ledger_op (l : ResourceLedger) (total : N) (op : LedgerOp) : N :=
  match op with
  | LO_AddComponent _ _ size => sat_add64 total size
  | LO_RemoveComponent entity type_code _ =>
      let freed := default 0 (component_size l entity type_code) in
      sat_sub total freed
  | LO_AddEntity _ | LO_RemoveEntity _ => total
  end.

(** [projected_component_bytes]. *)
Definition projected_component_bytes (baseline : N) (stage : StepStage) (l : ResourceLedger) : N :=
  fold_left (project_ledger_op l) (ledger_ops (ledger_delta stage)) baseline.

(** ** Bucket updates (the [push] calls of the dispatcher) *)

Definition push_state (s : StepStage) (d : StagedStateDelta) (l : LedgerOp) : StepStage :=
  mkStage (state_ops s ++ [d]) (events s) (schedule_deltas s) (pending_signals s) (stage_id_counters s)
    (mkLedgerDelta (ledger_ops (ledger_delta s) ++ [l])) (wall_remainder_delta s) (local_tick_delta s)
    (observer_eviction_pending s).
Definition push_event (s : StepStage) (e : KernelEvent) : StepStage :=
  mkStage (state_ops s) (events s ++ [e]) (schedule_deltas s) (pending_signals s) (stage_id_counters s)
    (ledger_delta s) (wall_remainder_delta s) (local_tick_delta s) (observer_eviction_pending s).
Definition push_schedule (s : StepStage) (d : ScheduledEntryDelta) : StepStage :=
  mkStage (state_ops s) (events s) (schedule_deltas s ++ [d]) (pending_signals s) (stage_id_counters s)
    (ledger_delta s) (wall_remainder_delta s) (local_tick_delta s) (observer_eviction_pending s).
Definition push_signal (s : StepStage) (p : PendingSignal) : StepStage :=
  mkStage (state_ops s) (events s) (schedule_deltas s) (pending_signals s ++ [p]) (stage_id_counters s)
    (ledger_delta s) (wall_remainder_delta s) (local_tick_delta s) (observer_eviction_pending s).
Definition set_stage_counters (s : StepStage) (c : IdCountersDelta) : StepStage :=
  mkStage (state_ops s) (events s) (schedule_deltas s) (pending_signals s) c
    (ledger_delta s) (wall_remainder_delta s) (local_tick_delta s) (observer_eviction_pending s).

(** ** Lemmas *)

Lemma clear_default s : clear s = StepStage_default.
Proof. done. Qed.

(** Ledger operations on the ledger itself (the loop body of [apply_stage]). *)
Definition apply_ledger_op (l : ResourceLedger) (op : LedgerOp) : ResourceLedger :=
  match op with
  | LO_AddEntity id => (ledger_add_entity l id).2
  | LO_RemoveEntity id => (ledger_remove_entity l id).2
  | LO_AddComponent entity type_code size => (ledger_add_component l entity type_code size).2
  | LO_RemoveComponent entity type_code size => (ledger_remove_component l entity type_code size).2
  end.

Lemma apply_ledger_op_closed l op : ledger_closed l → ledger_closed (apply_ledger_op l op).
Proof. destruct op; cbn [apply_ledger_op]; auto with arkhe. Qed.

Lemma apply_ledger_op_bounded l op : ledger_bounded l → ledger_bounded (apply_ledger_op l op).
Proof. destruct op; cbn [apply_ledger_op]; [done|auto with arkhe..]. Qed.

Lemma apply_ledger_op_exact l op :
  ledger_exact l → map_sum (component_sizes (apply_ledger_op l op)) ≤ U64_MAX → ledger_exact (apply_ledger_op l op).
Proof. destruct op; cbn [apply_ledger_op]; [done|auto with arkhe..]. Qed.

#[export] Hint Resolve apply_ledger_op_closed apply_ledger_op_bounded apply_ledger_op_exact : arkhe.
