(* ===== verification/Dispatch.v ===== *)
(** * Effect dispatcher

    Models [src/arkhe-kernel/src/runtime/dispatch.rs]: one authorized effect
    becomes writes of the step stage; no instance is touched. *)
From S2P Require Import Prelude Abi Authz Ledger Scheduler Instance Event Stage.

Local Open Scope N_scope.

(** [dispatch]: the new stage and the advanced [next_scheduled_id]. *)
Definition dispatch (effect : Effect Authorized) (stage : StepStage) (now : Tick)
    (next_scheduled_id : N) (parent_caps : CapabilityMask) : Outcome (StepStage * N) :=
  let instance_id := eff_instance_id effect in
  let effect_principal := eff_principal effect in
  let c := stage_id_counters stage in
  match eff_op effect with
  | SpawnEntity id owner =>
      let stage1 := push_state stage (SD_SpawnEntity id (mkMeta owner now)) (LO_AddEntity id) in
      mret (set_stage_counters stage1
              (mkCountersDelta (sat_add64 (next_entity_advance c) 1) (next_scheduled_advance c)
                 (next_source_seq_advance c)),
            next_scheduled_id)
  | DespawnEntity id =>
      mret (push_state stage (SD_DespawnEntity id) (LO_RemoveEntity id), next_scheduled_id)
  | SetComponent entity type_code bs size =>
      mret (push_state stage (SD_SetComponent entity type_code bs size)
              (LO_AddComponent entity type_code size), next_scheduled_id)
  | RemoveComponent entity type_code size =>
      mret (push_state stage (SD_RemoveComponent entity type_code size)
              (LO_RemoveComponent entity type_code size), next_scheduled_id)
  | EmitEvent actor event_type_code event_bytes =>
      mret (push_event stage (DomainEventEmitted instance_id actor event_type_code event_bytes),
            next_scheduled_id)
  | ScheduleAction at_ actor action_type_code action_bytes =>
      let next' := sat_add64 next_scheduled_id 1 in
      id ← expect "next_scheduled_id incremented before use; non-zero" (ScheduledActionId_new next');
      let stage1 := push_schedule stage
        (SchedAdd (mkEntry id at_ actor effect_principal action_type_code action_bytes parent_caps)) in
      mret (set_stage_counters stage1
              (mkCountersDelta (next_entity_advance c) (sat_add64 (next_scheduled_advance c) 1)
                 (next_source_seq_advance c)),
            next')
  | SendSignal target route payload =>
      mret (push_signal stage (mkPending target route payload effect_principal), next_scheduled_id)
  end.

(** ** Stage invariants *)

(** The ledger operation that mirrors a state operation. *)
Definition mirror (d : StagedStateDelta) : LedgerOp :=
  match d with
  | SD_SpawnEntity id _ => LO_AddEntity id
  | SD_DespawnEntity id => LO_RemoveEntity id
  | SD_SetComponent e tc _ size => LO_AddComponent e tc size
  | SD_RemoveComponent e tc size => LO_RemoveComponent e tc size
  end.

Definition is_spawn (d : StagedStateDelta) : bool :=
  match d with SD_SpawnEntity _ _ => true | _ => false end.

(** Number of spawns staged. *)
Definition spawns (l : list StagedStateDelta) : N := len (filter (λ d, is_spawn d = true) l).

Lemma spawns_app l1 l2 : spawns (l1 ++ l2) = spawns l1 + spawns l2.
Proof. unfold spawns. rewrite filter_app. apply len_app. Qed.

(** A scheduled child carries the parent's principal and capabilities. *)
Definition delta_child (principal : Principal) (caps : CapabilityMask) (d : ScheduledEntryDelta) : Prop :=
  ∃ e, d = SchedAdd e ∧ se_principal e = principal ∧ se_caps_ceiling e = caps.

(** The ids of the staged schedules are consecutive from [base]. *)
Fixpoint consecutive_ids (base : N) (l : list ScheduledEntryDelta) : Prop :=
  match l with
  | [] => True
  | SchedAdd e :: l' => ScheduledActionId_get (se_id e) = base + 1 ∧ consecutive_ids (base + 1) l'
  | SchedRemove _ :: _ => False
  end.

Lemma consecutive_ids_snoc base l e :
  consecutive_ids base l → ScheduledActionId_get (se_id e) = base + len l + 1 →
  consecutive_ids base (l ++ [SchedAdd e]).
Proof.
  revert base. induction l as [|[e'|id] l IH]; intros base; simpl.
  - intros _ H. split; [|done]. rewrite H. unfold len. simpl. lia.
  - intros [H1 H2] H3. split; [done|]. apply IH; [done|]. rewrite H3, len_cons. lia.
  - done.
Qed.

(** What every stage built by the dispatcher satisfies: the ledger bucket
    mirrors the state bucket, the counters count what is staged (clamped), and
    every schedule delta is a child of the running action; signals carry its
    principal. *)
Record stage_ok (principal : Principal) (caps : CapabilityMask) (s : StepStage) : Prop := {
  so_mirror : ledger_ops (ledger_delta s) = mirror <$> state_ops s;
  so_spawns : next_entity_advance (stage_id_counters s) = N.min (spawns (state_ops s)) U64_MAX;
  so_scheds : next_scheduled_advance (stage_id_counters s) = N.min (len (schedule_deltas s)) U64_MAX;
  so_children : Forall (delta_child principal caps) (schedule_deltas s);
  so_quiet : wall_remainder_delta s = 0 ∧ local_tick_delta s = 0 ∧ next_source_seq_advance (stage_id_counters s) = 0;
  so_signals : Forall (λ p, ps_principal p = principal) (pending_signals s)
}.

Lemma StepStage_default_ok principal caps : stage_ok principal caps StepStage_default.
Proof. by split. Qed.

Lemma push_event_ok p c s e : stage_ok p c s → stage_ok p c (push_event s e).
Proof. intros []. by split. Qed.

(** The dispatcher never panics. *)
Lemma dispatch_total eff s now n c : ∃ r, dispatch eff s now n c = Done r.
Proof.
  unfold dispatch. destruct (eff_op eff); try by eexists.
  destruct (sat_succ_nonzero n) as (p & Hp & _). unfold ScheduledActionId_new. rewrite Hp. by eexists.
Qed.

Lemma dispatch_ok eff s now n c s' n' :
  stage_ok (eff_principal eff) c s → dispatch eff s now n c = Done (s', n') →
  stage_ok (eff_principal eff) c s'.
Proof.
  intros [M Sp Sc Ch Q Sg] H. unfold dispatch in H. destruct (eff_op eff) eqn:E;
    try (injection H as <- _; split; cbn in *; rewrite ?M, ?fmap_app; try done;
         try (apply Forall_app; split; [done|by constructor]);
         rewrite ?Sp, ?spawns_app; unfold spawns, len, sat_add64; simpl; unfold U64_MAX; lia).
  apply bind_Done in H as (id & Hid & H). injection H as <- _. split; cbn in *; try done.
  - rewrite Sc, len_app. unfold len, sat_add64, U64_MAX. simpl. lia.
  - apply Forall_app. split; [done|]. constructor; [|constructor]. eexists. split; [done|]. done.
Qed.

(** The ledger operation [dispatch] stages for an operation. *)
Definition staged_ledger_op (op : Op) : list LedgerOp :=
  match op with
  | SpawnEntity id _ => [LO_AddEntity id]
  | DespawnEntity id => [LO_RemoveEntity id]
  | SetComponent e tc _ size => [LO_AddComponent e tc size]
  | RemoveComponent e tc size => [LO_RemoveComponent e tc size]
  | _ => []
  end.

Lemma dispatch_ledger_ops e s now n c s' n' :
  dispatch e s now n c = Done (s', n') →
  ledger_ops (ledger_delta s') = ledger_ops (ledger_delta s) ++ staged_ledger_op (eff_op e).
Proof.
  intros H. unfold dispatch in H. destruct (eff_op e) eqn:E;
    try (injection H as <- _; cbn; by rewrite ?app_nil_r).
  apply bind_Done in H as (id & _ & H). injection H as <- _. cbn. by rewrite app_nil_r.
Qed.

(** The ids minted so far from [base]: the counter is [base] plus the staged
    schedules (clamped), and below the clamp the ids are consecutive. *)
Definition ids_ok (base : N) (s : StepStage) (n : N) : Prop :=
  n = N.min (base + len (schedule_deltas s)) U64_MAX ∧
  (base + len (schedule_deltas s) < U64_MAX → consecutive_ids base (schedule_deltas s)).

Lemma dispatch_ids base eff s now n c s' n' :
  ids_ok base s n → dispatch eff s now n c = Done (s', n') → ids_ok base s' n'.
Proof.
  intros [Hn Hc] H. unfold dispatch in H. destruct (eff_op eff) eqn:E;
    try (injection H as <- <-; done).
  apply bind_Done in H as (id & Hid & H). injection H as <- <-. unfold ids_ok. cbn.
  apply expect_Done in Hid. assert (Npos id = sat_add64 n 1) as Hid'.
  { unfold ScheduledActionId_new, NonZero_new in Hid. destruct (sat_add64 n 1); congruence. }
  rewrite len_app, len_cons. change (len []) with 0. unfold sat_add64 in *. split; [lia|].
  intros Hlt. apply consecutive_ids_snoc; [apply Hc; lia|]. unfold ScheduledActionId_get. cbn. lia.
Qed.
