(* ===== verification/Apply.v ===== *)
(** * Stage application

    Models [src/arkhe-kernel/src/runtime/apply.rs]: [apply_stage] commits the
    buckets of a stage to an instance in the canonical order and returns the
    drained outbound signals. *)
From S2P Require Import Prelude Abi Authz Ledger Scheduler Instance Event Stage Dispatch.

Local Open Scope N_scope.

(** Step 1: [id_counters]. *)
Definition apply_counters (i : Instance_) (d : IdCountersDelta) : Instance_ :=
  let c := id_counters i in
  with_id_counters i
    (mkCounters (sat_add64 (next_entity c) (next_entity_advance d))
       (sat_add64 (next_scheduled c) (next_scheduled_advance d))
       (sat_add64 (next_source_seq c) (next_source_seq_advance d))).

(** Step 2: one state operation; a component of an unknown entity is dropped. *)
Definition apply_state_op (i : Instance_) (op : StagedStateDelta) : Instance_ :=
  match op with
  | SD_SpawnEntity id meta => insert_entity i id meta
  | SD_DespawnEntity id => (remove_entity i id).2
  | SD_SetComponent entity type_code bs _ =>
      match entity_meta i entity with
      | Some _ => insert_component i (entity, type_code) bs
      | None => i
      end
  | SD_RemoveComponent entity type_code _ => (remove_component i (entity, type_code)).2
  end.

(** Step 4: one scheduler delta. *)
Definition apply_schedule_delta (s : Scheduler) (d : ScheduledEntryDelta) : Outcome Scheduler :=
  match d with
  | SchedAdd e =>
      mret (schedule_with_id s (se_id e) (se_at e) (se_actor e) (se_principal e) (se_caps_ceiling e)
              (se_type_code e) (se_bytes e))
  | SchedRemove id => r ← cancel s id; mret r.2
  end.

(** [apply_stage]: signals, the instance, and the stage with the committed
    buckets drained. *)
Definition apply_stage (i : Instance_) (stage : StepStage)
    : Outcome (list PendingSignal * Instance_ * StepStage) :=
  let i1 := apply_counters i (stage_id_counters stage) in
  let i2 := fold_left apply_state_op (state_ops stage) i1 in
  let i3 := with_ledger i2 (fold_left apply_ledger_op (ledger_ops (ledger_delta stage)) (ledger i2)) in
  s ← fold_outcome apply_schedule_delta (scheduler i3) (schedule_deltas stage);
  let i4 := with_scheduler i3 s in
  let i5 := advance_wall_remainder i4 (wall_remainder_delta stage) in
  let i6 := advance_local_tick i5 (local_tick_delta stage) in
  mret (pending_signals stage, i6,
        mkStage [] (events stage) [] [] (stage_id_counters stage) (mkLedgerDelta [])
          (wall_remainder_delta stage) (local_tick_delta stage) (observer_eviction_pending stage)).

(** ** Consistency of state and ledger *)

(** The entity and component maps and the ledger describe the same entities
    and the same components; the byte cache is bounded by the stored sizes. *)
Record consistent (i : Instance_) : Prop := {
  co_entities : ∀ e, is_Some (entities i !! e) ↔ e ∈ led_entities (ledger i);
  co_components : ∀ k, is_Some (components i !! k) ↔ is_Some (component_sizes (ledger i) !! k);
  co_closed : ledger_closed (ledger i);
  co_bounded : ledger_bounded (ledger i)
}.

Lemma consistent_new id cfg : consistent (Instance_new id cfg).
Proof.
  split; cbn [entities components ledger Instance_new].
  - intros e. cbn. rewrite lookup_empty. split; [by intros []|intros He; by apply elem_of_empty in He].
  - intros k. cbn. by rewrite !lookup_empty.
  - apply ledger_new_closed.
  - apply ledger_new_bounded.
Qed.

(** A component row belongs to a live entity. *)
Lemma consistent_component i k :
  consistent i → is_Some (components i !! k) → is_Some (entities i !! k.1).
Proof. intros H [s Hs]%(co_components i H). apply (co_entities i H). by eapply co_closed. Qed.

(** One state operation with its mirrored ledger operation. *)
Definition apply_pair (i : Instance_) (d : StagedStateDelta) : Instance_ :=
  with_ledger (apply_state_op i d) (apply_ledger_op (ledger i) (mirror d)).

Lemma apply_state_op_ledger i d : ledger (apply_state_op i d) = ledger i.
Proof. destruct d; cbn; try done. by destruct (entity_meta i entity). Qed.

Lemma apply_state_op_with_ledger i d l :
  apply_state_op (with_ledger i l) d = with_ledger (apply_state_op i d) l.
Proof. destruct d; cbn; try done. unfold entity_meta. cbn. by destruct (entities i !! entity). Qed.

(** The two loops of [apply_stage] fuse into one over mirrored pairs. *)
Lemma apply_pairs_fuse ops i :
  with_ledger (fold_left apply_state_op ops i)
    (fold_left apply_ledger_op (mirror <$> ops) (ledger (fold_left apply_state_op ops i)))
  = fold_left apply_pair ops i.
Proof.
  assert (∀ ops i, ledger (fold_left apply_state_op ops i) = ledger i) as Hl.
  { clear. induction ops as [|d ops IH]; intros i; simpl; [done|]. by rewrite IH, apply_state_op_ledger. }
  assert (∀ ops i l, fold_left apply_state_op ops (with_ledger i l)
            = with_ledger (fold_left apply_state_op ops i) l) as Hw.
  { clear. induction ops as [|d ops IH]; intros i l; simpl; [done|]. by rewrite apply_state_op_with_ledger, IH. }
  revert i. induction ops as [|d ops IH]; intros i; simpl; [by destruct i|].
  rewrite <- IH. unfold apply_pair. rewrite Hw. cbn [ledger with_ledger].
  rewrite !Hl, !apply_state_op_ledger. done.
Qed.

Lemma apply_pair_spawn i id meta : consistent i → consistent (apply_pair i (SD_SpawnEntity id meta)).
Proof.
  intros H. split; cbn.
  - intros e. rewrite lookup_insert_is_Some, elem_of_union, elem_of_singleton, (co_entities i H).
    destruct (decide (id = e)) as [->|]; intuition congruence.
  - apply (co_components i H).
  - apply ledger_add_entity_closed, H.
  - apply H.
Qed.

Lemma apply_pair_despawn i id : consistent i → consistent (apply_pair i (SD_DespawnEntity id)).
Proof.
  intros H. assert (∀ k, k.1 = id → id ∉ led_entities (ledger i) → components i !! k = None) as Hnone.
  { intros k <- Hn. destruct (components i !! k) eqn:E; [|done]. exfalso. apply Hn.
    apply (co_entities i H). apply consistent_component; eauto. }
  split; cbn [apply_pair apply_state_op mirror apply_ledger_op with_ledger ledger entities components].
  - intros e. cbn. rewrite lookup_delete_is_Some, (co_entities i H).
    destruct (decide (id ∈ led_entities (ledger i))) as [Hid|Hid].
    + destruct (ledger_remove_entity_known _ _ Hid) as (d & l' & -> & He & _). simpl. rewrite He. set_solver.
    + rewrite ledger_remove_entity_unknown by done. simpl. set_solver.
  - intros k. rewrite remove_entity_components.
    destruct (decide (id ∈ led_entities (ledger i))) as [Hid|Hid].
    + destruct (ledger_remove_entity_known _ _ Hid) as (d & l' & -> & _ & Hl & _). simpl. rewrite Hl.
      destruct (decide (k.1 = id)); [done|apply (co_components i H)].
    + rewrite ledger_remove_entity_unknown by done. simpl. rewrite <- (co_components i H).
      destruct (decide (k.1 = id)); [|done]. by rewrite Hnone.
  - apply ledger_remove_entity_closed, H.
  - apply ledger_remove_entity_bounded, H.
Qed.

Lemma apply_pair_set i e tc bs size : consistent i → consistent (apply_pair i (SD_SetComponent e tc bs size)).
Proof.
  intros H. pose proof (co_entities i H e) as He. unfold apply_pair. cbn [apply_state_op mirror apply_ledger_op].
  unfold entity_meta. destruct (entities i !! e) as [meta|] eqn:E.
  - assert (e ∈ led_entities (ledger i)) as Hin by (apply He; eauto).
    destruct (ledger_add_component_known (ledger i) e tc size Hin) as [H1 H2].
    split; cbn [with_ledger insert_component with_components ledger entities components].
    + intros e'. rewrite H1. apply (co_entities i H).
    + intros k. rewrite H2, !lookup_insert_is_Some. by rewrite (co_components i H).
    + apply ledger_add_component_closed, H.
    + apply ledger_add_component_bounded, H.
  - assert (e ∉ led_entities (ledger i)) as Hin by (intros Hin; apply He in Hin; by destruct Hin).
    unfold ledger_add_component. rewrite decide_False by done. by destruct i.
Qed.

Lemma apply_pair_remove i e tc size : consistent i → consistent (apply_pair i (SD_RemoveComponent e tc size)).
Proof.
  intros H. unfold apply_pair. cbn [apply_state_op mirror apply_ledger_op remove_component snd].
  destruct (decide (e ∈ led_entities (ledger i))) as [Hin|Hin].
  - destruct (ledger_remove_component_known (ledger i) e tc size Hin) as [H1 H2].
    split; cbn [with_ledger with_components ledger entities components].
    + intros e'. rewrite H1. apply (co_entities i H).
    + intros k. rewrite H2, !lookup_delete_is_Some. by rewrite (co_components i H).
    + apply ledger_remove_component_closed, H.
    + apply ledger_remove_component_bounded, H.
  - unfold ledger_remove_component. rewrite decide_False by done. simpl. rewrite delete_id; [by destruct i|].
    destruct (components i !! (e, tc)) eqn:E; [|done]. exfalso. apply Hin.
    apply (co_entities i H). apply (consistent_component i (e, tc)); eauto.
Qed.

Lemma apply_pair_consistent i d : consistent i → consistent (apply_pair i d).
Proof.
  destruct d; [apply apply_pair_spawn|apply apply_pair_despawn|apply apply_pair_set|apply apply_pair_remove].
Qed.

Lemma apply_pairs_consistent ops i : consistent i → consistent (fold_left apply_pair ops i).
Proof. revert i. induction ops as [|d ops IH]; intros i H; simpl; [done|]. apply IH, apply_pair_consistent, H. Qed.

(** Entities grow by at most one per spawn. *)
Lemma apply_pairs_entities ops i :
  entities_len (fold_left apply_pair ops i) ≤ entities_len i + spawns ops.
Proof.
  revert i. induction ops as [|d ops IH]; intros i; simpl; [unfold spawns, len; simpl; lia|].
  etransitivity; [apply IH|]. change (d :: ops) with ([d] ++ ops). rewrite spawns_app.
  enough (entities_len (apply_pair i d) ≤ entities_len i + spawns [d]) by lia.
  unfold entities_len. destruct d.
  - change (spawns _) with 1. cbn. rewrite map_size_insert.
    destruct (entities i !! id); cbv [Datatypes.id]; lia.
  - change (spawns _) with 0. cbn. rewrite map_size_delete.
    destruct (entities i !! id); cbv [Datatypes.id]; lia.
  - change (spawns _) with 0. cbn. unfold entity_meta. destruct (entities i !! entity); cbn; lia.
  - change (spawns _) with 0. cbn. lia.
Qed.

(** The parts of the instance the pair loop leaves alone. *)
Lemma apply_pairs_frame ops i :
  let i' := fold_left apply_pair ops i in
  inst_id i' = inst_id i ∧ config i' = config i ∧ scheduler i' = scheduler i ∧
  id_counters i' = id_counters i ∧ inflight_refs i' = inflight_refs i ∧
  signal_inbox i' = signal_inbox i ∧ inbox_seq i' = inbox_seq i ∧
  wall_remainder i' = wall_remainder i ∧ local_tick i' = local_tick i.
Proof.
  revert i. induction ops as [|d ops IH]; intros i; simpl; [done|].
  destruct (IH (apply_pair i d)) as (-> & -> & -> & -> & -> & -> & -> & -> & ->).
  destruct d; cbn; try done. unfold entity_meta. by destruct (entities i !! entity).
Qed.

(** ** The schedule loop *)

(** The loop never panics on child entries, adds at most one row each, and
    every row of the result is an old one or one of the added entries. *)
Lemma apply_schedules_total p c ds s :
  Forall (delta_child p c) ds →
  ∃ s', fold_outcome apply_schedule_delta s ds = Done s' ∧
    (next_seq s' < U64_MAX → next_seq s' = next_seq s + len ds) ∧
    Scheduler_len s' ≤ Scheduler_len s + len ds ∧
    ∀ k e, ready s' !! k = Some e → ready s !! k = Some e ∨ SchedAdd e ∈ ds.
Proof.
  revert s. induction ds as [|d ds IH]; intros s Hall; cbn [fold_outcome].
  { exists s. unfold len. simpl. split_and!; [done|lia|lia|auto]. }
  apply Forall_cons in Hall as [(e & -> & _) Hall]. cbn [apply_schedule_delta mret Outcome_ret mbind Outcome_bind].
  destruct (IH (schedule_with_id s (se_id e) (se_at e) (se_actor e) (se_principal e) (se_caps_ceiling e)
              (se_type_code e) (se_bytes e)) Hall) as (s' & Hs & Hseq & Hlen & Hrow).
  exists s'. rewrite len_cons. split_and!; [done| | |].
  - intros Hlt. specialize (Hseq Hlt). rewrite schedule_with_id_seq in Hseq by lia. lia.
  - pose proof (schedule_with_id_size s (se_id e) (se_at e) (se_actor e) (se_principal e)
                  (se_caps_ceiling e) (se_type_code e) (se_bytes e)) as Hsz.
    unfold Scheduler_len in *. lia.
  - intros k e' [H|H]%Hrow; [|right; by right].
    apply schedule_with_id_ready in H as [[_ ->]|H]; [right|by left].
    destruct e. cbn. left.
Qed.

(** With consecutive fresh ids the loop keeps the index well formed. *)
Lemma apply_schedules_wf p c ds s s' base :
  Forall (delta_child p c) ds → consecutive_ids base ds →
  sched_wf s → next_id s ≤ base →
  fold_outcome apply_schedule_delta s ds = Done s' → next_seq s' < U64_MAX →
  sched_wf s' ∧ next_id s' ≤ base + len ds.
Proof.
  revert s base. induction ds as [|d ds IH]; intros s base Hall Hids Hwf Hle Hf Hseq; cbn [fold_outcome] in Hf.
  { injection Hf as <-. unfold len. simpl. split; [done|lia]. }
  apply Forall_cons in Hall as [(e & -> & _) Hall]. destruct Hids as [Hid Hids].
  cbn [apply_schedule_delta mret Outcome_ret mbind Outcome_bind] in Hf.
  destruct (apply_schedules_total p c ds (schedule_with_id s (se_id e) (se_at e) (se_actor e) (se_principal e)
              (se_caps_ceiling e) (se_type_code e) (se_bytes e)) Hall) as (s1 & Hs1 & Hq & _).
  rewrite Hs1 in Hf. injection Hf as ->. specialize (Hq Hseq).
  rewrite schedule_with_id_seq in Hq by lia.
  assert (∀ s1, sched_wf s1 → next_id s1 ≤ base + 1 →
    fold_outcome apply_schedule_delta s1 ds = Done s' → sched_wf s' ∧ next_id s' ≤ base + 1 + len ds) as IH'
    by (intros s1 W1 N1 F1; exact (IH s1 (base + 1) Hall Hids W1 N1 F1 Hseq)).
  rewrite len_cons. apply IH' in Hs1 as [H1 H2].
  - split; [done|lia].
  - apply schedule_with_id_wf; [done| |lia]. destruct (by_id s !! se_id e) as [key|] eqn:E; [|done].
    destruct (wf_by_id s Hwf _ _ E) as [[e' Hr] Hk]. destruct (wf_counters s Hwf _ _ Hr) as [_ Hni].
    rewrite Hk in Hni. lia.
  - rewrite schedule_with_id_next_id. lia.
Qed.

(** ** Committing a stage *)

(** [apply_stage] of a dispatcher-built stage, in one piece: it never panics,
    the state and the ledger advance by the fused pair loop, the scheduler by
    the schedule loop, and the inbox side is untouched. *)
Lemma apply_stage_run p c i st :
  stage_ok p c st →
  ∃ i' s' st', apply_stage i st = Done (pending_signals st, i', st') ∧
    fold_outcome apply_schedule_delta (scheduler i) (schedule_deltas st) = Done s' ∧
    i' = advance_local_tick (advance_wall_remainder
           (with_scheduler (fold_left apply_pair (state_ops st) (apply_counters i (stage_id_counters st))) s') 0) 0.
Proof.
  intros [M _ _ Ch (Q1 & Q2 & _) _].
  destruct (apply_schedules_total p c (schedule_deltas st) (scheduler i) Ch) as (s' & Hs & _).
  unfold apply_stage. rewrite M, apply_pairs_fuse, Q1, Q2.
  assert (∀ j, scheduler (fold_left apply_pair (state_ops st) j) = scheduler j) as Hsch
    by (intros j; apply (apply_pairs_frame (state_ops st) j)).
  rewrite Hsch. cbn [apply_counters with_id_counters scheduler]. rewrite Hs.
  cbn [mbind Outcome_bind mret Outcome_ret]. eauto 6.
Qed.
