(* ===== verification/Signature.v ===== *)
(** * Record signatures

    Models [src/arkhe-kernel/src/persist/signature.rs]: the signing classes of
    a WAL writer, the verifier rebuilt from a WAL header, and the domain
    separation both sides apply. The Ed25519 and ML-DSA 65 primitives are
    operations of the class [SigSchemes]; [SigLaws] states what the kernel
    relies on for honestly generated keys. Scrubbing of key material
    ([zeroize]) has no functional effect and is not modelled. *)
From S2P Require Import Prelude.

Local Open Scope N_scope.

(** ** The primitives ([ed25519_dalek], [ml_dsa]) *)

Class SigSchemes : Type := {
  EdSigningKey : Type;
  EdVerifyingKey : Type;
  ed_signing_from_bytes : bytes → EdSigningKey;
  ed_verifying_key : EdSigningKey → EdVerifyingKey;
  ed_vk_to_bytes : EdVerifyingKey → bytes;
  ed_vk_from_bytes : bytes → option EdVerifyingKey;
  ed_sign : EdSigningKey → bytes → bytes;
  ed_verify_strict : EdVerifyingKey → bytes → bytes → bool;
  MlSigningKey : Type;
  MlVerifyingKey : Type;
  MlSignature : Type;
  ml_signing_from_seed : bytes → MlSigningKey;
  ml_verifying_key : MlSigningKey → MlVerifyingKey;
  ml_vk_encode : MlVerifyingKey → bytes;
  ml_vk_decode : bytes → MlVerifyingKey;
  ml_try_sign : MlSigningKey → bytes → Result string MlSignature;
  ml_sig_encode : MlSignature → bytes;
  ml_sig_decode : bytes → option MlSignature;
  ml_verify : MlVerifyingKey → bytes → MlSignature → bool
}.

(** Fixed lengths, key and signature codecs that invert, and signatures of a
    key pair that verify (RFC 8032, FIPS 204). *)
Class SigLaws `{SigSchemes} : Prop := {
  ed_vk_roundtrip : ∀ vk, ed_vk_from_bytes (ed_vk_to_bytes vk) = Some vk;
  ed_sign_length : ∀ sk m, len (ed_sign sk m) = 64;
  ed_sign_verifies : ∀ sk m, ed_verify_strict (ed_verifying_key sk) m (ed_sign sk m) = true;
  ml_vk_length : ∀ vk, len (ml_vk_encode vk) = 1952;
  ml_vk_roundtrip : ∀ vk, ml_vk_decode (ml_vk_encode vk) = vk;
  ml_sig_length : ∀ s, len (ml_sig_encode s) = 3309;
  ml_sig_roundtrip : ∀ s, ml_sig_decode (ml_sig_encode s) = Some s;
  ml_sign_verifies : ∀ sk m s, ml_try_sign sk m = Ok s → ml_verify (ml_verifying_key sk) m s = true
}.

(** ** Errors *)

Inductive PqcSignError : Type := Provider (m : string).

Definition PqcSignError_display (e : PqcSignError) : string :=
  match e with Provider m => "PQC signer provider error: " +:+ m end.

Inductive PqcVerifyError : Type := PV_WrongLength | PV_Mismatch.

Definition PqcVerifyError_display (e : PqcVerifyError) : string :=
  match e with
  | PV_WrongLength => "PQC signature wrong length"
  | PV_Mismatch => "PQC signature did not validate"
  end.

Inductive VerifierInitError : Type := InvalidEd25519Key | InvalidPqcKey | VI_PqcWithoutEd25519.
Inductive SignatureVerifyError : Type := SV_WrongLength | SV_Mismatch.

(** ** The sealed signer and verifier traits *)

(** [trait PqcSigner], [trait PqcVerifier]: records of operations, as the
    code holds them behind [Box<dyn _>]. *)
Record PqcSigner : Type := {
  pqc_sign : bytes → Result PqcSignError bytes;
  pqc_verifying_key_bytes : bytes
}.
Record PqcVerifier : Type := { pqc_verify : bytes → bytes → Result PqcVerifyError unit }.

Section signature.
Context {SS : SigSchemes}.

Record SoftwareMlDsa65Signer : Type := mkMlSigner {
  signing_key : MlSigningKey;
  verifying_key_cache : MlVerifyingKey
}.

(** [SoftwareMlDsa65Signer::from_seed]. *)
Definition SoftwareMlDsa65Signer_from_seed (seed : bytes) : SoftwareMlDsa65Signer :=
  let sk := ml_signing_from_seed seed in mkMlSigner sk (ml_verifying_key sk).

(** [impl PqcSigner for SoftwareMlDsa65Signer]. *)
Definition SoftwareMlDsa65Signer_dyn (s : SoftwareMlDsa65Signer) : PqcSigner := {|
  pqc_sign := λ msg,
    sig ← map_err Provider (ml_try_sign (signing_key s) msg);
    mret (ml_sig_encode sig);
  pqc_verifying_key_bytes := ml_vk_encode (verifying_key_cache s)
|}.

Record SoftwareMlDsa65Verifier : Type := mkMlVerifier { mv_verifying_key : MlVerifyingKey }.

(** [SoftwareMlDsa65Verifier::from_bytes]. *)
Definition SoftwareMlDsa65Verifier_from_bytes (vk_bytes : bytes)
    : Result PqcVerifyError SoftwareMlDsa65Verifier :=
  if decide (len vk_bytes ≠ 1952) then Err PV_WrongLength
  else Ok (mkMlVerifier (ml_vk_decode vk_bytes)).

(** [impl PqcVerifier for SoftwareMlDsa65Verifier]. *)
Definition SoftwareMlDsa65Verifier_dyn (v : SoftwareMlDsa65Verifier) : PqcVerifier := {|
  pqc_verify := λ msg sig,
    if decide (len sig ≠ 3309) then Err PV_WrongLength
    else
      sig_obj ← ok_or PV_Mismatch (ml_sig_decode sig);
      (if ml_verify (mv_verifying_key v) msg sig_obj then Ok () else Err PV_Mismatch)
|}.

(** ** Signing classes *)

Record HybridSignature : Type := mkHybridSig { hs_ed25519 : bytes; hs_pqc : bytes }.

Inductive SignatureClass : Type :=
  | SC_None
  | SC_Ed25519 (sk : EdSigningKey) (vk : EdVerifyingKey)
  | SC_Hybrid (ed_sk : EdSigningKey) (ed_vk : EdVerifyingKey) (pqc_signer : PqcSigner).

(** [SignatureClass::default]. *)
Definition SignatureClass_default : SignatureClass := SC_None.

(** [WAL_SIG_DOMAIN]. *)
Definition WAL_SIG_DOMAIN : bytes := byte_str "arkhe-kernel v0.14 WAL record signature domain".

(** [domain_separated]. *)
Definition domain_separated (body_bytes : bytes) : bytes := WAL_SIG_DOMAIN ++ body_bytes.

(** [new_ed25519_from_secret], [new_hybrid_from_secrets]. *)
Definition new_ed25519_from_secret (secret : bytes) : SignatureClass :=
  let sk := ed_signing_from_bytes secret in SC_Ed25519 sk (ed_verifying_key sk).
Definition new_hybrid_from_secrets (ed25519_secret ml_dsa_seed : bytes) : SignatureClass :=
  let sk := ed_signing_from_bytes ed25519_secret in
  SC_Hybrid sk (ed_verifying_key sk)
    (SoftwareMlDsa65Signer_dyn (SoftwareMlDsa65Signer_from_seed ml_dsa_seed)).

(** [verifying_key_bytes], [verifying_key_pqc_bytes]. *)
Definition verifying_key_bytes (c : SignatureClass) : option bytes :=
  match c with
  | SC_None => None
  | SC_Ed25519 _ vk => Some (ed_vk_to_bytes vk)
  | SC_Hybrid _ vk _ => Some (ed_vk_to_bytes vk)
  end.
Definition verifying_key_pqc_bytes (c : SignatureClass) : option bytes :=
  match c with
  | SC_None | SC_Ed25519 _ _ => None
  | SC_Hybrid _ _ s => Some (pqc_verifying_key_bytes s)
  end.

(** [SignatureClass::sign]. *)
Definition sign (c : SignatureClass) (body_bytes : bytes) : option bytes :=
  match c with
  | SC_None => None
  | SC_Ed25519 sk _ => Some (ed_sign sk (domain_separated body_bytes))
  | SC_Hybrid sk _ _ => Some (ed_sign sk (domain_separated body_bytes))
  end.

(** [SignatureClass::sign_hybrid]; [.ok()?] maps a provider error to [None]. *)
Definition sign_hybrid (c : SignatureClass) (body_bytes : bytes) : option HybridSignature :=
  match c with
  | SC_Hybrid sk _ s =>
      let msg := domain_separated body_bytes in
      let ed25519 := ed_sign sk msg in
      match pqc_sign s msg with
      | Ok pqc => Some (mkHybridSig ed25519 pqc)
      | Err _ => None
      end
  | _ => None
  end.

(** ** Redacted printing *)

(** [{:?}] of a byte array. *)
Definition bytes_debug (bs : bytes) : string :=
  "[" +:+ String.concat ", " ((λ b, pretty (Byte.to_N b)) <$> bs) +:+ "]".

(** [impl Debug for SoftwareMlDsa65Signer], [for SoftwareMlDsa65Verifier],
    [for SignatureClass]. *)
Definition SoftwareMlDsa65Signer_debug (s : SoftwareMlDsa65Signer) : string :=
  "SoftwareMlDsa65Signer { verifying_key_bytes: <1952B>, signing_key: <redacted> }".
Definition SoftwareMlDsa65Verifier_debug (v : SoftwareMlDsa65Verifier) : string :=
  "SoftwareMlDsa65Verifier { verifying_key_bytes: <1952B> }".
Definition SignatureClass_debug (c : SignatureClass) : string :=
  match c with
  | SC_None => "SignatureClass::None"
  | SC_Ed25519 _ vk =>
      "SignatureClass::Ed25519 { verifying_key: " +:+ bytes_debug (ed_vk_to_bytes vk)
      +:+ ", signing_key: <redacted> }"
  | SC_Hybrid _ ed_vk _ =>
      "SignatureClass::Hybrid { ed25519_verifying_key: " +:+ bytes_debug (ed_vk_to_bytes ed_vk)
      +:+ ", ed25519_signing_key: <redacted>, pqc_signer: <redacted> }"
  end.

(** ** Verifier classes *)

Inductive VerifierClass : Type :=
  | VC_None
  | VC_Ed25519 (vk : EdVerifyingKey)
  | VC_Hybrid (ed25519 : EdVerifyingKey) (pqc : PqcVerifier).

(** [VerifierClass::from_header_bytes]. *)
Definition from_header_bytes (vk_ed25519 vk_pqc : option bytes) : Result VerifierInitError VerifierClass :=
  match vk_ed25519, vk_pqc with
  | None, None => Ok VC_None
  | Some vk, None => ed25519 ← ok_or InvalidEd25519Key (ed_vk_from_bytes vk); mret (VC_Ed25519 ed25519)
  | Some vk, Some vk_p =>
      ed25519 ← ok_or InvalidEd25519Key (ed_vk_from_bytes vk);
      pqc ← map_err (λ _, InvalidPqcKey) (SoftwareMlDsa65Verifier_from_bytes vk_p);
      mret (VC_Hybrid ed25519 (SoftwareMlDsa65Verifier_dyn pqc))
  | None, Some _ => Err VI_PqcWithoutEd25519
  end.

(** [verify_ed25519]. *)
Definition verify_ed25519 (vk : EdVerifyingKey) (body_bytes sig : bytes) : Result SignatureVerifyError unit :=
  if decide (len sig ≠ 64) then Err SV_WrongLength
  else if ed_verify_strict vk (domain_separated body_bytes) sig then Ok () else Err SV_Mismatch.

(** [VerifierClass::verify]. *)
Definition verify (v : VerifierClass) (body_bytes sig : bytes)
    : Outcome (Result SignatureVerifyError unit) :=
  match v with
  | VC_None => Panicked "VerifierClass::None.verify(): caller must guard with matches!"
  | VC_Ed25519 vk => Done (verify_ed25519 vk body_bytes sig)
  | VC_Hybrid ed25519 _ => Done (verify_ed25519 ed25519 body_bytes sig)
  end.

(** [VerifierClass::verify_hybrid]. *)
Definition verify_hybrid (v : VerifierClass) (body_bytes sig sig_pqc : bytes)
    : Outcome (Result SignatureVerifyError unit) :=
  match v with
  | VC_Hybrid ed25519 pqc =>
      Done (_ ← verify_ed25519 ed25519 body_bytes sig;
            map_err (λ _, SV_Mismatch) (pqc_verify pqc (domain_separated body_bytes) sig_pqc))
  | _ => Panicked "VerifierClass::verify_hybrid(): caller must guard with matches!"
  end.

(** ** Honest signing classes *)

(** The classes the public constructors build. *)
Inductive honest : SignatureClass → Prop :=
  | honest_none : honest SC_None
  | honest_ed25519 secret : honest (new_ed25519_from_secret secret)
  | honest_hybrid secret seed : honest (new_hybrid_from_secrets secret seed).

(** The PQC provider signs every message. *)
Definition pqc_total (c : SignatureClass) : Prop :=
  match c with SC_Hybrid _ _ s => ∀ m, ∃ b, pqc_sign s m = Ok b | _ => True end.

(** ** Lemmas *)

(** What printing reveals of a class is public: its tier and its Ed25519
    verifying key, whatever the secrets and the PQC signer. *)
Lemma SignatureClass_debug_public c c' :
  verifying_key_bytes c = verifying_key_bytes c' → is_Some (verifying_key_pqc_bytes c) ↔ is_Some (verifying_key_pqc_bytes c') →
  SignatureClass_debug c = SignatureClass_debug c'.
Proof.
  destruct c, c'; cbn; intros Hk Hp; try congruence; try done; exfalso.
  - by destruct (proj2 Hp ltac:(eauto)).
  - by destruct (proj1 Hp ltac:(eauto)).
Qed.

Lemma verify_ed25519_Ok vk body sig :
  verify_ed25519 vk body sig = Ok () ↔ len sig = 64 ∧ ed_verify_strict vk (domain_separated body) sig = true.
Proof.
  unfold verify_ed25519. destruct (decide (len sig ≠ 64)) as [Hl|Hl].
  - split; [done|]. intros [? _]. done.
  - destruct (ed_verify_strict _ _ _); split; try done; [|intros [_ ?]; done].
    intros _. split; [lia|done].
Qed.

Lemma ml_pqc_verify_Ok v msg sig :
  pqc_verify (SoftwareMlDsa65Verifier_dyn v) msg sig = Ok () ↔
  len sig = 3309 ∧ ∃ s, ml_sig_decode sig = Some s ∧ ml_verify (mv_verifying_key v) msg s = true.
Proof.
  cbn [pqc_verify SoftwareMlDsa65Verifier_dyn]. destruct (decide (len sig ≠ 3309)) as [Hl|Hl].
  - split; [done|]. intros [? _]. done.
  - rewrite bind_Ok. split.
    + intros (s & Hs%ok_or_Ok & Hv). split; [lia|]. exists s. by destruct (ml_verify _ _ s).
    + intros (_ & s & -> & Hv). exists s. by rewrite Hv.
Qed.

Context {SL : SigLaws}.

Lemma verify_ed25519_sign sk body :
  verify_ed25519 (ed_verifying_key sk) body (ed_sign sk (domain_separated body)) = Ok ().
Proof. apply verify_ed25519_Ok. split; [apply ed_sign_length|apply ed_sign_verifies]. Qed.

Lemma ml_verify_sign seed msg b :
  pqc_sign (SoftwareMlDsa65Signer_dyn (SoftwareMlDsa65Signer_from_seed seed)) msg = Ok b →
  pqc_verify (SoftwareMlDsa65Verifier_dyn (mkMlVerifier (ml_verifying_key (ml_signing_from_seed seed)))) msg b
  = Ok ().
Proof.
  cbn. intros H. apply bind_Ok in H as (s & Hs%map_err_Ok & [= <-]).
  rewrite decide_False by (rewrite ml_sig_length; lia). rewrite ml_sig_roundtrip. cbn.
  by rewrite (ml_sign_verifies _ _ _ Hs).
Qed.

(** The verifier rebuilt from the header an honest class pins. *)
Definition verifier_of (c : SignatureClass) (v : VerifierClass) : Prop :=
  from_header_bytes (verifying_key_bytes c) (verifying_key_pqc_bytes c) = Ok v.

Lemma verifier_of_none : verifier_of SC_None VC_None.
Proof. done. Qed.

Lemma verifier_of_ed25519 secret :
  verifier_of (new_ed25519_from_secret secret) (VC_Ed25519 (ed_verifying_key (ed_signing_from_bytes secret))).
Proof. unfold verifier_of. cbn. by rewrite ed_vk_roundtrip. Qed.

Lemma verifier_of_hybrid secret seed :
  verifier_of (new_hybrid_from_secrets secret seed)
    (VC_Hybrid (ed_verifying_key (ed_signing_from_bytes secret))
       (SoftwareMlDsa65Verifier_dyn (mkMlVerifier (ml_verifying_key (ml_signing_from_seed seed))))).
Proof.
  unfold verifier_of. cbn. rewrite ed_vk_roundtrip. cbn. unfold SoftwareMlDsa65Verifier_from_bytes.
  rewrite decide_False by (rewrite ml_vk_length; lia). by rewrite ml_vk_roundtrip.
Qed.

End signature.

(** ** A concrete scheme for the witnesses *)

(** One key, fixed-length signatures, acceptance of everything; the second
    scheme's provider fails on every message when [fails] is set. *)
Definition toy_sigs (fails : bool) : SigSchemes := {|
  EdSigningKey := unit;
  EdVerifyingKey := unit;
  ed_signing_from_bytes := λ _, ();
  ed_verifying_key := λ _, ();
  ed_vk_to_bytes := λ _, zero32;
  ed_vk_from_bytes := λ _, Some ();
  ed_sign := λ _ _, replicate 64 Byte.x00;
  ed_verify_strict := λ _ _ _, true;
  MlSigningKey := unit;
  MlVerifyingKey := unit;
  MlSignature := unit;
  ml_signing_from_seed := λ _, ();
  ml_verifying_key := λ _, ();
  ml_vk_encode := λ _, replicate 1952 Byte.x00;
  ml_vk_decode := λ _, ();
  ml_try_sign := λ _ _, if fails then Err "provider"%string else Ok ();
  ml_sig_encode := λ _, replicate 3309 Byte.x00;
  ml_sig_decode := λ _, Some ();
  ml_verify := λ _ _ _, true
|}.

Lemma toy_sigs_laws fails : @SigLaws (toy_sigs fails).
Proof.
  split; cbn [toy_sigs EdSigningKey EdVerifyingKey MlSigningKey MlVerifyingKey MlSignature].
  - by intros [].
  - intros sk m. vm_compute. reflexivity.
  - reflexivity.
  - intros x. vm_compute. reflexivity.
  - by intros [].
  - intros x. vm_compute. reflexivity.
  - by intros [].
  - reflexivity.
Qed.

(** ** Properties *)

(** AND-mode. A hybrid verifier accepts a record exactly when its Ed25519
    signature has 64 bytes and verifies strictly over the domain-separated
    body and its PQC signature has 3309 bytes, decodes, and verifies over the
    same message; the call never reaches [unreachable!]. *)
Theorem verify_hybrid_and_mode {SS : SigSchemes} vk pvk body sig sig_pqc :
  ∃ r, verify_hybrid (VC_Hybrid vk (SoftwareMlDsa65Verifier_dyn pvk)) body sig sig_pqc = Done r ∧
  (r = Ok () ↔
    (len sig = 64 ∧ ed_verify_strict vk (WAL_SIG_DOMAIN ++ body) sig = true) ∧
    (len sig_pqc = 3309 ∧ ∃ s, ml_sig_decode sig_pqc = Some s ∧
       ml_verify (mv_verifying_key pvk) (WAL_SIG_DOMAIN ++ body) s = true)).
Proof.
  eexists. split; [reflexivity|]. rewrite bind_Ok. split.
  - intros ([] & H1%verify_ed25519_Ok & H2%map_err_Ok%ml_pqc_verify_Ok). done.
  - intros [H1 H2]. exists (). split; [by apply verify_ed25519_Ok|].
    by apply map_err_Ok, ml_pqc_verify_Ok.
Qed.
