(* ===== verification/Wal.v ===== *)
(** * Write-ahead log

    Models [src/arkhe-kernel/src/persist/wal.rs]: the header, the canonical
    input log records, the writer that seals each record into the keyed hash
    chain, chain verification, and verification against a trust anchor. *)
From S2P Require Import Prelude Abi Extern Scheduler Signature.

Local Open Scope N_scope.

(** ** Data *)

Record TypeRegistryPin : Type := mkPin { pin_type_code : TypeCode; pin_schema_hash : bytes }.

Record WalHeader : Type := mkHeader {
  magic : bytes;
  kernel_semver : N * N * N;
  postcard_version : N;
  blake3_version : N;
  domain_separation_context : bytes;
  world_id : bytes;
  abi_version : N * N;
  header_manifest_digest : bytes;
  type_registry_pins : list TypeRegistryPin;
  header_verifying_key : option bytes;
  header_verifying_key_pqc : option bytes
}.

(** The pinned constants of [impl WalHeader]. *)
Definition MAGIC : bytes := byte_str "ARKHEWAL".
Definition CURRENT_KERNEL_SEMVER : N * N * N := (0, 15, 0).
Definition ABI_VERSION : N * N := (0, 15).
Definition POSTCARD_MAJOR : N := 1.
Definition BLAKE3_MAJOR : N := 1.
Definition DOMAIN_CTX : bytes := byte_str "arkhe-kernel v0.15 WAL chain domain separation context".

Inductive WalRecordKind : Type := KindSubmit | KindStep.

#[global] Instance WalRecordKind_eq_dec : EqDecision WalRecordKind.
Proof. solve_decision. Defined.

Inductive SkipReason : Type := Unregistered | DeserFailed.

Inductive StepVerdict : Type :=
  | Committed
  | AuthDenied
  | BudgetPartial (denied : N)
  | Skipped (reason : SkipReason).

#[global] Instance SkipReason_eq_dec : EqDecision SkipReason.
Proof. solve_decision. Defined.
#[global] Instance StepVerdict_eq_dec : EqDecision StepVerdict.
Proof. solve_decision. Defined.

Inductive WalRecordContent : Type :=
  | CSubmit (seq : N) (instance : InstanceId) (principal : Principal) (actor : option EntityId)
      (caps_at_submit : N) (at_ : Tick) (action_type_code : TypeCode) (action_bytes : bytes)
      (allocated_id : ScheduledActionId)
  | CStep (seq : N) (instance : InstanceId) (popped_id : ScheduledActionId) (now : Tick)
      (session_caps : N) (verdict : StepVerdict) (post_state_digest : bytes).

Record WalRecord : Type := mkRecord {
  content : WalRecordContent;
  prev_chain_hash : bytes;
  this_chain_hash : bytes;
  signature : option bytes;
  signature_pqc : option bytes
}.

(** [WalRecord::seq], [WalRecord::kind]. *)
Definition content_seq (c : WalRecordContent) : N :=
  match c with CSubmit seq _ _ _ _ _ _ _ _ => seq | CStep seq _ _ _ _ _ _ => seq end.
Definition record_seq (r : WalRecord) : N := content_seq (content r).
Definition record_kind (r : WalRecord) : WalRecordKind :=
  match content r with CSubmit _ _ _ _ _ _ _ _ _ => KindSubmit | CStep _ _ _ _ _ _ _ => KindStep end.

(** The borrowed canonical body: what is hashed and signed. *)
Inductive WalRecordBodyContent : Type :=
  | BSubmit (seq : N) (instance : InstanceId) (principal : Principal) (actor : option EntityId)
      (caps_at_submit : N) (at_ : Tick) (action_type_code : TypeCode) (action_bytes : bytes)
      (allocated_id : ScheduledActionId)
  | BStep (seq : N) (instance : InstanceId) (popped_id : ScheduledActionId) (now : Tick)
      (session_caps : N) (verdict : StepVerdict) (post_state_digest : bytes).

Record WalRecordBody : Type := mkBody { body_content : WalRecordBodyContent; body_prev : bytes }.

#[global] Instance SkipReason_countable : Countable SkipReason.
Proof.
  refine (inj_countable' (λ r, match r with Unregistered => true | DeserFailed => false end)
    (λ b : bool, if b then Unregistered else DeserFailed) _).
  by intros [].
Defined.
#[global] Instance StepVerdict_countable : Countable StepVerdict.
Proof.
  refine (inj_countable' (λ v, match v with Committed => inl true | AuthDenied => inl false
                               | BudgetPartial n => inr (inl n) | Skipped r => inr (inr r) end)
    (λ s, match s with inl true => Committed | inl false => AuthDenied
          | inr (inl n) => BudgetPartial n | inr (inr r) => Skipped r end) _).
  by intros [].
Defined.
#[global] Instance WalRecordBodyContent_eq_dec : EqDecision WalRecordBodyContent.
Proof. solve_decision. Defined.
#[global] Instance WalRecordBodyContent_countable : Countable WalRecordBodyContent.
Proof.
  refine (inj_countable'
    (λ c, match c with
          | BSubmit s i p a cs t tc bs id => inl (s, i, p, a, cs, t, tc, bs, id)
          | BStep s i id t cs v d => inr (s, i, id, t, cs, v, d)
          end)
    (λ x, match x with
          | inl (s, i, p, a, cs, t, tc, bs, id) => BSubmit s i p a cs t tc bs id
          | inr (s, i, id, t, cs, v, d) => BStep s i id t cs v d
          end) _).
  by intros [].
Defined.
#[global] Instance WalRecordBody_eq_dec : EqDecision WalRecordBody.
Proof. solve_decision. Defined.
#[global] Instance WalRecordBody_countable : Countable WalRecordBody.
Proof.
  refine (inj_countable' (λ b, (body_content b, body_prev b)) (λ x, mkBody x.1 x.2) _). by intros [].
Defined.

(** [WalRecordBody::from_content], [from_record]. *)
Definition from_content (c : WalRecordContent) (prev : bytes) : WalRecordBody :=
  mkBody
    match c with
    | CSubmit seq instance principal actor caps_at_submit at_ action_type_code action_bytes allocated_id =>
        BSubmit seq instance principal actor caps_at_submit at_ action_type_code action_bytes allocated_id
    | CStep seq instance popped_id now session_caps verdict post_state_digest =>
        BStep seq instance popped_id now session_caps verdict post_state_digest
    end prev.
Definition from_record (rec : WalRecord) (prev : bytes) : WalRecordBody := from_content (content rec) prev.

Record Wal : Type := mkWal { header : WalHeader; records : list WalRecord }.

Inductive SignatureTier : Type := TierNone | TierEd25519 | TierHybrid.

(** The derived order [None < Ed25519 < Hybrid]. *)
Definition tier_rank (t : SignatureTier) : N :=
  match t with TierNone => 0 | TierEd25519 => 1 | TierHybrid => 2 end.

Record TrustAnchor : Type := mkAnchor {
  min_tier : option SignatureTier;
  anchor_ed25519_verifying_key : option bytes;
  anchor_mldsa_verifying_key : option bytes;
  expected_manifest_digest : option bytes;
  expected_chain_tip : option bytes
}.
Definition TrustAnchor_default : TrustAnchor := mkAnchor None None None None None.

Inductive WalError : Type :=
  | SerializeFailed (m : string)
  | DeserializeFailed (m : string)
  | ChainBroken (at_record : N)
  | HashMismatch (at_record : N)
  | HeaderIncompatible (m : string)
  | InvalidVerifyingKey
  | MissingSignature (at_record : N)
  | SignatureMismatch (at_record : N)
  | MissingPqcSignature (at_record : N)
  | PqcSignatureMismatch (at_record : N)
  | PqcWithoutEd25519
  | TierDowngrade
  | VerifyingKeyMismatch
  | ManifestDigestMismatch
  | ChainTipMismatch.

#[global] Instance WalError_eq_dec : EqDecision WalError.
Proof. solve_decision. Defined.

(** [impl Display for WalError]. *)
Definition WalError_display (e : WalError) : string :=
  match e with
  | SerializeFailed m => "wal serialize failed: " +:+ m
  | DeserializeFailed m => "wal deserialize failed: " +:+ m
  | ChainBroken i => "wal chain broken at record " +:+ pretty i
  | HashMismatch i => "wal hash mismatch at record " +:+ pretty i
  | HeaderIncompatible m => "wal header incompatible: " +:+ m
  | InvalidVerifyingKey => "wal verifying_key invalid (not a valid Ed25519 public key)"
  | MissingSignature i => "wal signature missing at record " +:+ pretty i
  | SignatureMismatch i => "wal signature mismatch at record " +:+ pretty i
  | MissingPqcSignature i => "wal PQC signature missing at record " +:+ pretty i
  | PqcSignatureMismatch i => "wal PQC signature mismatch at record " +:+ pretty i
  | PqcWithoutEd25519 => "wal envelope invalid (verifying_key_pqc set without verifying_key)"
  | TierDowngrade => "wal signature tier downgraded below the trust anchor's minimum"
  | VerifyingKeyMismatch => "wal verifying key does not match the trust anchor's expected key"
  | ManifestDigestMismatch => "wal manifest_digest does not match the expected digest"
  | ChainTipMismatch => "wal chain tip does not match the expected tip (tail truncation?)"
  end.

Section wal.
Context `{Postcard WalRecordBody, Postcard Wal} {B3 : Blake3} {SS : SigSchemes}.

(** ** The writer *)

Record WalWriter : Type := mkWriter {
  w_header : WalHeader;
  w_records : list WalRecord;
  w_next_seq : N;
  w_prev_hash : bytes;
  w_chain_key : bytes;
  w_sig_class : SignatureClass
}.

(** [build_chain_key] ([DOMAIN_CTX] is ASCII, so its UTF-8 check passes),
    [build_dsc]. *)
Definition build_chain_key (world : bytes) : bytes := blake3_derive_key DOMAIN_CTX world.
Definition build_dsc : bytes := DOMAIN_CTX.

(** [WalWriter::with_signature]. *)
Definition with_signature (world manifest_digest : bytes) (sig_class : SignatureClass) : WalWriter :=
  let chain_key := build_chain_key world in
  let header := {|
    magic := MAGIC;
    kernel_semver := CURRENT_KERNEL_SEMVER;
    postcard_version := POSTCARD_MAJOR;
    blake3_version := BLAKE3_MAJOR;
    domain_separation_context := build_dsc;
    world_id := world;
    abi_version := ABI_VERSION;
    header_manifest_digest := manifest_digest;
    type_registry_pins := [];
    header_verifying_key := verifying_key_bytes sig_class;
    header_verifying_key_pqc := verifying_key_pqc_bytes sig_class
  |} in
  mkWriter header [] 0 zero32 chain_key sig_class.

(** [WalWriter::new]. *)
Definition WalWriter_new (world manifest_digest : bytes) : WalWriter :=
  with_signature world manifest_digest SC_None.

(** [WalWriter::rebuild_from_header]. *)
Definition rebuild_from_header (h : WalHeader) : WalWriter :=
  let chain_key := build_chain_key (world_id h) in
  mkWriter h [] 0 zero32 chain_key SC_None.

(** [WalWriter::seal]: the chain hash and the two signature slots. *)
Definition seal (w : WalWriter) (body : WalRecordBody)
    : Result WalError (bytes * option bytes * option bytes) :=
  body_bytes ← map_err SerializeFailed (to_allocvec body);
  let this_hash := blake3_keyed (w_chain_key w) (w_prev_hash w ++ body_bytes) in
  let '(sig, sig_pqc) :=
    match sign_hybrid (w_sig_class w) body_bytes with
    | Some hyb => (Some (hs_ed25519 hyb), Some (hs_pqc hyb))
    | None => (sign (w_sig_class w) body_bytes, None)
    end in
  mret (this_hash, sig, sig_pqc).

(** [WalWriter::push_sealed]. *)
Definition push_sealed (w : WalWriter) (c : WalRecordContent) : Result WalError (WalRecord * WalWriter) :=
  let prev := w_prev_hash w in
  '(this_hash, sig, sig_pqc) ← seal w (from_content c prev);
  let record := mkRecord c prev this_hash sig sig_pqc in
  mret (record, mkWriter (w_header w) (w_records w ++ [record]) (w_next_seq w) this_hash (w_chain_key w)
                  (w_sig_class w)).

(** The part [append_submit] and [append_step] share: the sequence advances
    first, and stays advanced when sealing fails. *)
Definition append (w : WalWriter) (c : N → WalRecordContent) : Result WalError WalRecord * WalWriter :=
  let seq := sat_add64 (w_next_seq w) 1 in
  let w' := mkWriter (w_header w) (w_records w) seq (w_prev_hash w) (w_chain_key w) (w_sig_class w) in
  match push_sealed w' (c seq) with
  | Ok (record, w'') => (Ok record, w'')
  | Err e => (Err e, w')
  end.

(** [WalWriter::append_submit], [WalWriter::append_step]. *)
Definition append_submit (w : WalWriter) (instance : InstanceId) (principal : Principal)
    (actor : option EntityId) (caps_at_submit : N) (at_ : Tick) (action_type_code : TypeCode)
    (action_bytes : bytes) (allocated_id : ScheduledActionId) : Result WalError WalRecord * WalWriter :=
  append w (λ seq, CSubmit seq instance principal actor caps_at_submit at_ action_type_code action_bytes
                     allocated_id).
Definition append_step (w : WalWriter) (instance : InstanceId) (popped_id : ScheduledActionId) (now : Tick)
    (session_caps : N) (verdict : StepVerdict) (post_state_digest : bytes)
    : Result WalError WalRecord * WalWriter :=
  append w (λ seq, CStep seq instance popped_id now session_caps verdict post_state_digest).

(** [header], [records], [chain_tip], [record_count] of the writer. *)
Definition writer_chain_tip (w : WalWriter) : bytes := w_prev_hash w.
Definition record_count (w : WalWriter) : N := len (w_records w).

(** ** The sealed log *)

(** [Wal::from_writer], [Wal::serialize], [Wal::deserialize]. *)
Definition from_writer (w : WalWriter) : Wal := mkWal (w_header w) (w_records w).
Definition serialize (w : Wal) : Result WalError bytes := map_err SerializeFailed (to_allocvec w).
Definition deserialize (bs : bytes) : Result WalError Wal := map_err DeserializeFailed (from_bytes bs).

(** [Wal::chain_tip]. *)
Definition chain_tip (w : Wal) : bytes := default zero32 (this_chain_hash <$> last (records w)).

(** The signature arm of the verification loop. *)
Definition verify_signature (v : VerifierClass) (i : N) (rec : WalRecord) (body_bytes : bytes)
    : Outcome (Result WalError unit) :=
  match v with
  | VC_None => mret (Ok ())
  | VC_Ed25519 _ =>
      match signature rec with
      | None => mret (Err (MissingSignature i))
      | Some sig =>
          r ← verify v body_bytes sig;
          mret (map_err (λ _, SignatureMismatch i) r)
      end
  | VC_Hybrid _ _ =>
      match signature rec, signature_pqc rec with
      | None, _ => mret (Err (MissingSignature i))
      | Some _, None => mret (Err (MissingPqcSignature i))
      | Some sig, Some sig_pqc =>
          r ← verify_hybrid v body_bytes sig sig_pqc;
          mret (map_err (λ _, PqcSignatureMismatch i) r)
      end
  end.

(** One turn of the loop: the hash that becomes [prev]. *)
Definition verify_record (v : VerifierClass) (chain_key : bytes) (i : N) (prev : bytes) (rec : WalRecord)
    : Outcome (Result WalError bytes) :=
  if decide (prev_chain_hash rec ≠ prev) then mret (Err (ChainBroken i))
  else match to_allocvec (from_record rec prev) with
  | Err e => mret (Err (SerializeFailed e))
  | Ok body_bytes =>
      let computed := blake3_keyed chain_key (prev ++ body_bytes) in
      if decide (computed ≠ this_chain_hash rec) then mret (Err (HashMismatch i))
      else
        r ← verify_signature v i rec body_bytes;
        Done (_ ← r; Ok computed)
  end.

Fixpoint verify_records (v : VerifierClass) (chain_key : bytes) (i : N) (prev : bytes) (recs : list WalRecord)
    : Outcome (Result WalError unit) :=
  match recs with
  | [] => mret (Ok ())
  | rec :: recs' =>
      r ← verify_record v chain_key i prev rec;
      match r with
      | Err e => mret (Err e)
      | Ok prev' => verify_records v chain_key (i + 1) prev' recs'
      end
  end.

(** The error map of [verify_chain]. *)
Definition init_error (e : VerifierInitError) : WalError :=
  match e with
  | InvalidEd25519Key | InvalidPqcKey => InvalidVerifyingKey
  | VI_PqcWithoutEd25519 => PqcWithoutEd25519
  end.

(** [Wal::verify_chain]. *)
Definition verify_chain (w : Wal) (world : bytes) : Outcome (Result WalError unit) :=
  let chain_key := build_chain_key world in
  match map_err init_error (from_header_bytes (header_verifying_key (header w))
                              (header_verifying_key_pqc (header w))) with
  | Err e => mret (Err e)
  | Ok v => verify_records v chain_key 0 zero32 (records w)
  end.

(** [Wal::header_tier]. *)
Definition header_tier (w : Wal) : Result WalError SignatureTier :=
  match header_verifying_key (header w), header_verifying_key_pqc (header w) with
  | None, None => Ok TierNone
  | Some _, None => Ok TierEd25519
  | Some _, Some _ => Ok TierHybrid
  | None, Some _ => Err PqcWithoutEd25519
  end.

(** An anchored value must be present and equal; an unset anchor checks nothing. *)
Definition check_pinned (expected actual : option bytes) (e : WalError) : Result WalError unit :=
  match expected with
  | None => Ok ()
  | Some x => if decide (actual = Some x) then Ok () else Err e
  end.

(** The gates of [verify_chain_anchored] that precede the chain walk. *)
Definition anchor_gates (w : Wal) (anchor : TrustAnchor) : Result WalError unit :=
  tier ← header_tier w;
  _ ← match min_tier anchor with
      | Some floor => if decide (tier_rank tier < tier_rank floor) then Err TierDowngrade else Ok ()
      | None => Ok ()
      end;
  _ ← check_pinned (anchor_ed25519_verifying_key anchor) (header_verifying_key (header w)) VerifyingKeyMismatch;
  _ ← check_pinned (anchor_mldsa_verifying_key anchor) (header_verifying_key_pqc (header w)) VerifyingKeyMismatch;
  check_pinned (expected_manifest_digest anchor) (Some (header_manifest_digest (header w)))
    ManifestDigestMismatch.

(** [Wal::verify_chain_anchored]. *)
Definition verify_chain_anchored (w : Wal) (world : bytes) (anchor : TrustAnchor)
    : Outcome (Result WalError unit) :=
  match anchor_gates w anchor with
  | Err e => mret (Err e)
  | Ok _ =>
      r ← verify_chain w world;
      Done (_ ← r; check_pinned (expected_chain_tip anchor) (Some (chain_tip w)) ChainTipMismatch)
  end.

(** ** Valid chains *)

(** What a verifier accepts as the signatures of a body. *)
Definition signature_valid (v : VerifierClass) (rec : WalRecord) (body_bytes : bytes) : Prop :=
  match v with
  | VC_None => True
  | VC_Ed25519 vk => ∃ s, signature rec = Some s ∧ verify_ed25519 vk body_bytes s = Ok ()
  | VC_Hybrid vk p => ∃ s sp, signature rec = Some s ∧ signature_pqc rec = Some sp ∧
      verify_ed25519 vk body_bytes s = Ok () ∧ pqc_verify p (domain_separated body_bytes) sp = Ok ()
  end.

(** A record that extends a chain whose tip is [prev]. *)
Definition record_valid (v : VerifierClass) (chain_key prev : bytes) (rec : WalRecord) : Prop :=
  prev_chain_hash rec = prev ∧
  ∃ b, to_allocvec (from_record rec prev) = Ok b ∧
    this_chain_hash rec = blake3_keyed chain_key (prev ++ b) ∧ signature_valid v rec b.

(** The records extend the chain from [prev] to [tip]. *)
Inductive valid_chain (v : VerifierClass) (chain_key : bytes) : bytes → list WalRecord → bytes → Prop :=
  | valid_nil prev : valid_chain v chain_key prev [] prev
  | valid_cons prev rec recs tip :
      record_valid v chain_key prev rec →
      valid_chain v chain_key (this_chain_hash rec) recs tip →
      valid_chain v chain_key prev (rec :: recs) tip.

Lemma valid_chain_snoc v key prev recs tip rec :
  valid_chain v key prev recs tip → record_valid v key tip rec →
  valid_chain v key prev (recs ++ [rec]) (this_chain_hash rec).
Proof. induction 1; intros Hr; simpl; econstructor; eauto. constructor. Qed.

Lemma valid_chain_snoc_inv v key prev recs rec tip :
  valid_chain v key prev (recs ++ [rec]) tip →
  ∃ mid, valid_chain v key prev recs mid ∧ record_valid v key mid rec ∧ tip = this_chain_hash rec.
Proof.
  revert prev. induction recs as [|r recs IH]; simpl; intros prev Hv; inversion Hv; subst.
  - match goal with H : valid_chain _ _ _ [] _ |- _ => inversion H; subst end.
    exists prev. split_and!; [constructor|done|done].
  - destruct (IH _ H6) as (mid & H1 & H2 & ->). exists mid. split_and!; [by econstructor|done|done].
Qed.

(** The tip of a valid chain is its last hash. *)
Lemma valid_chain_tip v key prev recs tip :
  valid_chain v key prev recs tip → tip = default prev (this_chain_hash <$> last recs).
Proof.
  destruct (decide (recs = [])) as [->|Hne]; [by inversion 1|].
  destruct (exists_last Hne) as (recs' & rec & ->). intros (mid & _ & _ & ->)%valid_chain_snoc_inv.
  by rewrite last_snoc.
Qed.

Lemma verify_signature_valid v i rec b :
  ∃ r, verify_signature v i rec b = Done r ∧ (r = Ok () ↔ signature_valid v rec b).
Proof.
  destruct v as [|vk|vk p]; cbn [verify_signature signature_valid].
  - exists (Ok ()). done.
  - destruct (signature rec) as [s|].
    + eexists. split; [reflexivity|]. rewrite map_err_Ok. split; [eauto|]. by intros (? & [= <-] & ?).
    + eexists. split; [reflexivity|]. split; [done|]. by intros (? & ? & _).
  - destruct (signature rec) as [s|]; [destruct (signature_pqc rec) as [sp|]|].
    + eexists. split; [reflexivity|]. rewrite map_err_Ok, bind_Ok. split.
      * intros ([] & H1 & H2%map_err_Ok). eauto 6.
      * intros (? & ? & [= <-] & [= <-] & H1 & H2). exists (). by rewrite map_err_Ok.
    + eexists. split; [reflexivity|]. split; [done|]. by intros (? & ? & _ & ? & _).
    + eexists. split; [reflexivity|]. split; [done|]. by intros (? & ? & ? & _).
Qed.

Lemma verify_record_valid v key i prev rec :
  ∃ r, verify_record v key i prev rec = Done r ∧
    (∀ h, r = Ok h ↔ record_valid v key prev rec ∧ h = this_chain_hash rec).
Proof.
  unfold verify_record, record_valid. destruct (decide (prev_chain_hash rec ≠ prev)) as [Hp|Hp].
  { eexists. split; [reflexivity|]. intros h. split; [done|]. by intros ((? & _) & _). }
  apply dec_stable in Hp. destruct (to_allocvec (from_record rec prev)) as [b|e] eqn:Eb.
  2:{ eexists. split; [reflexivity|]. intros h. split; [done|]. by intros ((_ & ? & ? & _) & _). }
  destruct (decide (blake3_keyed key (prev ++ b) ≠ this_chain_hash rec)) as [Hh|Hh].
  { eexists. split; [reflexivity|]. intros h. split; [done|]. intros ((_ & b' & [= <-] & Hc & _) & _). congruence. }
  apply dec_stable in Hh. destruct (verify_signature_valid v i rec b) as (r & Hr & Hiff). rewrite Hr.
  eexists. split; [reflexivity|]. intros h. rewrite bind_Ok. split.
  - intros ([] & Hok & [= <-]). apply Hiff in Hok. split; [|done]. split; [done|]. eauto.
  - intros ((_ & b' & [= <-] & _ & Hs) & ->). exists (). split; [by apply Hiff|]. by rewrite Hh.
Qed.

Lemma verify_records_valid v key i prev recs :
  ∃ r, verify_records v key i prev recs = Done r ∧ (r = Ok () ↔ ∃ tip, valid_chain v key prev recs tip).
Proof.
  revert i prev. induction recs as [|rec recs IH]; intros i prev; cbn [verify_records].
  { exists (Ok ()). split; [done|]. split; [|done]. intros _. exists prev. constructor. }
  destruct (verify_record_valid v key i prev rec) as (r & -> & Hr). cbn [mbind Outcome_bind].
  destruct r as [h|e].
  - destruct (proj1 (Hr h) eq_refl) as [Hv ->]. destruct (IH (i + 1) (this_chain_hash rec)) as (r & -> & Hiff).
    exists r. split; [done|]. rewrite Hiff. split; intros [tip Ht]; exists tip; [by constructor|by inversion Ht].
  - exists (Err e). split; [done|]. split; [done|]. intros [tip Ht]. inversion Ht; subst.
    assert (Err e = Ok (this_chain_hash rec)) by (apply Hr; done). done.
Qed.

(** A valid prefix is walked to its tip. *)
Lemma verify_records_app v key i prev recs recs' tip :
  valid_chain v key prev recs tip →
  verify_records v key i prev (recs ++ recs') = verify_records v key (i + len recs) tip recs'.
Proof.
  intros Hv. revert i. induction Hv as [prev|prev rec recs tip Hr _ IH]; intros i.
  { unfold len. simpl. by rewrite N.add_0_r. }
  cbn [app verify_records]. destruct (verify_record_valid v key i prev rec) as (r & -> & Hiff).
  cbn [mbind Outcome_bind]. assert (r = Ok (this_chain_hash rec)) as -> by by apply Hiff.
  rewrite IH, len_cons. f_equal. lia.
Qed.

(** [verify_chain] never panics, and succeeds exactly on a valid chain. *)
Lemma verify_chain_valid w world :
  ∃ r, verify_chain w world = Done r ∧
  (r = Ok () ↔ ∃ v, from_header_bytes (header_verifying_key (header w)) (header_verifying_key_pqc (header w)) = Ok v ∧
     valid_chain v (build_chain_key world) zero32 (records w) (chain_tip w)).
Proof.
  unfold verify_chain. destruct (from_header_bytes _ _) as [v|e]; cbn [map_err].
  - destruct (verify_records_valid v (build_chain_key world) 0 zero32 (records w)) as (r & -> & Hiff).
    exists r. split; [done|]. rewrite Hiff. split.
    + intros [tip Ht]. exists v. split; [done|]. unfold chain_tip. by rewrite <- (valid_chain_tip _ _ _ _ _ Ht).
    + intros (v' & [= <-] & Hv). eauto.
  - exists (Err (init_error e)). split; [done|]. split; [done|]. by intros (? & ? & _).
Qed.

(** ** The writer's log *)

(** An append request: the arguments of [append_submit] or [append_step]. *)
Inductive AppendReq : Type :=
  | ReqSubmit (instance : InstanceId) (principal : Principal) (actor : option EntityId) (caps_at_submit : N)
      (at_ : Tick) (action_type_code : TypeCode) (action_bytes : bytes) (allocated_id : ScheduledActionId)
  | ReqStep (instance : InstanceId) (popped_id : ScheduledActionId) (now : Tick) (session_caps : N)
      (verdict : StepVerdict) (post_state_digest : bytes).

Definition req_content (r : AppendReq) (seq : N) : WalRecordContent :=
  match r with
  | ReqSubmit i p a c t tc bs id => CSubmit seq i p a c t tc bs id
  | ReqStep i id t c v d => CStep seq i id t c v d
  end.

Definition do_append (w : WalWriter) (r : AppendReq) : WalWriter :=
  (match r with
   | ReqSubmit i p a c t tc bs id => append_submit w i p a c t tc bs id
   | ReqStep i id t c v d => append_step w i id t c v d
   end).2.

(** The requests in order, errors ignored (as the kernel does). *)
Definition run_appends (w : WalWriter) (reqs : list AppendReq) : WalWriter := fold_left do_append reqs w.

Lemma do_append_eq w r : do_append w r = (append w (req_content r)).2.
Proof. by destruct r. Qed.

(** A failed append changes the sequence only; a successful one pushes the
    sealed record. *)
Lemma append_cases w c :
  let seq := sat_add64 (w_next_seq w) 1 in
  (∃ m, to_allocvec (from_content (c seq) (w_prev_hash w)) = Err m ∧
    append w c = (Err (SerializeFailed m),
      mkWriter (w_header w) (w_records w) seq (w_prev_hash w) (w_chain_key w) (w_sig_class w))) ∨
  (∃ b sg sp, to_allocvec (from_content (c seq) (w_prev_hash w)) = Ok b ∧
    (sg, sp) = match sign_hybrid (w_sig_class w) b with
               | Some hyb => (Some (hs_ed25519 hyb), Some (hs_pqc hyb))
               | None => (sign (w_sig_class w) b, None)
               end ∧
    let rec := mkRecord (c seq) (w_prev_hash w) (blake3_keyed (w_chain_key w) (w_prev_hash w ++ b)) sg sp in
    append w c = (Ok rec,
      mkWriter (w_header w) (w_records w ++ [rec]) seq (this_chain_hash rec) (w_chain_key w) (w_sig_class w))).
Proof.
  intros seq. unfold append, push_sealed, seal. cbn [w_prev_hash w_chain_key w_sig_class w_header w_records].
  fold seq. destruct (to_allocvec (from_content (c seq) (w_prev_hash w))) as [b|m] eqn:E; [right|left].
  - cbn [map_err mbind Result_bind]. destruct (sign_hybrid (w_sig_class w) b) as [hyb|] eqn:Es.
    + exists b, (Some (hs_ed25519 hyb)), (Some (hs_pqc hyb)). rewrite Es. split_and!; reflexivity.
    + exists b, (sign (w_sig_class w) b), None. rewrite Es. split_and!; reflexivity.
  - exists m. done.
Qed.

(** An honest class whose provider does not fail signs what its own verifier
    accepts. *)
Lemma honest_signature {SL : SigLaws} c v b rec :
  honest c → pqc_total c → verifier_of c v →
  (signature rec, signature_pqc rec) = match sign_hybrid c b with
                                       | Some hyb => (Some (hs_ed25519 hyb), Some (hs_pqc hyb))
                                       | None => (sign c b, None)
                                       end →
  signature_valid v rec b.
Proof.
  intros Hc Ht Hv Hs. destruct Hc as [|secret|secret seed].
  - pose proof verifier_of_none as Hv'. unfold verifier_of in *. rewrite Hv' in Hv. by injection Hv as <-.
  - pose proof (verifier_of_ed25519 secret) as Hv'. unfold verifier_of in *. rewrite Hv' in Hv.
    injection Hv as <-. injection Hs as Hs _. eexists. split; [exact Hs|]. apply verify_ed25519_sign.
  - pose proof (verifier_of_hybrid secret seed) as Hv'. unfold verifier_of in *. rewrite Hv' in Hv.
    injection Hv as <-. destruct (Ht (domain_separated b)) as [sp Hsp].
    unfold new_hybrid_from_secrets in Hs. cbn [sign_hybrid] in Hs. rewrite Hsp in Hs. injection Hs as Hs1 Hs2.
    cbn [hs_ed25519 hs_pqc] in *. exists (ed_sign (ed_signing_from_bytes secret) (domain_separated b)), sp.
    split_and!; [done|done|apply verify_ed25519_sign|]. by apply ml_verify_sign.
Qed.

(** A writer and what its records form. *)
Record writer_ok (v : VerifierClass) (world : bytes) (w : WalWriter) : Prop := {
  wo_chain : valid_chain v (w_chain_key w) zero32 (w_records w) (w_prev_hash w);
  wo_key : w_chain_key w = build_chain_key world;
  wo_header : from_header_bytes (header_verifying_key (w_header w)) (header_verifying_key_pqc (w_header w)) = Ok v
}.

Lemma append_ok {SL : SigLaws} v world w c :
  honest (w_sig_class w) → pqc_total (w_sig_class w) → verifier_of (w_sig_class w) v →
  writer_ok v world w →
  writer_ok v world (append w c).2 ∧ w_sig_class (append w c).2 = w_sig_class w.
Proof.
  intros Hc Ht Hv [H1 H2 H3].
  destruct (append_cases w c) as [(m & _ & ->)|(b & sg & sp & Hb & Hs & ->)].
  { by split. }
  split; [|done]. split; cbn; [|done|done].
  refine (valid_chain_snoc _ _ _ _ _ _ H1 _). split; [done|]. exists b. split_and!; [done|done|].
  by eapply honest_signature.
Qed.

Lemma run_appends_ok {SL : SigLaws} v world w reqs :
  honest (w_sig_class w) → pqc_total (w_sig_class w) → verifier_of (w_sig_class w) v →
  writer_ok v world w → writer_ok v world (run_appends w reqs).
Proof.
  unfold run_appends. revert w. induction reqs as [|r reqs IH]; intros w Hc Ht Hv Hw; [done|]. simpl.
  destruct (append_ok v world w (req_content r) Hc Ht Hv Hw) as [Hw' Hc'].
  rewrite do_append_eq. apply IH; by rewrite ?Hc'.
Qed.

Lemma honest_verifier {SL : SigLaws} c : honest c → ∃ v, verifier_of c v.
Proof.
  intros []; eexists; [apply verifier_of_none|apply verifier_of_ed25519|apply verifier_of_hybrid].
Qed.

(** The chain hashes depend on the contents only, not on the signing class. *)
Lemma append_unsigned w w' c :
  w_next_seq w = w_next_seq w' → w_prev_hash w = w_prev_hash w' → w_chain_key w = w_chain_key w' →
  is_ok (append w c).1 = is_ok (append w' c).1 ∧
  w_next_seq (append w c).2 = w_next_seq (append w' c).2 ∧
  w_prev_hash (append w c).2 = w_prev_hash (append w' c).2 ∧
  w_chain_key (append w c).2 = w_chain_key (append w' c).2.
Proof.
  intros E1 E2 E3. pose proof (append_cases w c) as C1. pose proof (append_cases w' c) as C2.
  rewrite E1, E2, E3 in C1. cbv zeta in *.
  destruct C1 as [(m & Hm & ->)|(b & sg & sp & Hb & _ & ->)], C2 as [(m' & Hm' & ->)|(b' & sg' & sp' & Hb' & _ & ->)];
    try congruence; cbn; split_and!; congruence.
Qed.

(** With a codec that always encodes, the records are the requests, numbered
    from 1. *)
Lemma run_appends_contents `{!PostcardTotal WalRecordBody} w reqs :
  w_next_seq w + len reqs ≤ U64_MAX →
  let w' := run_appends w reqs in
  (content <$> w_records w')
    = (content <$> w_records w) ++ imap (λ k r, req_content r (w_next_seq w + N.of_nat k + 1)) reqs ∧
  w_next_seq w' = w_next_seq w + len reqs.
Proof.
  unfold run_appends. revert w. induction reqs as [|r reqs IH]; intros w Hle; cbn [fold_left].
  { rewrite app_nil_r. unfold len. simpl. split; [done|lia]. }
  rewrite len_cons in *. rewrite do_append_eq.
  assert (sat_add64 (w_next_seq w) 1 = w_next_seq w + 1) as Hs by (apply sat_add64_exact; lia).
  destruct (append_cases w (req_content r)) as [(m & Hm & _)|(b & sg & sp & _ & _ & Ha)].
  { destruct (postcard_total (from_content (req_content r (sat_add64 (w_next_seq w) 1)) (w_prev_hash w)))
      as [b Hb]. congruence. }
  rewrite Ha. cbn [snd]. destruct (IH (mkWriter (w_header w)
     (w_records w ++ [mkRecord (req_content r (sat_add64 (w_next_seq w) 1)) (w_prev_hash w)
        (blake3_keyed (w_chain_key w) (w_prev_hash w ++ b)) sg sp]) (sat_add64 (w_next_seq w) 1)
     (blake3_keyed (w_chain_key w) (w_prev_hash w ++ b)) (w_chain_key w) (w_sig_class w))) as [H1 H2].
  { cbn. lia. }
  cbn [this_chain_hash]. cbn [w_next_seq w_records] in *. rewrite H1, H2, Hs. split; [|lia].
  rewrite fmap_app, <- app_assoc. f_equal. cbn. f_equal; [f_equal; lia|].
  apply imap_ext. intros k x _. unfold compose. f_equal. lia.
Qed.

(** ** Tamper evidence *)

(** The messages a chain feeds to the keyed hash. *)
Definition chain_message (rec : WalRecord) : option bytes :=
  match to_allocvec (from_record rec (prev_chain_hash rec)) with
  | Ok b => Some (prev_chain_hash rec ++ b)
  | Err _ => None
  end.
Definition chain_messages (recs : list WalRecord) : list bytes := omap chain_message recs.

(** The two logs exhibit a collision: two different messages they hash have
    one digest, or one of them hashes to the initial tip. *)
Definition exhibits_collision (chain_key : bytes) (recs1 recs2 : list WalRecord) : Prop :=
  (∃ m m', m ∈ chain_messages recs1 ∧ m' ∈ chain_messages recs2 ∧ m ≠ m' ∧
     blake3_keyed chain_key m = blake3_keyed chain_key m') ∨
  (∃ m, m ∈ chain_messages recs1 ++ chain_messages recs2 ∧ blake3_keyed chain_key m = zero32).

Lemma from_content_inj c p c' p' : from_content c p = from_content c' p' → c = c' ∧ p = p'.
Proof. destruct c, c'; unfold from_content; intros [=]; subst; done. Qed.

Lemma valid_chain_length {BL : Blake3Laws} v key prev recs tip :
  valid_chain v key prev recs tip → length prev = 32%nat → length tip = 32%nat.
Proof.
  induction 1 as [|prev rec recs tip (_ & b & _ & Hh & _) _ IH]; [done|]. intros _. apply IH.
  rewrite Hh. apply blake3_keyed_length.
Qed.

Lemma record_message v key prev rec :
  record_valid v key prev rec →
  ∃ b, to_allocvec (from_content (content rec) prev) = Ok b ∧ chain_message rec = Some (prev ++ b) ∧
       this_chain_hash rec = blake3_keyed key (prev ++ b).
Proof.
  intros (Hp & b & Hb & Hh & _). exists b. split; [exact Hb|]. split; [|exact Hh].
  unfold chain_message. by rewrite Hp, Hb.
Qed.

Lemma chain_messages_snoc recs rec m :
  chain_message rec = Some m → chain_messages (recs ++ [rec]) = chain_messages recs ++ [m].
Proof.
  intros Hm. unfold chain_messages. rewrite omap_app. f_equal. cbn. by rewrite Hm.
Qed.

Lemma exhibits_collision_snoc key recs1 recs2 r1 r2 m1 m2 :
  chain_message r1 = Some m1 → chain_message r2 = Some m2 →
  exhibits_collision key recs1 recs2 → exhibits_collision key (recs1 ++ [r1]) (recs2 ++ [r2]).
Proof.
  intros H1 H2. unfold exhibits_collision. rewrite (chain_messages_snoc _ _ _ H1), (chain_messages_snoc _ _ _ H2).
  intros [(m & m' & ? & ? & ?)|(m & Hm & Hz)]; [left|right].
  - exists m, m'. rewrite !elem_of_app. tauto.
  - exists m. rewrite !elem_of_app in *. tauto.
Qed.

(** A chain that ends at the initial tip exhibits a zero digest, if not empty. *)
Lemma zero_tip_collision v key recs rec :
  valid_chain v key zero32 (recs ++ [rec]) zero32 →
  ∃ m, m ∈ chain_messages (recs ++ [rec]) ∧ blake3_keyed key m = zero32.
Proof.
  intros (mid & _ & Hr & Hz)%valid_chain_snoc_inv.
  destruct (record_message _ _ _ _ Hr) as (b & _ & Hm & Hh). exists (mid ++ b).
  rewrite (chain_messages_snoc _ _ _ Hm), elem_of_app. split; [right; left|congruence].
Qed.

Lemma same_tip_same_contents {PI : PostcardInj WalRecordBody} {BL : Blake3Laws} v1 v2 key recs1 recs2 tip :
  valid_chain v1 key zero32 recs1 tip → valid_chain v2 key zero32 recs2 tip →
  content <$> recs1 = content <$> recs2 ∨ exhibits_collision key recs1 recs2.
Proof.
  revert recs2 tip. induction recs1 as [|r1 recs1 IH] using rev_ind; intros recs2 tip C1 C2.
  { inversion C1; subst. destruct recs2 as [|r2 recs2 _] using rev_ind; [by left|right; right].
    apply zero_tip_collision in C2 as (m & Hm & Hz). exists m. rewrite elem_of_app. auto. }
  destruct recs2 as [|r2 recs2 _] using rev_ind.
  { inversion C2; subst. right. right.
    apply zero_tip_collision in C1 as (m & Hm & Hz). exists m. rewrite elem_of_app. auto. }
  apply valid_chain_snoc_inv in C1 as (mid1 & C1 & R1 & ->).
  apply valid_chain_snoc_inv in C2 as (mid2 & C2 & R2 & Heq).
  destruct (record_message _ _ _ _ R1) as (b1 & B1 & M1 & H1).
  destruct (record_message _ _ _ _ R2) as (b2 & B2 & M2 & H2).
  destruct (decide (mid1 ++ b1 = mid2 ++ b2)) as [Hm|Hm].
  - apply app_inj_1 in Hm as [-> ->].
    2:{ rewrite (valid_chain_length _ _ _ _ _ C1 eq_refl). symmetry. exact (valid_chain_length _ _ _ _ _ C2 eq_refl). }
    destruct (from_content_inj _ _ _ _ (postcard_inj _ _ _ B1 B2)) as [Hc _].
    destruct (IH _ _ C1 C2) as [He|Hx]; [left|right].
    + by rewrite !fmap_app, He; simpl; rewrite Hc.
    + by eapply exhibits_collision_snoc.
  - right. left. exists (mid1 ++ b1), (mid2 ++ b2).
    rewrite (chain_messages_snoc _ _ _ M1), (chain_messages_snoc _ _ _ M2), !elem_of_app.
    split_and!; [right; left|right; left|done|congruence].
Qed.

(** ** The trust anchor *)

Lemma check_pinned_Ok expected actual e :
  check_pinned expected actual e = Ok () ↔ ∀ x, expected = Some x → actual = Some x.
Proof.
  unfold check_pinned. destruct expected as [x|]; [|done]. destruct (decide (actual = Some x)) as [Hx|Hx].
  - split; [by intros _ ? [= <-]|done].
  - split; [done|]. intros Hy. destruct Hx. by apply Hy.
Qed.

Lemma anchor_gates_Ok w anchor :
  anchor_gates w anchor = Ok () ↔
  (∃ t, header_tier w = Ok t ∧ ∀ floor, min_tier anchor = Some floor → tier_rank floor ≤ tier_rank t) ∧
  (∀ k, anchor_ed25519_verifying_key anchor = Some k → header_verifying_key (header w) = Some k) ∧
  (∀ k, anchor_mldsa_verifying_key anchor = Some k → header_verifying_key_pqc (header w) = Some k) ∧
  (∀ d, expected_manifest_digest anchor = Some d → header_manifest_digest (header w) = d).
Proof.
  assert (∀ o : option bytes, ∀ x, (∀ y, o = Some y → Some x = Some y) ↔ (∀ y, o = Some y → x = y)) as Hs.
  { intros o x. split; intros Hy y Ho; [by injection (Hy y Ho)|by rewrite (Hy y Ho)]. }
  unfold anchor_gates. rewrite bind_Ok. split.
  - intros (t & Ht & (u1 & Hf & (u2 & He & (u3 & Hm & Hd)%bind_Ok)%bind_Ok)%bind_Ok).
    destruct u2, u3. rewrite check_pinned_Ok in He, Hm, Hd. rewrite Hs in Hd. split_and!; [|done|done|done].
    exists t. split; [done|]. intros floor Hfl. rewrite Hfl in Hf.
    destruct (decide (tier_rank t < tier_rank floor)); [done|lia].
  - intros ((t & Ht & Hf) & He & Hm & Hd). exists t. split; [done|].
    apply bind_Ok. exists (). split.
    { destruct (min_tier anchor) as [floor|]; [|done]. rewrite decide_False; [done|]. specialize (Hf _ eq_refl). lia. }
    apply bind_Ok. exists (). split; [by apply check_pinned_Ok|].
    apply bind_Ok. exists (). split; [by apply check_pinned_Ok|]. by apply check_pinned_Ok, Hs.
Qed.

Lemma verify_chain_anchored_Ok w world anchor :
  ∃ r, verify_chain_anchored w world anchor = Done r ∧
  (r = Ok () ↔ anchor_gates w anchor = Ok () ∧ verify_chain w world = Done (Ok ()) ∧
     ∀ tip, expected_chain_tip anchor = Some tip → chain_tip w = tip).
Proof.
  unfold verify_chain_anchored. destruct (anchor_gates w anchor) as [[]|e].
  - destruct (verify_chain_valid w world) as (r & -> & _). eexists. split; [reflexivity|].
    rewrite bind_Ok. split.
    + intros ([] & -> & Ht). rewrite check_pinned_Ok in Ht. split_and!; [done|done|].
      intros tip Htip. by injection (Ht tip Htip).
    + intros (_ & [= ->] & Ht). exists (). split; [done|]. apply check_pinned_Ok. intros tip Htip.
      by rewrite (Ht tip Htip).
  - exists (Err e). split; [done|]. split; [done|]. by intros (? & _).
Qed.

End wal.

(** ** Properties *)

Section properties.
Context `{Postcard WalRecordBody} {B3 : Blake3} {SS : SigSchemes}.

(** C20: [verify_chain] never panics and is exact. It returns [Ok] precisely
    when the header's keys rebuild a verifier and the records form a valid
    chain from the zero tip under the caller's world: every record names its
    predecessor's hash, its hash is the keyed hash of that tip and its
    canonical body, and it carries the signatures of the header's tier. *)
Theorem verify_chain_exact w world :
  ∃ r, verify_chain w world = Done r ∧
  (r = Ok () ↔
   ∃ v, from_header_bytes (header_verifying_key (header w)) (header_verifying_key_pqc (header w)) = Ok v ∧
     valid_chain v (build_chain_key world) zero32 (records w) (chain_tip w)).
Proof. apply verify_chain_valid. Qed.

(** C18: the log a writer produces verifies. For every signing class the
    constructors build whose PQC provider does not fail, and every sequence of
    append requests (failed encodings included), the exported log passes
    [verify_chain] under the writer's world, and its tip is the writer's. *)
Theorem writer_log_verifies {SL : SigLaws} world md c reqs :
  honest c → pqc_total c →
  let w := run_appends (with_signature world md c) reqs in
  verify_chain (from_writer w) world = Done (Ok ()) ∧
  chain_tip (from_writer w) = writer_chain_tip w.
Proof.
  intros Hc Ht w. destruct (honest_verifier c Hc) as [v Hv].
  assert (writer_ok v world w) as [W1 W2 W3].
  { apply run_appends_ok; [done|done|done|]. split; [constructor|done|exact Hv]. }
  assert (chain_tip (from_writer w) = w_prev_hash w) as Htip
    by (symmetry; exact (valid_chain_tip _ _ _ _ _ W1)).
  split; [|exact Htip].
  destruct (verify_chain_valid (from_writer w) world) as (r & -> & Hr). f_equal. apply Hr.
  exists v. split; [exact W3|]. rewrite Htip, <- W2. exact W1.
Qed.

(** C6: tamper evidence. Two logs that both verify under one world and end
    at the same tip record the same contents in the same order, unless the
    messages they hash exhibit a collision of the keyed hash (two of them
    with one digest, or one with the zero digest). *)
Theorem tamper_evidence {PI : PostcardInj WalRecordBody} {BL : Blake3Laws} w1 w2 world :
  verify_chain w1 world = Done (Ok ()) → verify_chain w2 world = Done (Ok ()) →
  chain_tip w1 = chain_tip w2 →
  content <$> records w1 = content <$> records w2 ∨
  exhibits_collision (build_chain_key world) (records w1) (records w2).
Proof.
  intros H1 H2 Ht.
  destruct (verify_chain_valid w1 world) as (r1 & E1 & V1). rewrite H1 in E1. injection E1 as <-.
  destruct (verify_chain_valid w2 world) as (r2 & E2 & V2). rewrite H2 in E2. injection E2 as <-.
  destruct (proj1 V1 eq_refl) as (v1 & _ & C1). destruct (proj1 V2 eq_refl) as (v2 & _ & C2).
  rewrite Ht in C1. by eapply same_tip_same_contents.
Qed.

(** C21: anchored verification. [verify_chain_anchored] never panics; it
    returns [Ok] exactly when the header's tier is at least the anchor's floor
    (no downgrade), every pinned key and the manifest digest are the header's
    (no substitution), the chain verifies under the caller's world, and the
    pinned tip is the log's (no truncation). *)
Theorem verify_chain_anchored_exact w world anchor :
  ∃ r, verify_chain_anchored w world anchor = Done r ∧
  (r = Ok () ↔
   (∃ t, header_tier w = Ok t ∧ ∀ floor, min_tier anchor = Some floor → tier_rank floor ≤ tier_rank t) ∧
   (∀ k, anchor_ed25519_verifying_key anchor = Some k → header_verifying_key (header w) = Some k) ∧
   (∀ k, anchor_mldsa_verifying_key anchor = Some k → header_verifying_key_pqc (header w) = Some k) ∧
   (∀ d, expected_manifest_digest anchor = Some d → header_manifest_digest (header w) = d) ∧
   verify_chain w world = Done (Ok ()) ∧
   (∀ tip, expected_chain_tip anchor = Some tip → chain_tip w = tip)).
Proof.
  destruct (verify_chain_anchored_Ok w world anchor) as (r & Hr & Hiff). exists r. split; [exact Hr|].
  rewrite Hiff, anchor_gates_Ok. tauto.
Qed.

(** An unsigned re-seal reproduces the chain. A writer rebuilt from the
    header, without keys, given the same requests reaches the same tip as the
    signing writer: the hash covers the body, never the signatures. *)
Theorem rebuild_reproduces_tip world md c reqs :
  writer_chain_tip (run_appends (rebuild_from_header (w_header (with_signature world md c))) reqs)
  = writer_chain_tip (run_appends (with_signature world md c) reqs).
Proof.
  unfold run_appends, writer_chain_tip.
  assert (∀ w w', w_next_seq w = w_next_seq w' → w_prev_hash w = w_prev_hash w' → w_chain_key w = w_chain_key w' →
    w_prev_hash (fold_left do_append reqs w) = w_prev_hash (fold_left do_append reqs w')) as Hgen;
    [|by apply Hgen].
  induction reqs as [|r reqs IH]; intros w w' E1 E2 E3; [done|]. cbn [fold_left]. rewrite !do_append_eq.
  destruct (append_unsigned w w' (req_content r) E1 E2 E3) as (_ & F1 & F2 & F3). by apply IH.
Qed.

(** What is recorded. With a codec that always encodes, the log holds
    exactly the requests, in order, numbered consecutively from 1. *)
Theorem writer_log_contents {PT : PostcardTotal WalRecordBody} world md c reqs :
  len reqs ≤ U64_MAX →
  content <$> records (from_writer (run_appends (with_signature world md c) reqs))
  = imap (λ k r, req_content r (N.of_nat k + 1)) reqs.
Proof.
  intros Hle. destruct (run_appends_contents (with_signature world md c) reqs) as [Hc _].
  { cbn. lia. }
  cbn [records from_writer]. rewrite Hc. cbn. by apply imap_ext.
Qed.

(** C40: a failing PQC provider. On a hybrid writer whose log so far is
    valid, a record sealed while the provider fails is still appended and
    reported [Ok]: it carries the Ed25519 signature of its body bytes and no
    PQC signature. Verification then rejects the log at that record with
    [MissingPqcSignature], and not before. *)
Theorem hybrid_provider_failure {SL : SigLaws} v world w sk vk s c m :
  w_sig_class w = SC_Hybrid sk vk s → writer_ok v world w →
  (∃ evk pvk, v = VC_Hybrid evk pvk) →
  (∀ msg, pqc_sign s msg = Err (Provider m)) →
  is_ok (to_allocvec (from_content (c (sat_add64 (w_next_seq w) 1)) (w_prev_hash w))) = true →
  let w' := (append w c).2 in
  (∃ rec b, (append w c).1 = Ok rec ∧ w_records w' = w_records w ++ [rec] ∧
     to_allocvec (from_record rec (w_prev_hash w)) = Ok b ∧ signature rec = Some (ed_sign sk (domain_separated b)) ∧
     signature_pqc rec = None) ∧
  verify_chain (from_writer w') world = Done (Err (MissingPqcSignature (record_count w))).
Proof.
  intros Hc [W1 W2 W3] (evk & pvk & ->) Hf Hok w'. subst w'.
  destruct (append_cases w c) as [(e & He & _)|(b & sg & sp & Hb & Hs & ->)]; [by rewrite He in Hok|].
  rewrite Hc in Hs. cbn [sign_hybrid sign] in Hs. rewrite Hf in Hs. injection Hs as -> ->.
  cbn [fst snd w_records]. split; [by eexists _, b|].
  unfold verify_chain. cbn [from_writer header records w_header w_records]. rewrite W3. cbn [map_err].
  rewrite <- W2. set (rec := mkRecord _ _ _ _ _).
  rewrite (verify_records_app _ _ 0 _ _ [rec] _ W1). cbn [verify_records]. unfold verify_record.
  cbn [prev_chain_hash this_chain_hash rec]. rewrite decide_False by (intros Hn; by apply Hn).
  unfold from_record. cbn [content rec]. rewrite Hb. rewrite decide_False by (intros Hn; by apply Hn). done.
Qed.

End properties.

(** ** Witnesses *)

#[local] Instance ex_postcard : Postcard WalRecordBody := countable_postcard.
#[local] Instance ex_postcard_total : PostcardTotal WalRecordBody := countable_postcard_total.
#[local] Instance ex_postcard_rt : PostcardRoundtrip WalRecordBody := countable_postcard_roundtrip.
#[local] Instance ex_blake3 : Blake3 := tail_blake3.
#[local] Instance ex_blake3_laws : Blake3Laws := tail_blake3_laws.
#[local] Instance ex_sigs : SigSchemes := toy_sigs false.
#[local] Instance ex_sigs_laws : SigLaws := toy_sigs_laws false.

Definition ex_reqs : list AppendReq :=
  [ReqSubmit 1%positive System (Some 2%positive) 15 4 7 [Byte.x01] 1%positive;
   ReqStep 1%positive 1%positive 4 15 (Skipped DeserFailed) zero32].

Lemma writer_log_verifies_witness :
  honest (new_hybrid_from_secrets [] []) ∧
  verify_chain (from_writer (run_appends (with_signature zero32 zero32 (new_hybrid_from_secrets [] [])) ex_reqs))
    zero32 = Done (Ok ()).
Proof.
  assert (honest (new_hybrid_from_secrets [] [])) as Hh by constructor.
  split; [exact Hh|].
  assert (pqc_total (new_hybrid_from_secrets [] [])) as Ht by (intros m; eexists; reflexivity).
  exact (proj1 (writer_log_verifies zero32 zero32 _ ex_reqs Hh Ht)).
Defined.

Lemma tamper_evidence_witness :
  let w1 := from_writer (run_appends (with_signature zero32 zero32 (new_ed25519_from_secret [])) ex_reqs) in
  let w2 := from_writer (run_appends (with_signature zero32 zero32 SC_None) ex_reqs) in
  chain_tip w1 = chain_tip w2 ∧
  (content <$> records w1 = content <$> records w2 ∨
   exhibits_collision (build_chain_key zero32) (records w1) (records w2)).
Proof.
  intros w1 w2. assert (chain_tip w1 = chain_tip w2) as Ht by (vm_compute; reflexivity).
  split; [exact Ht|].
  apply (tamper_evidence w1 w2 zero32); [vm_compute; reflexivity|vm_compute; reflexivity|exact Ht].
Defined.

Lemma writer_log_contents_witness :
  len ex_reqs ≤ U64_MAX ∧
  content <$> records (from_writer (run_appends (with_signature zero32 zero32 SC_None) ex_reqs))
  = imap (λ k r, req_content r (N.of_nat k + 1)) ex_reqs.
Proof.
  assert (len ex_reqs ≤ U64_MAX) as Hle by (vm_compute; discriminate). split; [exact Hle|].
  exact (writer_log_contents zero32 zero32 SC_None ex_reqs Hle).
Defined.

Lemma hybrid_provider_failure_witness :
  let w := with_signature (SS := toy_sigs true) zero32 zero32 (new_hybrid_from_secrets [] []) in
  verify_chain (from_writer (append w (req_content (ReqStep 1 1 0 0 Committed zero32))).2) zero32
  = Done (Err (MissingPqcSignature 0)).
Proof.
  refine (proj2 (hybrid_provider_failure (SS := toy_sigs true) (SL := toy_sigs_laws true)
    (VC_Hybrid (SS := toy_sigs true) () (SoftwareMlDsa65Verifier_dyn (SS := toy_sigs true) (mkMlVerifier (SS := toy_sigs true) ())))
    zero32 (with_signature (SS := toy_sigs true) zero32 zero32 (new_hybrid_from_secrets [] [])) () ()
    (SoftwareMlDsa65Signer_dyn (SS := toy_sigs true) (SoftwareMlDsa65Signer_from_seed []))
    (req_content (ReqStep 1 1 0 0 Committed zero32)) "provider" eq_refl _ _ _ _)).
  - split; [constructor|reflexivity|]. exact (verifier_of_hybrid (SL := toy_sigs_laws true) [] []).
  - eexists _, _. reflexivity.
  - intros msg. reflexivity.
  - vm_compute. reflexivity.
Defined.
