(* ===== verification/Registry.v ===== *)
(** * Action traits and the action registry

    Models [src/arkhe-kernel/src/state/traits.rs] (the sealed traits and their
    provided methods) and [src/arkhe-kernel/src/runtime/registry.rs] (the
    [TypeCode] table of deserializers). The traits are classes; an action's
    [compute] is user code that may panic, hence its [Outcome]. *)
From S2P Require Import Prelude Abi Extern Authz Instance.

Local Open Scope N_scope.

(** ** Traits ([state/traits.rs]) *)

Inductive DeserializeError : Type :=
  | SchemaVersionMismatch (expected got : N)
  | PayloadMalformed
  | UnknownTypeCode (observed : TypeCode)
  | LengthExceedsBudget.

(** [impl Display for DeserializeError]; a [TypeCode] is a one-field tuple
    struct, printed by [derive(Debug)]. *)
Definition DeserializeError_display (e : DeserializeError) : string :=
  match e with
  | SchemaVersionMismatch expected got =>
      "schema version mismatch: expected " +:+ pretty expected +:+ ", got " +:+ pretty got
  | PayloadMalformed => "payload malformed"
  | UnknownTypeCode observed => "unknown type code: TypeCode(" +:+ pretty observed +:+ ")"
  | LengthExceedsBudget => "deserialization length exceeds budget"
  end.

(** What the derive macros emit for a [Component], an [Action] or an [Event]:
    two constants, and the serde implementation behind [postcard]. *)
Class Derived (A : Type) : Type := {
  TYPE_CODE : TypeCode;
  SCHEMA_VERSION : N;
  derived_postcard :: Postcard A
}.

Section derived.
Context `{Derived A}.

(** The provided methods of [Component]. *)
Definition Component_canonical_bytes (x : A) : Outcome bytes :=
  match to_allocvec x with
  | Ok bs => Done bs
  | Err _ => Panicked "postcard encode self for Component::canonical_bytes"
  end.
Definition Component_from_bytes (version : N) (bs : bytes) : Result DeserializeError A :=
  if decide (version ≠ SCHEMA_VERSION) then Err (SchemaVersionMismatch SCHEMA_VERSION version)
  else map_err (λ _, PayloadMalformed) (from_bytes bs).
Definition Component_approx_size (x : A) : Outcome N := bs ← Component_canonical_bytes x; mret (len bs).

(** The provided methods of [Action]. *)
Definition Action_canonical_bytes (x : A) : Outcome bytes :=
  match to_allocvec x with
  | Ok bs => Done bs
  | Err _ => Panicked "postcard encode self for canonical_bytes"
  end.
Definition Action_from_bytes (version : N) (bs : bytes) : Result DeserializeError A :=
  if decide (version ≠ SCHEMA_VERSION) then Err (SchemaVersionMismatch SCHEMA_VERSION version)
  else map_err (λ _, PayloadMalformed) (from_bytes bs).
Definition Action_approx_size (x : A) : Outcome N := bs ← Action_canonical_bytes x; mret (len bs).

(** The provided methods of [Event]. *)
Definition Event_canonical_bytes (x : A) : Outcome bytes :=
  match to_allocvec x with
  | Ok bs => Done bs
  | Err _ => Panicked "postcard encode self for Event::canonical_bytes"
  end.
Definition Event_from_bytes (version : N) (bs : bytes) : Result DeserializeError A :=
  if decide (version ≠ SCHEMA_VERSION) then Err (SchemaVersionMismatch SCHEMA_VERSION version)
  else map_err (λ _, PayloadMalformed) (from_bytes bs).
Definition Event_approx_size (x : A) : Outcome N := bs ← Event_canonical_bytes x; mret (len bs).
End derived.

(** [trait ActionCompute]: a deterministic function of the action and its
    context (the purity the trait documents), that may panic. *)
Class ActionCompute (A : Type) : Type := compute : A → ActionContext → Outcome (list Op).

(** ** Registry ([runtime/registry.rs]) *)

(** [dyn ActionDyn]. *)
Record ActionDyn : Type := mkDyn {
  canonical_bytes_dyn : Outcome bytes;
  compute_dyn : ActionContext → Outcome (list Op)
}.

(** [impl<T: Action> ActionDyn for T]. *)
Definition to_dyn `{Derived A, ActionCompute A} (a : A) : ActionDyn := {|
  canonical_bytes_dyn := Action_canonical_bytes a;
  compute_dyn := compute a
|}.

Record ActionRegistration : Type := mkRegistration {
  schema_version : N;
  deserializer : N → bytes → Result DeserializeError ActionDyn
}.

Record ActionRegistry : Type := mkActionRegistry { by_type_code : gmap TypeCode ActionRegistration }.

(** [ActionRegistry::new], [register], [get], [len]. *)
Definition ActionRegistry_new : ActionRegistry := mkActionRegistry ∅.
Definition register (A : Type) `{Derived A, ActionCompute A} (r : ActionRegistry) : ActionRegistry :=
  let reg := {|
    schema_version := SCHEMA_VERSION (A := A);
    deserializer := λ version bs,
      a ← Action_from_bytes (A := A) version bs;
      mret (to_dyn a)
  |} in
  mkActionRegistry (<[TYPE_CODE (A := A) := reg]> (by_type_code r)).
Definition registry_get (r : ActionRegistry) (tc : TypeCode) : option ActionRegistration := by_type_code r !! tc.
Definition registry_len (r : ActionRegistry) : N := N.of_nat (size (by_type_code r)).

(** What the step driver does with the bytes of a popped entry: the action, or
    [None] for an unregistered type code and for bytes that do not decode. *)
Definition resolve (r : ActionRegistry) (tc : TypeCode) (bs : bytes)
    : option (Result DeserializeError ActionDyn) :=
  reg ← registry_get r tc; Some (deserializer reg (schema_version reg) bs).

(** Every action the registry can produce computes without panicking. *)
Definition computes_total (r : ActionRegistry) : Prop :=
  ∀ tc bs a ctx, resolve r tc bs = Some (Ok a) → ∃ ops, compute_dyn a ctx = Done ops.

Lemma computes_total_new : computes_total ActionRegistry_new.
Proof. intros tc bs a ctx H. unfold resolve, registry_get in H. cbn in H. by rewrite lookup_empty in H. Qed.

Lemma computes_total_register A `{Derived A, ActionCompute A} r :
  (∀ (a : A) ctx, ∃ ops, compute a ctx = Done ops) → computes_total r → computes_total (register A r).
Proof.
  intros Ha Hr tc bs a ctx. unfold resolve, registry_get, register. cbn [by_type_code].
  destruct (decide (TYPE_CODE (A := A) = tc)) as [->|Hne].
  - rewrite lookup_insert_eq. cbn. intros [= Heq]. apply bind_Ok in Heq as (x & _ & [= <-]). apply Ha.
  - rewrite lookup_insert_ne by done. apply (Hr tc bs a ctx).
Qed.

(** ** Properties *)

(** Registered dispatch. Registering a type makes its type code resolve,
    replaces an earlier registration of that code and no other; the canonical
    bytes of an action resolve to that same action; under another schema
    version decoding fails with both versions; undecodable bytes are
    [PayloadMalformed]. *)
Theorem registered_dispatch A `{Derived A, ActionCompute A} `{!PostcardRoundtrip A} r :
  (∀ a bs, Action_canonical_bytes a = Done bs →
     resolve (register A r) (TYPE_CODE (A := A)) bs = Some (Ok (to_dyn a))) ∧
  (∀ bs, is_ok (from_bytes (A := A) bs) = false →
     resolve (register A r) (TYPE_CODE (A := A)) bs = Some (Err PayloadMalformed)) ∧
  (∀ version bs, version ≠ SCHEMA_VERSION (A := A) →
     Action_from_bytes (A := A) version bs = Err (SchemaVersionMismatch (SCHEMA_VERSION (A := A)) version)) ∧
  (∀ tc bs, tc ≠ TYPE_CODE (A := A) → resolve (register A r) tc bs = resolve r tc bs).
Proof.
  unfold resolve, registry_get, register. cbn [by_type_code]. rewrite lookup_insert_eq.
  cbn [mbind option_bind deserializer schema_version]. unfold Action_from_bytes. split_and!.
  - intros a bs Hb. unfold Action_canonical_bytes in Hb. destruct (to_allocvec a) as [b|] eqn:E; [|done].
    injection Hb as ->. rewrite decide_False by (intros Hn; by apply Hn).
    by rewrite (postcard_roundtrip _ _ E).
  - intros bs Hbs. rewrite decide_False by (intros Hn; by apply Hn). by destruct (from_bytes bs).
  - intros version bs Hv. by rewrite decide_True.
  - intros tc bs Htc. by rewrite lookup_insert_ne by done.
Qed.

Lemma registered_dispatch_witness :
  let D : Derived N := {| TYPE_CODE := 7; SCHEMA_VERSION := 1; derived_postcard := countable_postcard |} in
  let C : ActionCompute N := λ n _, Done [] in
  ∃ bs, Action_canonical_bytes 5 = Done bs ∧
    resolve (register N ActionRegistry_new) 7 bs = Some (Ok (to_dyn 5)).
Proof.
  intros D C. exists (pos_bits (encode 5)). split; [reflexivity|].
  exact (proj1 (registered_dispatch N (PostcardRoundtrip0 := countable_postcard_roundtrip) ActionRegistry_new)
           5 _ eq_refl).
Defined.

(** ** An action type for the witnesses of later files *)

(** A one-value action of type code 1 that returns a fixed list of
    operations; its encoding is the empty byte string. *)
Definition script_derived : Derived unit :=
  {| TYPE_CODE := 1; SCHEMA_VERSION := 1; derived_postcard := countable_postcard |}.
Definition script_registry (ops : list Op) : ActionRegistry :=
  @register unit script_derived (λ _ _, Done ops) ActionRegistry_new.

Lemma script_registry_total ops : computes_total (script_registry ops).
Proof. apply computes_total_register; [|apply computes_total_new]. intros a ctx. eexists. reflexivity. Qed.
