(* ===== verification/Step.v ===== *)
(** * One step of one instance

    Models [step_one_core] of [src/arkhe-kernel/src/runtime/kernel.rs]: pop one
    due action, resolve its capabilities, run its operations through the gate
    loop, and commit or roll back. [gate_op] is the loop body, with one
    definition per gate; [step_one_core] is the function itself. [lets_through]
    is the reference the gates are compared with: it judges an operation from
    the instance before the action and the operations let through before. *)
From S2P Require Import Prelude Abi Quota Extern Authz Ledger Scheduler Instance Event.
From S2P Require Import Stage Dispatch Apply Signature Wal Registry.

Local Open Scope N_scope.

(** ** Definitions *)

(** [StepCore]. *)
Record StepCore : Type := mkCore {
  core_popped_id : ScheduledActionId;
  core_action_type : TypeCode;
  core_verdict : StepVerdict;
  core_digest : bytes;
  core_pending_signals : list PendingSignal;
  core_events : list KernelEvent;
  core_effects_applied : N;
  core_effects_denied : N;
  core_domain_events_emitted : N
}.

(** The mutable locals of the gate loop. *)
Record Gate : Type := mkGate {
  g_stage : StepStage;
  g_next_scheduled_id : N;
  g_any_denied : bool;
  g_applied : N;
  g_denied : N
}.

(** The byte total after [op], given the staged total. *)
Definition projected_bytes (l : ResourceLedger) (staged : N) (op : Op) : N :=
  match op with
  | SetComponent _ _ _ size => sat_add64 staged size
  | RemoveComponent entity type_code _ =>
      let freed := default 0 (component_size l entity type_code) in
      sat_sub staged freed
  | SpawnEntity _ _ | DespawnEntity _ | EmitEvent _ _ _ | ScheduleAction _ _ _ _ | SendSignal _ _ _ => staged
  end.

(** The memory-budget gate: is [op] over budget? *)
Definition budget_exceeded (inst : Instance_) (stage : StepStage) (op : Op) : bool :=
  let budget := memory_budget_bytes (config inst) in
  if decide (0 < budget) then
    let staged := projected_component_bytes (total_bytes (ledger inst)) stage (ledger inst) in
    bool_decide (budget < projected_bytes (ledger inst) staged op)
  else false.

(** The entity-quota gate. *)
Definition entity_quota_exceeded (inst : Instance_) (stage : StepStage) (op : Op) : bool :=
  match op with
  | SpawnEntity _ _ =>
      if decide (0 < max_entities (config inst)) then
        bool_decide (max_entities (config inst)
                     ≤ sat_add64 (entities_len inst) (next_entity_advance (stage_id_counters stage)))
      else false
  | _ => false
  end.

(** The scheduled-action-quota gate. *)
Definition scheduled_quota_exceeded (inst : Instance_) (stage : StepStage) (op : Op) : bool :=
  match op with
  | ScheduleAction _ _ _ _ =>
      if decide (0 < max_scheduled (config inst)) then
        bool_decide (max_scheduled (config inst)
                     ≤ sat_add64 (Scheduler_len (scheduler inst))
                         (next_scheduled_advance (stage_id_counters stage)))
      else false
  | _ => false
  end.

(** A per-operation skip: count it, stage [EffectFailed], roll nothing back. *)
Definition gate_skip (inst_id : InstanceId) (reason : string) (g : Gate) : Gate :=
  mkGate (push_event (g_stage g) (EffectFailed inst_id (byte_str reason))) (g_next_scheduled_id g)
    (g_any_denied g) (g_applied g) (sat_add32 (g_denied g) 1).

(** The body of the gate loop. *)
Definition gate_op (inst_id : InstanceId) (inst : Instance_) (principal : Principal) (eff : CapabilityMask)
    (now : Tick) (g : Gate) (op : Op) : Outcome Gate :=
  match authorize eff (Effect_new inst_id principal op) with
  | Ok authorized =>
      if budget_exceeded inst (g_stage g) (eff_op authorized) then
        mret (gate_skip inst_id "budget_exceeded" g)
      else if entity_quota_exceeded inst (g_stage g) (eff_op authorized) then
        mret (gate_skip inst_id "entity_quota_exceeded" g)
      else if scheduled_quota_exceeded inst (g_stage g) (eff_op authorized) then
        mret (gate_skip inst_id "scheduled_quota_exceeded" g)
      else
        r ← dispatch authorized (g_stage g) now (g_next_scheduled_id g) eff;
        mret (mkGate r.1 r.2 (g_any_denied g) (sat_add32 (g_applied g) 1) (g_denied g))
  | Err _ =>
      mret (mkGate (g_stage g) (g_next_scheduled_id g) true (g_applied g) (sat_add32 (g_denied g) 1))
  end.

Section step.
Context `{Postcard InstanceSnapshot} {B3 : Blake3}.

(** [digest_of]: elided when not measured. *)
Definition digest_of (measure_digest : bool) (inst : Instance_) : bytes :=
  if measure_digest then state_digest inst else zero32.

(** The early returns before execution. *)
Definition skipped_core (entry : ScheduledEntry) (reason : SkipReason) (digest : bytes) : StepCore :=
  mkCore (se_id entry) (se_type_code entry) (Skipped reason) digest [] [] 0 0 0.

(** The capabilities the action runs under. *)
Definition resolved_caps (inst : Instance_) (entry : ScheduledEntry) (session_caps : CapabilityMask)
    : CapabilityMask :=
  caps_and (effective_caps (default_caps (config inst)) (se_principal entry) (se_caps_ceiling entry))
    session_caps.

(** The gate loop over the operations, from the cleared scratch. *)
Definition run_gates (inst_id : InstanceId) (inst : Instance_) (entry : ScheduledEntry)
    (eff : CapabilityMask) (scratch : StepStage) (now : Tick) (ops : list Op) : Outcome Gate :=
  fold_outcome (gate_op inst_id inst (se_principal entry) eff now)
    (mkGate (clear scratch) (next_scheduled (id_counters inst)) false 0 0) ops.

(** The end of the function: rollback or commit. *)
Definition finish_step (inst : Instance_) (entry : ScheduledEntry) (measure_digest : bool) (g : Gate)
    : Outcome (StepCore * Instance_ * StepStage) :=
  if g_any_denied g then
    mret (mkCore (se_id entry) (se_type_code entry) AuthDenied (digest_of measure_digest inst) [] [] 0
            (g_denied g) 0, inst, g_stage g)
  else
    let stage := g_stage g in
    let domain_emit_count := as_u32 (len (filter (λ e, is_domain_event e = true) (events stage))) in
    let events_to_deliver := events stage in
    r ← apply_stage inst stage;
    let '(pending_signals, inst', stage') := r in
    let digest := digest_of measure_digest inst' in
    let verdict := if decide (0 < g_denied g) then BudgetPartial (g_denied g) else Committed in
    mret (mkCore (se_id entry) (se_type_code entry) verdict digest pending_signals events_to_deliver
            (g_applied g) (g_denied g) domain_emit_count, inst', stage').

(** [step_one_core]: the core (if an action was due), the instance and the
    scratch stage it leaves. *)
Definition step_one_core (inst_id : InstanceId) (inst : Instance_) (registry : ActionRegistry)
    (scratch : StepStage) (now : Tick) (session_caps : CapabilityMask) (measure_digest : bool)
    : Outcome (option StepCore * Instance_ * StepStage) :=
  popped ← pop_due (scheduler inst) now;
  let '(oe, s) := popped in
  let inst1 := with_scheduler inst s in
  match oe with
  | None => mret (None, inst1, scratch)
  | Some entry =>
      match registry_get registry (se_type_code entry) with
      | None => mret (Some (skipped_core entry Unregistered (digest_of measure_digest inst1)), inst1, scratch)
      | Some reg =>
          match deserializer reg (schema_version reg) (se_bytes entry) with
          | Err _ => mret (Some (skipped_core entry DeserFailed (digest_of measure_digest inst1)), inst1, scratch)
          | Ok action =>
              let eff := resolved_caps inst1 entry session_caps in
              let ctx := ActionContext_new (se_actor entry) now inst_id inst1 in
              ops ← compute_dyn action ctx;
              g ← run_gates inst_id inst1 entry eff scratch now ops;
              r ← finish_step inst1 entry measure_digest g;
              let '(core, inst2, scratch') := r in
              mret (Some core, inst2, scratch')
          end
      end
  end.

End step.

(** ** The gate loop *)

(** The operation passes [authorize] under these capabilities. *)
Definition op_authorized (principal : Principal) (eff : CapabilityMask) (op : Op) : Prop :=
  principal ≠ Unauthenticated ∧ (op_privileged op = true → SYSTEM ⊑c eff).

#[global] Instance op_authorized_dec principal eff op : Decision (op_authorized principal eff op).
Proof. unfold op_authorized. apply _. Defined.

Lemma authorize_cases inst_id principal eff op :
  (op_authorized principal eff op ∧
   authorize eff (Effect_new inst_id principal op) = Ok (mkEffect inst_id principal op)) ∨
  (¬ op_authorized principal eff op ∧ ∃ r, authorize eff (Effect_new inst_id principal op) = Err r).
Proof.
  unfold op_authorized. destruct (authorize eff (Effect_new inst_id principal op)) as [e|r] eqn:E.
  - left. pose proof (authorize_Ok _ _ _ E) as (E1 & E2 & E3 & E4 & E5). cbn in *.
    split; [done|]. destruct e. cbn in *. by subst.
  - right. split; [|eauto]. intros [Hp Ho]. unfold authorize, Effect_new in E. cbn in E.
    assert (caps_contains eff SYSTEM = true ↔ SYSTEM ⊑c eff) as Hs by apply caps_contains_spec.
    destruct principal; [done|..]; destruct op; cbn [match_op_cap op_privileged] in *;
      destruct (caps_contains eff SYSTEM); try done; (assert (false = true) by (apply Hs, Ho; done); done).
Qed.

(** What a dispatched operation adds to the counted buckets. *)
Lemma dispatch_counts e s now n c s' n' :
  dispatch e s now n c = Done (s', n') →
  spawns (state_ops s') = spawns (state_ops s) + (match eff_op e with SpawnEntity _ _ => 1 | _ => 0 end) ∧
  len (schedule_deltas s') = len (schedule_deltas s) + (match eff_op e with ScheduleAction _ _ _ _ => 1 | _ => 0 end).
Proof.
  intros H. unfold dispatch in H. destruct (eff_op e) eqn:E;
    try (injection H as <- _; cbn; rewrite ?spawns_app, ?N.add_0_r; done).
  apply bind_Done in H as (id & _ & H). injection H as <- _. cbn. by rewrite len_app, N.add_0_r.
Qed.

Lemma dispatch_unprivileged e s now n c s' n' :
  dispatch e s now n c = Done (s', n') → op_privileged (eff_op e) = false →
  (schedule_deltas s' ≠ [] ∨ pending_signals s' ≠ []) = (schedule_deltas s ≠ [] ∨ pending_signals s ≠ []).
Proof. intros H. unfold dispatch in H. destruct (eff_op e); try done; by injection H as <- _. Qed.

(** The quotas on what is staged, relative to the state before the step. *)
Definition staged_within (staged live quota : N) : Prop :=
  0 < quota → quota ≤ U64_MAX → staged = 0 ∨ live + staged ≤ quota.

(** The invariant of the gate loop. *)
Record gate_ok (principal : Principal) (eff : CapabilityMask) (inst : Instance_) (g : Gate) : Prop := {
  go_stage : stage_ok principal eff (g_stage g);
  go_ids : ids_ok (next_scheduled (id_counters inst)) (g_stage g) (g_next_scheduled_id g);
  go_entities : staged_within (spawns (state_ops (g_stage g))) (entities_len inst) (max_entities (config inst));
  go_scheduled : staged_within (len (schedule_deltas (g_stage g))) (Scheduler_len (scheduler inst))
                   (max_scheduled (config inst));
  go_privileged : schedule_deltas (g_stage g) ≠ [] ∨ pending_signals (g_stage g) ≠ [] → SYSTEM ⊑c eff
}.

Lemma gate_start_ok principal eff inst scratch :
  next_scheduled (id_counters inst) ≤ U64_MAX →
  gate_ok principal eff inst (mkGate (clear scratch) (next_scheduled (id_counters inst)) false 0 0).
Proof.
  intros Hle. rewrite clear_default. split; cbn.
  - apply StepStage_default_ok.
  - split; [unfold len; simpl; lia|done].
  - by left.
  - by left.
  - tauto.
Qed.

Lemma gate_skip_ok principal eff inst inst_id reason g :
  gate_ok principal eff inst g → gate_ok principal eff inst (gate_skip inst_id reason g).
Proof. intros [H1 H2 H3 H4 H5]. split; cbn; try done. by apply push_event_ok. Qed.

(** An operation that passed the gates keeps the quotas. *)
Lemma entity_gate_pass inst stage op p c :
  stage_ok p c stage → entity_quota_exceeded inst stage op = false →
  staged_within (spawns (state_ops stage)) (entities_len inst) (max_entities (config inst)) →
  staged_within (spawns (state_ops stage) + (match op with SpawnEntity _ _ => 1 | _ => 0 end))
    (entities_len inst) (max_entities (config inst)).
Proof.
  intros [_ Sp _ _ _ _] Hg Hs Hq Hle. specialize (Hs Hq Hle). destruct op; rewrite ?N.add_0_r; try done.
  right. cbn [entity_quota_exceeded] in Hg. rewrite decide_True in Hg by done.
  apply bool_decide_eq_false in Hg. rewrite Sp in Hg. unfold sat_add64 in Hg. lia.
Qed.

Lemma scheduled_gate_pass inst stage op p c :
  stage_ok p c stage → scheduled_quota_exceeded inst stage op = false →
  staged_within (len (schedule_deltas stage)) (Scheduler_len (scheduler inst)) (max_scheduled (config inst)) →
  staged_within (len (schedule_deltas stage) + (match op with ScheduleAction _ _ _ _ => 1 | _ => 0 end))
    (Scheduler_len (scheduler inst)) (max_scheduled (config inst)).
Proof.
  intros [_ _ Sc _ _ _] Hg Hs Hq Hle. specialize (Hs Hq Hle). destruct op; rewrite ?N.add_0_r; try done.
  right. cbn [scheduled_quota_exceeded] in Hg. rewrite decide_True in Hg by done.
  apply bool_decide_eq_false in Hg. rewrite Sc in Hg. unfold sat_add64 in Hg. lia.
Qed.

(** One turn of the loop never panics, keeps the invariant, and raises
    [any_denied] exactly on an unauthorized operation. *)
Lemma gate_op_ok inst_id principal eff inst now g op :
  gate_ok principal eff inst g →
  ∃ g', gate_op inst_id inst principal eff now g op = Done g' ∧ gate_ok principal eff inst g' ∧
    (g_any_denied g' = true ↔ g_any_denied g = true ∨ ¬ op_authorized principal eff op).
Proof.
  intros Hg. unfold gate_op.
  destruct (authorize_cases inst_id principal eff op) as [[Ha ->]|[Ha [r ->]]].
  2:{ eexists. split; [reflexivity|]. destruct Hg. split; [by split|]. cbn. tauto. }
  cbn [eff_op]. destruct (budget_exceeded inst (g_stage g) op).
  { eexists. split; [reflexivity|]. split; [by apply gate_skip_ok|]. cbn. tauto. }
  destruct (entity_quota_exceeded inst (g_stage g) op) eqn:He.
  { eexists. split; [reflexivity|]. split; [by apply gate_skip_ok|]. cbn. tauto. }
  destruct (scheduled_quota_exceeded inst (g_stage g) op) eqn:Hs.
  { eexists. split; [reflexivity|]. split; [by apply gate_skip_ok|]. cbn. tauto. }
  destruct (dispatch_total (mkEffect inst_id principal op) (g_stage g) now (g_next_scheduled_id g) eff) as [[s' n'] Hd].
  rewrite Hd. eexists. split; [reflexivity|]. destruct Hg as [G1 G2 G3 G4 G5].
  destruct (dispatch_counts _ _ _ _ _ _ _ Hd) as [D1 D2]. cbn [eff_op] in D1, D2.
  split; [|cbn; tauto]. split; cbn [g_stage g_next_scheduled_id fst snd].
  - exact (dispatch_ok (mkEffect inst_id principal op) _ _ _ _ _ _ G1 Hd).
  - exact (dispatch_ids _ _ _ _ _ _ _ _ G2 Hd).
  - rewrite D1. by eapply entity_gate_pass.
  - rewrite D2. by eapply scheduled_gate_pass.
  - intros Hne. destruct (op_privileged op) eqn:Ho; [by apply Ha|]. apply G5.
    by rewrite (dispatch_unprivileged _ _ _ _ _ _ _ Hd Ho) in Hne.
Qed.

Lemma gate_loop_ok inst_id principal eff inst now ops g :
  gate_ok principal eff inst g →
  ∃ g', fold_outcome (gate_op inst_id inst principal eff now) g ops = Done g' ∧ gate_ok principal eff inst g' ∧
    (g_any_denied g' = true ↔ g_any_denied g = true ∨ ∃ op, op ∈ ops ∧ ¬ op_authorized principal eff op).
Proof.
  revert g. induction ops as [|op ops IH]; intros g Hg; cbn [fold_outcome].
  { exists g. split_and!; [done|done|]. split; [by left|]. intros [?|(? & Hin & _)]; [done|by apply elem_of_nil in Hin]. }
  destruct (gate_op_ok inst_id principal eff inst now g op Hg) as (g1 & -> & H1 & D1). cbn [mbind Outcome_bind].
  destruct (IH g1 H1) as (g2 & -> & H2 & D2). exists g2. split_and!; [done|done|]. rewrite D2, D1.
  setoid_rewrite elem_of_cons. split.
  - intros [[?|?]|(op' & ? & ?)]; [by left|right; exists op; tauto|right; exists op'; tauto].
  - intros [?|(op' & [->|?] & ?)]; [tauto|tauto|right; eauto].
Qed.

(** ** What a step does *)

Section cases.
Context `{Postcard InstanceSnapshot} {B3 : Blake3}.

Definition denied_core (entry : ScheduledEntry) (g : Gate) (digest : bytes) : StepCore :=
  mkCore (se_id entry) (se_type_code entry) AuthDenied digest [] [] 0 (g_denied g) 0.
Definition committed_core (entry : ScheduledEntry) (g : Gate) (digest : bytes) : StepCore :=
  mkCore (se_id entry) (se_type_code entry)
    (if decide (0 < g_denied g) then BudgetPartial (g_denied g) else Committed) digest
    (pending_signals (g_stage g)) (events (g_stage g)) (g_applied g) (g_denied g)
    (as_u32 (len (filter (λ e, is_domain_event e = true) (events (g_stage g))))).

(** The ways a step of a popped entry ends: [inst1] is the instance without
    the popped row. *)
Inductive step_ends (inst_id : InstanceId) (inst1 : Instance_) (entry : ScheduledEntry)
    (registry : ActionRegistry) (scratch : StepStage) (now : Tick) (session : CapabilityMask) (m : bool)
    : StepCore → Instance_ → StepStage → Prop :=
  | ends_unregistered :
      resolve registry (se_type_code entry) (se_bytes entry) = None →
      step_ends inst_id inst1 entry registry scratch now session m
        (skipped_core entry Unregistered (digest_of m inst1)) inst1 scratch
  | ends_deser_failed err :
      resolve registry (se_type_code entry) (se_bytes entry) = Some (Err err) →
      step_ends inst_id inst1 entry registry scratch now session m
        (skipped_core entry DeserFailed (digest_of m inst1)) inst1 scratch
  | ends_denied a ops g op :
      resolve registry (se_type_code entry) (se_bytes entry) = Some (Ok a) →
      compute_dyn a (ActionContext_new (se_actor entry) now inst_id inst1) = Done ops →
      run_gates inst_id inst1 entry (resolved_caps inst1 entry session) scratch now ops = Done g →
      op ∈ ops → ¬ op_authorized (se_principal entry) (resolved_caps inst1 entry session) op →
      step_ends inst_id inst1 entry registry scratch now session m
        (denied_core entry g (digest_of m inst1)) inst1 (g_stage g)
  | ends_committed a ops g inst2 stage2 :
      resolve registry (se_type_code entry) (se_bytes entry) = Some (Ok a) →
      compute_dyn a (ActionContext_new (se_actor entry) now inst_id inst1) = Done ops →
      run_gates inst_id inst1 entry (resolved_caps inst1 entry session) scratch now ops = Done g →
      gate_ok (se_principal entry) (resolved_caps inst1 entry session) inst1 g →
      (∀ op, op ∈ ops → op_authorized (se_principal entry) (resolved_caps inst1 entry session) op) →
      apply_stage inst1 (g_stage g) = Done (pending_signals (g_stage g), inst2, stage2) →
      step_ends inst_id inst1 entry registry scratch now session m
        (committed_core entry g (digest_of m inst2)) inst2 stage2.

(** A step never panics when the registered actions do not; it leaves the
    instance alone if nothing is due, and otherwise pops the first row and ends
    in one of the four ways. *)
Lemma step_one_core_cases inst_id inst registry scratch now session m :
  computes_total registry → next_scheduled (id_counters inst) ≤ U64_MAX →
  (step_one_core inst_id inst registry scratch now session m = Done (None, inst, scratch) ∧
   ∀ k, is_Some (ready (scheduler inst) !! k) → now < key_at k) ∨
  (∃ key e core inst2 scratch',
     first_key_value (ready (scheduler inst)) = Some (key, e) ∧ key_at key ≤ now ∧
     step_one_core inst_id inst registry scratch now session m = Done (Some core, inst2, scratch') ∧
     step_ends inst_id (with_scheduler inst (sched_remove (scheduler inst) key e)) e registry scratch now
       session m core inst2 scratch').
Proof.
  intros Hct Hle. destruct (pop_due_cases (scheduler inst) now) as [[Hp Hnone]|(key & e & Hp & Hf & _ & Hat & _)];
    unfold step_one_core; rewrite Hp; cbn [mbind Outcome_bind].
  { left. split; [|done]. by destruct inst. }
  right. exists key, e. set (inst1 := with_scheduler inst (sched_remove (scheduler inst) key e)).
  pose proof (Hct (se_type_code e) (se_bytes e)) as Hc. unfold resolve in Hc.
  destruct (registry_get registry (se_type_code e)) as [reg|] eqn:Er.
  2:{ do 3 eexists. split_and!; [done|done|reflexivity|]. constructor. unfold resolve. by rewrite Er. }
  cbn [mbind option_bind] in Hc. destruct (deserializer reg (schema_version reg) (se_bytes e)) as [a|err] eqn:Ed.
  2:{ do 3 eexists. split_and!; [done|done|reflexivity|]. econstructor. unfold resolve. rewrite Er. cbn. by rewrite Ed. }
  assert (resolve registry (se_type_code e) (se_bytes e) = Some (Ok a)) as Hres
    by (unfold resolve; rewrite Er; cbn; by rewrite Ed).
  destruct (Hc a (ActionContext_new (se_actor e) now inst_id inst1) eq_refl) as [ops Ho]. rewrite Ho.
  cbn [mbind Outcome_bind].
  destruct (gate_loop_ok inst_id (se_principal e) (resolved_caps inst1 e session) inst1 now ops
              (mkGate (clear scratch) (next_scheduled (id_counters inst1)) false 0 0)) as (g & Hg & Hok & Hd).
  { apply gate_start_ok. exact Hle. }
  assert (run_gates inst_id inst1 e (resolved_caps inst1 e session) scratch now ops = Done g) as Hrun by exact Hg.
  rewrite Hrun. cbn [mbind Outcome_bind]. unfold finish_step. cbn [g_any_denied] in Hd.
  destruct (g_any_denied g).
  - destruct (proj1 Hd eq_refl) as [?|(op & Hin & Hno)]; [done|].
    do 3 eexists. split_and!; [done|done|reflexivity|]. by eapply ends_denied.
  - destruct (apply_stage_run _ _ inst1 _ (go_stage _ _ _ _ Hok)) as (i' & s' & st' & Ha & _).
    rewrite Ha. cbn [mbind Outcome_bind mret Outcome_ret].
    do 3 eexists. split_and!; [done|done|reflexivity|]. eapply ends_committed; try done.
    intros op Hin. destruct (decide (op_authorized (se_principal e) (resolved_caps inst1 e session) op)) as [?|Hno]; [done|].
    assert (false = true) by (apply Hd; right; eauto). done.
Qed.

End cases.

(** ** The instance invariant *)

(** State and ledger are consistent always; below saturation of the id and
    sequence counters (both only grow) the scheduler index is well formed and
    every id ever minted is below the counter the next one comes from. *)
Record inst_inv (i : Instance_) : Prop := {
  inv_consistent : consistent i;
  inv_counter : next_scheduled (id_counters i) ≤ U64_MAX;
  inv_sched : next_scheduled (id_counters i) < U64_MAX → next_seq (scheduler i) < U64_MAX →
    sched_wf (scheduler i) ∧ next_id (scheduler i) ≤ next_scheduled (id_counters i)
}.

Lemma inst_inv_new id cfg : inst_inv (Instance_new id cfg).
Proof.
  split; cbn; [apply consistent_new|unfold U64_MAX; lia|]. intros _ _. split; [apply Scheduler_new_wf|lia].
Qed.

Lemma consistent_ext i i' :
  entities i' = entities i → components i' = components i → ledger i' = ledger i → consistent i → consistent i'.
Proof. intros E1 E2 E3 [C1 C2 C3 C4]. split; by rewrite ?E1, ?E2, ?E3. Qed.

(** Popping the first row. *)
Lemma inst_inv_pop i key e :
  inst_inv i → ready (scheduler i) !! key = Some e →
  inst_inv (with_scheduler i (sched_remove (scheduler i) key e)).
Proof.
  intros [I1 I2 I3] Hk. split; [by apply (consistent_ext i)|done|]. cbn. intros H1 H2.
  destruct (I3 H1 H2) as [Hw Hn]. split; [by apply sched_remove_wf|done].
Qed.

(** The fields of the instance a commit leaves. *)
Lemma commit_fields p c i st sigs i' st' :
  stage_ok p c st → apply_stage i st = Done (sigs, i', st') →
  sigs = pending_signals st ∧
  fold_outcome apply_schedule_delta (scheduler i) (schedule_deltas st) = Done (scheduler i') ∧
  (let j := fold_left apply_pair (state_ops st) (apply_counters i (stage_id_counters st)) in
   entities i' = entities j ∧ components i' = components j ∧ ledger i' = ledger j) ∧
  next_scheduled (id_counters i')
    = sat_add64 (next_scheduled (id_counters i)) (next_scheduled_advance (stage_id_counters st)) ∧
  inst_id i' = inst_id i ∧ config i' = config i ∧ inflight_refs i' = inflight_refs i ∧
  signal_inbox i' = signal_inbox i ∧ inbox_seq i' = inbox_seq i.
Proof.
  intros Hok Ha. destruct (apply_stage_run p c i st Hok) as (i'' & s' & st'' & Ha' & Hs & Heq).
  rewrite Ha in Ha'. injection Ha' as -> -> ->. rewrite Hs. rewrite Heq.
  cbn [advance_local_tick advance_wall_remainder with_scheduler scheduler entities components ledger id_counters
       inst_id config inflight_refs signal_inbox inbox_seq].
  destruct (apply_pairs_frame (state_ops st) (apply_counters i (stage_id_counters st)))
    as (F1 & F2 & _ & F4 & F5 & F6 & F7 & _). rewrite F1, F2, F4, F5, F6, F7. cbn. split_and!; reflexivity.
Qed.

(** Committing a gated stage keeps the invariant. *)
Lemma inst_inv_commit principal eff i g sigs i' st' :
  inst_inv i → gate_ok principal eff i g → apply_stage i (g_stage g) = Done (sigs, i', st') → inst_inv i'.
Proof.
  intros [I1 I2 I3] [G1 [_ G2] _ _ _] Ha.
  destruct (commit_fields _ _ _ _ _ _ _ G1 Ha) as (_ & Hs & (E1 & E2 & E3) & Hn & _).
  destruct G1 as [_ _ Sc Ch _ _]. rewrite Sc in Hn.
  destruct (apply_schedules_total _ _ _ (scheduler i) Ch) as (s' & Hs' & Hseq & _).
  rewrite Hs in Hs'. injection Hs' as <-. split.
  - eapply consistent_ext; [exact E1|exact E2|exact E3|]. apply apply_pairs_consistent.
    by apply (consistent_ext i).
  - rewrite Hn. unfold sat_add64. lia.
  - intros H1 H2. rewrite Hn in *. unfold sat_add64 in *. specialize (Hseq H2).
    destruct I3 as [Hw Hni]; [lia|lia|].
    destruct (apply_schedules_wf _ _ _ _ _ (next_scheduled (id_counters i)) Ch ltac:(apply G2; lia) Hw Hni Hs H2)
      as [W1 W2]. split; [done|]. lia.
Qed.

Section invariant.
Context `{Postcard InstanceSnapshot} {B3 : Blake3}.

Lemma step_ends_inv inst_id inst1 e registry scratch now session m core inst2 scratch' :
  inst_inv inst1 →
  step_ends inst_id inst1 e registry scratch now session m core inst2 scratch' → inst_inv inst2.
Proof. intros Hi Hs. destruct Hs; try done. by eapply inst_inv_commit. Qed.

Lemma first_row s key e : first_key_value (ready s) = Some (key, e) → ready s !! key = Some e.
Proof. by intros [? _]%first_key_value_Some. Qed.

Lemma step_one_core_inv inst_id inst registry scratch now session m :
  computes_total registry → inst_inv inst →
  ∃ oc inst2 scratch', step_one_core inst_id inst registry scratch now session m = Done (oc, inst2, scratch') ∧
    inst_inv inst2.
Proof.
  intros Hc Hi. destruct (step_one_core_cases inst_id inst registry scratch now session m Hc (inv_counter _ Hi))
    as [[-> _]|(key & e & core & inst2 & scratch' & Hf & _ & -> & He)].
  - eauto.
  - do 3 eexists. split; [reflexivity|]. eapply step_ends_inv; [|exact He].
    apply inst_inv_pop; [done|by apply first_row].
Qed.

(** The inbox side of the instance is not the step's to change. *)
Lemma step_ends_frame inst_id inst1 e registry scratch now session m core inst2 scratch' :
  step_ends inst_id inst1 e registry scratch now session m core inst2 scratch' →
  Instance.inst_id inst2 = Instance.inst_id inst1 ∧ config inst2 = config inst1 ∧
  inflight_refs inst2 = inflight_refs inst1 ∧ signal_inbox inst2 = signal_inbox inst1 ∧
  inbox_seq inst2 = inbox_seq inst1.
Proof.
  intros He. destruct He as [| | |? ? g ? ? _ _ _ [G1 _ _ _ _] _ Ha]; try done.
  destruct (commit_fields _ _ _ _ _ _ _ G1 Ha) as (_ & _ & _ & _ & ? & ? & ? & ? & ?). done.
Qed.

(** The quota clauses of a step that popped the row at [key]. *)
Lemma step_ends_quotas inst_id inst key e registry scratch now session m core inst2 scratch' :
  first_key_value (ready (scheduler inst)) = Some (key, e) →
  step_ends inst_id (with_scheduler inst (sched_remove (scheduler inst) key e)) e registry scratch now session m
    core inst2 scratch' →
  (0 < max_entities (config inst) ≤ U64_MAX →
   entities_len inst2 ≤ N.max (entities_len inst) (max_entities (config inst))) ∧
  (0 < max_scheduled (config inst) ≤ U64_MAX →
   Scheduler_len (scheduler inst2) ≤ N.max (Scheduler_len (scheduler inst)) (max_scheduled (config inst))).
Proof.
  intros Hf He. pose proof (sched_remove_size _ _ _ (first_row _ _ _ Hf)) as Hsz.
  destruct He as [| | |a ops g inst2 st2 _ _ _ [G1 _ G3 G4 _] _ Ha];
    try (cbn; unfold entities_len, Scheduler_len; cbn; split; intros _; cbn in Hsz; lia).
  destruct (commit_fields _ _ _ _ _ _ _ G1 Ha) as (_ & Hsch & (E1 & _ & _) & _). split; intros [Hq1 Hq2].
  - specialize (G3 Hq1 Hq2). unfold entities_len at 1. rewrite E1.
    pose proof (apply_pairs_entities (state_ops (g_stage g))
      (apply_counters (with_scheduler inst (sched_remove (scheduler inst) key e)) (stage_id_counters (g_stage g)))) as Hp.
    unfold entities_len in *. cbn in Hp, G3. lia.
  - specialize (G4 Hq1 Hq2).
    destruct (apply_schedules_total _ _ _ (scheduler (with_scheduler inst (sched_remove (scheduler inst) key e))) (so_children _ _ _ G1))
      as (s' & Hs' & _ & Hlen & _). rewrite Hsch in Hs'. injection Hs' as <-.
    unfold Scheduler_len in *. cbn in *. lia.
Qed.

(** The scratch stage a step starts from does not matter: it is cleared. *)
Lemma step_scratch_irrelevant inst_id inst registry scratch1 scratch2 now session m oc inst2 s1' :
  step_one_core inst_id inst registry scratch1 now session m = Done (oc, inst2, s1') →
  ∃ s2', step_one_core inst_id inst registry scratch2 now session m = Done (oc, inst2, s2').
Proof.
  unfold step_one_core. destruct (pop_due (scheduler inst) now) as [[[e|] s]|]; cbn [mbind Outcome_bind]; [|intros [= <- <- <-]; eauto|done].
  destruct (registry_get registry (se_type_code e)) as [reg|]; [|intros [= <- <- <-]; eauto].
  destruct (deserializer reg (schema_version reg) (se_bytes e)) as [a|]; [|intros [= <- <- <-]; eauto].
  unfold run_gates. rewrite !clear_default. eauto.
Qed.

(** Neither does whether the digest is measured, to the instance and the
    signals. *)
Lemma step_measure_irrelevant inst_id inst registry scratch1 scratch2 now session m1 m2 oc1 inst2 s1' :
  step_one_core inst_id inst registry scratch1 now session m1 = Done (oc1, inst2, s1') →
  ∃ oc2 s2', step_one_core inst_id inst registry scratch2 now session m2 = Done (oc2, inst2, s2') ∧
    core_pending_signals <$> oc2 = core_pending_signals <$> oc1.
Proof.
  unfold step_one_core. destruct (pop_due (scheduler inst) now) as [[[e|] s]|]; cbn [mbind Outcome_bind]; [|intros [= <- <- <-]; eauto|done].
  destruct (registry_get registry (se_type_code e)) as [reg|]; [|intros [= <- <- <-]; by eexists _, _].
  destruct (deserializer reg (schema_version reg) (se_bytes e)) as [a|]; [|intros [= <- <- <-]; by eexists _, _].
  unfold run_gates. rewrite !clear_default. intros Hs. apply bind_Done in Hs as (ops & -> & Hs).
  apply bind_Done in Hs as (g & Hg & Hs). cbn [mbind Outcome_bind]. rewrite Hg. cbn [mbind Outcome_bind].
  unfold finish_step in *. destruct (g_any_denied g); [injection Hs as <- <- <-; by eexists _, _|].
  destruct (apply_stage _ (g_stage g)) as [[[sigs i'] st']|]; [|done].
  injection Hs as <- <- <-. by eexists _, _.
Qed.

End invariant.

(** ** What the gates ought to let through *)

(** A reference for the gate loop that knows nothing of the stage: it looks at
    the instance before the action and at the operations let through so far. *)
Definition spawns_entity (op : Op) : bool := match op with SpawnEntity _ _ => true | _ => false end.
Definition schedules_action (op : Op) : bool := match op with ScheduleAction _ _ _ _ => true | _ => false end.
Definition count_ops (P : Op → bool) (ops : list Op) : N := len (filter (λ op, P op = true) ops).

(** The byte total the operations are taken to leave: a write adds its
    declared size, a removal gives back the size stored before the action. *)
Definition weigh (inst : Instance_) (total : N) (op : Op) : N :=
  match op with
  | SetComponent _ _ _ size => N.min (total + size) U64_MAX
  | RemoveComponent e tc _ => total - default 0 (component_sizes (ledger inst) !! (e, tc))
  | _ => total
  end.
Definition bytes_after (inst : Instance_) (ops : list Op) : N :=
  fold_left (weigh inst) ops (total_bytes (ledger inst)).

(** After [passed], the operation is authorized and within the three limits of
    the instance; a limit of 0 is no limit. *)
Definition lets_through (principal : Principal) (eff : CapabilityMask) (inst : Instance_) (passed : list Op) (op : Op)
    : Prop :=
  let cfg := config inst in
  op_authorized principal eff op ∧
  (0 < memory_budget_bytes cfg → bytes_after inst (passed ++ [op]) ≤ memory_budget_bytes cfg) ∧
  (spawns_entity op = true → 0 < max_entities cfg →
   entities_len inst + count_ops spawns_entity passed < max_entities cfg) ∧
  (schedules_action op = true → 0 < max_scheduled cfg →
   Scheduler_len (scheduler inst) + count_ops schedules_action passed < max_scheduled cfg).

#[global] Instance lets_through_dec principal eff inst passed op : Decision (lets_through principal eff inst passed op).
Proof. unfold lets_through. apply _. Defined.

(** [passed], followed by the operations of [ops] that are let through. *)
Fixpoint let_through (principal : Principal) (eff : CapabilityMask) (inst : Instance_) (passed ops : list Op)
    {struct ops} : list Op :=
  match ops with
  | [] => passed
  | op :: ops' =>
      let_through principal eff inst
        (if decide (lets_through principal eff inst passed op) then passed ++ [op] else passed) ops'
  end.

(** The locals of the loop when [passed] went through. *)
Record gate_passed (inst : Instance_) (passed : list Op) (g : Gate) : Prop := {
  gp_ledger : ledger_ops (ledger_delta (g_stage g)) = passed ≫= staged_ledger_op;
  gp_spawned : next_entity_advance (stage_id_counters (g_stage g)) = N.min (count_ops spawns_entity passed) U64_MAX;
  gp_scheduled : next_scheduled_advance (stage_id_counters (g_stage g))
                   = N.min (count_ops schedules_action passed) U64_MAX;
  gp_applied : g_applied g = N.min (len passed) U32_MAX
}.

Lemma gate_passed_start inst scratch n : gate_passed inst [] (mkGate (clear scratch) n false 0 0).
Proof. rewrite clear_default. by split. Qed.

Lemma gate_passed_skip inst passed inst_id reason g :
  gate_passed inst passed g → gate_passed inst passed (gate_skip inst_id reason g).
Proof. intros []. by split. Qed.

Lemma count_ops_snoc P ops op : count_ops P (ops ++ [op]) = count_ops P ops + (if P op then 1 else 0).
Proof.
  unfold count_ops. rewrite filter_app, len_app, filter_cons, filter_nil.
  by destruct (P op); [rewrite decide_True|rewrite decide_False].
Qed.

(** The projection of the stage is the weight of what went through. *)
Lemma project_weigh inst op total :
  fold_left (project_ledger_op (ledger inst)) (staged_ledger_op op) total = weigh inst total op.
Proof. by destruct op. Qed.

Lemma gate_passed_projection inst passed g :
  gate_passed inst passed g →
  projected_component_bytes (total_bytes (ledger inst)) (g_stage g) (ledger inst) = bytes_after inst passed.
Proof.
  intros [Hl _ _ _]. unfold projected_component_bytes, bytes_after. rewrite Hl. clear Hl. generalize (total_bytes (ledger inst)).
  induction passed as [|op ops IH]; intros n; [done|]. cbn [mbind list_bind fold_left].
  by rewrite fold_left_app, project_weigh, IH.
Qed.

Lemma bytes_after_snoc inst ops op : bytes_after inst (ops ++ [op]) = weigh inst (bytes_after inst ops) op.
Proof. unfold bytes_after. by rewrite fold_left_app. Qed.

(** Each gate decides what the reference decides. *)
Lemma budget_gate_iff inst passed g op :
  gate_passed inst passed g →
  budget_exceeded inst (g_stage g) op = false ↔
  (0 < memory_budget_bytes (config inst) → bytes_after inst (passed ++ [op]) ≤ memory_budget_bytes (config inst)).
Proof.
  intros Hg. unfold budget_exceeded. rewrite (gate_passed_projection _ _ _ Hg), bytes_after_snoc.
  assert (projected_bytes (ledger inst) (bytes_after inst passed) op = weigh inst (bytes_after inst passed) op) as ->
    by by destruct op.
  case_decide; [|tauto]. rewrite bool_decide_eq_false. split; [intros ? _|intros Hle; specialize (Hle H)]; lia.
Qed.

Lemma entity_gate_iff inst passed g op :
  gate_passed inst passed g → max_entities (config inst) ≤ U64_MAX →
  entity_quota_exceeded inst (g_stage g) op = false ↔
  (spawns_entity op = true → 0 < max_entities (config inst) →
   entities_len inst + count_ops spawns_entity passed < max_entities (config inst)).
Proof.
  intros [_ Hs _ _] Hle. destruct op; try (split; [intros _ Hn; discriminate Hn|done]).
  cbn [entity_quota_exceeded spawns_entity]. rewrite Hs. unfold sat_add64.
  case_decide; [|split; [intros; lia|done]]. rewrite bool_decide_eq_false.
  split; [intros ? _ _|intros Hlt; specialize (Hlt eq_refl H)]; lia.
Qed.

Lemma scheduled_gate_iff inst passed g op :
  gate_passed inst passed g → max_scheduled (config inst) ≤ U64_MAX →
  scheduled_quota_exceeded inst (g_stage g) op = false ↔
  (schedules_action op = true → 0 < max_scheduled (config inst) →
   Scheduler_len (scheduler inst) + count_ops schedules_action passed < max_scheduled (config inst)).
Proof.
  intros [_ _ Hs _] Hle. destruct op; try (split; [intros _ Hn; discriminate Hn|done]).
  cbn [scheduled_quota_exceeded schedules_action]. rewrite Hs. unfold sat_add64.
  case_decide; [|split; [intros; lia|done]]. rewrite bool_decide_eq_false.
  split; [intros ? _ _|intros Hlt; specialize (Hlt eq_refl H)]; lia.
Qed.

(** What a dispatched operation adds to the stage. *)
Lemma gate_passed_dispatch inst passed g inst_id principal op now c s' n' denied :
  gate_passed inst passed g →
  dispatch (mkEffect inst_id principal op) (g_stage g) now (g_next_scheduled_id g) c = Done (s', n') →
  gate_passed inst (passed ++ [op]) (mkGate s' n' denied (sat_add32 (g_applied g) 1) (g_denied g)).
Proof.
  intros [G1 G2 G3 G4] Hd. pose proof (dispatch_ledger_ops _ _ _ _ _ _ _ Hd) as Hl.
  assert (next_entity_advance (stage_id_counters s')
            = sat_add64 (next_entity_advance (stage_id_counters (g_stage g))) (if spawns_entity op then 1 else 0) ∧
          next_scheduled_advance (stage_id_counters s')
            = sat_add64 (next_scheduled_advance (stage_id_counters (g_stage g))) (if schedules_action op then 1 else 0))
    as [E1 E2].
  { unfold dispatch in Hd. cbn [eff_op] in Hd.
    destruct op; try (injection Hd as <- _; cbn; rewrite ?G2, ?G3; unfold sat_add64; split; lia).
    apply bind_Done in Hd as (id & _ & Hd). injection Hd as <- _. cbn. rewrite G2. unfold sat_add64. split; lia. }
  split; cbn [g_stage g_applied].
  - rewrite Hl, G1, bind_app. cbn. by rewrite app_nil_r.
  - rewrite E1, G2, count_ops_snoc. unfold sat_add64. lia.
  - rewrite E2, G3, count_ops_snoc. unfold sat_add64. lia.
  - rewrite G4, len_app, len_cons. unfold sat_add32, len. cbn [length]. lia.
Qed.

(** One turn of the loop lets [op] through when the reference does. *)
Lemma gate_op_passed inst_id principal eff inst now passed g op g' :
  gate_passed inst passed g → max_entities (config inst) ≤ U64_MAX → max_scheduled (config inst) ≤ U64_MAX →
  gate_op inst_id inst principal eff now g op = Done g' →
  gate_passed inst (if decide (lets_through principal eff inst passed op) then passed ++ [op] else passed) g'.
Proof.
  intros Hp Hme Hms Hg. pose proof (budget_gate_iff _ _ _ op Hp) as B.
  pose proof (entity_gate_iff _ _ _ op Hp Hme) as E. pose proof (scheduled_gate_iff _ _ _ op Hp Hms) as S.
  unfold gate_op in Hg. unfold lets_through.
  destruct (authorize_cases inst_id principal eff op) as [[Ha Hau]|[Ha [r Hau]]]; rewrite Hau in Hg; cbn [eff_op] in Hg.
  2:{ injection Hg as <-. rewrite decide_False by tauto. destruct Hp. by split. }
  destruct (budget_exceeded inst (g_stage g) op).
  { injection Hg as <-. rewrite decide_False by (intros (_ & HB & _); by apply B in HB). by apply gate_passed_skip. }
  destruct (entity_quota_exceeded inst (g_stage g) op).
  { injection Hg as <-. rewrite decide_False by (intros (_ & _ & HE & _); by apply E in HE). by apply gate_passed_skip. }
  destruct (scheduled_quota_exceeded inst (g_stage g) op).
  { injection Hg as <-. rewrite decide_False by (intros (_ & _ & _ & HS); by apply S in HS). by apply gate_passed_skip. }
  rewrite decide_True by (split_and!; [done|by apply B|by apply E|by apply S]).
  apply bind_Done in Hg as ([s' n'] & Hd & [= <-]). by eapply gate_passed_dispatch.
Qed.

Lemma let_through_len principal eff inst passed ops :
  len (let_through principal eff inst passed ops) ≤ len passed + len ops.
Proof.
  revert passed. induction ops as [|op ops IH]; intros passed; cbn [let_through]; [lia|]. rewrite len_cons.
  etransitivity; [apply IH|]. case_decide; rewrite ?len_app; unfold len; cbn [length]; lia.
Qed.

Lemma let_through_authorized principal eff inst passed ops op :
  op ∈ let_through principal eff inst passed ops → op ∈ passed ∨ op_authorized principal eff op.
Proof.
  revert passed. induction ops as [|op' ops IH]; intros passed; cbn [let_through]; [by left|].
  intros [Hin|Ha]%IH; [|by right]. case_decide as Hl; [|by left].
  apply elem_of_app in Hin as [Hin|Hin%list_elem_of_singleton]; [by left|right; subst op; apply Hl].
Qed.

Lemma gate_loop_passed inst_id principal eff inst now ops passed g g' :
  gate_passed inst passed g → max_entities (config inst) ≤ U64_MAX → max_scheduled (config inst) ≤ U64_MAX →
  fold_outcome (gate_op inst_id inst principal eff now) g ops = Done g' →
  gate_passed inst (let_through principal eff inst passed ops) g'.
Proof.
  intros Hp Hme Hms. revert passed g Hp. induction ops as [|op ops IH]; intros passed g Hp Hf; cbn [fold_outcome let_through] in *.
  { by injection Hf as <-. }
  apply bind_Done in Hf as (g1 & Hg & Hf). eapply IH; [|exact Hf]. by eapply gate_op_passed.
Qed.

(** The loop counts every operation once. *)
Lemma gate_loop_counts inst_id principal eff inst now ops g g' :
  fold_outcome (gate_op inst_id inst principal eff now) g ops = Done g' →
  g_applied g + g_denied g + len ops ≤ U32_MAX →
  g_applied g' + g_denied g' = g_applied g + g_denied g + len ops.
Proof.
  revert g. induction ops as [|op ops IH]; intros g Hf Hle; cbn [fold_outcome] in Hf.
  { injection Hf as <-. unfold len. simpl. lia. }
  rewrite len_cons in *. inv_done Hf. rename a into g1.
  assert (g_applied g1 + g_denied g1 = g_applied g + g_denied g + 1) as H1.
  { unfold gate_op in Hf0. destruct (authorize _ _) as [au|]; [|injection Hf0 as <-; cbn; unfold sat_add32; lia].
    destruct (budget_exceeded _ _ _); [injection Hf0 as <-; cbn; unfold sat_add32; lia|].
    destruct (entity_quota_exceeded _ _ _); [injection Hf0 as <-; cbn; unfold sat_add32; lia|].
    destruct (scheduled_quota_exceeded _ _ _); [injection Hf0 as <-; cbn; unfold sat_add32; lia|].
    apply bind_Done in Hf0 as (r & _ & [= <-]). cbn. unfold sat_add32. lia. }
  rewrite (IH g1 Hf) by lia. lia.
Qed.

(** ** Properties *)

Section properties.
Context `{Postcard InstanceSnapshot} {B3 : Blake3}.
Context (inst_id : InstanceId) (inst : Instance_) (registry : ActionRegistry) (scratch : StepStage).
Context (now : Tick) (session : CapabilityMask) (m : bool).

(** C15: verdicts and counts. When an action is popped it is the first due row
    in (tick, sequence, id) order; the verdict is [Skipped] exactly when its
    type is unregistered or its bytes do not decode, and [AuthDenied] exactly
    when one of the operations it computes is not authorized under the resolved
    capabilities. The operations are judged in order by a reference that looks
    only at the instance before the action and at what was let through before:
    authorization, byte budget, entity and queue quota ([lets_through]). The
    denied count is the number it stops, whatever the verdict; the applied
    count is the number it lets through, or 0 when the action is denied; and an
    action not denied is [Committed] when none was stopped, else
    [BudgetPartial] with their number. *)
Theorem step_verdict_exact core inst2 scratch' :
  computes_total registry → next_scheduled (id_counters inst) ≤ U64_MAX →
  max_entities (config inst) ≤ U64_MAX → max_scheduled (config inst) ≤ U64_MAX →
  step_one_core inst_id inst registry scratch now session m = Done (Some core, inst2, scratch') →
  ∃ key e, first_key_value (ready (scheduler inst)) = Some (key, e) ∧ key_at key ≤ now ∧
    core_popped_id core = se_id e ∧
    match resolve registry (se_type_code e) (se_bytes e) with
    | None => core_verdict core = Skipped Unregistered
    | Some (Err _) => core_verdict core = Skipped DeserFailed
    | Some (Ok a) => ∃ ops,
        let inst1 := with_scheduler inst (sched_remove (scheduler inst) key e) in
        let eff := resolved_caps inst e session in
        let passed := let_through (se_principal e) eff inst1 [] ops in
        compute_dyn a (ActionContext_new (se_actor e) now inst_id inst1) = Done ops ∧
        (core_verdict core = AuthDenied ↔ ∃ op, op ∈ ops ∧ ¬ op_authorized (se_principal e) eff op) ∧
        (len ops ≤ U32_MAX → len passed + core_effects_denied core = len ops) ∧
        (core_verdict core = AuthDenied → core_effects_applied core = 0) ∧
        (core_verdict core ≠ AuthDenied → len ops ≤ U32_MAX →
           core_effects_applied core = len passed ∧
           core_verdict core = if decide (len passed = len ops) then Committed
                               else BudgetPartial (len ops - len passed))
    end.
Proof.
  intros Hc Hle Hme Hms Hs. destruct (step_one_core_cases inst_id inst registry scratch now session m Hc Hle)
    as [[Heq _]|(key & e & core' & inst2' & sc' & Hf & Hat & Heq & He)]; rewrite Hs in Heq; [done|].
  injection Heq as <- <- <-. exists key, e. set (inst1 := with_scheduler inst (sched_remove (scheduler inst) key e)) in *.
  assert (∀ ops g, run_gates inst_id inst1 e (resolved_caps inst1 e session) scratch now ops = Done g →
    len ops ≤ U32_MAX → let p := len (let_through (se_principal e) (resolved_caps inst e session) inst1 [] ops) in
    g_applied g = p ∧ p + g_denied g = len ops) as Hcnt.
  { intros ops g Hg Hlen p. pose proof (gate_loop_passed _ _ _ inst1 _ _ _ _ _ (gate_passed_start inst1 scratch _) Hme Hms Hg)
      as [_ _ _ Hap]. unfold run_gates in Hg. apply gate_loop_counts in Hg; [|cbn; lia]. cbn in Hg.
    change (g_applied g = N.min p U32_MAX) in Hap.
    pose proof (let_through_len (se_principal e) (resolved_caps inst e session) inst1 [] ops) as Hp.
    change (p ≤ 0 + len ops) in Hp. lia. }
  destruct He as [Hr|err Hr|a ops g op Hr Ho Hg Hin Hno|a ops g inst2 st2 Hr Ho Hg Hok Hall Ha]; rewrite Hr;
    (split; [done|]; split; [done|]; split; [done|]); try done; exists ops; cbv zeta; (split; [exact Ho|]).
  - split; [split; [|done]; intros _; exists op; done|]. split; [|by split]. intros Hlen. by apply Hcnt.
  - assert (core_verdict (committed_core e g (digest_of m inst2)) ≠ AuthDenied) as Hv
      by (cbn; by destruct (decide (0 < g_denied g))).
    split; [split; [done|]; intros (op & Hin & Hno); destruct Hno; by apply Hall|].
    split; [intros Hlen; by apply Hcnt|]. split; [done|]. intros _ Hlen. destruct (Hcnt _ _ Hg Hlen) as [Hp Hd].
    split; [exact Hp|]. cbn. destruct (decide (0 < g_denied g)), (decide (_ = len ops)); try lia; [|done].
    f_equal. lia.
Qed.

(** C27: rollback. A denied or skipped action changes nothing but the queue:
    the instance after the step is the one before without the popped row, and
    no signal, event or applied effect leaves the step. *)
Theorem step_rollback core inst2 scratch' :
  computes_total registry → next_scheduled (id_counters inst) ≤ U64_MAX →
  step_one_core inst_id inst registry scratch now session m = Done (Some core, inst2, scratch') →
  (core_verdict core = AuthDenied ∨ ∃ r, core_verdict core = Skipped r) →
  ∃ key e, first_key_value (ready (scheduler inst)) = Some (key, e) ∧
    inst2 = with_scheduler inst (sched_remove (scheduler inst) key e) ∧
    core_pending_signals core = [] ∧ core_events core = [] ∧ core_effects_applied core = 0.
Proof.
  intros Hc Hle Hs Hv. destruct (step_one_core_cases inst_id inst registry scratch now session m Hc Hle)
    as [[Heq _]|(key & e & core' & inst2' & sc' & Hf & _ & Heq & He)]; rewrite Hs in Heq; [done|].
  injection Heq as <- <- <-. exists key, e. destruct He as [| | |? ? g ? ? _ _ _ _ _ _]; try done.
  exfalso. cbn in Hv. destruct (decide (0 < g_denied g)); destruct Hv as [?|[? ?]]; done.
Qed.

(** C5: no privilege escalation. Every row in the queue after a step is an
    old row, or a child the popped action scheduled: it carries that action's
    principal, and its capability ceiling is the action's resolved
    capabilities, below its own ceiling, the instance's default capabilities
    and the session ceiling. Children and signals exist only if those resolved
    capabilities hold [SYSTEM]; signals carry the action's principal. *)
Theorem step_no_escalation core inst2 scratch' :
  computes_total registry → next_scheduled (id_counters inst) ≤ U64_MAX →
  step_one_core inst_id inst registry scratch now session m = Done (Some core, inst2, scratch') →
  ∃ key e, first_key_value (ready (scheduler inst)) = Some (key, e) ∧
    let eff := resolved_caps inst e session in
    (eff ⊑c se_caps_ceiling e ∧ eff ⊑c default_caps (config inst) ∧ eff ⊑c session) ∧
    (∀ k r, ready (scheduler inst2) !! k = Some r →
       ready (scheduler inst) !! k = Some r ∨
       (se_principal r = se_principal e ∧ se_caps_ceiling r = eff ∧ SYSTEM ⊑c eff)) ∧
    (∀ s, s ∈ core_pending_signals core → ps_principal s = se_principal e ∧ SYSTEM ⊑c eff).
Proof.
  intros Hc Hle Hs. destruct (step_one_core_cases inst_id inst registry scratch now session m Hc Hle)
    as [[Heq _]|(key & e & core' & inst2' & sc' & Hf & _ & Heq & He)]; rewrite Hs in Heq; [done|].
  injection Heq as <- <- <-. exists key, e. split; [done|]. intros eff.
  assert (∀ k r, ready (sched_remove (scheduler inst) key e) !! k = Some r → ready (scheduler inst) !! k = Some r)
    as Hold by (intros k r Hr; cbn in Hr; by apply lookup_delete_Some in Hr as [_ Hr]).
  split.
  { unfold eff, resolved_caps. split_and!; [etransitivity; [apply caps_and_le_l|apply effective_caps_le_ceiling]
      |etransitivity; [apply caps_and_le_l|apply effective_caps_le_default]|apply caps_and_le_r]. }
  destruct He as [| | |a ops g inst2 st2 _ _ _ Hok _ Ha];
    try (split; [intros k r Hr; left; by apply Hold|intros s Hin; by apply elem_of_nil in Hin]).
  destruct Hok as [G1 _ _ _ G5]. destruct (commit_fields _ _ _ _ _ _ _ G1 Ha) as (_ & Hsch & _).
  destruct G1 as [_ _ _ Ch _ Sg]. split.
  - intros k r Hr. destruct (apply_schedules_total _ _ _ (scheduler (with_scheduler inst (sched_remove (scheduler inst) key e))) Ch)
      as (s' & Hs' & _ & _ & Hrows). rewrite Hsch in Hs'. injection Hs' as <-.
    destruct (Hrows _ _ Hr) as [Hr'|Hin]; [left; by apply Hold|right].
    pose proof Ch as Ch'. rewrite Forall_forall in Ch'. destruct (Ch' _ Hin) as (r' & [= <-] & H1 & H2).
    split_and!; [done|done|]. apply G5. left. intros Hn. rewrite Hn in Hin. by apply elem_of_nil in Hin.
  - intros s Hin. cbn in Hin. rewrite Forall_forall in Sg. split; [by apply Sg|]. apply G5. right.
    intros Hn. rewrite Hn in Hin. by apply elem_of_nil in Hin.
Qed.

(** Quotas. A step never pushes the number of entities over
    [max_entities], nor the depth of the queue over [max_scheduled], when the
    quota is set: each stays below the quota, or below what it was before. *)
Theorem step_quotas core inst2 scratch' :
  computes_total registry → next_scheduled (id_counters inst) ≤ U64_MAX →
  step_one_core inst_id inst registry scratch now session m = Done (Some core, inst2, scratch') →
  (0 < max_entities (config inst) ≤ U64_MAX →
   entities_len inst2 ≤ N.max (entities_len inst) (max_entities (config inst))) ∧
  (0 < max_scheduled (config inst) ≤ U64_MAX →
   Scheduler_len (scheduler inst2) ≤ N.max (Scheduler_len (scheduler inst)) (max_scheduled (config inst))).
Proof.
  intros Hc Hle Hs. destruct (step_one_core_cases inst_id inst registry scratch now session m Hc Hle)
    as [[Heq _]|(key & e & core' & inst2' & sc' & Hf & _ & Heq & He)]; rewrite Hs in Heq; [done|].
  injection Heq as <- <- <-. by eapply step_ends_quotas.
Qed.

(** Safety of one step. If the registered actions compute without
    panicking, a step never panics, whatever the instance and the queued
    bytes, and it keeps the instance invariant: entity, component and ledger
    tables describe the same rows, and below counter saturation the scheduler
    index is well formed and its ids stay below the allocator. *)
Theorem step_safe :
  computes_total registry → inst_inv inst →
  ∃ oc inst2 scratch', step_one_core inst_id inst registry scratch now session m = Done (oc, inst2, scratch') ∧
    inst_inv inst2.
Proof. apply step_one_core_inv. Qed.

End properties.

(** ** Witnesses *)

#[local] Instance ex_snapshot_postcard : Postcard InstanceSnapshot :=
  constant_postcard (to_snapshot (Instance_new 1 InstanceConfig_default)).
#[local] Instance ex_blake3 : Blake3 := tail_blake3.

(** An instance with one queued entry of type code [tc]. *)
Definition ex_config : InstanceConfig := mkConfig 1 2 2 0 200 None Reject.
Definition ex_inst (tc : TypeCode) : Instance_ :=
  with_id_counters
    (with_scheduler (Instance_new 1 ex_config)
       (schedule_with_id Scheduler_new 1 3 None System 1 tc []))
    (mkCounters 0 1 0).

Lemma ex_inst_inv tc : inst_inv (ex_inst tc).
Proof.
  split; [apply (consistent_ext (Instance_new 1 ex_config)); [reflexivity..|apply consistent_new]|vm_compute; discriminate|].
  intros _ _. split; [|vm_compute; discriminate].
  apply schedule_with_id_wf; [apply Scheduler_new_wf|reflexivity|reflexivity].
Qed.

Definition ex_child : Op := ScheduleAction 9 None 1 [].

(** A step of [ex_inst] under a scripted action. *)
Definition ex_step (ops : list Op) (session : CapabilityMask) : Outcome (option StepCore * Instance_ * StepStage) :=
  step_one_core 1 (ex_inst 1) (script_registry ops) StepStage_default 5 session false.

Lemma ex_step_some ops session :
  (match ex_step ops session with Done (Some _, _, _) => true | _ => false end) = true →
  ∃ core inst2 scratch', ex_step ops session = Done (Some core, inst2, scratch').
Proof. destruct (ex_step ops session) as [[[[c|] i] s]|]; try done. eauto. Qed.

Lemma ex_counter : next_scheduled (id_counters (ex_inst 1)) ≤ U64_MAX.
Proof. vm_compute. discriminate. Qed.

Lemma step_verdict_exact_witness :
  ∃ core inst2 scratch',
    ex_step [SpawnEntity 1 System; SpawnEntity 2 System; SpawnEntity 3 System] 1 = Done (Some core, inst2, scratch') ∧
    core_effects_applied core = 2 ∧ core_verdict core = BudgetPartial 1 ∧
    ∃ key e, first_key_value (ready (scheduler (ex_inst 1))) = Some (key, e) ∧ core_popped_id core = se_id e.
Proof.
  set (ops := [SpawnEntity 1 System; SpawnEntity 2 System; SpawnEntity 3 System]).
  destruct (ex_step ops 1) as [[[[core|] inst2] sc]|] eqn:Hs; try (vm_compute in Hs; discriminate Hs).
  exists core, inst2, sc. split; [reflexivity|].
  split; [vm_compute in Hs; injection Hs as <- _ _; reflexivity|].
  split; [vm_compute in Hs; injection Hs as <- _ _; reflexivity|].
  assert (max_entities (config (ex_inst 1)) ≤ U64_MAX ∧ max_scheduled (config (ex_inst 1)) ≤ U64_MAX) as [Q1 Q2]
    by (split; vm_compute; discriminate).
  destruct (step_verdict_exact 1 (ex_inst 1) (script_registry ops) StepStage_default 5 1 false core inst2 sc
              (script_registry_total _) ex_counter Q1 Q2 Hs) as (key & e & H1 & _ & H2 & _).
  exists key, e. split; assumption.
Defined.

Lemma step_rollback_witness :
  ∃ core inst2 scratch', ex_step [ex_child] 0 = Done (Some core, inst2, scratch') ∧ core_events core = [].
Proof.
  destruct (ex_step [ex_child] 0) as [[[[core|] inst2] sc]|] eqn:Hs; try (vm_compute in Hs; discriminate Hs).
  exists core, inst2, sc. split; [reflexivity|].
  assert (core_verdict core = AuthDenied) as Hv by (vm_compute in Hs; injection Hs as <- _ _; reflexivity).
  destruct (step_rollback 1 (ex_inst 1) (script_registry [ex_child]) StepStage_default 5 0 false core inst2 sc
              (script_registry_total _) ex_counter Hs (or_introl Hv)) as (_ & _ & _ & _ & _ & H & _).
  exact H.
Defined.

Lemma step_no_escalation_witness :
  ∃ core inst2 scratch', ex_step [ex_child] 1 = Done (Some core, inst2, scratch') ∧
    size (ready (scheduler inst2)) = 1%nat ∧
    ∃ key e, first_key_value (ready (scheduler (ex_inst 1))) = Some (key, e) ∧
      resolved_caps (ex_inst 1) e 1 ⊑c se_caps_ceiling e.
Proof.
  destruct (ex_step [ex_child] 1) as [[[[core|] inst2] sc]|] eqn:Hs; try (vm_compute in Hs; discriminate Hs).
  exists core, inst2, sc. split; [reflexivity|].
  split; [vm_compute in Hs; injection Hs as _ <- _; reflexivity|].
  destruct (step_no_escalation 1 (ex_inst 1) (script_registry [ex_child]) StepStage_default 5 1 false core inst2 sc
              (script_registry_total _) ex_counter Hs) as (key & e & H1 & (H2 & _) & _).
  exists key, e. split; assumption.
Defined.

Lemma step_quotas_witness :
  ∃ core inst2 scratch',
    ex_step [SpawnEntity 1 System; SpawnEntity 2 System; SpawnEntity 3 System] 1
      = Done (Some core, inst2, scratch') ∧ entities_len inst2 = 2 ∧
    entities_len inst2 ≤ N.max (entities_len (ex_inst 1)) 2.
Proof.
  destruct (ex_step [SpawnEntity 1 System; SpawnEntity 2 System; SpawnEntity 3 System] 1)
    as [[[[core|] inst2] sc]|] eqn:Hs; try (vm_compute in Hs; discriminate Hs).
  exists core, inst2, sc. split; [reflexivity|].
  split; [vm_compute in Hs; injection Hs as _ <- _; reflexivity|].
  apply (proj1 (step_quotas 1 (ex_inst 1) (script_registry _) StepStage_default 5 1 false core inst2 sc
              (script_registry_total _) ex_counter Hs)).
  split; vm_compute; [reflexivity|discriminate].
Defined.

Lemma step_safe_witness :
  inst_inv (ex_inst 1) ∧
  ∃ oc inst2 scratch', ex_step [ex_child] 1 = Done (oc, inst2, scratch') ∧ inst_inv inst2.
Proof.
  split; [exact (ex_inst_inv 1)|].
  exact (step_safe 1 (ex_inst 1) (script_registry [ex_child]) StepStage_default 5 1 false
           (script_registry_total _) (ex_inst_inv 1)).
Defined.
