(* ===== verification/Kernel.v ===== *)
(** * The kernel

    Models [src/arkhe-kernel/src/runtime/kernel.rs]: the kernel record, its
    construction and registration calls, [submit] and its replay-side twin,
    [force_unload], the per-instance driver with the observer delivery and the
    signal router, and [step]. *)
From S2P Require Import Prelude Abi Quota Extern Authz Ledger Scheduler Instance Event.
From S2P Require Import Observer Stage Dispatch Apply Signature Wal Registry Step.

Local Open Scope N_scope.

(** ** Data *)

Record Kernel {SS : SigSchemes} : Type := mkKernel {
  instances : gmap InstanceId Instance_;
  action_registry : ActionRegistry;
  observers : ObserverRegistry;
  next_instance_id : N;
  manifest_digest : bytes;
  wal : option WalWriter;
  step_scratch : StepStage
}.

Record StepReport : Type := mkReport {
  actions_executed : N;
  effects_applied : N;
  effects_denied : N;
  observers_evicted : N;
  domain_events_emitted : N
}.
Definition StepReport_default : StepReport := mkReport 0 0 0 0 0.

Record Stats : Type := mkStats {
  instance_count : N;
  scheduled_action_count : N;
  entity_count : N;
  component_byte_count : N;
  observer_count : N;
  wal_record_count : N
}.

(** [InstanceStepResult]. *)
Record InstanceStepResult : Type := mkStepResult {
  res_popped_id : ScheduledActionId;
  res_verdict : StepVerdict;
  res_digest : bytes;
  res_effects_applied : N;
  res_effects_denied : N;
  res_domain_events_emitted : N;
  res_observers_evicted : N
}.

(** [KernelSnapshot] ([persist/snapshot.rs]); its codec is in [Snapshot]. *)
Record KernelSnapshot : Type := mkKernelSnapshot {
  ks_instances : gmap InstanceId InstanceSnapshot;
  ks_next_instance_id : N
}.

Section kernel.
Context `{Postcard InstanceSnapshot, Postcard WalRecordBody} {B3 : Blake3} {SS : SigSchemes}.

Definition set_instances (k : Kernel) (x : gmap InstanceId Instance_) : Kernel :=
  mkKernel _ x (action_registry k) (observers k) (next_instance_id k) (manifest_digest k) (wal k) (step_scratch k).
Definition set_observers (k : Kernel) (x : ObserverRegistry) : Kernel :=
  mkKernel _ (instances k) (action_registry k) x (next_instance_id k) (manifest_digest k) (wal k) (step_scratch k).
Definition set_wal (k : Kernel) (x : option WalWriter) : Kernel :=
  mkKernel _ (instances k) (action_registry k) (observers k) (next_instance_id k) (manifest_digest k) x (step_scratch k).

(** ** Construction *)

(** [Kernel::new], [impl Default for Kernel]. *)
Definition Kernel_new : Kernel :=
  mkKernel _ ∅ ActionRegistry_new ObserverRegistry_new 0 zero32 None StepStage_default.
Definition Kernel_default : Kernel := Kernel_new.

(** [Kernel::new_with_wal]. *)
Definition new_with_wal (world manifest : bytes) : Kernel :=
  mkKernel _ ∅ ActionRegistry_new ObserverRegistry_new 0 manifest (Some (WalWriter_new world manifest))
    StepStage_default.

(** [Kernel::new_with_wal_signed]. *)
Definition new_with_wal_signed (world manifest : bytes) (sig_class : SignatureClass) : Kernel :=
  mkKernel _ ∅ ActionRegistry_new ObserverRegistry_new 0 manifest (Some (with_signature world manifest sig_class))
    StepStage_default.

(** [wal_chain_tip], [wal_record_count], [export_wal]. *)
Definition wal_chain_tip (k : Kernel) : option bytes := writer_chain_tip <$> wal k.
Definition kernel_wal_record_count (k : Kernel) : option N := record_count <$> wal k.
Definition export_wal (k : Kernel) : option Wal := from_writer <$> wal k.

(** [register_action]. *)
Definition register_action (A : Type) `{Derived A, ActionCompute A} (k : Kernel) : Kernel :=
  mkKernel _ (instances k) (register A (action_registry k)) (observers k) (next_instance_id k)
    (manifest_digest k) (wal k) (step_scratch k).

(** [register_observer], [register_observer_filtered]. *)
Definition register_observer_filtered (k : Kernel) (obs : KernelObserver) (mask : EventMask)
    : ObserverHandle * Kernel :=
  let '(h, r) := register_filtered (observers k) obs mask in (h, set_observers k r).
Definition register_observer (k : Kernel) (obs : KernelObserver) : ObserverHandle * Kernel :=
  let '(h, r) := register_all (observers k) obs in (h, set_observers k r).

(** [create_instance]. *)
Definition create_instance (k : Kernel) (cfg : InstanceConfig) : Outcome (InstanceId * Kernel) :=
  let next := sat_add64 (next_instance_id k) 1 in
  id ← expect "instance id > 0" (InstanceId_new next);
  mret (id, mkKernel _ (<[id := Instance_new id cfg]> (instances k)) (action_registry k) (observers k) next
              (manifest_digest k) (wal k) (step_scratch k)).

(** [instances_len], [instance_view]. *)
Definition instances_len (k : Kernel) : N := N.of_nat (size (instances k)).
Definition instance_view (k : Kernel) (id : InstanceId) : option InstanceView := mkView <$> instances k !! id.

(** [snapshot], [from_snapshot]. *)
Definition snapshot (k : Kernel) : KernelSnapshot :=
  mkKernelSnapshot (to_snapshot <$> instances k) (next_instance_id k).
Definition Kernel_from_snapshot (s : KernelSnapshot) : Kernel :=
  mkKernel _ (from_snapshot <$> ks_instances s) ActionRegistry_new ObserverRegistry_new (ks_next_instance_id s)
    zero32 None StepStage_default.

(** [stats]. *)
Definition stats (k : Kernel) : Stats :=
  let '(scheduled, ents, bts) :=
    fold_left (λ '(scheduled, ents, bts) inst,
      (sat_add64 scheduled (Scheduler_len (scheduler inst)),
       sat_add32 ents (total_entities (ledger inst)),
       sat_add64 bts (total_bytes (ledger inst))))
      (btree_values (instances k)) (0, 0, 0) in
  {| instance_count := instances_len k;
     scheduled_action_count := scheduled;
     entity_count := ents;
     component_byte_count := bts;
     observer_count := observers_len (observers k);
     wal_record_count := default 0 (record_count <$> wal k) |}.

(** The sum [force_unload] reports. *)
Definition add_refs (route : RouteId) (total : N) (inst : Instance_) : N :=
  match inflight_refs inst !! route with Some refs => sat_add32 total refs | None => total end.

(** [force_unload]. *)
Definition force_unload (k : Kernel) (route : RouteId) (caps : CapabilityMask) : Result ArkheError N * Kernel :=
  if negb (caps_contains caps ADMIN_UNLOAD) then (Err CapabilityDenied, k)
  else
    let total := fold_left (add_refs route) (btree_values (instances k)) 0 in
    let k1 := set_instances k
      ((λ inst, with_inflight_refs inst (delete route (inflight_refs inst))) <$> instances k) in
    let '(_, obs) := deliver (observers k1) (ModuleForceUnloaded route total) in
    (Ok total, set_observers k1 obs).

(** ** Admission *)

(** [submit]. *)
Definition submit (k : Kernel) (instance : InstanceId) (principal : Principal) (actor : option EntityId)
    (caps : CapabilityMask) (at_ : Tick) (action_type_code : TypeCode) (action_bytes : bytes)
    : Outcome (Result ArkheError ScheduledActionId * Kernel) :=
  match instances k !! instance with
  | None => mret (Err InstanceNotFound, k)
  | Some inst =>
      if decide (0 < max_scheduled (config inst) ∧ max_scheduled (config inst) ≤ Scheduler_len (scheduler inst))
      then mret (Err QuotaExceeded, k)
      else
        let counters := id_counters inst in
        let next := sat_add64 (next_scheduled counters) 1 in
        let inst1 := with_id_counters inst (mkCounters (next_entity counters) next (next_source_seq counters)) in
        id ← expect "scheduled id > 0" (ScheduledActionId_new next);
        let inst2 := with_scheduler inst1
          (schedule_with_id (scheduler inst1) id at_ actor principal caps action_type_code action_bytes) in
        let k1 := set_instances k (<[instance := inst2]> (instances k)) in
        let k2 := match wal k1 with
                  | Some w => set_wal k1 (Some (append_submit w instance principal actor caps at_
                                                  action_type_code action_bytes id).2)
                  | None => k1
                  end in
        mret (Ok id, k2)
  end.

(** [submit_with_id]. *)
Definition submit_with_id (k : Kernel) (instance : InstanceId) (principal : Principal) (actor : option EntityId)
    (caps : CapabilityMask) (id : ScheduledActionId) (at_ : Tick) (action_type_code : TypeCode)
    (action_bytes : bytes) : Result ArkheError Kernel :=
  inst ← ok_or InstanceNotFound (instances k !! instance);
  let counters := id_counters inst in
  let next := if decide (next_scheduled counters < ScheduledActionId_get id)
              then ScheduledActionId_get id else next_scheduled counters in
  let inst1 := with_id_counters inst (mkCounters (next_entity counters) next (next_source_seq counters)) in
  let inst2 := with_scheduler inst1
    (schedule_with_id (scheduler inst1) id at_ actor principal caps action_type_code action_bytes) in
  mret (set_instances k (<[instance := inst2]> (instances k))).

(** ** The per-instance driver *)

(** The deliveries of a list of events, with the running eviction count. *)
Definition deliver_counted (st : N * ObserverRegistry) (event : KernelEvent) : N * ObserverRegistry :=
  let '(gone, obs) := deliver st.2 event in (sat_add32 st.1 (as_u32 (len gone)), obs).

(** The router's [match self.instances.get_mut(&target_id)]. *)
Definition route_signal (from : InstanceId) (insts : gmap InstanceId Instance_) (sig : PendingSignal)
    : gmap InstanceId Instance_ * KernelEvent :=
  let route := ps_route sig in
  let target_id := ps_target sig in
  match insts !! target_id with
  | Some target =>
      let max_inbox := max_inbox_per_route (config target) in
      if decide (0 < max_inbox ∧ max_inbox ≤ inbox_len target route)
      then (insts, SignalDropped target_id route QueueFull)
      else
        let target1 := (deliver_signal target route (mkSignal from (ps_principal sig) (ps_payload sig) 0)).2 in
        let refs := default 0 (inflight_refs target1 !! route) in
        let target2 := with_inflight_refs target1 (<[route := sat_add32 refs 1]> (inflight_refs target1)) in
        (<[target_id := target2]> insts, SignalDelivered from target_id route)
  | None => (insts, SignalDropped target_id route TargetNotFound)
  end.

(** One turn of the router loop. *)
Definition route_one (from : InstanceId) (st : gmap InstanceId Instance_ * (N * ObserverRegistry)) (sig : PendingSignal)
    : gmap InstanceId Instance_ * (N * ObserverRegistry) :=
  let '(insts, event) := route_signal from st.1 sig in (insts, deliver_counted st.2 event).

(** Does the verdict deliver [ActionExecuted]? *)
Definition executed_verdict (v : StepVerdict) : bool :=
  match v with Committed | BudgetPartial _ => true | _ => false end.

(** [process_instance_record]. *)
Definition process_instance_record (k : Kernel) (inst_id : InstanceId) (now : Tick) (session_caps : CapabilityMask)
    (measure_digest : bool) : Outcome (option InstanceStepResult * Kernel) :=
  match instances k !! inst_id with
  | None => mret (None, k)
  | Some inst =>
      r ← step_one_core inst_id inst (action_registry k) (step_scratch k) now session_caps measure_digest;
      let '(ocore, inst', scratch') := r in
      let insts1 := <[inst_id := inst']> (instances k) in
      let k1 := mkKernel _ insts1 (action_registry k) (observers k) (next_instance_id k) (manifest_digest k)
                  (wal k) scratch' in
      match ocore with
      | None => mret (None, k1)
      | Some core =>
          let st1 := fold_left deliver_counted (core_events core) (0, observers k) in
          let st2 := if executed_verdict (core_verdict core)
                     then deliver_counted st1 (ActionExecuted inst_id (core_action_type core) now)
                     else st1 in
          let '(insts2, (evicted, obs2)) :=
            fold_left (route_one inst_id) (core_pending_signals core) (insts1, st2) in
          mret (Some {| res_popped_id := core_popped_id core;
                        res_verdict := core_verdict core;
                        res_digest := core_digest core;
                        res_effects_applied := core_effects_applied core;
                        res_effects_denied := core_effects_denied core;
                        res_domain_events_emitted := core_domain_events_emitted core;
                        res_observers_evicted := evicted |},
                set_instances (set_observers k1 obs2) insts2)
      end
  end.

(** ** [step] *)

(** The aggregation of one result. *)
Definition report_add (r : StepReport) (x : InstanceStepResult) : StepReport :=
  mkReport (sat_add32 (actions_executed r) 1)
    (sat_add32 (effects_applied r) (res_effects_applied x))
    (sat_add32 (effects_denied r) (res_effects_denied x))
    (sat_add32 (observers_evicted r) (res_observers_evicted x))
    (sat_add32 (domain_events_emitted r) (res_domain_events_emitted x)).

(** The body of the loop over the instances. *)
Definition step_instance (now : Tick) (caps : CapabilityMask) (measure_digest : bool) (st : StepReport * Kernel)
    (inst_id : InstanceId) : Outcome (StepReport * Kernel) :=
  r ← process_instance_record st.2 inst_id now caps measure_digest;
  match r with
  | (None, k') => mret (st.1, k')
  | (Some result, k') =>
      let k'' := match wal k' with
                 | Some w => set_wal k' (Some (append_step w inst_id (res_popped_id result) now caps
                                                 (res_verdict result) (res_digest result)).2)
                 | None => k'
                 end in
      mret (report_add st.1 result, k'')
  end.

(** [Kernel::step]. *)
Definition step (k : Kernel) (now : Tick) (caps : CapabilityMask) : Outcome (StepReport * Kernel) :=
  let measure_digest := match wal k with Some _ => true | None => false end in
  let ids := btree_keys (instances k) in
  fold_outcome (step_instance now caps measure_digest) (StepReport_default, k) ids.

(** ** The driver's effect on the instances *)

(** The router's effect on the instances, without the observers. *)
Definition route_all (from : InstanceId) (insts : gmap InstanceId Instance_) (sigs : list PendingSignal)
    : gmap InstanceId Instance_ :=
  fold_left (λ m s, (route_signal from m s).1) sigs insts.

Lemma route_loop_instances from sigs insts st :
  (fold_left (route_one from) sigs (insts, st)).1 = route_all from insts sigs.
Proof.
  revert insts st. induction sigs as [|s sigs IH]; intros insts st; [done|]. cbn [fold_left]. unfold route_one at 2.
  cbn [fst snd]. destruct (route_signal from insts s) as [insts' ev] eqn:E. rewrite IH. unfold route_all. cbn [fold_left].
  by rewrite E.
Qed.

(** The result of a step as the driver reports it, evictions apart. *)
Definition result_of (core : StepCore) (evicted : N) : InstanceStepResult :=
  mkStepResult (core_popped_id core) (core_verdict core) (core_digest core) (core_effects_applied core)
    (core_effects_denied core) (core_domain_events_emitted core) evicted.

(** The fields no driver call changes. *)
Definition same_frame (k k' : Kernel) : Prop :=
  action_registry k' = action_registry k ∧ wal k' = wal k ∧ next_instance_id k' = next_instance_id k ∧
  manifest_digest k' = manifest_digest k.

Lemma process_cases k id now session m :
  computes_total (action_registry k) →
  (∀ i, instances k !! id = Some i → next_scheduled (id_counters i) ≤ U64_MAX) →
  (∃ k', process_instance_record k id now session m = Done (None, k') ∧ instances k' = instances k ∧
     same_frame k k' ∧
     ∀ i, instances k !! id = Some i → ∀ key, is_Some (ready (scheduler i) !! key) → now < key_at key) ∨
  (∃ i key e core i' sc n k',
     instances k !! id = Some i ∧ first_key_value (ready (scheduler i)) = Some (key, e) ∧ key_at key ≤ now ∧
     step_one_core id i (action_registry k) (step_scratch k) now session m = Done (Some core, i', sc) ∧
     step_ends id (with_scheduler i (sched_remove (scheduler i) key e)) e (action_registry k) (step_scratch k)
       now session m core i' sc ∧
     process_instance_record k id now session m = Done (Some (result_of core n), k') ∧
     instances k' = route_all id (<[id := i']> (instances k)) (core_pending_signals core) ∧ same_frame k k').
Proof.
  intros Hc Hle. unfold process_instance_record. destruct (instances k !! id) as [i|] eqn:Ei.
  2:{ left. exists k. split_and!; [done|done|by split|done]. }
  destruct (step_one_core_cases id i (action_registry k) (step_scratch k) now session m Hc (Hle i eq_refl))
    as [[Hs Hnone]|(key & e & core & i' & sc & Hf & Hat & Hs & He)]; rewrite Hs; cbn [mbind Outcome_bind].
  - left. eexists. split; [reflexivity|]. cbn. split_and!; [by apply insert_id|by split|].
    by intros ? [= <-].
  - right. set (st2 := if executed_verdict (core_verdict core) then _ else _).
    destruct (fold_left (route_one id) (core_pending_signals core) (<[id:=i']> (instances k), st2))
      as [insts2 [n obs2]] eqn:Er.
    exists i, key, e, core, i', sc, n. eexists. split_and!; [done|done|done|done|done|reflexivity| |by split].
    cbn. rewrite <- (route_loop_instances id (core_pending_signals core) _ st2), Er. done.
Qed.

(** ** Invariants *)

(** Bounded, ordered inboxes: no route holds more than the quota, and below
    saturation of the counter every route is in delivery order. *)
Record inbox_ok (i : Instance_) : Prop := {
  ib_bounded : ∀ route, 0 < max_inbox_per_route (config i) → inbox_len i route ≤ max_inbox_per_route (config i);
  ib_sorted : inbox_seq i < U64_MAX → ∀ route sigs, signal_inbox i !! route = Some sigs →
    StronglySorted N.lt (sig_seq <$> sigs) ∧ ∀ s, s ∈ sigs → sig_seq s < inbox_seq i
}.

(** The in-flight count of a route is the number of signals delivered on it. *)
Definition refs_conserved (i : Instance_) : Prop :=
  ∀ route, inflight_refs_for i route = N.min (inbox_len i route) U32_MAX.

Record inst_good (id : InstanceId) (i : Instance_) : Prop := {
  ig_inv : inst_inv i;
  ig_id : inst_id i = id;
  ig_inbox : inbox_ok i
}.

(** With [strict], in-flight counts are conserved too ([force_unload] resets
    them on purpose). *)
Definition inst_ok (strict : bool) (id : InstanceId) (i : Instance_) : Prop :=
  inst_good id i ∧ (strict = true → refs_conserved i).

Record kernel_inv (strict : bool) (k : Kernel) : Prop := {
  ki_instances : map_Forall (inst_ok strict) (instances k);
  ki_registry : computes_total (action_registry k)
}.

Lemma inst_good_new id cfg : inst_good id (Instance_new id cfg).
Proof.
  split; [apply inst_inv_new|done|]. split.
  - intros route _. unfold inbox_len. cbn. rewrite lookup_empty. unfold len. simpl. lia.
  - intros _ route sigs. cbn. by rewrite lookup_empty.
Qed.

Lemma refs_conserved_new id cfg : refs_conserved (Instance_new id cfg).
Proof. intros route. unfold inflight_refs_for, inbox_len. cbn. by rewrite !lookup_empty. Qed.

(** Both depend on the inbox side only. *)
Lemma inbox_ext i i' :
  config i' = config i → inflight_refs i' = inflight_refs i → signal_inbox i' = signal_inbox i →
  inbox_seq i' = inbox_seq i →
  (inbox_ok i → inbox_ok i') ∧ (refs_conserved i → refs_conserved i').
Proof.
  intros E1 E2 E3 E4. unfold refs_conserved, inflight_refs_for, inbox_len. rewrite E2, E3. split; [|done].
  intros [H1 H2]. unfold inbox_len in *. split; unfold inbox_len; by rewrite ?E1, ?E3, ?E4.
Qed.

Lemma inst_inv_ext i i' :
  entities i' = entities i → components i' = components i → ledger i' = ledger i →
  scheduler i' = scheduler i → id_counters i' = id_counters i → inst_inv i → inst_inv i'.
Proof.
  intros E1 E2 E3 E4 E5 [H1 H2 H3]. split; [by apply (consistent_ext i)|by rewrite E5|]. by rewrite E4, E5.
Qed.

(** The target instance after a delivery. *)
Definition delivered (from : InstanceId) (target : Instance_) (sig : PendingSignal) : Instance_ :=
  let target1 := (deliver_signal target (ps_route sig) (mkSignal from (ps_principal sig) (ps_payload sig) 0)).2 in
  with_inflight_refs target1
    (<[ps_route sig := sat_add32 (default 0 (inflight_refs target1 !! ps_route sig)) 1]> (inflight_refs target1)).

Lemma route_signal_cases from insts sig :
  (route_signal from insts sig).1 = insts ∨
  ∃ target, insts !! ps_target sig = Some target ∧
    (0 < max_inbox_per_route (config target) → inbox_len target (ps_route sig) < max_inbox_per_route (config target)) ∧
    (route_signal from insts sig).1 = <[ps_target sig := delivered from target sig]> insts.
Proof.
  unfold route_signal. destruct (insts !! ps_target sig) as [target|]; [|by left].
  destruct (decide _) as [Hd|Hd]; [by left|right]. exists target. split_and!; [done| |done]. intros Hq. lia.
Qed.

Lemma delivered_inbox_len from target sig route :
  inbox_len (delivered from target sig) route
  = if decide (route = ps_route sig) then inbox_len target route + 1 else inbox_len target route.
Proof.
  unfold inbox_len, delivered. cbn. destruct (decide (route = ps_route sig)) as [->|Hne].
  - rewrite lookup_insert_eq. cbn. by rewrite len_app.
  - by rewrite lookup_insert_ne.
Qed.

Lemma delivered_good from target sig id :
  (0 < max_inbox_per_route (config target) → inbox_len target (ps_route sig) < max_inbox_per_route (config target)) →
  inst_good id target → inst_good id (delivered from target sig).
Proof.
  intros Hroom [G1 G2 [B S]]. split; [by apply (inst_inv_ext target)|done|]. split.
  - intros route Hq. rewrite delivered_inbox_len. change (config (delivered _ _ _)) with (config target) in *.
    specialize (B route Hq). case_decide as Hr; [subst; specialize (Hroom Hq); lia|done].
  - cbn. unfold sat_add64. intros Hlt route sigs Hs.
    destruct (decide (ps_route sig = route)) as [Heq|Hne].
    + subst route. rewrite lookup_insert_eq in Hs. injection Hs as <-.
      assert (∀ l, signal_inbox target !! ps_route sig = Some l ∨ l = [] →
        StronglySorted N.lt (sig_seq <$> l) ∧ ∀ s, s ∈ l → sig_seq s < inbox_seq target) as Hl.
      { intros l [Hl| ->]; [by apply (S ltac:(lia) (ps_route sig))|]. split; [constructor|]. intros s Hin. by apply elem_of_nil in Hin. }
      destruct (Hl (default [] (signal_inbox target !! ps_route sig))) as [L1 L2].
      { destruct (signal_inbox target !! ps_route sig); cbn; auto. }
      split.
      * rewrite fmap_app. cbn. apply StronglySorted_app_2; [|done|repeat constructor].
        intros x y (s & -> & Hin)%list_elem_of_fmap ->%list_elem_of_singleton. by apply L2.
      * intros s [Hin| ->%list_elem_of_singleton]%elem_of_app; [specialize (L2 _ Hin)|cbn]; lia.
    + rewrite lookup_insert_ne in Hs by done. destruct (S ltac:(lia) route sigs Hs) as [L1 L2].
      split; [done|]. intros s Hin. specialize (L2 s Hin). lia.
Qed.

Lemma delivered_refs from target sig : refs_conserved target → refs_conserved (delivered from target sig).
Proof.
  intros Hr route. rewrite delivered_inbox_len. specialize (Hr route). unfold inflight_refs_for in *.
  unfold delivered. cbn. destruct (decide (route = ps_route sig)) as [->|Hne].
  - rewrite lookup_insert_eq. cbn. rewrite Hr. unfold sat_add32. lia.
  - by rewrite lookup_insert_ne.
Qed.

Lemma inst_ok_new strict id cfg : inst_ok strict id (Instance_new id cfg).
Proof. split; [apply inst_good_new|intros _; apply refs_conserved_new]. Qed.

(** An update that keeps the instance invariant and the inbox side. *)
Lemma inst_ok_update strict id i i' :
  inst_ok strict id i → inst_inv i' → inst_id i' = inst_id i → config i' = config i →
  inflight_refs i' = inflight_refs i → signal_inbox i' = signal_inbox i → inbox_seq i' = inbox_seq i →
  inst_ok strict id i'.
Proof.
  intros [[G1 G2 G3] R] Hi E0 E1 E2 E3 E4. destruct (inbox_ext i i' E1 E2 E3 E4) as [Hb Hr].
  split; [split; [done|congruence|by apply Hb]|]. intros Hs. apply Hr, R, Hs.
Qed.

Lemma route_all_ok strict from insts sigs :
  map_Forall (inst_ok strict) insts → map_Forall (inst_ok strict) (route_all from insts sigs).
Proof.
  revert insts. induction sigs as [|s sigs IH]; intros insts Hi; [done|]. apply IH.
  destruct (route_signal_cases from insts s) as [->|(target & Ht & Hroom & ->)]; [done|].
  destruct (Hi _ _ Ht) as [Hg Hr]. apply map_Forall_insert_2; [|done].
  split; [by apply delivered_good|]. intros Hs. apply delivered_refs, Hr, Hs.
Qed.

Lemma route_all_dom from insts sigs : dom (route_all from insts sigs) = dom insts.
Proof.
  revert insts. induction sigs as [|s sigs IH]; intros insts; [done|]. unfold route_all in *. cbn [fold_left].
  rewrite IH. destruct (route_signal_cases from insts s) as [->|(target & Ht & _ & ->)]; [done|].
  apply dom_insert_lookup_L. eauto.
Qed.

(** The driver never panics and keeps the invariant, the frame and the set of
    instances. *)
Lemma process_inv strict k id now session m :
  kernel_inv strict k →
  ∃ r k', process_instance_record k id now session m = Done (r, k') ∧ kernel_inv strict k' ∧ same_frame k k' ∧
    dom (instances k') = dom (instances k).
Proof.
  intros [K1 K2].
  destruct (process_cases k id now session m K2) as
    [(k' & -> & Hi & Hfr & _)|(i & key & e & core & i' & sc & n & k' & Ei & Hf & _ & _ & He & -> & Hi & Hfr)].
  - intros i Ei. apply (K1 id i Ei).
  - exists None, k'. split_and!; [done| |done|by rewrite Hi]. split; [by rewrite Hi|]. by destruct Hfr as [-> _].
  - eexists _, k'. split_and!; [done| |done|].
    + split; [|by destruct Hfr as [-> _]]. rewrite Hi. apply route_all_ok, map_Forall_insert_2; [|done].
      pose proof (K1 id i Ei) as Hok. destruct (step_ends_frame _ _ _ _ _ _ _ _ _ _ _ He) as (E0 & E1 & E2 & E3 & E4).
      apply (inst_ok_update strict id i); [done| |done..].
      eapply step_ends_inv; [|exact He]. apply inst_inv_pop; [apply Hok|by apply first_row].
    + rewrite Hi, route_all_dom. apply dom_insert_lookup_L. eauto.
Qed.

(** ** Sessions *)

(** A call of the kernel's mutating interface. *)
Inductive KernelCall : Type :=
  | CallCreate (cfg : InstanceConfig)
  | CallObserve (obs : KernelObserver) (mask : EventMask)
  | CallSubmit (instance : InstanceId) (principal : Principal) (actor : option EntityId) (caps : CapabilityMask)
      (at_ : Tick) (action_type_code : TypeCode) (action_bytes : bytes)
  | CallStep (now : Tick) (caps : CapabilityMask)
  | CallForceUnload (route : RouteId) (caps : CapabilityMask).

Definition run_call (k : Kernel) (c : KernelCall) : Outcome Kernel :=
  match c with
  | CallCreate cfg => r ← create_instance k cfg; mret r.2
  | CallObserve obs mask => mret (register_observer_filtered k obs mask).2
  | CallSubmit instance principal actor caps at_ tc bs => r ← submit k instance principal actor caps at_ tc bs; mret r.2
  | CallStep now caps => r ← step k now caps; mret r.2
  | CallForceUnload route caps => mret (force_unload k route caps).2
  end.
Definition run_calls (k : Kernel) (cs : list KernelCall) : Outcome Kernel := fold_outcome run_call k cs.

(** Calls that keep the in-flight counts. *)
Definition keeps_refs (c : KernelCall) : Prop :=
  match c with CallForceUnload _ _ => False | _ => True end.

Lemma kernel_inv_ext strict k k' :
  instances k' = instances k → action_registry k' = action_registry k → kernel_inv strict k → kernel_inv strict k'.
Proof. intros E1 E2 [K1 K2]. split; by rewrite ?E1, ?E2. Qed.

Lemma step_instance_inv strict now caps m st id :
  kernel_inv strict st.2 →
  ∃ st', step_instance now caps m st id = Done st' ∧ kernel_inv strict st'.2 ∧
    action_registry st'.2 = action_registry st.2.
Proof.
  intros Hk. destruct (process_inv strict st.2 id now caps m Hk) as (r & k' & Hp & Hk' & (Hr & _) & _).
  unfold step_instance. rewrite Hp. cbn [mbind Outcome_bind]. destruct r as [x|].
  - eexists. split; [reflexivity|]. cbn [snd]. destruct (wal k'); [|done]. split; [|done]. by apply (kernel_inv_ext strict k').
  - eexists. split; [reflexivity|]. done.
Qed.

Lemma step_inv strict k now caps :
  kernel_inv strict k →
  ∃ r, step k now caps = Done r ∧ kernel_inv strict r.2 ∧ action_registry r.2 = action_registry k.
Proof.
  intros Hk. unfold step.
  apply (fold_outcome_total (λ st, kernel_inv strict st.2 ∧ action_registry st.2 = action_registry k)); [done|].
  intros st id _ [Hst Hr]. destruct (step_instance_inv strict now caps (match wal k with Some _ => true | None => false end) st id Hst) as (st' & H1 & H2 & H3).
  exists st'. split_and!; [done|done|congruence].
Qed.

(** The admitted entry keeps the instance invariant. *)
Lemma submit_instance_inv i id at_ actor p c tc bs :
  inst_inv i → NonZero_new (sat_add64 (next_scheduled (id_counters i)) 1) = Some id →
  inst_inv (with_scheduler
    (with_id_counters i (mkCounters (next_entity (id_counters i)) (sat_add64 (next_scheduled (id_counters i)) 1)
       (next_source_seq (id_counters i))))
    (schedule_with_id (scheduler i) id at_ actor p c tc bs)).
Proof.
  intros [I1 I2 I3] Hid. assert (Npos id = sat_add64 (next_scheduled (id_counters i)) 1) as Hid'
    by (unfold NonZero_new in Hid; destruct (sat_add64 _ 1); congruence).
  split; [by apply (consistent_ext i)|cbn; unfold sat_add64; lia|].
  cbn [with_scheduler scheduler with_id_counters id_counters next_scheduled]. intros H1 H2.
  unfold sat_add64 in H1, Hid'. pose proof (schedule_with_id_seq _ _ _ _ _ _ _ _ H2) as Hq.
  destruct I3 as [Hw Hn]; [lia|lia|]. split.
  - apply schedule_with_id_wf; [done| |lia]. destruct (by_id (scheduler i) !! id) as [key|] eqn:E; [|done].
    destruct (wf_by_id _ Hw _ _ E) as [[e' Hr] Hk]. destruct (wf_counters _ Hw _ _ Hr) as [_ Hni].
    rewrite Hk in Hni. unfold ScheduledActionId_get in Hni. lia.
  - rewrite schedule_with_id_next_id. unfold ScheduledActionId_get, sat_add64. lia.
Qed.

Lemma submit_inv strict k instance p a c t tc bs :
  kernel_inv strict k →
  ∃ r, submit k instance p a c t tc bs = Done r ∧ kernel_inv strict r.2 ∧ action_registry r.2 = action_registry k.
Proof.
  intros [K1 K2]. unfold submit. destruct (instances k !! instance) as [i|] eqn:Ei; [|eexists; done].
  destruct (decide _); [eexists; done|].
  destruct (sat_succ_nonzero (next_scheduled (id_counters i))) as (id & Hid & _). unfold ScheduledActionId_new.
  rewrite Hid. eexists. split; [reflexivity|]. cbn [snd].
  match goal with |- kernel_inv _ ?k2 ∧ _ => set (k2' := k2) end.
  assert (instances k2' = instances (set_instances k (<[instance := with_scheduler
    (with_id_counters i (mkCounters (next_entity (id_counters i)) (sat_add64 (next_scheduled (id_counters i)) 1)
       (next_source_seq (id_counters i)))) (schedule_with_id (scheduler i) id t a p c tc bs)]> (instances k))) ∧
    action_registry k2' = action_registry k) as [E1 E2] by (subst k2'; cbn; by destruct (wal k)).
  split; [|done]. split; [|by rewrite E2]. rewrite E1. cbn [set_instances instances].
  apply map_Forall_insert_2; [|done]. pose proof (K1 _ _ Ei) as Hok.
  apply (inst_ok_update strict instance i); try done. by apply submit_instance_inv; [apply Hok|].
Qed.

Lemma force_unload_inv strict k route caps :
  kernel_inv strict k →
  kernel_inv false (force_unload k route caps).2 ∧
  action_registry (force_unload k route caps).2 = action_registry k.
Proof.
  intros [K1 K2]. unfold force_unload. destruct (negb _).
  { split; [|done]. split; [|done]. intros id i Hi. split; [apply (K1 id i Hi)|done]. }
  destruct (deliver _ _) as [gone obs]. cbn [snd]. split; [|done]. split; [|done]. cbn.
  intros id i Hi. apply lookup_fmap_Some in Hi as (j & <- & Hj). destruct (K1 id j Hj) as [[G1 G2 [B S]] _].
  split; [|done]. split; [by apply (inst_inv_ext j)|done|]. split; [exact B|exact S].
Qed.

Lemma run_call_inv strict k c :
  kernel_inv strict k → (strict = true → keeps_refs c) →
  ∃ k', run_call k c = Done k' ∧ kernel_inv strict k' ∧ action_registry k' = action_registry k.
Proof.
  intros Hk Hc. destruct c as [cfg|obs mask|inst p a cp t tc bs|now caps|route caps]; cbn [run_call].
  - destruct Hk as [K1 K2]. unfold create_instance, InstanceId_new.
    destruct (sat_succ_nonzero (next_instance_id k)) as (id & -> & _). eexists. split; [reflexivity|].
    cbn [snd]. split; [|done]. split; [|done]. cbn. apply map_Forall_insert_2; [apply inst_ok_new|done].
  - eexists. split; [reflexivity|]. split; [|done]. by apply (kernel_inv_ext strict k).
  - destruct (submit_inv strict k inst p a cp t tc bs Hk) as (r & -> & H1 & H2). eexists. split; [reflexivity|done].
  - destruct (step_inv strict k now caps Hk) as (r & -> & H1 & H2). eexists. split; [reflexivity|done].
  - eexists. split; [reflexivity|]. destruct strict; [by destruct (Hc eq_refl)|]. by eapply force_unload_inv.
Qed.

Lemma run_calls_inv strict k cs :
  kernel_inv strict k → (strict = true → Forall keeps_refs cs) →
  ∃ k', run_calls k cs = Done k' ∧ kernel_inv strict k' ∧ action_registry k' = action_registry k.
Proof.
  unfold run_calls. revert k. induction cs as [|c cs IH]; intros k Hk Hcs; cbn [fold_outcome]; [eauto|].
  destruct (run_call_inv strict k c Hk) as (k1 & -> & H1 & H2).
  { intros Hs. specialize (Hcs Hs). by apply Forall_cons in Hcs as [? _]. }
  cbn [mbind Outcome_bind]. destruct (IH k1 H1) as (k' & -> & H3 & H4).
  { intros Hs. specialize (Hcs Hs). by apply Forall_cons in Hcs as [_ ?]. }
  exists k'. split_and!; [done|done|congruence].
Qed.

Lemma kernel_inv_strict k : kernel_inv false k → map_Forall (λ _, refs_conserved) (instances k) → kernel_inv true k.
Proof. intros [K1 K2] Hr. split; [|done]. intros id i Hi. split; [apply (K1 id i Hi)|intros _; exact (Hr id i Hi)]. Qed.

(** ** What a round executes *)

(** The entry an instance would pop at [now]. *)
Definition due_entry (insts : gmap InstanceId Instance_) (now : Tick) (id : InstanceId) : option ScheduledEntry :=
  i ← insts !! id;
  row ← first_key_value (ready (scheduler i));
  if decide (key_at row.1 ≤ now) then Some row.2 else None.

Lemma route_all_scheduler from insts sigs id :
  scheduler <$> route_all from insts sigs !! id = scheduler <$> insts !! id.
Proof.
  revert insts. induction sigs as [|s sigs IH]; intros insts; [done|]. unfold route_all in *. cbn [fold_left].
  rewrite IH. destruct (route_signal_cases from insts s) as [->|(target & Ht & _ & ->)]; [done|].
  destruct (decide (ps_target s = id)) as [<-|Hne]; [|by rewrite lookup_insert_ne].
  by rewrite lookup_insert_eq, Ht.
Qed.

Lemma due_entry_ext insts insts' now id :
  scheduler <$> insts' !! id = scheduler <$> insts !! id → due_entry insts' now id = due_entry insts now id.
Proof.
  unfold due_entry. destruct (insts !! id), (insts' !! id); cbn; intros [=]; try done.
  by match goal with H : scheduler _ = _ |- _ => rewrite H end.
Qed.

(** The driver runs an instance exactly when it has a due entry, pops that
    entry, and leaves the queues of the others alone. *)
Lemma process_due strict k id now session m :
  kernel_inv strict k →
  ∃ r k', process_instance_record k id now session m = Done (r, k') ∧
    res_popped_id <$> r = se_id <$> due_entry (instances k) now id ∧
    ∀ id', id' ≠ id → due_entry (instances k') now id' = due_entry (instances k) now id'.
Proof.
  intros [K1 K2].
  destruct (process_cases k id now session m K2) as
    [(k' & -> & Hi & _ & Hn)|(i & key & e & core & i' & sc & n & k' & Ei & Hf & Hat & _ & He & -> & Hi & _)].
  - intros i Ei. apply (K1 id i Ei).
  - exists None, k'. split_and!; [done| |by rewrite Hi].
    unfold due_entry. destruct (instances k !! id) as [i|]; [|done]. cbn [mbind option_bind].
    destruct (first_key_value (ready (scheduler i))) as [[key e]|] eqn:Ef; [|done]. cbn.
    rewrite decide_False; [done|]. specialize (Hn i eq_refl key). apply first_row in Ef.
    assert (now < key_at key) by (apply Hn; eauto). lia.
  - eexists _, k'. split_and!; [reflexivity| |].
    + unfold due_entry. rewrite Ei. cbn [mbind option_bind]. rewrite Hf. cbn. rewrite decide_True by done.
      cbn. by destruct He.
    + intros id' Hne. apply due_entry_ext. rewrite Hi, route_all_scheduler. by rewrite lookup_insert_ne.
Qed.

Definition req_instance (r : AppendReq) : InstanceId :=
  match r with ReqSubmit i _ _ _ _ _ _ _ => i | ReqStep i _ _ _ _ _ => i end.
Definition req_id (r : AppendReq) : ScheduledActionId :=
  match r with ReqSubmit _ _ _ _ _ _ _ id => id | ReqStep _ id _ _ _ _ => id end.

(** The turns a round records. *)
Definition due_turns (insts : gmap InstanceId Instance_) (now : Tick) (ids : list InstanceId)
    : list (InstanceId * ScheduledActionId) :=
  omap (λ id, e ← due_entry insts now id; Some (id, se_id e)) ids.

Lemma step_loop strict now caps ids rep k w :
  NoDup ids → kernel_inv strict k → wal k = Some w →
  ∃ rep' k' reqs, fold_outcome (step_instance now caps true) (rep, k) ids = Done (rep', k') ∧
    wal k' = Some (run_appends w reqs) ∧
    (λ r, (req_instance r, req_id r)) <$> reqs = due_turns (instances k) now ids ∧
    (∀ r, r ∈ reqs → ∃ v d, r = ReqStep (req_instance r) (req_id r) now caps v d) ∧
    (actions_executed rep ≤ U32_MAX →
     actions_executed rep' = N.min (actions_executed rep + len reqs) U32_MAX).
Proof.
  revert rep k w. induction ids as [|id ids IH]; intros rep k w Hnd Hk Hw; cbn [fold_outcome].
  { exists rep, k, []. split_and!; try done; [intros r Hr; by apply elem_of_nil in Hr|unfold len; simpl; lia]. }
  apply NoDup_cons in Hnd as [Hnin Hnd].
  destruct (process_inv strict k id now caps true Hk) as (r & k1 & Hp & Hk1 & (_ & Hw1 & _) & _).
  destruct (process_due strict k id now caps true Hk) as (r' & k1' & Hp' & Hdue & Hoth).
  rewrite Hp in Hp'. injection Hp' as <- <-.
  assert (∀ insts', (∀ id', id' ≠ id → due_entry insts' now id' = due_entry (instances k) now id') →
    due_turns insts' now ids = due_turns (instances k) now ids) as Hext.
  { intros insts' He. unfold due_turns. clear IH Hnd. induction ids as [|x ids IH]; [done|]. cbn.
    apply not_elem_of_cons in Hnin as [Hne Hnin]. rewrite IH by done. by rewrite He by done. }
  unfold step_instance at 2. cbn [snd fst]. rewrite Hp. cbn [mbind Outcome_bind].
  unfold due_turns. cbn [omap list_omap]. fold (due_turns (instances k) now ids).
  destruct r as [x|]; cbn [fmap option_fmap option_map] in Hdue;
    destruct (due_entry (instances k) now id) as [e|]; try done.
  - injection Hdue as Hpop. rewrite Hw1, Hw. cbn [mbind Outcome_bind mret Outcome_ret].
    set (req := ReqStep id (res_popped_id x) now caps (res_verdict x) (res_digest x)).
    destruct (IH (report_add rep x) (set_wal k1 (Some (do_append w req))) (do_append w req) Hnd) as
      (rep' & k' & reqs & Hf & Hw' & Hreq & Hall & Hcnt); [by apply (kernel_inv_ext strict k1)|done|].
    exists rep', k', (req :: reqs). split_and!; [exact Hf|exact Hw'| | |].
    + rewrite fmap_cons, Hreq. cbn [set_wal instances]. rewrite (Hext _ Hoth). cbn. by rewrite Hpop.
    + intros r [->|Hr]%elem_of_cons; [eexists _, _; reflexivity|by apply Hall].
    + intros Hle. rewrite Hcnt, len_cons; cbn; unfold sat_add32; lia.
  - cbn [mret Outcome_ret]. destruct (IH rep k1 w Hnd Hk1) as (rep' & k' & reqs & Hf & Hw' & Hreq & Hall & Hcnt);
      [by rewrite Hw1|].
    exists rep', k', reqs. split_and!; [exact Hf|exact Hw'| |done|done]. by rewrite Hreq, (Hext _ Hoth).
Qed.

(** ** Evictions *)

(** The evictions counted so far and the observers left make up those there
    were. *)
Definition balanced (n : N) (st : N * ObserverRegistry) : Prop :=
  registry_wf st.2 ∧ st.1 + observers_len st.2 = n.

Lemma deliver_counted_balanced n st ev : n ≤ U32_MAX → balanced n st → balanced n (deliver_counted st ev).
Proof.
  intros Hn [Hw Hb]. unfold deliver_counted. pose proof (deliver_evicts st.2 ev Hw) as He.
  pose proof (deliver_wf st.2 ev Hw) as Hw'. destruct (deliver st.2 ev) as [gone obs]. split; [exact Hw'|].
  cbn [fst snd] in *. unfold sat_add32, as_u32. rewrite N.mod_small by (unfold U32_MAX in *; lia). lia.
Qed.

Lemma deliveries_balanced n evs st :
  n ≤ U32_MAX → balanced n st → balanced n (fold_left deliver_counted evs st).
Proof.
  intros Hn. revert st. induction evs as [|ev evs IH]; intros st Hb; [done|]. by apply IH, deliver_counted_balanced.
Qed.

Lemma route_loop_balanced n from sigs insts st :
  n ≤ U32_MAX → balanced n st → balanced n (fold_left (route_one from) sigs (insts, st)).2.
Proof.
  intros Hn. revert insts st. induction sigs as [|s sigs IH]; intros insts st Hb; [done|]. cbn [fold_left].
  unfold route_one at 2. cbn [fst snd]. destruct (route_signal from insts s) as [insts' ev].
  by apply IH, deliver_counted_balanced.
Qed.

Lemma process_balanced n k id now session m r k' :
  n ≤ U32_MAX → balanced n (0, observers k) → process_instance_record k id now session m = Done (r, k') →
  balanced n (match r with Some x => res_observers_evicted x | None => 0 end, observers k').
Proof.
  intros Hn Hb. unfold process_instance_record. destruct (instances k !! id) as [i|]; [|by intros [= <- <-]].
  intros Hp. apply bind_Done in Hp as ([[[core|] i'] sc] & _ & Hp); [|by injection Hp as <- <-].
  set (st1 := if executed_verdict (core_verdict core) then _ else _) in Hp.
  assert (balanced n st1) as Hb1.
  { subst st1. destruct (executed_verdict _); [apply deliver_counted_balanced; [done|]|]; by apply deliveries_balanced. }
  pose proof (route_loop_balanced n id (core_pending_signals core) (<[id:=i']> (instances k)) st1 Hn Hb1) as Hb2.
  destruct (fold_left (route_one id) _ _) as [insts2 [evs obs]]. by injection Hp as <- <-.
Qed.

Lemma step_instance_balanced n now caps m rep k id rep' k' :
  n ≤ U32_MAX → balanced n (observers_evicted rep, observers k) →
  step_instance now caps m (rep, k) id = Done (rep', k') → balanced n (observers_evicted rep', observers k').
Proof.
  intros Hn [Hw Hb] Hs. cbn [fst snd] in *. unfold step_instance in Hs. cbn [fst snd] in Hs.
  apply bind_Done in Hs as ([r k1] & Hp & Hs).
  destruct (process_balanced (observers_len (observers k)) k id now caps m r k1) as [Hw1 Hb1]; [lia|by split|done|].
  cbn [fst snd] in *. destruct r as [x|]; injection Hs as <- <-; [|split; cbn; [done|lia]].
  destruct (wal k1); split; cbn; try done; unfold sat_add32; lia.
Qed.

Lemma step_evictions k now caps rep k' :
  registry_wf (observers k) → observers_len (observers k) ≤ U32_MAX → step k now caps = Done (rep, k') →
  observers_evicted rep + observers_len (observers k') = observers_len (observers k).
Proof.
  intros Hw Hn Hs. unfold step in Hs.
  assert (balanced (observers_len (observers k)) (observers_evicted rep, observers k')) as [_ Hb]; [|exact Hb].
  refine (fold_outcome_inv (λ st, balanced (observers_len (observers k)) (observers_evicted st.1, observers st.2))
    _ _ _ (rep, k') _ _ Hs); [by split|].
  intros [rep1 k1] id [rep2 k2] _ Hb H1. exact (step_instance_balanced _ _ _ _ _ _ _ _ _ Hn Hb H1).
Qed.

(** ** Observers and the rest of the kernel *)

(** What the observers are left with after being shown some events. *)
Definition shown (obs : ObserverRegistry) (evs : list KernelEvent) : ObserverRegistry :=
  fold_left (λ o ev, (deliver o ev).2) evs obs.

Lemma deliver_counted_shown st ev : (deliver_counted st ev).2 = (deliver st.2 ev).2.
Proof. unfold deliver_counted. by destruct (deliver st.2 ev). Qed.

Lemma deliveries_shown evs st : (fold_left deliver_counted evs st).2 = shown st.2 evs.
Proof.
  unfold shown. revert st. induction evs as [|ev evs IH]; intros st; [done|]. cbn [fold_left].
  by rewrite IH, deliver_counted_shown.
Qed.

Lemma shown_app obs evs1 evs2 : shown obs (evs1 ++ evs2) = shown (shown obs evs1) evs2.
Proof. unfold shown. apply fold_left_app. Qed.

(** The events the router shows, one per signal. *)
Fixpoint routed_events (from : InstanceId) (insts : gmap InstanceId Instance_) (sigs : list PendingSignal) : list KernelEvent :=
  match sigs with
  | [] => []
  | s :: sigs' => let '(insts', ev) := route_signal from insts s in ev :: routed_events from insts' sigs'
  end.

Lemma route_loop_shown from sigs insts st :
  (fold_left (route_one from) sigs (insts, st)).2.2 = shown st.2 (routed_events from insts sigs).
Proof.
  revert insts st. induction sigs as [|s sigs IH]; intros insts st; [done|]. cbn [fold_left routed_events].
  destruct (route_signal from insts s) as [insts' ev] eqn:E.
  assert (route_one from (insts, st) s = (insts', deliver_counted st ev)) as -> by (unfold route_one; cbn; by rewrite E).
  by rewrite IH, deliver_counted_shown.
Qed.

(** The events a step shows: its own, the execution, the router's. *)
Definition step_events (id : InstanceId) (insts : gmap InstanceId Instance_) (now : Tick) (core : StepCore) : list KernelEvent :=
  core_events core ++ (if executed_verdict (core_verdict core) then [ActionExecuted id (core_action_type core) now] else [])
  ++ routed_events id insts (core_pending_signals core).

Lemma step_events_shown id insts now core obs :
  let st1 := fold_left deliver_counted (core_events core) (0, obs) in
  let st2 := if executed_verdict (core_verdict core)
             then deliver_counted st1 (ActionExecuted id (core_action_type core) now) else st1 in
  (fold_left (route_one id) (core_pending_signals core) (insts, st2)).2.2 = shown obs (step_events id insts now core).
Proof.
  intros st1 st2. rewrite route_loop_shown. unfold step_events. rewrite app_assoc, shown_app. f_equal.
  rewrite shown_app. subst st2 st1. destruct (executed_verdict _); [rewrite deliver_counted_shown|]; by rewrite deliveries_shown.
Qed.

(** Two kernels that agree on everything but observers and scratch. *)
Definition same_core (k1 k2 : Kernel) : Prop :=
  instances k1 = instances k2 ∧ action_registry k1 = action_registry k2 ∧
  next_instance_id k1 = next_instance_id k2 ∧ manifest_digest k1 = manifest_digest k2 ∧ wal k1 = wal k2.

Ltac solve_core := unfold same_core, result_of; cbn; split_and!; first [done | congruence].

(** The parts of a result that are recorded. *)
Definition same_result (r1 r2 : option InstanceStepResult) : Prop :=
  match r1, r2 with
  | None, None => True
  | Some x, Some y =>
      ∃ core n1 n2, x = result_of core n1 ∧ y = result_of core n2
  | _, _ => False
  end.

(** The driver is a function of the instances and the registry: two kernels
    that agree on those reach the same instances and the same result. *)
Lemma process_same_state k1 k2 id now session m r1 k1' :
  instances k1 = instances k2 → action_registry k1 = action_registry k2 →
  process_instance_record k1 id now session m = Done (r1, k1') →
  ∃ r2 k2', process_instance_record k2 id now session m = Done (r2, k2') ∧ instances k1' = instances k2' ∧
    same_frame k1 k1' ∧ same_frame k2 k2' ∧ same_result r1 r2.
Proof.
  intros E1 E2. unfold process_instance_record. rewrite <- E1.
  destruct (instances k1 !! id) as [i|]; [|intros [= <- <-]; by eexists _, _].
  intros Hp. apply bind_Done in Hp as ([[oc i'] sc] & Hs & Hp).
  destruct (step_scratch_irrelevant _ _ _ _ (step_scratch k2) _ _ _ _ _ _ Hs) as [sc' Hs'].
  rewrite <- E2, Hs'. cbn [mbind Outcome_bind]. destruct oc as [core|]; [|injection Hp as <- <-; by eexists _, _].
  set (st1 := if executed_verdict (core_verdict core) then _ else _) in Hp.
  match goal with |- context [fold_left (route_one id) _ (_, ?s)] => set (st2 := s) end.
  pose proof (route_loop_instances id (core_pending_signals core) (<[id:=i']> (instances k1)) st1) as R1.
  pose proof (route_loop_instances id (core_pending_signals core) (<[id:=i']> (instances k1)) st2) as R2.
  destruct (fold_left (route_one id) (core_pending_signals core) (_, st1)) as [insts2 [n1 o1]].
  destruct (fold_left (route_one id) (core_pending_signals core) (_, st2)) as [insts3 [n2 o2]].
  cbn [fst] in R1, R2. injection Hp as <- <-. eexists _, _. split; [reflexivity|].
  split_and!; [cbn; congruence|by split|by split|]. by exists core, n1, n2.
Qed.

(** What the driver shows the observers: a function of the instances and the
    registry. *)
Definition process_events (insts : gmap InstanceId Instance_) (r : ActionRegistry) (id : InstanceId) (now : Tick)
    (session : CapabilityMask) (m : bool) : list KernelEvent :=
  match insts !! id with
  | Some i =>
      match step_one_core id i r StepStage_default now session m with
      | Done (Some core, i', _) => step_events id (<[id := i']> insts) now core
      | _ => []
      end
  | None => []
  end.

Lemma process_shown k id now session m r k' :
  process_instance_record k id now session m = Done (r, k') →
  observers k' = shown (observers k) (process_events (instances k) (action_registry k) id now session m).
Proof.
  unfold process_instance_record, process_events. destruct (instances k !! id) as [i|]; [|by intros [= <- <-]].
  intros Hp. apply bind_Done in Hp as ([[oc i'] sc] & Hs & Hp).
  destruct (step_scratch_irrelevant _ _ _ _ StepStage_default _ _ _ _ _ _ Hs) as [sc' ->].
  destruct oc as [core|]; [|by injection Hp as <- <-].
  rewrite <- step_events_shown. cbv zeta.
  destruct (fold_left (route_one id) _ _) as [insts2 [n o]]. by injection Hp as <- <-.
Qed.

Lemma process_same_core k1 k2 id now session m r1 k1' :
  same_core k1 k2 → process_instance_record k1 id now session m = Done (r1, k1') →
  ∃ r2 k2', process_instance_record k2 id now session m = Done (r2, k2') ∧ same_core k1' k2' ∧ same_result r1 r2.
Proof.
  intros (E1 & E2 & E3 & E4 & E5) Hp.
  destruct (process_same_state _ _ _ _ _ _ _ _ E1 E2 Hp) as
    (r2 & k2' & Hp2 & Hi & (F1 & F2 & F3 & F4) & (G1 & G2 & G3 & G4) & Hr).
  exists r2, k2'. split_and!; [done| |done]. unfold same_core. split_and!; congruence.
Qed.

Lemma step_instance_same_core now caps m rep1 rep2 k1 k2 id rep1' k1' :
  same_core k1 k2 → step_instance now caps m (rep1, k1) id = Done (rep1', k1') →
  ∃ rep2' k2', step_instance now caps m (rep2, k2) id = Done (rep2', k2') ∧ same_core k1' k2'.
Proof.
  intros Hc Hs. unfold step_instance in *. cbn [fst snd] in *. apply bind_Done in Hs as ([r1 q1] & Hp & Hs).
  destruct (process_same_core _ _ _ _ _ _ _ _ Hc Hp) as (r2 & q2 & -> & Hq & Hr). cbn [mbind Outcome_bind].
  destruct r1 as [x|], r2 as [y|]; try done; injection Hs as <- <-; [|by eexists _, _].
  destruct Hr as (core & n1 & n2 & -> & ->). eexists _, _. split; [reflexivity|].
  destruct Hq as (E1 & E2 & E3 & E4 & E5). rewrite <- E5. destruct (wal q1) eqn:Ew; solve_core.
Qed.

Lemma step_loop_same_core now caps m ids rep1 rep2 k1 k2 rep1' k1' :
  same_core k1 k2 → fold_outcome (step_instance now caps m) (rep1, k1) ids = Done (rep1', k1') →
  ∃ rep2' k2', fold_outcome (step_instance now caps m) (rep2, k2) ids = Done (rep2', k2') ∧ same_core k1' k2'.
Proof.
  revert rep1 rep2 k1 k2. induction ids as [|id ids IH]; intros rep1 rep2 k1 k2 Hc Hf; cbn [fold_outcome] in *.
  { injection Hf as <- <-. eauto. }
  apply bind_Done in Hf as ([rep q] & Hs & Hf).
  destruct (step_instance_same_core _ _ _ _ rep2 _ _ _ _ _ Hc Hs) as (rep' & q' & -> & Hq).
  cbn [mbind Outcome_bind]. by eapply IH.
Qed.

Lemma run_call_same_core k1 k2 c k1' :
  same_core k1 k2 → run_call k1 c = Done k1' → ∃ k2', run_call k2 c = Done k2' ∧ same_core k1' k2'.
Proof.
  intros Hc Hr. pose proof Hc as (E1 & E2 & E3 & E4 & E5).
  destruct c as [cfg|obs mask|inst p a cp t tc bs|now caps|route caps]; cbn [run_call] in *.
  - unfold create_instance in *. rewrite <- E3, <- E1. apply bind_Done in Hr as ([id q] & Hr & [= <-]).
    apply bind_Done in Hr as (id' & -> & [= <- <-]). eexists. split; [reflexivity|]. solve_core.
  - injection Hr as <-. eexists. split; [reflexivity|]. solve_core.
  - apply bind_Done in Hr as ([res q] & Hr & [= <-]). unfold submit in *. rewrite <- E1.
    destruct (instances k1 !! inst) as [i|]; [|injection Hr as <- <-; eexists; split; [reflexivity|done]].
    destruct (decide _); [injection Hr as <- <-; eexists; split; [reflexivity|done]|].
    apply bind_Done in Hr as (id & -> & [= <- <-]). eexists. split; [reflexivity|]. cbn. rewrite <- E5.
    destruct (wal k1) as [w|] eqn:Ew; solve_core.
  - apply bind_Done in Hr as ([rep q] & Hr & [= <-]). unfold step in *. rewrite <- E1, <- E5.
    destruct (step_loop_same_core _ _ _ _ _ StepReport_default _ _ _ _ Hc Hr) as (rep2 & q2 & -> & Hq).
    eexists. split; [reflexivity|done].
  - injection Hr as <-. unfold force_unload. rewrite <- E1. destruct (negb _); [eexists; split; [reflexivity|done]|].
    eexists. split; [reflexivity|]. destruct (deliver _ _), (deliver _ _). solve_core.
Qed.

(** Two kernels that agree on what a step reads: the log, the observers and
    the manifest may differ. *)
Definition same_state (k1 k2 : Kernel) : Prop :=
  instances k1 = instances k2 ∧ action_registry k1 = action_registry k2 ∧ next_instance_id k1 = next_instance_id k2.

Lemma process_same_instances k1 k2 id now session m1 m2 r1 k1' :
  same_state k1 k2 → process_instance_record k1 id now session m1 = Done (r1, k1') →
  ∃ r2 k2', process_instance_record k2 id now session m2 = Done (r2, k2') ∧ same_state k1' k2'.
Proof.
  intros (E1 & E2 & E3). unfold process_instance_record. rewrite <- E1.
  destruct (instances k1 !! id) as [i|]; [|intros [= <- <-]; by eexists _, _].
  intros Hp. apply bind_Done in Hp as ([[oc i'] sc] & Hs & Hp).
  destruct (step_measure_irrelevant _ _ _ _ (step_scratch k2) _ _ _ m2 _ _ _ Hs) as (oc2 & sc' & Hs' & Hsig).
  rewrite <- E2, Hs'. cbn [mbind Outcome_bind].
  destruct oc as [core|], oc2 as [core2|]; try done; [|injection Hp as <- <-; by eexists _, _].
  injection Hsig as Hsig. rewrite Hsig.
  set (st1 := if executed_verdict (core_verdict core) then _ else _) in Hp.
  match goal with |- context [fold_left (route_one id) _ (_, ?s)] => set (st2 := s) end.
  pose proof (route_loop_instances id (core_pending_signals core) (<[id:=i']> (instances k1)) st1) as R1.
  pose proof (route_loop_instances id (core_pending_signals core) (<[id:=i']> (instances k1)) st2) as R2.
  destruct (fold_left (route_one id) (core_pending_signals core) (_, st1)) as [insts2 [n1 o1]].
  destruct (fold_left (route_one id) (core_pending_signals core) (_, st2)) as [insts3 [n2 o2]].
  cbn [fst] in R1, R2. injection Hp as <- <-. eexists _, _. split; [reflexivity|].
  unfold same_state. cbn. split_and!; congruence.
Qed.

Lemma step_instance_same_state now caps m1 m2 rep1 rep2 k1 k2 id rep1' k1' :
  same_state k1 k2 → step_instance now caps m1 (rep1, k1) id = Done (rep1', k1') →
  ∃ rep2' k2', step_instance now caps m2 (rep2, k2) id = Done (rep2', k2') ∧ same_state k1' k2'.
Proof.
  intros Hc Hs. unfold step_instance in *. cbn [fst snd] in *. apply bind_Done in Hs as ([r1 q1] & Hp & Hs).
  destruct (process_same_instances _ _ _ _ _ _ m2 _ _ Hc Hp) as (r2 & q2 & -> & Hq). cbn [mbind Outcome_bind].
  assert (same_state k1' q1) as Hq1
    by (destruct r1; injection Hs as _ <-; [destruct (wal q1)|]; done).
  destruct Hq1 as (F1 & F2 & F3), Hq as (G1 & G2 & G3).
  destruct r2 as [y|]; (eexists _, _; split; [reflexivity|]);
    [destruct (wal q2)|]; unfold same_state; cbn; split_and!; congruence.
Qed.

Lemma step_loop_same_state now caps m1 m2 ids rep1 rep2 k1 k2 rep1' k1' :
  same_state k1 k2 → fold_outcome (step_instance now caps m1) (rep1, k1) ids = Done (rep1', k1') →
  ∃ rep2' k2', fold_outcome (step_instance now caps m2) (rep2, k2) ids = Done (rep2', k2') ∧ same_state k1' k2'.
Proof.
  revert rep1 rep2 k1 k2. induction ids as [|id ids IH]; intros rep1 rep2 k1 k2 Hc Hf; cbn [fold_outcome] in *.
  { injection Hf as <- <-. eauto. }
  apply bind_Done in Hf as ([rep q] & Hs & Hf).
  destruct (step_instance_same_state _ _ _ m2 _ rep2 _ _ _ _ _ Hc Hs) as (rep' & q' & -> & Hq).
  cbn [mbind Outcome_bind]. by eapply IH.
Qed.

Lemma run_call_same_state k1 k2 c k1' :
  same_state k1 k2 → run_call k1 c = Done k1' → ∃ k2', run_call k2 c = Done k2' ∧ same_state k1' k2'.
Proof.
  intros Hc Hr. pose proof Hc as (E1 & E2 & E3).
  destruct c as [cfg|obs mask|inst p a cp t tc bs|now caps|route caps]; cbn [run_call] in *.
  - unfold create_instance in *. rewrite <- E3, <- E1. apply bind_Done in Hr as ([id q] & Hr & [= <-]).
    apply bind_Done in Hr as (id' & -> & [= <- <-]). eexists. split; [reflexivity|]. by split_and!.
  - injection Hr as <-. eexists. split; [reflexivity|]. by split_and!.
  - apply bind_Done in Hr as ([res q] & Hr & [= <-]). unfold submit in *. rewrite <- E1.
    destruct (instances k1 !! inst) as [i|]; [|injection Hr as <- <-; eexists; split; [reflexivity|done]].
    destruct (decide _); [injection Hr as <- <-; eexists; split; [reflexivity|done]|].
    apply bind_Done in Hr as (id & -> & [= <- <-]). eexists. split; [reflexivity|].
    cbn. unfold same_state. destruct (wal k1), (wal k2); cbn; split_and!; congruence.
  - apply bind_Done in Hr as ([rep q] & Hr & [= <-]). unfold step in *. rewrite <- E1.
    destruct (step_loop_same_state _ _ _ (match wal k2 with Some _ => true | None => false end) _ _ StepReport_default
      _ _ _ _ Hc Hr) as (rep2 & q2 & -> & Hq). eexists. split; [reflexivity|done].
  - injection Hr as <-. unfold force_unload. rewrite <- E1. destruct (negb _); [eexists; split; [reflexivity|done]|].
    eexists. split; [reflexivity|]. destruct (deliver _ _), (deliver _ _). by split_and!.
Qed.

Lemma run_calls_same_state k1 k2 cs k1' :
  same_state k1 k2 → run_calls k1 cs = Done k1' → ∃ k2', run_calls k2 cs = Done k2' ∧ same_state k1' k2'.
Proof.
  unfold run_calls. revert k1 k2. induction cs as [|c cs IH]; intros k1 k2 Hc Hr; cbn [fold_outcome] in *.
  { injection Hr as <-. eauto. }
  apply bind_Done in Hr as (q & Hq & Hr). destruct (run_call_same_state _ _ _ _ Hc Hq) as (q' & -> & Hc').
  cbn [mbind Outcome_bind]. by eapply IH.
Qed.

(** Removing the observer registrations of a session. *)
Definition is_observe (c : KernelCall) : bool := match c with CallObserve _ _ => true | _ => false end.
Definition without_observers (cs : list KernelCall) : list KernelCall :=
  filter (λ c, is_observe c = false) cs.

Lemma run_calls_same_core k1 k2 cs k1' :
  same_core k1 k2 → run_calls k1 cs = Done k1' →
  ∃ k2', run_calls k2 (without_observers cs) = Done k2' ∧ same_core k1' k2'.
Proof.
  unfold run_calls, without_observers. revert k1 k2. induction cs as [|c cs IH]; intros k1 k2 Hc Hr.
  { cbn in *. injection Hr as <-. eauto. }
  cbn [fold_outcome] in Hr. apply bind_Done in Hr as (q & Hq & Hr). rewrite filter_cons.
  destruct (decide (is_observe c = false)) as [Ho|Ho].
  - destruct (run_call_same_core _ _ _ _ Hc Hq) as (q' & Hq' & Hc'). cbn [fold_outcome]. rewrite Hq'.
    cbn [mbind Outcome_bind]. by eapply IH.
  - apply (IH q k2); [|done]. destruct c; try done. cbn in Hq. injection Hq as <-. exact Hc.
Qed.

Lemma add_refs_zero route acc i : add_refs route acc i = 0 ↔ acc = 0 ∧ inflight_refs_for i route = 0.
Proof.
  unfold add_refs, inflight_refs_for. destruct (inflight_refs i !! route) as [n|]; cbn [from_option]; [|tauto].
  change (id n) with n. unfold sat_add32, U32_MAX. lia.
Qed.

Lemma live_refs_zero route l acc :
  fold_left (add_refs route) l acc = 0 ↔ acc = 0 ∧ ∀ i, i ∈ l → inflight_refs_for i route = 0.
Proof.
  revert acc. induction l as [|i l IH]; intros acc; cbn [fold_left].
  - split; [|by intros [? _]]. intros ->. split; [done|]. intros i Hi. by apply elem_of_nil in Hi.
  - rewrite IH, add_refs_zero. setoid_rewrite elem_of_cons. split.
    + intros [[Ha Hi] Hl]. split; [done|]. intros j [->|Hj]; [done|by apply Hl].
    + intros [Ha Hl]. split; [split; [done|]|]; [apply Hl; by left|]. intros j Hj. apply Hl. by right.
Qed.

End kernel.

(** ** Properties *)

Section properties.
Context `{Postcard InstanceSnapshot, Postcard WalRecordBody} {B3 : Blake3} {SS : SigSchemes}.

(** C2: sessions are safe. Whatever sequence of calls is made on a kernel
    whose instances satisfy the invariant and whose actions compute without
    panicking (instance creation, observers, submissions with arbitrary bytes,
    steps, forced unloads, whatever the observers do), no call panics and the
    invariant holds at the end: every instance's tables agree, its scheduler
    index is well formed below saturation, and its inboxes respect the quota
    and are in delivery order. *)
Theorem kernel_sessions_safe k cs :
  kernel_inv false k → ∃ k', run_calls k cs = Done k' ∧ kernel_inv false k'.
Proof.
  intros Hk. destruct (run_calls_inv false k cs Hk) as (k' & H1 & H2 & _); [done|]. eauto.
Qed.

(** C29: signals are conserved. After any session, forced unloads included,
    the inbox of every instance and route is within the quota and its sequence
    numbers strictly increase (below saturation). If the counts agree with the
    inboxes at the start and the session has no forced unload (which drops the
    count of a route and keeps its inbox), the in-flight count of every route
    is the number of signals delivered to that inbox, clamped to 32 bits. *)
Theorem signal_conservation k cs k' id i route :
  kernel_inv false k → run_calls k cs = Done k' → instances k' !! id = Some i →
  (map_Forall (λ _, refs_conserved) (instances k) → Forall keeps_refs cs →
   inflight_refs_for i route = N.min (inbox_len i route) U32_MAX) ∧
  (0 < max_inbox_per_route (config i) → inbox_len i route ≤ max_inbox_per_route (config i)) ∧
  (inbox_seq i < U64_MAX → StronglySorted N.lt (sig_seq <$> default [] (signal_inbox i !! route))).
Proof.
  intros Hk Hr Hi. destruct (run_calls_inv false k cs Hk) as (q & Hq & [K1 _] & _); [done|].
  rewrite Hr in Hq. injection Hq as <-. destruct (K1 id i Hi) as [[_ _ [B S]] _].
  split_and!; [|by apply B|].
  { intros Hrefs Hcs. destruct (run_calls_inv true k cs) as (q & Hq & [R _] & _); [by apply kernel_inv_strict|done|].
    rewrite Hr in Hq. injection Hq as <-. by apply (R id i Hi). }
  intros Hlt.
  destruct (signal_inbox i !! route) as [sigs|] eqn:Es; [|constructor]. by apply (S Hlt route).
Qed.

(** C28: observers cannot interfere. Deleting every observer registration
    from a session, whatever those observers do and however they panic,
    leaves the instances, the registry, the id allocator and the write-ahead
    log exactly as they were. *)
Theorem observer_noninterference k cs k' :
  run_calls k cs = Done k' →
  ∃ k'', run_calls k (without_observers cs) = Done k'' ∧
    instances k'' = instances k' ∧ action_registry k'' = action_registry k' ∧
    next_instance_id k'' = next_instance_id k' ∧ wal k'' = wal k'.
Proof.
  intros Hr. destruct (run_calls_same_core k k cs k') as (k'' & H1 & E1 & E2 & E3 & _ & E5); [done|done|].
  exists k''. by rewrite E1, E2, E3, E5.
Qed.

(** C17: a round of [step]. It executes, in ascending instance order, exactly
    one action for each instance that has one due at the start of the round:
    its first due entry. Each turn, and nothing else, is appended to the log
    with the tick and session ceiling of the round. *)
Theorem step_round k now caps w :
  kernel_inv false k → wal k = Some w →
  ∃ rep k' reqs, step k now caps = Done (rep, k') ∧
    wal k' = Some (run_appends w reqs) ∧
    (λ r, (req_instance r, req_id r)) <$> reqs = due_turns (instances k) now (btree_keys (instances k)) ∧
    (∀ r, r ∈ reqs → ∃ v d, r = ReqStep (req_instance r) (req_id r) now caps v d) ∧
    actions_executed rep = N.min (len reqs) U32_MAX ∧
    (registry_wf (observers k) → observers_len (observers k) ≤ U32_MAX →
     observers_evicted rep + observers_len (observers k') = observers_len (observers k)).
Proof.
  intros Hk Hw. pose proof (step_evictions k now caps) as Hev. unfold step in *. rewrite Hw in *.
  destruct (step_loop false now caps (btree_keys (instances k)) StepReport_default k w (btree_keys_NoDup _) Hk Hw)
    as (rep & k' & reqs & H1 & H2 & H3 & H4 & H5).
  exists rep, k', reqs. split_and!; [done..| |].
  - rewrite H5; [cbn; lia|cbn; unfold U32_MAX; lia].
  - intros Hobs Hn. by apply Hev.
Qed.

(** Admission on every branch. [submit] never panics. An unknown
    instance or a full queue is refused and the kernel is unchanged;
    otherwise the next id of that instance (clamped at the maximum) is
    returned, the queue gains exactly that entry under that id and ceiling,
    the other instances are untouched, and one [Submit] record with the same
    data is appended to an attached log. *)
Theorem submit_exact k instance principal actor caps at_ tc bs :
  submit k instance principal actor caps at_ tc bs =
  match instances k !! instance with
  | None => Done (Err InstanceNotFound, k)
  | Some i =>
      if decide (0 < max_scheduled (config i) ∧ max_scheduled (config i) ≤ Scheduler_len (scheduler i))
      then Done (Err QuotaExceeded, k)
      else
        let n := sat_add64 (next_scheduled (id_counters i)) 1 in
        let id := N.succ_pos (n - 1) in
        Done (Ok id,
          mkKernel _
            (<[instance := with_scheduler
                 (with_id_counters i (mkCounters (next_entity (id_counters i)) n (next_source_seq (id_counters i))))
                 (schedule_with_id (scheduler i) id at_ actor principal caps tc bs)]> (instances k))
            (action_registry k) (observers k) (next_instance_id k) (manifest_digest k)
            ((λ w, do_append w (ReqSubmit instance principal actor caps at_ tc bs id)) <$> wal k)
            (step_scratch k))
  end.
Proof.
  unfold submit. destruct (instances k !! instance) as [i|]; [|done].
  destruct (decide _); [done|]. cbv zeta.
  destruct (sat_succ_nonzero (next_scheduled (id_counters i))) as (id & Hid & Hn).
  unfold ScheduledActionId_new. rewrite Hid. cbn [expect mbind Outcome_bind].
  assert (N.succ_pos (sat_add64 (next_scheduled (id_counters i)) 1 - 1) = id) as ->.
  { rewrite <- Hn. assert (Npos (N.succ_pos (Npos id - 1)) = Npos id) as Heq
      by (rewrite N.succ_pos_spec; lia). by injection Heq. }
  destruct k as [ins reg obs nid md [w|] sc]; done.
Qed.

(** Forced unload. Without [ADMIN_UNLOAD] it is refused and nothing
    changes; with it, no instance holds a count on the route any more, every
    other count, every inbox and every other field of every instance is
    unchanged, the result is at most the 32-bit maximum, and no record is
    appended to the log. *)
Theorem force_unload_exact k route caps :
  let '(r, k') := force_unload k route caps in
  (¬ ADMIN_UNLOAD ⊑c caps → r = Err CapabilityDenied ∧ k' = k) ∧
  (ADMIN_UNLOAD ⊑c caps →
   instances k' = (λ i, with_inflight_refs i (delete route (inflight_refs i))) <$> instances k ∧
   (∀ id i, instances k' !! id = Some i → inflight_refs_for i route = 0) ∧
   wal k' = wal k ∧
   ∃ n, r = Ok n ∧ (n = 0 ↔ ∀ id i, instances k !! id = Some i → inflight_refs_for i route = 0)).
Proof.
  assert (caps_contains caps ADMIN_UNLOAD = true ↔ ADMIN_UNLOAD ⊑c caps) as Hs by apply caps_contains_spec.
  unfold force_unload. destruct (caps_contains caps ADMIN_UNLOAD); cbn [negb].
  2:{ split; [done|]. intros Hc%Hs. done. }
  destruct (deliver _ _) as [gone obs]. split; [intros Hn; destruct Hn; by apply Hs|]. intros _.
  cbn [set_observers set_instances instances wal]. split_and!; [done| |done|].
  - intros id i (j & <- & _)%lookup_fmap_Some. unfold inflight_refs_for.
    cbn [with_inflight_refs inflight_refs]. by rewrite lookup_delete_eq.
  - eexists. split; [reflexivity|]. rewrite live_refs_zero. split.
    + intros [_ Hl] id i Hi. apply Hl, elem_of_btree_values. eauto.
    + intros Hl. split; [done|]. intros i (id & Hi)%elem_of_btree_values. by eapply Hl.
Qed.

End properties.

(** ** Witnesses *)

#[local] Instance ex_snapshot_postcard : Postcard InstanceSnapshot :=
  constant_postcard (to_snapshot (Instance_new 1 InstanceConfig_default)).
#[local] Instance ex_body_postcard : Postcard WalRecordBody := countable_postcard.
#[local] Instance ex_blake3 : Blake3 := tail_blake3.
#[local] Instance ex_sigs : SigSchemes := toy_sigs false.

(** A fresh kernel whose one action type sends a signal to instance 1 on
    route 7 and spawns an entity. *)
Definition ex_ops : list Op := [SendSignal 1 7 []; SpawnEntity 4 System].
Definition ex_kernel : Kernel :=
  mkKernel _ ∅ (script_registry ex_ops) ObserverRegistry_new 0 zero32 (Some (WalWriter_new zero32 zero32))
    StepStage_default.
Definition ex_session : list KernelCall :=
  [CallCreate (mkConfig 15 0 0 3 0 None Reject);
   CallObserve (λ _ _, true) EM_ALL;
   CallSubmit 1 System None 15 0 1 [];
   CallSubmit 1 System None 15 0 9 [];
   CallStep 5 15; CallStep 5 15; CallStep 5 15].

Lemma ex_kernel_inv strict : kernel_inv strict ex_kernel.
Proof. split; [apply map_Forall_empty|apply script_registry_total]. Qed.

Lemma kernel_sessions_safe_witness :
  kernel_inv false ex_kernel ∧
  ∃ k', run_calls ex_kernel (ex_session ++ [CallForceUnload 7 15]) = Done k' ∧ kernel_inv false k'.
Proof.
  split; [exact (ex_kernel_inv false)|].
  exact (kernel_sessions_safe ex_kernel (ex_session ++ [CallForceUnload 7 15]) (ex_kernel_inv false)).
Defined.

Lemma signal_conservation_witness :
  ∃ k' i, run_calls ex_kernel ex_session = Done k' ∧ instances k' !! 1%positive = Some i ∧
    inbox_len i 7 = 1 ∧ inflight_refs_for i 7 = N.min (inbox_len i 7) U32_MAX.
Proof.
  destruct (run_calls ex_kernel ex_session) as [k'|] eqn:Hr; [|vm_compute in Hr; discriminate Hr].
  destruct (instances k' !! 1%positive) as [i|] eqn:Hi;
    [|vm_compute in Hr; injection Hr as <-; vm_compute in Hi; discriminate Hi].
  exists k', i. split; [reflexivity|]. split; [exact Hi|]. split.
  - vm_compute in Hr. injection Hr as <-. vm_compute in Hi. injection Hi as <-. reflexivity.
  - refine (proj1 (signal_conservation ex_kernel ex_session k' 1 i 7 (ex_kernel_inv false) Hr Hi) _ _).
    + intros j x Hj. vm_compute in Hj. discriminate Hj.
    + repeat constructor.
Defined.

Lemma observer_noninterference_witness :
  ∃ k' k'', run_calls ex_kernel ex_session = Done k' ∧
    run_calls ex_kernel (without_observers ex_session) = Done k'' ∧ wal k'' = wal k'.
Proof.
  destruct (run_calls ex_kernel ex_session) as [k'|] eqn:Hr; [|vm_compute in Hr; discriminate Hr].
  destruct (observer_noninterference ex_kernel ex_session k' Hr) as (k'' & H1 & _ & _ & _ & H2).
  exists k', k''. split; [reflexivity|]. split; [exact H1|exact H2].
Defined.

(** Two instances with one due entry each. *)
Definition ex_ready : Kernel :=
  match run_calls ex_kernel
          [CallCreate InstanceConfig_default; CallCreate InstanceConfig_default;
           CallSubmit 2 System None 15 0 1 []; CallSubmit 1 System None 15 3 1 []] with
  | Done k => k
  | Panicked _ => ex_kernel
  end.

Lemma ex_ready_inv : kernel_inv false ex_ready.
Proof.
  unfold ex_ready. destruct (run_calls ex_kernel _) as [k|] eqn:Hr; [|apply ex_kernel_inv].
  match type of Hr with run_calls _ ?cs = _ => destruct (run_calls_inv false ex_kernel cs) as (k' & Hk' & Hi & _) end;
    [apply ex_kernel_inv|done|]. rewrite Hr in Hk'. by injection Hk' as <-.
Qed.

Lemma step_round_witness :
  ∃ w rep k' reqs, wal ex_ready = Some w ∧ step ex_ready 5 15 = Done (rep, k') ∧
    (λ r, (req_instance r, req_id r)) <$> reqs = [(1, 1); (2, 1)]%positive.
Proof.
  destruct (wal ex_ready) as [w|] eqn:Hw; [|vm_compute in Hw; discriminate Hw].
  destruct (step_round ex_ready 5 15 w ex_ready_inv Hw) as (rep & k' & reqs & H1 & _ & H2 & _).
  exists w, rep, k', reqs. split; [reflexivity|]. split; [exact H1|].
  etransitivity; [exact H2|]. vm_compute. reflexivity.
Defined.
