(* ===== verification/Widths.v ===== *)
(** * Machine widths

    The integers of the development are unbounded [N]s with the code's
    saturating operations written out. This file gives every integer field of
    the state its Rust width ([u32], [u64], [u128], [NonZeroU64]) as a type
    predicate, and proves that the kernel preserves it: no operation leaves
    the range of its type, so the unbounded model never shows a value the
    program could not hold. *)
From S2P Require Import Prelude Abi Quota Extern Authz Ledger Scheduler Instance Event.
From S2P Require Import Observer Stage Dispatch Apply Signature Wal Registry Step Kernel.

Local Open Scope N_scope.

(** ** The type predicates *)

Definition is_u32 (n : N) : Prop := n ≤ U32_MAX.
Definition is_u64 (n : N) : Prop := n ≤ U64_MAX.
Definition is_u128 (n : N) : Prop := n ≤ U128_MAX.

(** The values of a model type that the Rust type has. *)
Class Typed (A : Type) := typed : A → Prop.
#[global] Hint Mode Typed ! : typeclass_instances.

(** [NonZeroU64]: identifiers. *)
#[global] Instance nonzero_typed : Typed positive := λ p, is_u64 (Npos p).
#[global] Instance option_typed `{Typed A} : Typed (option A) :=
  λ o, match o with Some a => typed a | None => True end.
#[global] Instance list_typed `{Typed A} : Typed (list A) := Forall typed.
#[global] Instance pos_set_typed : Typed (gset positive) := λ s, ∀ x, x ∈ s → typed x.

(** A map, by the predicates of its keys and values. *)
Definition typed_map `{Countable K} {A} (key : K → Prop) (val : A → Prop) (m : gmap K A) : Prop :=
  map_Forall (λ k a, key k ∧ val a) m.

(** [ExternalId] is a [u64]. *)
#[global] Instance Principal_typed : Typed Principal :=
  λ p, match p with External e => is_u64 e | _ => True end.

#[global] Instance Op_typed : Typed Op := λ op,
  match op with
  | SpawnEntity id owner => typed id ∧ typed owner
  | DespawnEntity id => typed id
  | SetComponent e tc _ size | RemoveComponent e tc size => typed e ∧ is_u32 tc ∧ is_u64 size
  | EmitEvent actor tc _ => typed actor ∧ is_u32 tc
  | ScheduleAction at_ actor tc _ => is_u64 at_ ∧ typed actor ∧ is_u32 tc
  | SendSignal target route _ => typed target ∧ is_u32 route
  end.

#[global] Instance ScheduledEntry_typed : Typed ScheduledEntry := λ e,
  typed (se_id e) ∧ is_u64 (se_at e) ∧ typed (se_actor e) ∧ typed (se_principal e) ∧
  is_u32 (se_type_code e) ∧ is_u64 (se_caps_ceiling e).

#[global] Instance SchedKey_typed : Typed SchedKey := λ k,
  is_u64 (key_at k) ∧ is_u64 (key_seq k) ∧ typed (key_id k).

Record Scheduler_widths (s : Scheduler) : Prop := {
  tw_ready : typed_map typed typed (ready s);
  tw_by_id : typed_map typed typed (by_id s);
  tw_by_actor : typed_map typed typed (by_actor s);
  tw_next_seq : is_u64 (next_seq s);
  tw_next_id : is_u64 (next_id s)
}.
#[global] Instance Scheduler_typed : Typed Scheduler := Scheduler_widths.

#[global] Instance EntityMeta_typed : Typed EntityMeta := λ m, typed (owner m) ∧ is_u64 (created m).
#[global] Instance InboundSignal_typed : Typed InboundSignal := λ s,
  typed (sig_from s) ∧ typed (sig_principal s) ∧ is_u64 (sig_seq s).
#[global] Instance IdCounters_typed : Typed IdCounters := λ c,
  is_u64 (next_entity c) ∧ is_u64 (next_scheduled c) ∧ is_u64 (next_source_seq c).
#[global] Instance InstanceConfig_typed : Typed InstanceConfig := λ c,
  is_u64 (default_caps c) ∧ is_u32 (max_entities c) ∧ is_u32 (max_scheduled c) ∧
  is_u32 (max_inbox_per_route c) ∧ is_u64 (memory_budget_bytes c) ∧ typed (parent c).

(** The key of a component row. *)
Definition row_key_typed (k : EntityId * TypeCode) : Prop := typed k.1 ∧ is_u32 k.2.

Record Ledger_widths (l : ResourceLedger) : Prop := {
  tw_led_entities : typed (led_entities l);
  tw_sizes : typed_map row_key_typed is_u64 (component_sizes l);
  tw_total : is_u64 (total_bytes l)
}.
#[global] Instance Ledger_typed : Typed ResourceLedger := Ledger_widths.

Record Instance_widths (i : Instance_) : Prop := {
  tw_id : typed (inst_id i);
  tw_config : typed (config i);
  tw_entities : typed_map typed typed (entities i);
  tw_components : typed_map row_key_typed (λ _, True) (components i);
  tw_scheduler : typed (scheduler i);
  tw_counters : typed (id_counters i);
  tw_ledger : typed (ledger i);
  tw_refs : typed_map is_u32 is_u32 (inflight_refs i);
  tw_inbox : typed_map is_u32 typed (signal_inbox i);
  tw_inbox_seq : is_u64 (inbox_seq i);
  tw_wall : is_u128 (wall_remainder i);
  tw_tick : is_u64 (local_tick i)
}.
#[global] Instance Instance_typed : Typed Instance_ := Instance_widths.

#[global] Instance KernelEvent_typed : Typed KernelEvent := λ ev,
  match ev with
  | ActionExecuted i tc t => typed i ∧ is_u32 tc ∧ is_u64 t
  | ActionFailed i tc _ => typed i ∧ is_u32 tc
  | EffectFailed i _ => typed i
  | ObserverPanic n => n ≤ 65535
  | ObserverEvicted n s c => n ≤ 65535 ∧ is_u64 s ∧ is_u32 c
  | SignalDropped i r _ => typed i ∧ is_u32 r
  | ModuleForceUnloaded r n => is_u32 r ∧ is_u32 n
  | ActionDeferredToNextTick id _ => typed id
  | ObserversFlushed t n => is_u64 t ∧ is_u32 n
  | DomainEventEmitted i a tc _ => typed i ∧ typed a ∧ is_u32 tc
  | SignalDelivered f t r => typed f ∧ typed t ∧ is_u32 r
  end.

#[global] Instance PendingSignal_typed : Typed PendingSignal := λ s,
  typed (ps_target s) ∧ is_u32 (ps_route s) ∧ typed (ps_principal s).
#[global] Instance StagedStateDelta_typed : Typed StagedStateDelta := λ d,
  match d with
  | SD_SpawnEntity id meta => typed id ∧ typed meta
  | SD_DespawnEntity id => typed id
  | SD_SetComponent e tc _ size | SD_RemoveComponent e tc size => typed e ∧ is_u32 tc ∧ is_u64 size
  end.
#[global] Instance ScheduledEntryDelta_typed : Typed ScheduledEntryDelta := λ d,
  match d with SchedAdd e => typed e | SchedRemove id => typed id end.
#[global] Instance LedgerOp_typed : Typed LedgerOp := λ o,
  match o with
  | LO_AddEntity id | LO_RemoveEntity id => typed id
  | LO_AddComponent e tc size | LO_RemoveComponent e tc size => typed e ∧ is_u32 tc ∧ is_u64 size
  end.
#[global] Instance IdCountersDelta_typed : Typed IdCountersDelta := λ d,
  is_u64 (next_entity_advance d) ∧ is_u64 (next_scheduled_advance d) ∧ is_u64 (next_source_seq_advance d).

Record Stage_widths (s : StepStage) : Prop := {
  tw_state_ops : typed (state_ops s);
  tw_events : typed (events s);
  tw_schedule_deltas : typed (schedule_deltas s);
  tw_pending : typed (pending_signals s);
  tw_stage_counters : typed (stage_id_counters s);
  tw_ledger_ops : typed (ledger_ops (ledger_delta s));
  tw_wall_delta : is_u128 (wall_remainder_delta s);
  tw_tick_delta : is_u64 (local_tick_delta s);
  tw_evictions : Forall is_u64 (observer_eviction_pending s)
}.
#[global] Instance StepStage_typed : Typed StepStage := Stage_widths.

#[global] Instance StepVerdict_typed : Typed StepVerdict := λ v,
  match v with BudgetPartial n => is_u32 n | _ => True end.

#[global] Instance WalRecordContent_typed : Typed WalRecordContent := λ c,
  match c with
  | CSubmit seq i p a caps t tc _ id =>
      is_u64 seq ∧ typed i ∧ typed p ∧ typed a ∧ is_u64 caps ∧ is_u64 t ∧ is_u32 tc ∧ typed id
  | CStep seq i id now caps v _ =>
      is_u64 seq ∧ typed i ∧ typed id ∧ is_u64 now ∧ is_u64 caps ∧ typed v
  end.

Record Observers_widths (r : ObserverRegistry) : Prop := {
  tw_handle : is_u64 (next_handle r);
  tw_slots : typed_map is_u64 (λ sl, is_u32 (slot_mask sl)) (slots r);
  tw_evicted : ∀ h, h ∈ evicted r → is_u64 h;
  tw_deliveries : Forall (λ d, is_u64 d.1 ∧ typed d.2) (deliveries r)
}.
#[global] Instance ObserverRegistry_typed : Typed ObserverRegistry := Observers_widths.

#[global] Instance StepCore_typed : Typed StepCore := λ c,
  typed (core_popped_id c) ∧ is_u32 (core_action_type c) ∧ typed (core_verdict c) ∧
  typed (core_pending_signals c) ∧ typed (core_events c) ∧ is_u32 (core_effects_applied c) ∧
  is_u32 (core_effects_denied c) ∧ is_u32 (core_domain_events_emitted c).

#[global] Instance InstanceStepResult_typed : Typed InstanceStepResult := λ x,
  typed (res_popped_id x) ∧ typed (res_verdict x) ∧ is_u32 (res_effects_applied x) ∧
  is_u32 (res_effects_denied x) ∧ is_u32 (res_domain_events_emitted x) ∧ is_u32 (res_observers_evicted x).

#[global] Instance StepReport_typed : Typed StepReport := λ r,
  is_u32 (actions_executed r) ∧ is_u32 (effects_applied r) ∧ is_u32 (effects_denied r) ∧
  is_u32 (observers_evicted r) ∧ is_u32 (domain_events_emitted r).

(** ** Arithmetic *)

Lemma is_u32_sat a b : is_u32 (sat_add32 a b).
Proof. unfold is_u32, sat_add32. lia. Qed.
Lemma is_u64_sat a b : is_u64 (sat_add64 a b).
Proof. unfold is_u64, sat_add64. lia. Qed.
Lemma is_u128_sat a b : is_u128 (sat_add128 a b).
Proof. unfold is_u128, sat_add128. lia. Qed.
Lemma is_u64_sub a b : is_u64 a → is_u64 (sat_sub a b).
Proof. unfold is_u64, sat_sub. lia. Qed.
Lemma is_u64_zero : is_u64 0.
Proof. unfold is_u64. lia. Qed.
Lemma is_u32_zero : is_u32 0.
Proof. unfold is_u32. lia. Qed.
Lemma is_u32_cast a : is_u32 (as_u32 a).
Proof.
  unfold is_u32, as_u32, U32_MAX. pose proof (N.mod_upper_bound a 4294967296 ltac:(lia)). lia.
Qed.
Lemma is_u64_caps_and a b : is_u64 a → is_u64 (caps_and a b).
Proof. unfold is_u64, caps_and. pose proof (N.land_le_l a b). lia. Qed.

Create HintDb widths discriminated.
#[export] Hint Resolve is_u32_sat is_u64_sat is_u128_sat is_u64_sub is_u64_zero is_u32_zero is_u32_cast
  is_u64_caps_and : widths.

(** A minted identifier fits. *)
Lemma NonZero_new_typed v id : NonZero_new v = Some id → is_u64 v → typed id.
Proof. destruct v; [done|]. by intros [= <-]. Qed.

(** ** Collections *)

Section maps.
Context `{Countable K} {A : Type} (key : K → Prop) (val : A → Prop).

Lemma typed_map_empty : typed_map key val (∅ : gmap K A).
Proof. apply map_Forall_empty. Qed.
Lemma typed_map_insert m k a : key k → val a → typed_map key val m → typed_map key val (<[k := a]> m).
Proof. intros. by apply map_Forall_insert_2. Qed.
Lemma typed_map_delete m k : typed_map key val m → typed_map key val (delete k m).
Proof. intros Hm. by apply map_Forall_delete. Qed.
Lemma typed_map_lookup m k a : typed_map key val m → m !! k = Some a → key k ∧ val a.
Proof. intros Hm. apply Hm. Qed.
End maps.

#[export] Hint Resolve typed_map_empty typed_map_insert typed_map_delete : widths.

Lemma typed_list_app `{Typed A} (l1 l2 : list A) : typed l1 → typed l2 → typed (l1 ++ l2).
Proof. intros. by apply Forall_app. Qed.
Lemma typed_list_snoc `{Typed A} (l : list A) x : typed l → typed x → typed (l ++ [x]).
Proof. intros. apply typed_list_app; [done|]. by repeat constructor. Qed.
Lemma typed_list_nil `{Typed A} : typed (@nil A).
Proof. constructor. Qed.

#[export] Hint Resolve typed_list_app typed_list_snoc typed_list_nil : widths.

(** ** Scheduler and ledger *)

Lemma Scheduler_new_typed : typed Scheduler_new.
Proof. split; cbn; auto with widths. Qed.

Lemma by_actor_insert_typed actor id m :
  typed actor → typed id → typed_map typed typed m → typed_map typed typed (by_actor_insert actor id m).
Proof.
  intros Ha Hid Hm. destruct actor as [a|]; cbn; [|done]. apply typed_map_insert; [done| |done].
  intros x [->%elem_of_singleton|Hx]%elem_of_union; [done|].
  destruct (m !! a) as [ids|] eqn:E; [|by apply elem_of_empty in Hx]. by apply (typed_map_lookup _ _ _ _ _ Hm E).
Qed.

Lemma by_actor_remove_typed actor id m :
  typed_map typed typed m → typed_map typed typed (by_actor_remove actor id m).
Proof.
  intros Hm. destruct actor as [a|]; cbn; [|done]. destruct (m !! a) as [ids|] eqn:E; [|done].
  destruct (typed_map_lookup _ _ _ _ _ Hm E) as [Ha Hids].
  destruct (decide _); [by apply typed_map_delete|]. apply typed_map_insert; [done| |done].
  intros x [Hx _]%elem_of_difference. by apply Hids.
Qed.

#[export] Hint Resolve by_actor_insert_typed by_actor_remove_typed : widths.

Lemma schedule_with_id_typed s id at_ actor p c tc bs :
  typed s → typed (mkEntry id at_ actor p tc bs c) → typed (schedule_with_id s id at_ actor p c tc bs).
Proof.
  intros [H1 H2 H3 H4 H5] He. pose proof He as (E1 & E2 & E3 & _). cbn in E1, E2, E3.
  split; cbn [schedule_with_id ready by_id by_actor next_seq next_id].
  - apply typed_map_insert; [by unfold typed, SchedKey_typed|done|done].
  - apply typed_map_insert; [done|by unfold typed, SchedKey_typed|done].
  - by apply by_actor_insert_typed.
  - auto with widths.
  - by destruct (decide _).
Qed.

Lemma sched_remove_typed s key e : typed s → typed (sched_remove s key e).
Proof.
  intros [H1 H2 H3 H4 H5]. split; cbn; auto with widths.
Qed.

Lemma pop_due_typed s now r s' : typed s → pop_due s now = Done (r, s') → typed s' ∧ typed r.
Proof.
  intros Hs Hp. destruct (pop_due_cases s now) as [[Heq _]|(key & e & Heq & _ & Hk & _)]; rewrite Heq in Hp;
    injection Hp as <- <-; [done|]. split; [by apply sched_remove_typed|].
  by apply (typed_map_lookup _ _ _ _ _ (tw_ready s Hs) Hk).
Qed.

Lemma cancel_typed s id r s' : typed s → cancel s id = Done (r, s') → typed s'.
Proof.
  intros Hs. unfold cancel. destruct (by_id s !! id) as [key|]; [|by intros [= <- <-]].
  intros Hc. apply bind_Done in Hc as (e & _ & [= <- <-]). destruct Hs as [H1 H2 H3 H4 H5].
  split; cbn; auto with widths.
Qed.

Lemma ledger_drop_rows_typed keys st : typed st.2 → typed (fold_left ledger_drop_row keys st).2.
Proof.
  revert st. induction keys as [|k keys IH]; intros [freed l] Hl; cbn [fold_left]; [done|]. apply IH.
  cbn [ledger_drop_row]. destruct (component_sizes l !! k); [|done]. destruct Hl as [L1 L2 L3].
  split; cbn; auto with widths.
Qed.

Lemma apply_ledger_op_typed l op : typed l → typed op → typed (apply_ledger_op l op).
Proof.
  intros Hl Ho. pose proof Hl as [L1 L2 L3]. destruct op as [id|id|e tc size|e tc size]; cbn [apply_ledger_op].
  - split; cbn; try done. intros x [->%elem_of_singleton|Hx]%elem_of_union; [done|by apply L1].
  - unfold ledger_remove_entity. destruct (decide _); [|done]. apply ledger_drop_rows_typed.
    split; cbn; try done. intros x [Hx _]%elem_of_difference. by apply L1.
  - destruct Ho as (O1 & O2 & O3). unfold ledger_add_component. destruct (decide _); [|done]. cbn [snd].
    split; cbn; try done; [by apply typed_map_insert|].
    destruct (component_sizes l !! (e, tc)); [destruct (decide _)|]; auto with widths.
  - unfold ledger_remove_component. destruct (decide _); [|done].
    destruct (component_sizes l !! (e, tc)); [|done]. cbn [snd]. split; cbn; auto with widths.
Qed.

(** ** Instances *)

Lemma Instance_new_typed id cfg : typed id → typed cfg → typed (Instance_new id cfg).
Proof.
  intros Hid Hc. split; cbn; auto with widths; try (unfold is_u128; lia).
  - apply Scheduler_new_typed.
  - unfold typed, IdCounters_typed. split_and!; apply is_u64_zero.
  - split; cbn; auto with widths; intros x Hx; by apply elem_of_empty in Hx.
Qed.

Lemma with_entities_typed i x : typed i → typed_map typed typed x → typed (with_entities i x).
Proof. intros [] ?. by split. Qed.
Lemma with_components_typed i x : typed i → typed_map row_key_typed (λ _, True) x → typed (with_components i x).
Proof. intros [] ?. by split. Qed.
Lemma with_scheduler_typed i x : typed i → typed x → typed (with_scheduler i x).
Proof. intros [] ?. by split. Qed.
Lemma with_id_counters_typed i x : typed i → typed x → typed (with_id_counters i x).
Proof. intros [] ?. by split. Qed.
Lemma with_ledger_typed i x : typed i → typed x → typed (with_ledger i x).
Proof. intros [] ?. by split. Qed.
Lemma with_inflight_refs_typed i x : typed i → typed_map is_u32 is_u32 x → typed (with_inflight_refs i x).
Proof. intros [] ?. by split. Qed.
Lemma advance_wall_typed i d : typed i → typed (advance_wall_remainder i d).
Proof. intros []. split; cbn; auto with widths. Qed.
Lemma advance_tick_typed i d : typed i → typed (advance_local_tick i d).
Proof. intros []. split; cbn; auto with widths. Qed.

#[export] Hint Resolve with_scheduler_typed with_id_counters_typed with_ledger_typed advance_wall_typed
  advance_tick_typed apply_ledger_op_typed sched_remove_typed : widths.

Lemma apply_state_op_typed i d : typed i → typed d → typed (apply_state_op i d).
Proof.
  intros Hi Hd. destruct d as [id meta|id|e tc bs size|e tc size]; cbn [apply_state_op].
  - destruct Hd. apply with_entities_typed; [done|]. by apply typed_map_insert, Hi.
  - cbn. apply with_entities_typed; [apply with_components_typed; [done|]|].
    + assert (∀ ks m, typed_map row_key_typed (λ _, True) m →
        typed_map row_key_typed (λ _, True) (fold_left (λ (m : gmap _ bytes) k, delete k m) ks m)) as Hf.
      { induction ks as [|k ks IH]; intros m Hm; cbn [fold_left]; [done|]. by apply IH, typed_map_delete. }
      apply Hf, Hi.
    + cbn. apply typed_map_delete, Hi.
  - destruct Hd as (D1 & D2 & _). destruct (entity_meta i e); [|done].
    apply with_components_typed; [done|]. apply typed_map_insert; [done|done|apply Hi].
  - cbn. apply with_components_typed; [done|]. apply typed_map_delete, Hi.
Qed.

Lemma fold_left_typed {S A} `{Typed S, Typed A} (f : S → A → S) l s :
  (∀ s x, typed s → typed x → typed (f s x)) → typed s → typed l → typed (fold_left f l s).
Proof.
  intros Hf. revert s. induction l as [|x l IH]; intros s Hs Hl; cbn [fold_left]; [done|].
  apply Forall_cons in Hl as [Hx Hl]. apply IH; [by apply Hf|done].
Qed.

Lemma apply_schedule_delta_typed s d s' :
  typed s → typed d → apply_schedule_delta s d = Done s' → typed s'.
Proof.
  intros Hs Hd Ha. destruct d as [e|id]; cbn [apply_schedule_delta] in Ha.
  - injection Ha as <-. apply schedule_with_id_typed; [done|]. by destruct e.
  - apply bind_Done in Ha as ([r s1] & Hc & [= <-]). by eapply cancel_typed.
Qed.

Lemma apply_stage_typed i st sigs i' st' :
  typed i → typed st → apply_stage i st = Done (sigs, i', st') → typed sigs ∧ typed i' ∧ typed st'.
Proof.
  intros Hi Hst Ha. destruct Hst as [S1 S2 S3 S4 S5 S6 S7 S8 S9]. unfold apply_stage in Ha.
  apply bind_Done in Ha as (s & Hs & [= <- <- <-]). split; [done|]. split; [|split; cbn; auto with widths].
  set (i1 := apply_counters i _) in *. assert (typed i1) as H1.
  { apply with_id_counters_typed; [done|]. unfold typed, IdCounters_typed. cbn. auto with widths. }
  assert (typed (fold_left apply_state_op (state_ops st) i1)) as H2
    by (apply fold_left_typed; [apply apply_state_op_typed|done|done]).
  set (i2 := fold_left apply_state_op _ i1) in *.
  apply advance_tick_typed, advance_wall_typed, with_scheduler_typed.
  - apply with_ledger_typed; [done|]. apply fold_left_typed; [apply apply_ledger_op_typed|apply H2|done].
  - refine (fold_outcome_inv (λ s : Scheduler, typed s) _ _ _ _ _ _ Hs); [apply H2|].
    intros s1 d s2 Hin Hs1. apply apply_schedule_delta_typed; [done|]. unfold typed, list_typed in S3.
    rewrite Forall_forall in S3. by apply S3.
Qed.

(** ** Dispatch and the step *)

Lemma push_state_typed s d l : typed s → typed d → typed l → typed (push_state s d l).
Proof. intros [] ? ?. split; cbn; auto with widths. Qed.
Lemma push_event_typed s e : typed s → typed e → typed (push_event s e).
Proof. intros [] ?. split; cbn; auto with widths. Qed.
Lemma push_schedule_typed s d : typed s → typed d → typed (push_schedule s d).
Proof. intros [] ?. split; cbn; auto with widths. Qed.
Lemma push_signal_typed s p : typed s → typed p → typed (push_signal s p).
Proof. intros [] ?. split; cbn; auto with widths. Qed.
Lemma set_stage_counters_typed s c : typed s → typed c → typed (set_stage_counters s c).
Proof. intros [] ?. by split. Qed.

Lemma dispatch_typed eff s now n c s' n' :
  typed (eff_instance_id eff) → typed (eff_principal eff) → typed (eff_op eff) → is_u64 now → is_u64 c →
  typed s → is_u64 n → dispatch eff s now n c = Done (s', n') → typed s' ∧ is_u64 n'.
Proof.
  intros Hi Hp Ho Hnow Hc Hs Hn Hd. unfold dispatch in Hd. pose proof (tw_stage_counters s Hs) as (C1 & C2 & C3).
  destruct (eff_op eff) as [id own|id|e tc bs size|e tc size|a tc bs|t a tc bs|tg r pl].
  - injection Hd as <- <-. split; [|done]. destruct Ho. apply set_stage_counters_typed.
    + by apply push_state_typed.
    + unfold typed, IdCountersDelta_typed. cbn. auto with widths.
  - injection Hd as <- <-. split; [|done]. by apply push_state_typed.
  - injection Hd as <- <-. split; [|done]. by apply push_state_typed.
  - injection Hd as <- <-. split; [|done]. by apply push_state_typed.
  - injection Hd as <- <-. split; [|done]. destruct Ho. by apply push_event_typed.
  - apply bind_Done in Hd as (id & Hid & [= <- <-]). split; [|auto with widths]. destruct Ho as (O1 & O2 & O3).
    apply expect_Done, NonZero_new_typed in Hid; [|auto with widths]. apply set_stage_counters_typed.
    + apply push_schedule_typed; [done|]. unfold typed, ScheduledEntryDelta_typed, typed, ScheduledEntry_typed. done.
    + unfold typed, IdCountersDelta_typed. cbn. auto with widths.
  - injection Hd as <- <-. split; [|done]. destruct Ho. by apply push_signal_typed.
Qed.

Record Gate_widths (g : Gate) : Prop := {
  tw_g_stage : typed (g_stage g);
  tw_g_next : is_u64 (g_next_scheduled_id g);
  tw_g_applied : is_u32 (g_applied g);
  tw_g_denied : is_u32 (g_denied g)
}.
#[global] Instance Gate_typed : Typed Gate := Gate_widths.

Lemma gate_skip_typed id reason g : typed id → typed g → typed (gate_skip id reason g).
Proof. intros Hid []. split; cbn; auto with widths. by apply push_event_typed. Qed.

Lemma gate_op_typed id i p eff now g op g' :
  typed id → typed p → is_u64 eff → is_u64 now → typed g → typed op →
  gate_op id i p eff now g op = Done g' → typed g'.
Proof.
  intros Hid Hp Heff Hnow Hg Ho Hgo. unfold gate_op in Hgo.
  destruct (authorize_cases id p eff op) as [[_ E]|[_ [r E]]]; rewrite E in Hgo.
  2:{ injection Hgo as <-. destruct Hg. split; cbn; auto with widths. }
  destruct (budget_exceeded _ _ _); [injection Hgo as <-; by apply gate_skip_typed|].
  destruct (entity_quota_exceeded _ _ _); [injection Hgo as <-; by apply gate_skip_typed|].
  destruct (scheduled_quota_exceeded _ _ _); [injection Hgo as <-; by apply gate_skip_typed|].
  apply bind_Done in Hgo as ([s n] & Hd & [= <-]). destruct Hg as [G1 G2 G3 G4].
  apply dispatch_typed in Hd as [D1 D2]; [|done..]. split; cbn; auto with widths.
Qed.

Lemma clear_typed s : typed (clear s).
Proof.
  rewrite clear_default. split; cbn; auto with widths; [|unfold is_u128; lia].
  unfold typed, IdCountersDelta_typed. cbn. auto with widths.
Qed.

(** What is asked of the registered actions: operations within the widths of
    [Op]'s fields (a Rust value of type [Op] cannot be otherwise). *)
Definition computes_typed (r : ActionRegistry) : Prop :=
  ∀ tc bs a ctx ops, resolve r tc bs = Some (Ok a) → compute_dyn a ctx = Done ops → typed ops.

Section steps.
Context `{Postcard InstanceSnapshot} {B3 : Blake3}.

Lemma resolved_caps_typed i e session : is_u64 session → is_u64 (default_caps (config i)) → is_u64 (resolved_caps i e session).
Proof.
  intros Hs Hd. unfold resolved_caps, effective_caps. destruct (se_principal e); auto with widths.
Qed.

Lemma run_gates_typed id i e eff sc now ops g :
  typed id → typed i → typed (se_principal e) → is_u64 eff → is_u64 now → typed ops →
  run_gates id i e eff sc now ops = Done g → typed g.
Proof.
  intros Hid Hi Hp He Hnow Hops Hg.
  refine (fold_outcome_inv (λ g : Gate, typed g) _ _ _ _ _ _ Hg).
  - split; cbn; auto with widths; [apply clear_typed|apply (tw_counters i Hi)].
  - intros g1 op g2 Hin Hg1. apply gate_op_typed; try done. unfold typed, list_typed in Hops.
    rewrite Forall_forall in Hops. by apply Hops.
Qed.

Lemma finish_step_typed i e m g core i' sc :
  typed i → typed e → typed g → finish_step i e m g = Done (core, i', sc) → typed core ∧ typed i' ∧ typed sc.
Proof.
  intros Hi He [G1 G2 G3 G4] Hf. pose proof He as (E1 & _ & _ & _ & E5 & _). unfold finish_step in Hf.
  destruct (g_any_denied g).
  { injection Hf as <- <- <-. split; [|done]. unfold typed, StepCore_typed. cbn. split_and!; auto with widths; done. }
  apply bind_Done in Hf as ([[sigs i1] st1] & Ha & [= <- <- <-]).
  apply apply_stage_typed in Ha as (A1 & A2 & A3); [|done|done]. split; [|done].
  unfold typed, StepCore_typed. cbn. split_and!; auto with widths; [by destruct (decide _)|apply G1].
Qed.

Lemma step_one_core_typed id i r sc now session m oc i' sc' :
  computes_typed r → typed id → typed i → typed sc → is_u64 now → is_u64 session →
  step_one_core id i r sc now session m = Done (oc, i', sc') → typed oc ∧ typed i' ∧ typed sc'.
Proof.
  intros Hr Hid Hi Hsc Hnow Hse Hs. unfold step_one_core in Hs.
  apply bind_Done in Hs as ([oe s] & Hp & Hs). destruct (pop_due_typed _ _ _ _ (tw_scheduler i Hi) Hp) as [P1 P2].
  assert (typed (with_scheduler i s)) as Hi1 by auto with widths.
  destruct oe as [e|]; [|injection Hs as <- <- <-; done].
  cbn in P2. pose proof P2 as (E1 & _ & _ & E4 & E5 & _).
  assert (∀ reason d, typed (skipped_core e reason d)) as Hskip.
  { intros reason d. unfold typed, StepCore_typed. cbn. split_and!; auto with widths; done. }
  destruct (registry_get r (se_type_code e)) as [reg|] eqn:Er; [|injection Hs as <- <- <-; split; [apply Hskip|done]].
  destruct (deserializer reg (schema_version reg) (se_bytes e)) as [a|err] eqn:Ed;
    [|injection Hs as <- <- <-; split; [apply Hskip|done]].
  apply bind_Done in Hs as (ops & Hops & Hs). apply bind_Done in Hs as (g & Hg & Hs).
  apply bind_Done in Hs as ([[core i2] sc2] & Hf & [= <- <- <-]).
  apply run_gates_typed in Hg; try done.
  - by apply finish_step_typed in Hf.
  - apply resolved_caps_typed; [done|apply Hi].
  - eapply (Hr (se_type_code e) (se_bytes e)); [|exact Hops]. unfold resolve. rewrite Er. cbn. by rewrite Ed.
Qed.

End steps.

(** ** The kernel *)

Lemma deliver_typed r ev : typed r → typed ev → typed (deliver r ev).2.
Proof.
  intros Hr Hev. unfold deliver.
  assert (∀ hs st, typed st.2 → typed (fold_left (deliver_one ev) hs st).2) as Hf; [|by apply Hf].
  induction hs as [|h hs IH]; intros [new q] Hq; cbn [fold_left]; [done|]. apply IH. cbn [deliver_one].
  destruct (decide _); [done|]. destruct (slots q !! h) as [sl|] eqn:E; [|done].
  destruct (negb _); [done|]. destruct Hq as [Q1 Q2 Q3 Q4].
  destruct (typed_map_lookup _ _ _ _ _ Q2 E) as [K _].
  assert (Forall (λ d, is_u64 d.1 ∧ typed d.2) (deliveries q ++ [(h, ev)])) as Hlog
    by (apply Forall_app; split; [done|by repeat constructor]).
  destruct (slot_observer sl (deliveries q) ev); split; cbn; auto with widths.
  intros x [->%elem_of_singleton|Hx]%elem_of_union; [done|by apply Q3].
Qed.

Section kernel.
Context `{Postcard InstanceSnapshot, Postcard WalRecordBody} {B3 : Blake3} {SS : SigSchemes}.

Record Wal_widths (w : WalWriter) : Prop := {
  tw_w_next : is_u64 (w_next_seq w);
  tw_w_records : Forall (λ r, typed (content r)) (w_records w)
}.
#[global] Instance WalWriter_typed : Typed WalWriter := Wal_widths.

Record Kernel_widths (k : Kernel) : Prop := {
  tw_instances : typed_map typed typed (instances k);
  tw_observers : typed (observers k);
  tw_next_instance : is_u64 (next_instance_id k);
  tw_wal : typed (wal k);
  tw_scratch : typed (step_scratch k)
}.
#[global] Instance Kernel_typed : Typed Kernel := Kernel_widths.

#[global] Instance KernelCall_typed : Typed KernelCall := λ c,
  match c with
  | CallCreate cfg => typed cfg
  | CallObserve _ mask => is_u32 mask
  | CallSubmit i p a caps t tc _ => typed i ∧ typed p ∧ typed a ∧ is_u64 caps ∧ is_u64 t ∧ is_u32 tc
  | CallStep now caps => is_u64 now ∧ is_u64 caps
  | CallForceUnload route caps => is_u32 route ∧ is_u64 caps
  end.

Lemma append_typed w c : typed w → (∀ seq, is_u64 seq → typed (c seq)) → typed (append w c).2.
Proof.
  intros [W1 W2] Hc. destruct (append_cases w c) as [(m & _ & ->)|(b & sg & sp & _ & _ & ->)]; split; cbn; auto with widths.
  apply Forall_app. split; [done|]. repeat constructor. cbn. auto with widths.
Qed.

Lemma deliver_counted_typed st ev : is_u32 st.1 → typed st.2 → typed ev →
  is_u32 (deliver_counted st ev).1 ∧ typed (deliver_counted st ev).2.
Proof.
  intros H1 H2 H3. unfold deliver_counted. pose proof (deliver_typed st.2 ev H2 H3) as Hd.
  destruct (deliver st.2 ev) as [gone obs]. cbn. auto with widths.
Qed.

Lemma deliveries_typed evs st : is_u32 st.1 → typed st.2 → typed evs →
  is_u32 (fold_left deliver_counted evs st).1 ∧ typed (fold_left deliver_counted evs st).2.
Proof.
  revert st. induction evs as [|ev evs IH]; intros st H1 H2 H3; [done|]. cbn [fold_left].
  apply Forall_cons in H3 as [Hev Hevs]. destruct (deliver_counted_typed st ev H1 H2 Hev). by apply IH.
Qed.

Lemma route_signal_typed from insts sig :
  typed from → typed_map typed typed insts → typed sig →
  typed_map typed typed (route_signal from insts sig).1 ∧ typed (route_signal from insts sig).2.
Proof.
  intros Hf Hm (S1 & S2 & S3). unfold route_signal. destruct (insts !! ps_target sig) as [t|] eqn:E; [|done].
  destruct (decide _); [done|]. split; [|done]. destruct (typed_map_lookup _ _ _ _ _ Hm E) as [_ Ht].
  apply typed_map_insert; [done| |done]. apply with_inflight_refs_typed.
  - destruct Ht as [T1 T2 T3 T4 T5 T6 T7 T8 T9 T10 T11 T12]. split; cbn; auto with widths.
    apply typed_map_insert; [done| |done]. apply typed_list_snoc; [|done].
    destruct (signal_inbox t !! ps_route sig) as [l|] eqn:El; [|constructor].
    by apply (typed_map_lookup _ _ _ _ _ T9 El).
  - apply typed_map_insert; auto with widths. apply (tw_refs t Ht).
Qed.

Lemma route_loop_typed from sigs st :
  typed from → typed_map typed typed st.1 → is_u32 st.2.1 → typed st.2.2 → typed sigs →
  let st' := fold_left (route_one from) sigs st in
  typed_map typed typed st'.1 ∧ is_u32 st'.2.1 ∧ typed st'.2.2.
Proof.
  intros Hf. revert st. induction sigs as [|s sigs IH]; intros [insts st] H1 H2 H3 H4; [done|]. cbn [fold_left].
  apply Forall_cons in H4 as [Hs Hsigs]. cbn [fst snd] in *.
  destruct (route_signal_typed from insts s Hf H1 Hs) as [R1 R2].
  destruct (route_signal from insts s) as [insts' ev] eqn:E. cbn [fst snd] in *.
  assert (route_one from (insts, st) s = (insts', deliver_counted st ev)) as -> by (unfold route_one; cbn; by rewrite E).
  destruct (deliver_counted_typed st ev H2 H3 R2). by apply IH.
Qed.

Lemma process_typed k id now session m r k' :
  computes_typed (action_registry k) → typed k → typed id → is_u64 now → is_u64 session →
  process_instance_record k id now session m = Done (r, k') → typed r ∧ typed k'.
Proof.
  intros Hr Hk Hid Hnow Hse Hp. pose proof Hk as [K1 K2 K3 K4 K5]. unfold process_instance_record in Hp.
  destruct (instances k !! id) as [i|] eqn:Ei; [|by injection Hp as <- <-].
  destruct (typed_map_lookup _ _ _ _ _ K1 Ei) as [_ Hi].
  apply bind_Done in Hp as ([[oc i'] sc'] & Hs & Hp).
  apply step_one_core_typed in Hs as (S1 & S2 & S3); [|done..].
  assert (typed_map typed typed (<[id := i']> (instances k))) as Hm by by apply typed_map_insert.
  destruct oc as [core|]; [|injection Hp as <- <-; split; [done|by split]].
  destruct S1 as (C1 & C2 & C3 & C4 & C5 & C6 & C7 & C8).
  destruct (deliveries_typed (core_events core) (0, observers k) is_u32_zero K2 C5) as [D1 D2].
  set (st1 := fold_left deliver_counted _ _) in *.
  set (st2 := if executed_verdict (core_verdict core) then _ else st1) in *.
  assert (is_u32 st2.1 ∧ typed st2.2) as [E1 E2]
    by (subst st2; destruct (executed_verdict _); [by apply deliver_counted_typed|done]).
  pose proof (route_loop_typed id (core_pending_signals core) (<[id := i']> (instances k), st2) Hid Hm E1 E2 C4) as Hl.
  destruct (fold_left (route_one id) _ _) as [insts2 [n obs2]]. destruct Hl as (L1 & L2 & L3).
  injection Hp as <- <-. split; [|by split]. unfold typed, option_typed, typed, InstanceStepResult_typed. done.
Qed.

Lemma step_instance_typed now caps m st id st' :
  computes_typed (action_registry st.2) → typed st.2 → typed st.1 → typed id → is_u64 now → is_u64 caps →
  step_instance now caps m st id = Done st' →
  typed st'.2 ∧ typed st'.1 ∧ action_registry st'.2 = action_registry st.2.
Proof.
  intros Hr Hk Hrep Hid Hnow Hcaps Hs. unfold step_instance in Hs.
  apply bind_Done in Hs as ([r k'] & Hp & Hs).
  assert (action_registry k' = action_registry st.2) as Hreg.
  { unfold process_instance_record in Hp. destruct (instances st.2 !! id); [|by injection Hp as _ <-].
    apply bind_Done in Hp as ([[oc i'] sc'] & _ & Hp). destruct oc; [|by injection Hp as _ <-].
    destruct (fold_left (route_one id) _ _) as [insts2 [n obs2]]. by injection Hp as _ <-. }
  apply process_typed in Hp as [P1 P2]; [|done..]. destruct r as [x|]; injection Hs as <-; [|done].
  cbn [fst snd]. destruct P1 as (X1 & X2 & X3 & X4 & X5 & X6).
  assert (typed (report_add st.1 x)) as Hrep'.
  { unfold typed, StepReport_typed, report_add. cbn. auto with widths. }
  destruct (wal k') as [w|] eqn:Ew; [|done]. split_and!; [|done|done].
  destruct P2 as [K1 K2 K3 K4 K5]. split; cbn; try done. apply append_typed; [by rewrite Ew in K4|].
  intros seq Hseq. unfold typed, WalRecordContent_typed. done.
Qed.

Lemma step_typed k now caps rep k' :
  computes_typed (action_registry k) → typed k → is_u64 now → is_u64 caps →
  step k now caps = Done (rep, k') → typed rep ∧ typed k' ∧ action_registry k' = action_registry k.
Proof.
  intros Hr Hk Hnow Hcaps Hs. unfold step in Hs.
  refine (_ (fold_outcome_inv (λ st, typed st.2 ∧ typed st.1 ∧ action_registry st.2 = action_registry k)
    _ _ _ _ _ _ Hs)); [cbn; tauto|cbn|].
  - split_and!; [done| |done]. unfold typed, StepReport_typed. cbn. split_and!; apply is_u32_zero.
  - intros st id st' Hin (I1 & I2 & I3) Hst. apply step_instance_typed in Hst as (J1 & J2 & J3); try done.
    + split_and!; [done|done|congruence].
    + by rewrite I3.
    + apply elem_of_btree_keys in Hin as [i Hi].
      by destruct (typed_map_lookup _ _ _ _ _ (tw_instances k Hk) Hi).
Qed.

Lemma submit_typed k inst p a caps t tc bs r k' :
  typed k → typed inst → typed p → typed a → is_u64 caps → is_u64 t → is_u32 tc →
  submit k inst p a caps t tc bs = Done (r, k') →
  typed k' ∧ action_registry k' = action_registry k ∧ ∀ id, r = Ok id → typed id.
Proof.
  intros Hk Hi Hp Ha Hc Ht Htc Hs. pose proof Hk as [K1 K2 K3 K4 K5]. unfold submit in Hs.
  destruct (instances k !! inst) as [i|] eqn:Ei; [|by injection Hs as <- <-].
  destruct (decide _); [by injection Hs as <- <-|].
  destruct (typed_map_lookup _ _ _ _ _ K1 Ei) as [_ Hii].
  apply bind_Done in Hs as (id & Hid & Hs). apply expect_Done, NonZero_new_typed in Hid; [|auto with widths].
  set (k1 := set_instances k _) in Hs. assert (typed k1) as Hk1.
  { split; cbn; try done. apply typed_map_insert; [done| |done]. pose proof (tw_counters i Hii) as (C1 & C2 & C3).
    apply with_scheduler_typed; [apply with_id_counters_typed; [done|]|apply schedule_with_id_typed; [apply Hii|]].
    - unfold typed, IdCounters_typed. cbn. auto with widths.
    - unfold typed, ScheduledEntry_typed. done. }
  destruct (wal k1) as [w|] eqn:Ew; injection Hs as <- <-; (split_and!; [|done|by intros id' [= <-]]); [|done].
  pose proof (tw_wal _ Hk1) as Hw. rewrite Ew in Hw.
  destruct Hk1 as [L1 L2 L3 L4 L5]. split; try done. apply append_typed; [done|].
  intros seq Hseq. unfold typed, WalRecordContent_typed. done.
Qed.

Lemma force_unload_typed k route caps :
  typed k → is_u32 route →
  typed (force_unload k route caps).2 ∧ action_registry (force_unload k route caps).2 = action_registry k ∧
  ∀ n, (force_unload k route caps).1 = Ok n → is_u32 n.
Proof.
  intros [K1 K2 K3 K4 K5] Hr. unfold force_unload. destruct (negb _); [done|].
  assert (∀ l n, is_u32 n → is_u32 (fold_left (add_refs route) l n)) as Hsum.
  { induction l as [|i l IH]; intros n Hn; cbn [fold_left]; [done|]. apply IH. unfold add_refs.
    destruct (inflight_refs i !! route); auto with widths. }
  specialize (Hsum (btree_values (instances k)) 0 is_u32_zero).
  assert (typed (deliver (observers k)
    (ModuleForceUnloaded route (fold_left (add_refs route) (btree_values (instances k)) 0))).2) as Hd
    by by apply deliver_typed.
  cbn [set_instances observers]. destruct (deliver _ _) as [gone obs]. cbn [fst snd].
  split_and!; [|done|by intros n [= <-]]. split; cbn; try done.
  intros id i Hi. apply lookup_fmap_Some in Hi as (j & <- & Hj).
  destruct (typed_map_lookup _ _ _ _ _ K1 Hj) as [J1 J2]. split; [done|].
  apply with_inflight_refs_typed; [done|]. apply typed_map_delete, J2.
Qed.

Lemma run_call_typed k c k' :
  computes_typed (action_registry k) → typed k → typed c → run_call k c = Done k' →
  typed k' ∧ action_registry k' = action_registry k.
Proof.
  intros Hr Hk Hc Hrun. destruct c as [cfg|obs mask|inst p a cp t tc bs|now caps|route caps]; cbn [run_call] in Hrun.
  - apply bind_Done in Hrun as ([id q] & Hcr & [= <-]). unfold create_instance in Hcr.
    apply bind_Done in Hcr as (id' & Hid & [= <- <-]). apply expect_Done, NonZero_new_typed in Hid; [|auto with widths].
    split; [|done]. destruct Hk as [K1 K2 K3 K4 K5]. split; cbn; auto with widths.
    apply typed_map_insert; [done|by apply Instance_new_typed|done].
  - injection Hrun as <-. split; [|done]. destruct Hk as [K1 [O1 O2 O3 O4] K3 K4 K5].
    split; cbn; try done. split; cbn; auto with widths.
  - apply bind_Done in Hrun as ([r q] & Hs & [= <-]). destruct Hc as (C1 & C2 & C3 & C4 & C5 & C6).
    by apply submit_typed in Hs as (S1 & S2 & _).
  - apply bind_Done in Hrun as ([rep q] & Hs & [= <-]). destruct Hc as (C1 & C2).
    by apply step_typed in Hs as (_ & S1 & S2).
  - injection Hrun as <-. destruct Hc as (C1 & _). destruct (force_unload_typed k route caps Hk C1) as (F1 & F2 & _). done.
Qed.

End kernel.

(** ** Properties *)

Section properties.
Context `{Postcard InstanceSnapshot, Postcard WalRecordBody} {B3 : Blake3} {SS : SigSchemes}.

(** A fresh kernel is within the widths. *)
Lemma fresh_typed world manifest c :
  typed Kernel_new ∧ typed (new_with_wal world manifest) ∧ typed (new_with_wal_signed world manifest c).
Proof.
  assert (typed ObserverRegistry_new) as Ho.
  { split; cbn; auto with widths. intros h Hh. by apply elem_of_empty in Hh. }
  assert (typed StepStage_default) as Hs by apply (clear_typed StepStage_default).
  split_and!; (split; cbn; auto with widths); split; cbn; auto with widths.
Qed.

Lemma run_calls_typed k cs k' :
  computes_typed (action_registry k) → typed k → typed cs → run_calls k cs = Done k' →
  typed k' ∧ action_registry k' = action_registry k.
Proof.
  intros Hr Hk Hcs Hrun. unfold run_calls in Hrun.
  refine (fold_outcome_inv (λ q, typed q ∧ action_registry q = action_registry k) _ _ _ _ _ _ Hrun); [done|].
  intros q c q' Hin [Hq Hqr] Hc. unfold typed, list_typed in Hcs. rewrite Forall_forall in Hcs.
  apply run_call_typed in Hc as [Hq' Hr']; [split; [done|congruence]|by rewrite Hqr|done|by apply Hcs].
Qed.

(** C13: type soundness. From a kernel whose every integer is in the range of
    its Rust type, calls with arguments of their Rust types run without a
    panic and lead to a kernel whose every integer is in range again: ids,
    ticks, counters and masks, the rows of all tables, inboxes and in-flight
    counts, the staged deltas, the observers' delivery log and the log
    records; the report of a further step is in range too. *)
Theorem session_machine_widths k cs :
  kernel_inv false k → computes_typed (action_registry k) → typed k → typed cs →
  ∃ k', run_calls k cs = Done k' ∧ typed k' ∧
    ∀ now caps, is_u64 now → is_u64 caps → ∃ rep k'', step k' now caps = Done (rep, k'') ∧ typed rep ∧ typed k''.
Proof.
  intros Hinv Hr Hk Hcs. destruct (run_calls_inv false k cs Hinv) as (k' & Hrun & Hinv' & Hreg); [done|].
  destruct (run_calls_typed k cs k' Hr Hk Hcs Hrun) as [Hk' _]. exists k'. split_and!; [done|done|].
  intros now caps Hnow Hcaps. destruct (step_inv false k' now caps Hinv') as ([rep k''] & Hs & _).
  exists rep, k''. split; [done|].
  destruct (step_typed k' now caps rep k'') as (H1 & H2 & _); try done. by rewrite Hreg.
Qed.

End properties.

Lemma computes_typed_register A `{Derived A, ActionCompute A} r :
  (∀ (a : A) ctx ops, compute a ctx = Done ops → typed ops) → computes_typed r → computes_typed (register A r).
Proof.
  intros Ha Hr tc bs a ctx ops. unfold resolve, registry_get, register. cbn [by_type_code].
  destruct (decide (TYPE_CODE (A := A) = tc)) as [->|Hne].
  - rewrite lookup_insert_eq. cbn. intros [= Heq]. apply bind_Ok in Heq as (x & _ & [= <-]). apply Ha.
  - rewrite lookup_insert_ne by done. apply (Hr tc bs a ctx).
Qed.

Lemma script_registry_typed ops : typed ops → computes_typed (script_registry ops).
Proof.
  intros Hops. apply computes_typed_register; [by intros a ctx ops' [= <-]|].
  intros tc bs a ctx ops'. unfold resolve, registry_get. cbn. by rewrite lookup_empty.
Qed.

#[local] Instance ex_snapshot_postcard : Postcard InstanceSnapshot :=
  constant_postcard (to_snapshot (Instance_new 1 InstanceConfig_default)).
#[local] Instance ex_body_postcard : Postcard WalRecordBody := countable_postcard.
#[local] Instance ex_blake3 : Blake3 := tail_blake3.
#[local] Instance ex_sigs : SigSchemes := toy_sigs false.

(** Sizes and ticks at the top of their range, so that the totals and the
    projections saturate. *)
Definition ex_wide_ops : list Op :=
  [SpawnEntity 1 System; SetComponent 1 U32_MAX [] U64_MAX; SetComponent 1 2 [] U64_MAX;
   ScheduleAction U64_MAX None 1 []; SendSignal 1 U32_MAX []].
Definition ex_wide : Kernel :=
  mkKernel _ ∅ (script_registry ex_wide_ops) ObserverRegistry_new 0 zero32 (Some (WalWriter_new zero32 zero32))
    StepStage_default.
Definition ex_wide_session : list KernelCall :=
  [CallCreate (mkConfig 15 0 0 0 0 None Reject); CallObserve (λ _ _, false) EM_ALL;
   CallSubmit 1 System None U64_MAX U64_MAX 1 []; CallStep U64_MAX U64_MAX].

Ltac solve_width := vm_compute; congruence.

Lemma session_machine_widths_witness :
  ∃ k' i, run_calls ex_wide ex_wide_session = Done k' ∧ instances k' !! 1%positive = Some i ∧
    total_bytes (ledger i) = U64_MAX ∧ typed k'.
Proof.
  assert (typed ex_wide_ops) as Hops by (repeat constructor; solve_width).
  assert (kernel_inv false ex_wide) as Hinv by (split; [apply map_Forall_empty|apply script_registry_total]).
  assert (typed ex_wide_session) as Hcs by (repeat constructor; solve_width).
  assert (typed ex_wide) as Hk by (destruct (fresh_typed zero32 zero32 SC_None) as (_ & [] & _); split; assumption).
  destruct (session_machine_widths ex_wide ex_wide_session Hinv (script_registry_typed _ Hops) Hk Hcs)
    as (k' & Hrun & Hk' & _).
  destruct (instances k' !! 1%positive) as [i|] eqn:Hi;
    [|vm_compute in Hrun; injection Hrun as <-; vm_compute in Hi; discriminate Hi].
  exists k', i. split; [exact Hrun|]. split; [exact Hi|]. split; [|exact Hk'].
  vm_compute in Hrun. injection Hrun as <-. vm_compute in Hi. injection Hi as <-. reflexivity.
Defined.
