(* ===== verification/Spec.v ===== *)
(** * Abstract specification of the kernel

    What the kernel promises, without how it does it. An instance is its
    entities, its components (each with its declared size), a queue of rows in
    execution order, its inboxes and a few counters: no sequence numbers, no
    scheduler indexes, no ledger, no stage, no scratch space. An action is
    judged operation by operation, and either nothing happens or the accepted
    operations are applied one after the other. [Refinement] proves that the
    code does this.

    The specification is a partial function: it promises nothing past the
    exhaustion of a 64-bit counter ([None]). *)
From S2P Require Import Prelude Abi Quota Extern Authz Scheduler Queue Instance Event.
From S2P Require Import Stage Signature Wal Registry Step Kernel.

Local Open Scope N_scope.

(** ** Actions *)

(** What an action can read: the public fields and accessors of
    [ActionContext]. *)
Record ActionView : Type := mkActionView {
  av_actor : option EntityId;
  av_now : Tick;
  av_instance : InstanceId;
  av_entities : N;
  av_components : N;
  av_local_tick : N
}.

(** What the bytes of an entry mean: nothing, garbage, or a function from what
    the action reads to the operations it asks for. *)
Inductive Decoded : Type :=
  | NoType
  | BadBytes
  | Program (f : ActionView → list Op).
Abbreviation Programs := (TypeCode → bytes → Decoded) (only parsing).

(** ** Instances *)

Record AInst : Type := mkAInst {
  a_config : InstanceConfig;
  a_entities : gmap EntityId EntityMeta;
  a_components : gmap (EntityId * TypeCode) (bytes * N);
  a_queue : list (Tick * ScheduledEntry);
  a_minted : N;
  a_arrivals : N;
  a_inbox : gmap RouteId (list InboundSignal);
  a_delivered : N;
  a_refs : gmap RouteId N;
  a_local_tick : N
}.

Definition a_new (cfg : InstanceConfig) : AInst := mkAInst cfg ∅ ∅ [] 0 0 ∅ 0 ∅ 0.

Definition a_with_state (A : AInst) (es : gmap EntityId EntityMeta) (cs : gmap (EntityId * TypeCode) (bytes * N)) : AInst :=
  mkAInst (a_config A) es cs (a_queue A) (a_minted A) (a_arrivals A) (a_inbox A) (a_delivered A) (a_refs A) (a_local_tick A).
Definition a_with_queue (A : AInst) (q : list (Tick * ScheduledEntry)) (minted arrivals : N) : AInst :=
  mkAInst (a_config A) (a_entities A) (a_components A) q minted arrivals (a_inbox A) (a_delivered A) (a_refs A) (a_local_tick A).
Definition a_with_inbox (A : AInst) (inbox : gmap RouteId (list InboundSignal)) (delivered : N) (refs : gmap RouteId N) : AInst :=
  mkAInst (a_config A) (a_entities A) (a_components A) (a_queue A) (a_minted A) (a_arrivals A) inbox delivered refs (a_local_tick A).

(** The sum of the declared sizes. *)
Definition rows_bytes (cs : gmap (EntityId * TypeCode) (bytes * N)) : N := map_sum (snd <$> cs).

(** A new row at the back of its tick, under the next id. *)
Definition a_schedule (A : AInst) (at_ : Tick) (actor : option EntityId) (p : Principal) (c : CapabilityMask)
    (tc : TypeCode) (bs : bytes) : option (ScheduledActionId * AInst) :=
  if decide (a_minted A < U64_MAX ∧ a_arrivals A < U64_MAX) then
    let id := N.succ_pos (a_minted A) in
    Some (id, a_with_queue A (enqueue (at_, mkEntry id at_ actor p tc bs c) (a_queue A))
                (a_minted A + 1) (a_arrivals A + 1))
  else None.

(** The effect of one accepted operation. *)
Definition a_apply (p : Principal) (eff : CapabilityMask) (now : Tick) (A : AInst) (op : Op) : option AInst :=
  match op with
  | SpawnEntity id owner => Some (a_with_state A (<[id := mkMeta owner now]> (a_entities A)) (a_components A))
  | DespawnEntity id =>
      Some (a_with_state A (delete id (a_entities A)) (filter (λ kv, kv.1.1 ≠ id) (a_components A)))
  | SetComponent e tc bs size =>
      match a_entities A !! e with
      | Some _ =>
          let cs := <[(e, tc) := (bs, size)]> (a_components A) in
          if decide (rows_bytes cs ≤ U64_MAX) then Some (a_with_state A (a_entities A) cs) else None
      | None => Some A
      end
  | RemoveComponent e tc _ => Some (a_with_state A (a_entities A) (delete (e, tc) (a_components A)))
  | ScheduleAction at_ actor tc bs => snd <$> a_schedule A at_ actor p eff tc bs
  | EmitEvent _ _ _ | SendSignal _ _ _ => Some A
  end.

Fixpoint a_apply_all (p : Principal) (eff : CapabilityMask) (now : Tick) (A : AInst) (ops : list Op) : option AInst :=
  match ops with
  | [] => Some A
  | op :: ops' => A' ← a_apply p eff now A op; a_apply_all p eff now A' ops'
  end.

(** ** Judging an action *)

Inductive Ruling : Type := Accepted | Refused (reason : string) | Unauthorized.

(** What the operations accepted so far have asked for. *)
Record Tally : Type := mkTally { t_bytes : N; t_spawned : N; t_scheduled : N }.

(** The byte total with one more operation: a removal is credited with the
    size the component had before the action. *)
Definition t_project (A : AInst) (t : Tally) (op : Op) : N :=
  match op with
  | SetComponent _ _ _ size => sat_add64 (t_bytes t) size
  | RemoveComponent e tc _ => t_bytes t - default 0 (snd <$> a_components A !! (e, tc))
  | _ => t_bytes t
  end.

Definition t_add (A : AInst) (t : Tally) (op : Op) : Tally :=
  mkTally (t_project A t op)
    (t_spawned t + match op with SpawnEntity _ _ => 1 | _ => 0 end)
    (t_scheduled t + match op with ScheduleAction _ _ _ _ => 1 | _ => 0 end).

(** A quota of zero is no quota; the quotas are relative to the state before
    the action. *)
Definition judge_one (A : AInst) (p : Principal) (eff : CapabilityMask) (t : Tally) (op : Op) : Ruling :=
  let cfg := a_config A in
  if decide (¬ op_authorized p eff op) then Unauthorized
  else if decide (0 < memory_budget_bytes cfg ∧ memory_budget_bytes cfg < t_project A t op) then
    Refused "budget_exceeded"
  else match op with
  | SpawnEntity _ _ =>
      if decide (0 < max_entities cfg ∧ max_entities cfg ≤ N.of_nat (size (a_entities A)) + t_spawned t)
      then Refused "entity_quota_exceeded" else Accepted
  | ScheduleAction _ _ _ _ =>
      if decide (0 < max_scheduled cfg ∧ max_scheduled cfg ≤ len (a_queue A) + t_scheduled t)
      then Refused "scheduled_quota_exceeded" else Accepted
  | _ => Accepted
  end.

Fixpoint judge (A : AInst) (p : Principal) (eff : CapabilityMask) (t : Tally) (ops : list Op) : list (Op * Ruling) :=
  match ops with
  | [] => []
  | op :: ops' =>
      let d := judge_one A p eff t op in
      (op, d) :: judge A p eff (match d with Accepted => t_add A t op | _ => t end) ops'
  end.

Definition is_accepted (d : Ruling) : bool := match d with Accepted => true | _ => false end.
Definition is_unauthorized (d : Ruling) : bool := match d with Unauthorized => true | _ => false end.

Definition accepted (ds : list (Op * Ruling)) : list Op := omap (λ od, if is_accepted od.2 then Some od.1 else None) ds.
Definition denied_count (ds : list (Op * Ruling)) : N := len (filter (λ od, is_accepted od.2 = false) ds).

(** What the judged operations emit. *)
Definition ruling_events (id : InstanceId) (od : Op * Ruling) : list KernelEvent :=
  match od.2 with
  | Accepted => match od.1 with EmitEvent a tc bs => [DomainEventEmitted id a tc bs] | _ => [] end
  | Refused reason => [EffectFailed id (byte_str reason)]
  | Unauthorized => []
  end.
Definition op_signal (p : Principal) (op : Op) : option PendingSignal :=
  match op with SendSignal target route payload => Some (mkPending target route payload p) | _ => None end.

(** ** One turn of an instance *)

Record Turn : Type := mkTurn {
  turn_instance : InstanceId;
  turn_id : ScheduledActionId;
  turn_type : TypeCode;
  turn_verdict : StepVerdict;
  turn_applied : N;
  turn_denied : N;
  turn_emitted : N;
  turn_signals : list PendingSignal;
  turn_events : list KernelEvent
}.

(** Counts are reported in 32 bits. *)
Definition clamp32 (n : N) : N := N.min n U32_MAX.

Definition a_view (id : InstanceId) (A : AInst) (actor : option EntityId) (now : Tick) : ActionView :=
  mkActionView actor now id (N.of_nat (size (a_entities A))) (N.of_nat (size (a_components A))) (a_local_tick A).

(** The authority of an entry: never above its own ceiling, the instance's
    capabilities, or the session's. *)
Definition a_authority (A : AInst) (e : ScheduledEntry) (session : CapabilityMask) : CapabilityMask :=
  caps_and (effective_caps (default_caps (a_config A)) (se_principal e) (se_caps_ceiling e)) session.

(** A judged action: all accepted operations, or nothing. *)
Definition a_settle (id : InstanceId) (A : AInst) (e : ScheduledEntry) (eff : CapabilityMask) (now : Tick)
    (ds : list (Op * Ruling)) : option (Turn * AInst) :=
  let denied := clamp32 (denied_count ds) in
  if existsb (λ od, is_unauthorized od.2) ds then
    Some (mkTurn id (se_id e) (se_type_code e) AuthDenied 0 denied 0 [] [], A)
  else
    let ops := accepted ds in
    let evs := ds ≫= ruling_events id in
    A' ← a_apply_all (se_principal e) eff now A ops;
    Some (mkTurn id (se_id e) (se_type_code e)
            (if decide (denied = 0) then Committed else BudgetPartial denied)
            (clamp32 (len ops)) denied (as_u32 (len (filter (λ ev, is_domain_event ev = true) evs)))
            (omap (op_signal (se_principal e)) ops) evs, A').

(** The front row leaves the queue if it is due; what it does is up to its
    program. *)
Definition a_turn (progs : Programs) (id : InstanceId) (A : AInst) (now : Tick) (session : CapabilityMask)
    : option (option Turn * AInst) :=
  match dequeue now (a_queue A) with
  | (None, _) => Some (None, A)
  | (Some e, q) =>
      let A1 := a_with_queue A q (a_minted A) (a_arrivals A) in
      let skip reason := Some (Some (mkTurn id (se_id e) (se_type_code e) (Skipped reason) 0 0 0 [] []), A1) in
      match progs (se_type_code e) (se_bytes e) with
      | NoType => skip Unregistered
      | BadBytes => skip DeserFailed
      | Program f =>
          let eff := a_authority A1 e session in
          let ds := judge A1 (se_principal e) eff (mkTally (rows_bytes (a_components A1)) 0 0)
                      (f (a_view id A1 (se_actor e) now)) in
          r ← a_settle id A1 e eff now ds;
          Some (Some r.1, r.2)
      end
  end.

(** ** The kernel *)

Record AKernel : Type := mkAKernel { ak_instances : gmap InstanceId AInst; ak_created : N }.
Definition ak_new : AKernel := mkAKernel ∅ 0.

(** Delivery of one signal: at the back of the route's inbox, if the target
    exists and the inbox has room. *)
Definition a_route (from : InstanceId) (m : gmap InstanceId AInst) (s : PendingSignal)
    : gmap InstanceId AInst * KernelEvent :=
  match m !! ps_target s with
  | None => (m, SignalDropped (ps_target s) (ps_route s) TargetNotFound)
  | Some T =>
      let inbox := default [] (a_inbox T !! ps_route s) in
      if decide (0 < max_inbox_per_route (a_config T) ∧ max_inbox_per_route (a_config T) ≤ len inbox) then
        (m, SignalDropped (ps_target s) (ps_route s) QueueFull)
      else
        (<[ps_target s :=
             a_with_inbox T
               (<[ps_route s := inbox ++ [mkSignal from (ps_principal s) (ps_payload s) (a_delivered T)]]> (a_inbox T))
               (sat_add64 (a_delivered T) 1)
               (<[ps_route s := clamp32 (default 0 (a_refs T !! ps_route s) + 1)]> (a_refs T))]> m,
         SignalDelivered from (ps_target s) (ps_route s))
  end.

Fixpoint a_route_all (from : InstanceId) (m : gmap InstanceId AInst) (sigs : list PendingSignal)
    : gmap InstanceId AInst * list KernelEvent :=
  match sigs with
  | [] => (m, [])
  | s :: sigs' =>
      let '(m1, ev) := a_route from m s in
      let '(m2, evs) := a_route_all from m1 sigs' in
      (m2, ev :: evs)
  end.

(** One instance's turn, its signals routed; with the events the observers are
    shown. *)
Definition a_process (progs : Programs) (now : Tick) (session : CapabilityMask) (m : gmap InstanceId AInst)
    (id : InstanceId) : option (option Turn * list KernelEvent * gmap InstanceId AInst) :=
  match m !! id with
  | None => Some (None, [], m)
  | Some A =>
      r ← a_turn progs id A now session;
      let '(ot, A') := r in
      let m1 := <[id := A']> m in
      match ot with
      | None => Some (None, [], m1)
      | Some t =>
          let '(m2, routed) := a_route_all id m1 (turn_signals t) in
          Some (Some t,
                turn_events t
                ++ (if executed_verdict (turn_verdict t) then [ActionExecuted id (turn_type t) now] else [])
                ++ routed, m2)
      end
  end.

(** One round: every instance in id order. *)
Fixpoint a_round (progs : Programs) (now : Tick) (session : CapabilityMask) (m : gmap InstanceId AInst)
    (ids : list InstanceId) : option (list Turn * list KernelEvent * gmap InstanceId AInst) :=
  match ids with
  | [] => Some ([], [], m)
  | id :: ids' =>
      r ← a_process progs now session m id;
      let '(ot, evs, m1) := r in
      rest ← a_round progs now session m1 ids';
      let '(ts, evs', m2) := rest in
      Some (option_list ot ++ ts, evs ++ evs', m2)
  end.

(** ** The interface *)

Inductive CallOut : Type :=
  | OutCreated (id : InstanceId)
  | OutObserved
  | OutSubmitted (r : Result ArkheError ScheduledActionId)
  | OutStepped (turns : list Turn)
  | OutUnloaded (r : Result ArkheError N).

(** The quotas are values of their Rust type. *)
Definition config_in_range (cfg : InstanceConfig) : Prop :=
  max_entities cfg ≤ U32_MAX ∧ max_scheduled cfg ≤ U32_MAX.
#[global] Instance config_in_range_dec cfg : Decision (config_in_range cfg).
Proof. unfold config_in_range. apply _. Defined.

Definition a_submit (K : AKernel) (inst : InstanceId) (p : Principal) (actor : option EntityId)
    (caps : CapabilityMask) (at_ : Tick) (tc : TypeCode) (bs : bytes)
    : option (Result ArkheError ScheduledActionId * AKernel) :=
  match ak_instances K !! inst with
  | None => Some (Err InstanceNotFound, K)
  | Some A =>
      if decide (0 < max_scheduled (a_config A) ∧ max_scheduled (a_config A) ≤ len (a_queue A)) then
        Some (Err QuotaExceeded, K)
      else
        r ← a_schedule A at_ actor p caps tc bs;
        Some (Ok r.1, mkAKernel (<[inst := r.2]> (ak_instances K)) (ak_created K))
  end.

(** The in-flight references of a route, over all instances. *)
Definition a_refs_total (m : gmap InstanceId AInst) (route : RouteId) : N :=
  map_sum ((λ A, default 0 (a_refs A !! route)) <$> m).

(** A call: what it returns, what the observers are shown, the next state. *)
Definition a_call (progs : Programs) (K : AKernel) (c : KernelCall) : option (CallOut * list KernelEvent * AKernel) :=
  match c with
  | CallCreate cfg =>
      if decide (ak_created K < U64_MAX ∧ config_in_range cfg) then
        let id := N.succ_pos (ak_created K) in
        Some (OutCreated id, [], mkAKernel (<[id := a_new cfg]> (ak_instances K)) (ak_created K + 1))
      else None
  | CallObserve _ _ => Some (OutObserved, [], K)
  | CallSubmit inst p actor caps at_ tc bs =>
      r ← a_submit K inst p actor caps at_ tc bs;
      Some (OutSubmitted r.1, [], r.2)
  | CallStep now session =>
      r ← a_round progs now session (ak_instances K) (btree_keys (ak_instances K));
      let '(ts, evs, m) := r in
      Some (OutStepped ts, evs, mkAKernel m (ak_created K))
  | CallForceUnload route caps =>
      if decide (ADMIN_UNLOAD ⊑c caps) then
        let total := clamp32 (a_refs_total (ak_instances K) route) in
        Some (OutUnloaded (Ok total), [ModuleForceUnloaded route total],
              mkAKernel ((λ A, a_with_inbox A (a_inbox A) (a_delivered A) (delete route (a_refs A))) <$> ak_instances K)
                (ak_created K))
      else Some (OutUnloaded (Err CapabilityDenied), [], K)
  end.

Fixpoint a_calls (progs : Programs) (K : AKernel) (cs : list KernelCall)
    : option (list (CallOut * list KernelEvent) * AKernel) :=
  match cs with
  | [] => Some ([], K)
  | c :: cs' =>
      r ← a_call progs K c;
      let '(out, evs, K1) := r in
      rest ← a_calls progs K1 cs';
      Some ((out, evs) :: rest.1, rest.2)
  end.
