(* ===== verification/Refinement.v ===== *)
(** * The kernel refines its specification

    The abstraction function from the kernel's state to that of [Spec], and
    the proof that every call of the kernel computes what the specification
    says: the stage, the gate loop, the ledger, the scheduler's indexes and
    the id counters are an implementation of it. *)
From S2P Require Import Prelude Abi Quota Extern Authz Ledger Scheduler Queue Instance Event.
From S2P Require Import Observer Stage Dispatch Apply Signature Wal Registry Step Kernel Spec.

Local Open Scope N_scope.

(** ** Abstraction of an instance *)

(** Component bytes paired with the size the ledger holds for them. *)
Definition sized_components (i : Instance_) : gmap (EntityId * TypeCode) (bytes * N) :=
  map_zip_with pair (components i) (component_sizes (ledger i)).

Definition abs_inst (i : Instance_) : AInst :=
  mkAInst (config i) (entities i) (sized_components i) (queue_of (scheduler i))
    (next_scheduled (id_counters i)) (next_seq (scheduler i)) (signal_inbox i) (inbox_seq i)
    (inflight_refs i) (local_tick i).

(** The instances the abstraction describes: state, ledger and scheduler are
    consistent, and no counter has saturated. *)
Record inst_sound (i : Instance_) : Prop := {
  is_consistent : consistent i;
  is_exact : ledger_exact (ledger i);
  is_sched : sched_wf (scheduler i);
  is_ids : next_id (scheduler i) ≤ next_scheduled (id_counters i);
  is_counter : next_scheduled (id_counters i) ≤ U64_MAX;
  is_range : config_in_range (config i);
  is_tick : local_tick i ≤ U64_MAX
}.

Lemma sized_sizes i : consistent i → snd <$> sized_components i = component_sizes (ledger i).
Proof.
  intros Hc. apply map_eq. intros k. unfold sized_components. rewrite lookup_fmap, map_lookup_zip_with.
  pose proof (co_components i Hc k) as Hk.
  destruct (components i !! k) as [b|], (component_sizes (ledger i) !! k) as [n|]; cbn; try done.
  destruct (proj2 Hk ltac:(eauto)). done.
Qed.

Lemma sized_lookup i k :
  sized_components i !! k = b ← components i !! k; n ← component_sizes (ledger i) !! k; Some (b, n).
Proof. unfold sized_components. by rewrite map_lookup_zip_with. Qed.

Lemma sized_count i : consistent i → size (sized_components i) = size (components i).
Proof.
  intros Hc. rewrite <- !(size_dom (D := gset _)). f_equal. apply set_eq. intros k.
  rewrite !elem_of_dom, sized_lookup. pose proof (co_components i Hc k) as Hk.
  destruct (components i !! k) as [b|]; cbn; [|done].
  destruct (proj1 Hk ltac:(eauto)) as [n ->]. cbn. split; eauto.
Qed.

Lemma rows_bytes_total i : inst_sound i → rows_bytes (sized_components i) = total_bytes (ledger i).
Proof. intros [Hc Hx _ _ _ _ _]. unfold rows_bytes. rewrite sized_sizes by done. by rewrite Hx. Qed.

(** ** State operations *)

(** The state delta [dispatch] stages for an operation. *)
Definition state_delta (now : Tick) (op : Op) : option StagedStateDelta :=
  match op with
  | SpawnEntity id owner => Some (SD_SpawnEntity id (mkMeta owner now))
  | DespawnEntity id => Some (SD_DespawnEntity id)
  | SetComponent e tc bs size => Some (SD_SetComponent e tc bs size)
  | RemoveComponent e tc size => Some (SD_RemoveComponent e tc size)
  | _ => None
  end.

(** The state part of an instance agrees with the specification's. *)
Record state_agrees (i : Instance_) (A : AInst) : Prop := {
  sa_consistent : consistent i;
  sa_exact : ledger_exact (ledger i);
  sa_entities : entities i = a_entities A;
  sa_components : sized_components i = a_components A
}.

Lemma exact_shrinks i d :
  consistent i → ledger_exact (ledger i) →
  (∀ k, default 0 (component_sizes (apply_ledger_op (ledger i) (mirror d)) !! k)
        ≤ default 0 (component_sizes (ledger i) !! k)) →
  ledger_exact (apply_ledger_op (ledger i) (mirror d)).
Proof.
  intros Hc Hx Hle. apply apply_ledger_op_exact; [done|]. apply map_sum_mono in Hle.
  destruct (co_bounded i Hc) as [_ Hb]. rewrite Hx in Hb. lia.
Qed.

Lemma spawn_agrees i A id meta :
  state_agrees i A →
  state_agrees (apply_pair i (SD_SpawnEntity id meta)) (a_with_state A (<[id := meta]> (a_entities A)) (a_components A)).
Proof.
  intros [H1 H2 H3 H4]. split; [by apply apply_pair_consistent| |cbn; by rewrite H3|exact H4].
  by apply exact_shrinks.
Qed.

Lemma despawn_lookups i id k :
  consistent i →
  components (apply_pair i (SD_DespawnEntity id)) !! k = (if decide (k.1 = id) then None else components i !! k) ∧
  component_sizes (ledger (apply_pair i (SD_DespawnEntity id))) !! k
    = if decide (k.1 = id) then None else component_sizes (ledger i) !! k.
Proof.
  intros Hc. split.
  - change (components (apply_pair i (SD_DespawnEntity id))) with (components (remove_entity i id).2).
    apply remove_entity_components.
  - change (ledger (apply_pair i (SD_DespawnEntity id))) with (ledger_remove_entity (ledger i) id).2.
    destruct (decide (id ∈ led_entities (ledger i))) as [Hid|Hid].
    + destruct (ledger_remove_entity_known _ _ Hid) as (d & l' & -> & _ & Hl & _). apply Hl.
    + rewrite ledger_remove_entity_unknown by done. cbn. destruct (decide (k.1 = id)) as [<-|]; [|done].
      destruct (component_sizes (ledger i) !! k) eqn:E; [|done]. destruct Hid. by eapply (co_closed i Hc).
Qed.

Lemma despawn_agrees i A id :
  state_agrees i A →
  state_agrees (apply_pair i (SD_DespawnEntity id))
    (a_with_state A (delete id (a_entities A)) (filter (λ kv, kv.1.1 ≠ id) (a_components A))).
Proof.
  intros [H1 H2 H3 H4]. split; [by apply apply_pair_consistent| |cbn; by rewrite H3|].
  - apply exact_shrinks; [done|done|]. intros k. destruct (despawn_lookups i id k H1) as [_ H].
    change (apply_ledger_op (ledger i) (mirror (SD_DespawnEntity id))) with (ledger (apply_pair i (SD_DespawnEntity id))).
    rewrite H. destruct (decide _); cbn; lia.
  - apply map_eq. intros k. rewrite sized_lookup. destruct (despawn_lookups i id k H1) as [-> ->].
    cbn [a_components a_with_state]. rewrite map_lookup_filter, <- H4, sized_lookup.
    destruct (decide (k.1 = id)) as [Hk|Hk].
    + destruct (components i !! k); cbn; [|done]. destruct (component_sizes _ !! k); cbn; [|done].
      by rewrite option_guard_False by (cbn; tauto).
    + destruct (components i !! k); cbn; [|done]. destruct (component_sizes _ !! k); cbn; [|done].
      by rewrite option_guard_True.
Qed.

Lemma set_agrees i A e tc bs size :
  state_agrees i A → is_Some (a_entities A !! e) →
  rows_bytes (<[(e, tc) := (bs, size)]> (a_components A)) ≤ U64_MAX →
  state_agrees (apply_pair i (SD_SetComponent e tc bs size))
    (a_with_state A (a_entities A) (<[(e, tc) := (bs, size)]> (a_components A))).
Proof.
  intros [H1 H2 H3 H4] [meta He] Hle. set (d := SD_SetComponent e tc bs size).
  assert (entities i !! e = Some meta) as He' by by rewrite H3.
  assert (e ∈ led_entities (ledger i)) as Hin by (apply (co_entities i H1); eauto).
  assert (components (apply_pair i d) = <[(e, tc) := bs]> (components i) ∧ entities (apply_pair i d) = entities i) as [E1 E2].
  { unfold apply_pair, d. cbn [apply_state_op]. unfold entity_meta. rewrite He'. done. }
  destruct (ledger_add_component_known (ledger i) e tc size Hin) as [_ E3].
  assert (component_sizes (ledger (apply_pair i d)) = <[(e, tc) := size]> (component_sizes (ledger i))) as E4 by exact E3.
  assert (sized_components (apply_pair i d) = <[(e, tc) := (bs, size)]> (a_components A)) as E5.
  { rewrite <- H4. unfold sized_components. rewrite E1, E4. by rewrite map_insert_zip_with. }
  assert (consistent (apply_pair i d)) as Hc by by apply apply_pair_consistent.
  split; [done| |by rewrite E2|done].
  apply apply_ledger_op_exact; [done|]. change (apply_ledger_op (ledger i) (mirror d)) with (ledger (apply_pair i d)).
  rewrite <- sized_sizes, E5 by done. exact Hle.
Qed.

(** A component of an unknown entity is dropped on both sides. *)
Lemma set_unknown_agrees i A e tc bs size :
  state_agrees i A → a_entities A !! e = None → state_agrees (apply_pair i (SD_SetComponent e tc bs size)) A.
Proof.
  intros [H1 H2 H3 H4] He. assert (entities i !! e = None) as He' by by rewrite H3.
  assert (e ∉ led_entities (ledger i)) as Hin
    by (intros Hin; apply (co_entities i H1) in Hin; rewrite He' in Hin; by destruct Hin).
  assert (apply_pair i (SD_SetComponent e tc bs size) = i) as ->; [|done].
  unfold apply_pair. cbn [apply_state_op mirror apply_ledger_op]. unfold entity_meta. rewrite He'.
  unfold ledger_add_component. rewrite decide_False by done. by destruct i.
Qed.

Lemma remove_agrees i A e tc size :
  state_agrees i A →
  state_agrees (apply_pair i (SD_RemoveComponent e tc size))
    (a_with_state A (a_entities A) (delete (e, tc) (a_components A))).
Proof.
  intros [H1 H2 H3 H4]. set (d := SD_RemoveComponent e tc size).
  assert (component_sizes (ledger (apply_pair i d)) = delete (e, tc) (component_sizes (ledger i))) as E1.
  { change (ledger (apply_pair i d)) with (ledger_remove_component (ledger i) e tc size).2.
    destruct (decide (e ∈ led_entities (ledger i))) as [Hin|Hin].
    - by destruct (ledger_remove_component_known (ledger i) e tc size Hin) as [_ ->].
    - unfold ledger_remove_component. rewrite decide_False by done. cbn. rewrite delete_id; [done|].
      destruct (component_sizes (ledger i) !! (e, tc)) eqn:E; [|done]. destruct Hin. by apply (co_closed i H1) in E. }
  split; [by apply apply_pair_consistent| |exact H3|].
  - apply exact_shrinks; [done|done|]. intros k.
    change (apply_ledger_op (ledger i) (mirror d)) with (ledger (apply_pair i d)). rewrite E1.
    destruct (decide (k = (e, tc))) as [->|Hne]; [rewrite lookup_delete_eq; cbn; lia|by rewrite lookup_delete_ne].
  - cbn [a_components a_with_state]. rewrite <- H4. unfold sized_components. rewrite E1.
    change (components (apply_pair i d)) with (delete (e, tc) (components i)). by rewrite map_delete_zip_with.
Qed.

(** One accepted operation. *)
Lemma apply_one_agrees p eff now i A A' op :
  state_agrees i A → a_apply p eff now A op = Some A' →
  state_agrees (fold_left apply_pair (option_list (state_delta now op)) i) A'.
Proof.
  intros HA Ha. destruct op; cbn [a_apply state_delta option_list fold_left] in *.
  - injection Ha as <-. by apply spawn_agrees.
  - injection Ha as <-. by apply despawn_agrees.
  - destruct (a_entities A !! entity) eqn:E.
    + destruct (decide _); [|done]. injection Ha as <-. apply set_agrees; eauto.
    + injection Ha as <-. by apply set_unknown_agrees.
  - injection Ha as <-. by apply remove_agrees.
  - by injection Ha as <-.
  - unfold a_schedule in Ha. destruct (decide _); [|done]. injection Ha as <-. by destruct HA.
  - by injection Ha as <-.
Qed.

Definition state_deltas (now : Tick) (ops : list Op) : list StagedStateDelta := omap (state_delta now) ops.

Lemma state_deltas_cons now op ops :
  state_deltas now (op :: ops) = option_list (state_delta now op) ++ state_deltas now ops.
Proof. unfold state_deltas. cbn [omap list_omap]. by destruct (state_delta now op). Qed.

Lemma apply_all_agrees p eff now i A A' ops :
  state_agrees i A → a_apply_all p eff now A ops = Some A' →
  state_agrees (fold_left apply_pair (state_deltas now ops) i) A'.
Proof.
  revert i A. induction ops as [|op ops IH]; intros i A HA Ha; cbn [a_apply_all] in Ha; [by injection Ha as <-|].
  destruct (a_apply p eff now A op) as [A1|] eqn:E; [|done]. cbn [mbind option_bind] in Ha.
  rewrite state_deltas_cons, fold_left_app. eapply IH; [|exact Ha]. by eapply apply_one_agrees.
Qed.

(** ** Scheduled children *)

(** The id [dispatch] mints when [n] ids have been handed out. *)
Definition minted_id (n : N) : ScheduledActionId := N.succ_pos (N.min n (U64_MAX - 1)).

Lemma minted_id_new n : ScheduledActionId_new (sat_add64 n 1) = Some (minted_id n).
Proof.
  unfold ScheduledActionId_new, NonZero_new, minted_id, sat_add64.
  destruct (N.min (n + 1) U64_MAX) as [|q] eqn:E; [unfold U64_MAX in E; lia|]. f_equal.
  assert (Npos q = Npos (N.succ_pos (N.min n (U64_MAX - 1)))) as Heq
    by (rewrite N.succ_pos_spec, <- E; unfold U64_MAX; lia).
  by injection Heq as ->.
Qed.

Lemma minted_id_below n : n < U64_MAX → minted_id n = N.succ_pos n.
Proof. intros Hlt. unfold minted_id. by rewrite N.min_l by lia. Qed.

(** The schedule deltas [dispatch] stages for a list of operations. *)
Fixpoint staged_schedules (n : N) (p : Principal) (eff : CapabilityMask) (ops : list Op) : list ScheduledEntryDelta :=
  match ops with
  | [] => []
  | ScheduleAction at_ actor tc bs :: ops' =>
      SchedAdd (mkEntry (minted_id n) at_ actor p tc bs eff) :: staged_schedules (sat_add64 n 1) p eff ops'
  | _ :: ops' => staged_schedules n p eff ops'
  end.

(** The scheduler agrees with the specification's queue. *)
Record sched_agrees (s : Scheduler) (A : AInst) : Prop := {
  sc_wf : sched_wf s;
  sc_queue : queue_of s = a_queue A;
  sc_ids : next_id s ≤ a_minted A;
  sc_arrivals : next_seq s = a_arrivals A;
  sc_minted : a_minted A ≤ U64_MAX
}.

Lemma fresh_by_id s id : sched_wf s → next_id s < ScheduledActionId_get id → by_id s !! id = None.
Proof.
  intros Hwf Hlt. destruct (by_id s !! id) as [k|] eqn:E; [exfalso|done].
  destruct (wf_by_id s Hwf _ _ E) as [[e He] Hid]. destruct (wf_counters s Hwf _ _ He) as [_ Hle].
  rewrite Hid in Hle. lia.
Qed.

Lemma schedule_agrees s A id A' at_ actor p c tc bs :
  sched_agrees s A → a_schedule A at_ actor p c tc bs = Some (id, A') →
  id = minted_id (a_minted A) ∧ a_minted A' = sat_add64 (a_minted A) 1 ∧
  sched_agrees (schedule_with_id s id at_ actor p c tc bs) A'.
Proof.
  intros [H1 H2 H3 H4 H5] Ha. unfold a_schedule in Ha. destruct (decide _) as [[L1 L2]|]; [|done].
  injection Ha as <- <-. rewrite minted_id_below by done. cbn [a_minted a_with_queue].
  rewrite sat_add64_exact by lia. split_and!; [done|done|].
  assert (ScheduledActionId_get (N.succ_pos (a_minted A)) = a_minted A + 1) as Hget
    by (unfold ScheduledActionId_get; rewrite N.succ_pos_spec; lia).
  split; cbn [a_queue a_minted a_arrivals a_with_queue].
  - apply schedule_with_id_wf; [done|apply fresh_by_id; [done|lia]|lia].
  - rewrite queue_of_schedule by done. by rewrite H2.
  - rewrite schedule_with_id_next_id. lia.
  - unfold schedule_with_id. cbn [next_seq]. rewrite H4. apply sat_add64_exact. lia.
  - lia.
Qed.

(** The fields an operation leaves alone. *)
Lemma a_apply_frame p eff now A A' op :
  a_apply p eff now A op = Some A' →
  a_config A' = a_config A ∧ a_inbox A' = a_inbox A ∧ a_delivered A' = a_delivered A ∧ a_refs A' = a_refs A ∧
  a_local_tick A' = a_local_tick A ∧
  (a_queue A' = a_queue A ∧ a_minted A' = a_minted A ∧ a_arrivals A' = a_arrivals A ∨
   ∃ at_ actor tc bs, op = ScheduleAction at_ actor tc bs).
Proof.
  intros Ha. destruct op; cbn [a_apply] in Ha; try (injection Ha as <-; cbn; tauto).
  - destruct (a_entities A !! entity); [destruct (decide _); [|done]|]; injection Ha as <-; cbn; tauto.
  - unfold a_schedule in Ha. destruct (decide _); [|done]. injection Ha as <-. cbn. split_and!; try done. eauto 6.
Qed.

Lemma apply_all_schedules p eff now s A A' ops :
  sched_agrees s A → a_apply_all p eff now A ops = Some A' →
  ∃ s', fold_outcome apply_schedule_delta s (staged_schedules (a_minted A) p eff ops) = Done s' ∧ sched_agrees s' A' ∧
    a_minted A' = sat_add64 (a_minted A) (len (staged_schedules (a_minted A) p eff ops)).
Proof.
  revert s A. induction ops as [|op ops IH]; intros s A HA Ha; cbn [a_apply_all] in Ha.
  { injection Ha as <-. exists s. split_and!; [done|done|]. cbn. pose proof (sc_minted _ _ HA). unfold sat_add64, len. cbn. lia. }
  destruct (a_apply p eff now A op) as [A1|] eqn:E; [|done]. cbn [mbind option_bind] in Ha.
  destruct (a_apply_frame _ _ _ _ _ _ E) as (_ & _ & _ & _ & _ & [(Q1 & Q2 & Q3)|(at_ & actor & tc & bs & ->)]).
  - assert (sched_agrees s A1) as HA1 by (destruct HA; split; by rewrite ?Q1, ?Q2, ?Q3).
    destruct (IH s A1 HA1 Ha) as (s' & H1 & H2 & H3). rewrite Q2 in H1, H3.
    destruct op; try (exists s'; split_and!; done).
    cbn [a_apply] in E. unfold a_schedule in E. destruct (decide _); [|done]. injection E as <-.
    cbn in Q2. lia.
  - cbn [a_apply] in E. destruct (a_schedule A at_ actor p eff tc bs) as [[id A2]|] eqn:Es; [|done]. injection E as ->.
    destruct (schedule_agrees _ _ _ _ _ _ _ _ _ _ HA Es) as (-> & Hm & HA1).
    destruct (IH _ A1 HA1 Ha) as (s' & H1 & H2 & H3). rewrite Hm in H1, H3.
    exists s'. cbn [staged_schedules fold_outcome apply_schedule_delta mret Outcome_ret mbind Outcome_bind].
    split_and!; [exact H1|done|]. rewrite H3, len_cons. unfold sat_add64. lia.
Qed.

Lemma a_apply_all_frame p eff now A A' ops :
  a_apply_all p eff now A ops = Some A' →
  a_config A' = a_config A ∧ a_inbox A' = a_inbox A ∧ a_delivered A' = a_delivered A ∧ a_refs A' = a_refs A ∧
  a_local_tick A' = a_local_tick A.
Proof.
  revert A. induction ops as [|op ops IH]; intros A Ha; cbn [a_apply_all] in Ha; [by injection Ha as <-|].
  destruct (a_apply p eff now A op) as [A1|] eqn:E; [|done]. cbn [mbind option_bind] in Ha.
  destruct (a_apply_frame _ _ _ _ _ _ E) as (F1 & F2 & F3 & F4 & F5 & _).
  destruct (IH A1 Ha) as (G1 & G2 & G3 & G4 & G5). split_and!; congruence.
Qed.

(** ** The gate loop *)

Definition next_minted (n : N) (op : Op) : N :=
  match op with ScheduleAction _ _ _ _ => sat_add64 n 1 | _ => n end.

Lemma staged_schedules_cons n p eff op ops :
  staged_schedules n p eff (op :: ops) = staged_schedules n p eff [op] ++ staged_schedules (next_minted n op) p eff ops.
Proof. by destruct op. Qed.

(** What [dispatch] adds to each bucket. *)
Lemma dispatch_effect id p eff op s now n :
  ∃ s', dispatch (mkEffect id p op) s now n eff = Done (s', next_minted n op) ∧
    state_ops s' = state_ops s ++ option_list (state_delta now op) ∧
    ledger_ops (ledger_delta s') = ledger_ops (ledger_delta s) ++ (mirror <$> option_list (state_delta now op)) ∧
    events s' = events s ++ ruling_events id (op, Accepted) ∧
    pending_signals s' = pending_signals s ++ option_list (op_signal p op) ∧
    schedule_deltas s' = schedule_deltas s ++ staged_schedules n p eff [op].
Proof.
  destruct op; cbn [dispatch eff_op eff_principal eff_instance_id next_minted staged_schedules state_delta
    ruling_events op_signal option_list fmap list_fmap mirror];
    try (eexists; split; [reflexivity|]; cbn; rewrite ?app_nil_r; done).
  unfold dispatch. cbn [eff_op eff_principal eff_instance_id]. rewrite minted_id_new. cbn [expect mbind Outcome_bind].
  eexists. split; [reflexivity|]. cbn. by rewrite !app_nil_r.
Qed.

(** The stage agrees with the specification's tally. *)
Record tally_agrees (i : Instance_) (s : StepStage) (t : Tally) : Prop := {
  ta_bytes : projected_component_bytes (total_bytes (ledger i)) s (ledger i) = t_bytes t;
  ta_spawned : spawns (state_ops s) = t_spawned t;
  ta_scheduled : len (schedule_deltas s) = t_scheduled t
}.

Lemma t_project_eq i t op :
  consistent i → t_project (abs_inst i) t op = projected_bytes (ledger i) (t_bytes t) op.
Proof.
  intros Hc. destruct op; cbn [t_project projected_bytes]; try done. unfold sat_sub, component_size.
  by rewrite <- (sized_sizes i Hc), lookup_fmap.
Qed.

Lemma tally_add i s s' t op now :
  consistent i → tally_agrees i s t →
  state_ops s' = state_ops s ++ option_list (state_delta now op) →
  ledger_ops (ledger_delta s') = ledger_ops (ledger_delta s) ++ (mirror <$> option_list (state_delta now op)) →
  (∃ n p eff, schedule_deltas s' = schedule_deltas s ++ staged_schedules n p eff [op]) →
  tally_agrees i s' (t_add (abs_inst i) t op).
Proof.
  intros Hc [T1 T2 T3] E1 E2 (n & p & eff & E3). split.
  - cbn [t_add t_bytes]. rewrite t_project_eq by done. unfold projected_component_bytes. rewrite E2, fold_left_app.
    fold (projected_component_bytes (total_bytes (ledger i)) s (ledger i)). rewrite T1. by destruct op.
  - cbn [t_add t_spawned]. rewrite E1, spawns_app, T2. by destruct op.
  - cbn [t_add t_scheduled]. rewrite E3, len_app, T3. by destruct op.
Qed.

(** The gates agree with the ruling. *)
Lemma judge_gates i s p eff t op :
  inst_sound i → stage_ok p eff s → tally_agrees i s t →
  judge_one (abs_inst i) p eff t op
  = if decide (¬ op_authorized p eff op) then Unauthorized
    else if budget_exceeded i s op then Refused "budget_exceeded"
    else if entity_quota_exceeded i s op then Refused "entity_quota_exceeded"
    else if scheduled_quota_exceeded i s op then Refused "scheduled_quota_exceeded"
    else Accepted.
Proof.
  intros Hs [_ Sp Sc _ _ _] [T1 T2 T3]. pose proof (is_range i Hs) as [R1 R2]. unfold judge_one.
  destruct (decide (¬ op_authorized p eff op)); [done|].
  assert (budget_exceeded i s op = bool_decide (0 < memory_budget_bytes (config i) ∧
            memory_budget_bytes (config i) < t_project (abs_inst i) t op)) as ->.
  { unfold budget_exceeded. rewrite t_project_eq, T1 by apply Hs.
    destruct (decide (0 < memory_budget_bytes (config i))) as [Hb|Hb];
      [|rewrite bool_decide_false by tauto; done]. apply bool_decide_ext. tauto. }
  cbn [a_config abs_inst]. destruct (decide (0 < memory_budget_bytes (config i) ∧ _)) as [Hb|Hb];
    [by rewrite bool_decide_true|rewrite bool_decide_false by done].
  destruct op; cbn [entity_quota_exceeded scheduled_quota_exceeded]; try done.
  - rewrite Sp, T2. unfold entities_len. cbn [a_entities abs_inst].
    assert (max_entities (config i) ≤ sat_add64 (N.of_nat (size (entities i))) (N.min (t_spawned t) U64_MAX)
            ↔ max_entities (config i) ≤ N.of_nat (size (entities i)) + t_spawned t) as Hiff
      by (unfold_sat; lia).
    rewrite (bool_decide_ext _ _ Hiff).
    destruct (decide (0 < max_entities (config i))) as [H0|H0]; [|by rewrite decide_False by tauto].
    destruct (decide _) as [H1|H1]; [by rewrite bool_decide_true by tauto|by rewrite bool_decide_false by tauto].
  - rewrite Sc, T3. cbn [a_queue abs_inst]. rewrite queue_of_length.
    assert (max_scheduled (config i) ≤ sat_add64 (Scheduler_len (scheduler i)) (N.min (t_scheduled t) U64_MAX)
            ↔ max_scheduled (config i) ≤ Scheduler_len (scheduler i) + t_scheduled t) as Hiff
      by (unfold_sat; lia).
    rewrite (bool_decide_ext _ _ Hiff).
    destruct (decide (0 < max_scheduled (config i))) as [H0|H0]; [|by rewrite decide_False by tauto].
    destruct (decide _) as [H1|H1]; [by rewrite bool_decide_true by tauto|by rewrite bool_decide_false by tauto].
Qed.

(** What a list of rulings did to the locals of the loop. *)
Record ruled (id : InstanceId) (p : Principal) (eff : CapabilityMask) (now : Tick) (g g' : Gate)
    (ds : list (Op * Ruling)) : Prop := {
  ru_denied : g_any_denied g' = g_any_denied g || existsb (λ od, is_unauthorized od.2) ds;
  ru_applied : g_applied g' = N.min (g_applied g + len (accepted ds)) U32_MAX;
  ru_refused : g_denied g' = N.min (g_denied g + denied_count ds) U32_MAX;
  ru_state : state_ops (g_stage g') = state_ops (g_stage g) ++ state_deltas now (accepted ds);
  ru_events : events (g_stage g') = events (g_stage g) ++ (ds ≫= ruling_events id);
  ru_signals : pending_signals (g_stage g') = pending_signals (g_stage g) ++ omap (op_signal p) (accepted ds);
  ru_schedules : schedule_deltas (g_stage g')
    = schedule_deltas (g_stage g) ++ staged_schedules (g_next_scheduled_id g) p eff (accepted ds)
}.

Definition next_id_after (n : N) (d : Ruling) (op : Op) : N := if is_accepted d then next_minted n op else n.
Definition tally_after (A : AInst) (t : Tally) (d : Ruling) (op : Op) : Tally :=
  match d with Accepted => t_add A t op | _ => t end.

Lemma ruled_cons id p eff now g g1 g2 op d ds :
  g_next_scheduled_id g1 = next_id_after (g_next_scheduled_id g) d op →
  ruled id p eff now g g1 [(op, d)] → ruled id p eff now g1 g2 ds → ruled id p eff now g g2 ((op, d) :: ds).
Proof.
  intros Hn [R1 R2 R3 R4 R5 R6 R7] [Q1 Q2 Q3 Q4 Q5 Q6 Q7].
  assert (accepted ((op, d) :: ds) = accepted [(op, d)] ++ accepted ds) as Hacc
    by (unfold accepted; cbn; by destruct (is_accepted d)).
  assert (denied_count ((op, d) :: ds) = denied_count [(op, d)] + denied_count ds) as Hden.
  { unfold denied_count. change ((op, d) :: ds) with ([(op, d)] ++ ds). rewrite filter_app. apply len_app. }
  split; rewrite ?Hacc, ?Hden.
  - rewrite Q1, R1. cbn. rewrite orb_false_r. by rewrite orb_assoc.
  - rewrite Q2, R2, len_app. lia.
  - rewrite Q3, R3. lia.
  - unfold state_deltas. rewrite Q4, R4, omap_app, app_assoc. done.
  - rewrite Q5, R5. cbn [mbind list_bind]. by rewrite app_nil_r, app_assoc.
  - rewrite Q6, R6, omap_app, app_assoc. done.
  - rewrite Q7, R7, Hn, <- app_assoc. f_equal. unfold next_id_after, accepted. cbn. destruct (is_accepted d); cbn.
    + by destruct op.
    + done.
Qed.

Lemma denied_count_one op d : denied_count [(op, d)] = if is_accepted d then 0 else 1.
Proof. by destruct d. Qed.
Lemma accepted_one op d : accepted [(op, d)] = if is_accepted d then [op] else [].
Proof. by destruct d. Qed.

Lemma gate_op_ruled id i p eff now g op t :
  inst_sound i → stage_ok p eff (g_stage g) → tally_agrees i (g_stage g) t →
  g_applied g ≤ U32_MAX → g_denied g ≤ U32_MAX →
  let d := judge_one (abs_inst i) p eff t op in
  ∃ g', gate_op id i p eff now g op = Done g' ∧ ruled id p eff now g g' [(op, d)] ∧
    g_next_scheduled_id g' = next_id_after (g_next_scheduled_id g) d op ∧
    stage_ok p eff (g_stage g') ∧ tally_agrees i (g_stage g') (tally_after (abs_inst i) t d op).
Proof.
  intros Hs Hok Ht Happ Hden d. assert (Hd : d = judge_one (abs_inst i) p eff t op) by done. clearbody d.
  rewrite (judge_gates i (g_stage g) p eff t op Hs Hok Ht) in Hd. unfold gate_op.
  assert (∀ reason, ruled id p eff now g (gate_skip id reason g) [(op, Refused reason)]) as Hskip.
  { intros reason. split; rewrite ?denied_count_one, ?accepted_one; cbn; rewrite ?orb_false_r, ?app_nil_r; try done;
      unfold sat_add32, len; cbn; lia. }
  assert (∀ reason, stage_ok p eff (g_stage (gate_skip id reason g))) as Hskok
    by (intros reason; by apply push_event_ok).
  assert (∀ reason, tally_agrees i (g_stage (gate_skip id reason g)) t) as Hskt by (intros reason; by destruct Ht).
  destruct (authorize_cases id p eff op) as [[Ha ->]|[Ha [r ->]]].
  2:{ rewrite decide_True in Hd by done. subst d. eexists. split; [reflexivity|]. split_and!; try done.
      split; rewrite ?denied_count_one, ?accepted_one; cbn; rewrite ?orb_true_r, ?app_nil_r; try done;
        unfold sat_add32, len; cbn; lia. }
  rewrite decide_False in Hd by tauto. cbn [eff_op].
  destruct (budget_exceeded i (g_stage g) op); [subst d; eexists; split; [reflexivity|]; done|].
  destruct (entity_quota_exceeded i (g_stage g) op); [subst d; eexists; split; [reflexivity|]; done|].
  destruct (scheduled_quota_exceeded i (g_stage g) op); [subst d; eexists; split; [reflexivity|]; done|].
  subst d. destruct (dispatch_effect id p eff op (g_stage g) now (g_next_scheduled_id g))
    as (s' & Hds & D1 & D2 & D3 & D4 & D5). rewrite Hds. cbn [mbind Outcome_bind].
  eexists. split; [reflexivity|]. split_and!; [|done| |].
  - split; cbn [g_any_denied g_applied g_denied g_stage existsb is_unauthorized fst snd]; rewrite ?orb_false_r; try done.
    + rewrite denied_count_one. cbn. lia.
    + rewrite D3. cbn [mbind list_bind]. by rewrite app_nil_r.
  - exact (dispatch_ok (mkEffect id p op) _ _ _ _ _ _ Hok Hds).
  - cbn [g_stage tally_after fst]. apply (tally_add i (g_stage g) s' t op now); [apply Hs|done|done|done|eauto].
Qed.

Lemma gate_loop_ruled id i p eff now ops g t :
  inst_sound i → stage_ok p eff (g_stage g) → tally_agrees i (g_stage g) t →
  g_applied g ≤ U32_MAX → g_denied g ≤ U32_MAX →
  ∃ g', fold_outcome (gate_op id i p eff now) g ops = Done g' ∧
    ruled id p eff now g g' (judge (abs_inst i) p eff t ops) ∧ stage_ok p eff (g_stage g').
Proof.
  intros Hs. revert g t. induction ops as [|op ops IH]; intros g t Hok Ht Happ Hden; cbn [fold_outcome judge].
  { exists g. split_and!; [done| |done]. split; cbn; rewrite ?orb_false_r, ?app_nil_r; try done;
      unfold denied_count, len; cbn; lia. }
  destruct (gate_op_ruled id i p eff now g op t Hs Hok Ht Happ Hden) as (g1 & -> & R1 & Hn & Hok1 & Ht1).
  cbn [mbind Outcome_bind]. destruct (IH g1 _ Hok1 Ht1) as (g2 & -> & R2 & Hok2).
  - rewrite (ru_applied _ _ _ _ _ _ _ R1). lia.
  - rewrite (ru_refused _ _ _ _ _ _ _ R1). lia.
  - exists g2. split_and!; [done| |done]. by eapply ruled_cons.
Qed.

(** ** One step *)

(** The programs a registry runs: its actions do not panic, are functions of
    what the context shows, and fail to decode where the specification says. *)
Definition view_of (c : ActionContext) : ActionView :=
  mkActionView (ctx_actor c) (ctx_now c) (ctx_instance_id c) (ctx_entities_len c) (ctx_components_len c)
    (ctx_local_tick c).

Definition runs (r : ActionRegistry) (progs : TypeCode → bytes → Decoded) : Prop := ∀ tc bs,
  match resolve r tc bs, progs tc bs with
  | None, NoType => True
  | Some (Err _), BadBytes => True
  | Some (Ok a), Program f => ∀ ctx, compute_dyn a ctx = Done (f (view_of ctx))
  | _, _ => False
  end.

Lemma runs_total r progs : runs r progs → computes_total r.
Proof.
  intros Hr tc bs a ctx Ha. specialize (Hr tc bs). rewrite Ha in Hr. destruct (progs tc bs); try done. eauto.
Qed.

(** What the driver reports is what the specification says of the turn. *)
Record turn_matches (id : InstanceId) (core : StepCore) (t : Turn) : Prop := {
  tm_instance : turn_instance t = id;
  tm_id : core_popped_id core = turn_id t;
  tm_type : core_action_type core = turn_type t;
  tm_verdict : core_verdict core = turn_verdict t;
  tm_applied : core_effects_applied core = turn_applied t;
  tm_denied : core_effects_denied core = turn_denied t;
  tm_emitted : core_domain_events_emitted core = turn_emitted t;
  tm_signals : core_pending_signals core = turn_signals t;
  tm_events : core_events core = turn_events t
}.

Lemma inst_sound_pop i key e :
  inst_sound i → ready (scheduler i) !! key = Some e →
  inst_sound (with_scheduler i (sched_remove (scheduler i) key e)).
Proof. intros [] Hk. split; try done; [by apply (consistent_ext i)|by apply sched_remove_wf]. Qed.

(** Committing the accepted operations. *)
Lemma commit_refines p eff now i A' g :
  inst_sound i → stage_ok p eff (g_stage g) →
  (∃ ops, state_ops (g_stage g) = state_deltas now ops ∧
     schedule_deltas (g_stage g) = staged_schedules (next_scheduled (id_counters i)) p eff ops ∧
     a_apply_all p eff now (abs_inst i) ops = Some A') →
  ∃ i' st', apply_stage i (g_stage g) = Done (pending_signals (g_stage g), i', st') ∧ inst_sound i' ∧ abs_inst i' = A'.
Proof.
  intros Hs Hok (ops & Hst & Hsc & Ha).
  destruct (apply_stage_run p eff i (g_stage g) Hok) as (i' & s' & st' & Happ & Hsch & Hi').
  exists i', st'. split; [done|]. set (c := stage_id_counters (g_stage g)) in *.
  destruct Hs as [H1 H2 H3 H4 H5 H6 H7].
  assert (state_agrees (apply_counters i c) (abs_inst i)) as Hagree by (split; [by apply (consistent_ext i)|done..]).
  apply (apply_all_agrees p eff now _ _ A' ops) in Hagree as [B1 B2 B3 B4]; [|done].
  assert (sched_agrees (scheduler i) (abs_inst i)) as Hsa by by split.
  destruct (apply_all_schedules p eff now _ _ A' ops Hsa Ha) as (s1 & Hs1 & [C1 C2 C3 C4 C5] & Hm).
  cbn [a_minted abs_inst] in Hs1, Hm. rewrite <- Hsc in Hs1, Hm. rewrite Hsch in Hs1. injection Hs1 as <-.
  destruct (a_apply_all_frame _ _ _ _ _ _ Ha) as (F1 & F2 & F3 & F4 & F5).
  rewrite Hst in Hi'. set (j := fold_left apply_pair (state_deltas now ops) (apply_counters i c)) in *.
  destruct (apply_pairs_frame (state_deltas now ops) (apply_counters i c)) as (_ & G2 & _ & G4 & G5 & G6 & G7 & _ & G9).
  fold j in G2, G4, G5, G6, G7, G9.
  assert (next_scheduled (id_counters j) = a_minted A') as Hmint.
  { pose proof (so_scheds _ _ _ Hok) as Hadv. fold c in Hadv.
    rewrite G4, Hm. cbn. rewrite Hadv. unfold sat_add64. lia. }
  assert (sat_add64 (local_tick j) 0 = local_tick i) as Htick by (rewrite G9; cbn; rewrite sat_add64_exact; lia).
  subst i'. split.
  - split; cbn; try done; [by apply (consistent_ext j)|lia|lia|by rewrite G2|lia].
  - destruct A'. cbn in *. unfold abs_inst. cbn. rewrite Htick. f_equal; try congruence.
    by rewrite <- B4.
Qed.

Section step.
Context `{Postcard InstanceSnapshot} {B3 : Blake3}.

Lemma settle_refines id i e session sc now m ops ot A' :
  let eff := a_authority (abs_inst i) e session in
  inst_sound i →
  a_settle id (abs_inst i) e eff now
    (judge (abs_inst i) (se_principal e) eff (mkTally (rows_bytes (a_components (abs_inst i))) 0 0) ops) = Some (ot, A') →
  ∃ g core i' sc', run_gates id i e (resolved_caps i e session) sc now ops = Done g ∧
    finish_step i e m g = Done (core, i', sc') ∧ inst_sound i' ∧ abs_inst i' = A' ∧ turn_matches id core ot.
Proof.
  intros eff Hs Ha. set (ds := judge _ _ _ _ _) in Ha.
  set (g0 := mkGate (clear sc) (next_scheduled (id_counters i)) false 0 0).
  assert (stage_ok (se_principal e) eff (g_stage g0)) as Hok0 by apply StepStage_default_ok.
  assert (tally_agrees i (g_stage g0) (mkTally (rows_bytes (a_components (abs_inst i))) 0 0)) as Ht0.
  { split; [|done|done]. symmetry. by apply rows_bytes_total. }
  destruct (gate_loop_ruled id i (se_principal e) eff now ops g0 _ Hs Hok0 Ht0) as (g & Hg & R & Hok);
    [cbn; unfold U32_MAX; lia..|]. fold ds in R.
  destruct R as [R1 R2 R3 R4 R5 R6 R7]. cbn in R1, R2, R3, R4, R5, R6, R7.
  exists g. unfold a_settle in Ha. unfold finish_step. rewrite R1.
  destruct (existsb (λ od, is_unauthorized od.2) ds).
  { injection Ha as <- <-. do 3 eexists. split_and!; [exact Hg|reflexivity|done|done|].
    split; cbn; try done. }
  destruct (a_apply_all _ _ _ _ _) as [A1|] eqn:Eall; [|done]. cbn [mbind option_bind] in Ha. injection Ha as <- <-.
  destruct (commit_refines (se_principal e) eff now i A1 g Hs Hok) as (i' & st' & Happ & Hs' & Habs).
  { exists (accepted ds). split_and!; [exact R4|exact R7|exact Eall]. }
  rewrite Happ. cbn [mbind Outcome_bind mret Outcome_ret]. do 3 eexists. split_and!; [exact Hg|reflexivity|done|done|].
  assert (g_denied g = clamp32 (denied_count ds)) as Hden by exact R3.
  split; cbn; try done.
  - rewrite Hden. destruct (decide (0 < clamp32 (denied_count ds))), (decide (clamp32 (denied_count ds) = 0)); (done || lia).
  - by rewrite R5.
Qed.

(** The step of an instance is the specification's turn. *)
Lemma step_refines progs r id i sc now session m ot A' :
  runs r progs → inst_sound i → a_turn progs id (abs_inst i) now session = Some (ot, A') →
  ∃ oc i' sc', step_one_core id i r sc now session m = Done (oc, i', sc') ∧ inst_sound i' ∧ abs_inst i' = A' ∧
    match oc, ot with
    | None, None => True
    | Some core, Some t => turn_matches id core t
    | _, _ => False
    end.
Proof.
  intros Hr Hs Ha. unfold a_turn in Ha. cbn [a_queue abs_inst] in Ha.
  unfold step_one_core. destruct (pop_due_cases (scheduler i) now) as [[Hp Hn]|(key & e & Hp & Hf & Hk & Hle & _)].
  { destruct (pop_due_queue (scheduler i) now) as (s' & Hq & _). rewrite Hp in Hq.
    destruct (dequeue now (queue_of (scheduler i))) as [oe q]. injection Hq as <- <-. cbn [fst] in *.
    injection Ha as <- <-. rewrite Hp. cbn [mbind Outcome_bind].
    assert (with_scheduler i (scheduler i) = i) as -> by by destruct i. eexists None, i, sc. done. }
  rewrite (queue_of_first _ _ _ Hf) in Ha. cbn [dequeue fst snd] in Ha. rewrite decide_True in Ha by done.
  rewrite Hp. cbn [mbind Outcome_bind]. set (i1 := with_scheduler i (sched_remove (scheduler i) key e)).
  pose proof (inst_sound_pop i key e Hs Hk) as Hs1. fold i1 in Hs1.
  change (a_with_queue (abs_inst i) (queue_of (sched_remove (scheduler i) key e)) (a_minted (abs_inst i))
            (a_arrivals (abs_inst i))) with (abs_inst i1) in Ha.
  specialize (Hr (se_type_code e) (se_bytes e)) as Hres. unfold resolve in Hres.
  destruct (registry_get r (se_type_code e)) as [reg|]; cbn [mbind option_bind] in Hres.
  2:{ destruct (progs _ _); try done. injection Ha as <- <-. do 3 eexists. split_and!; [reflexivity|done|done|]. by split. }
  destruct (deserializer reg (schema_version reg) (se_bytes e)) as [a|err].
  2:{ destruct (progs _ _); try done. injection Ha as <- <-. do 3 eexists. split_and!; [reflexivity|done|done|]. by split. }
  destruct (progs (se_type_code e) (se_bytes e)) as [| |f]; try done.
  rewrite Hres. cbn [mbind Outcome_bind].
  assert (view_of (ActionContext_new (se_actor e) now id i1) = a_view id (abs_inst i1) (se_actor e) now) as Hview.
  { unfold view_of, a_view. cbn [a_entities a_components abs_inst]. by rewrite (sized_count i1) by apply Hs1. }
  rewrite Hview. set (ops := f _) in *.
  destruct (a_settle _ _ _ _ _ _) as [[t A1]|] eqn:Eset; [|done]. injection Ha as <- <-.
  destruct (settle_refines id i1 e session sc now m ops t A1 Hs1 Eset) as (g & core & i' & sc' & Hg & Hfin & Hs' & Habs & Htm).
  rewrite Hg. cbn [mbind Outcome_bind]. rewrite Hfin. cbn [mbind Outcome_bind]. by do 3 eexists.
Qed.

End step.

(** ** Sums *)

Definition sum_of {A} (f : A → N) (l : list A) : N := foldr (λ a s, f a + s) 0 l.

Lemma sum_of_perm {A} (f : A → N) (l1 l2 : list A) : l1 ≡ₚ l2 → sum_of f l1 = sum_of f l2.
Proof. unfold sum_of. induction 1; cbn; lia. Qed.

Lemma sum_of_app {A} (f : A → N) (l1 l2 : list A) : sum_of f (l1 ++ l2) = sum_of f l1 + sum_of f l2.
Proof. unfold sum_of. induction l1 as [|a l1 IH]; cbn; lia. Qed.

Lemma map_sum_values `{BTreeKey K} {A} (f : A → N) (m : gmap K A) : map_sum (f <$> m) = sum_of f (btree_values m).
Proof.
  unfold btree_values. induction m as [|k a m Hk IH] using map_ind.
  { rewrite fmap_empty. unfold btree_iter. by rewrite map_to_list_empty. }
  assert ((f <$> m) !! k = None) as Hk' by (rewrite lookup_fmap, Hk; reflexivity).
  rewrite fmap_insert, (map_sum_insert _ _ _ Hk'), IH.
  rewrite (sum_of_perm f (btree_iter (<[k := a]> m)).*2 ((k, a) :: btree_iter m).*2); [done|].
  by rewrite !btree_iter_perm, map_to_list_insert.
Qed.

Lemma refs_sum route insts n :
  n ≤ U32_MAX →
  fold_left (add_refs route) insts n = clamp32 (n + sum_of (λ i, default 0 (inflight_refs i !! route)) insts).
Proof.
  revert n. induction insts as [|i insts IH]; intros n Hn; cbn [fold_left sum_of foldr]; [unfold clamp32; lia|].
  fold (sum_of (λ i, default 0 (inflight_refs i !! route)) insts). unfold add_refs at 2.
  destruct (inflight_refs i !! route) as [r|]; cbn [default from_option].
  - rewrite IH by (unfold sat_add32; lia). unfold clamp32, sat_add32, id. lia.
  - rewrite IH by done. unfold clamp32. lia.
Qed.

(** ** The router and the observers *)

Lemma a_route_sound from insts s :
  map_Forall (λ _ i, inst_sound i) insts →
  map_Forall (λ _ i, inst_sound i) (route_signal from insts s).1 ∧
  a_route from (abs_inst <$> insts) s = (abs_inst <$> (route_signal from insts s).1, (route_signal from insts s).2).
Proof.
  intros Hm. unfold a_route, route_signal. rewrite lookup_fmap.
  destruct (insts !! ps_target s) as [T|] eqn:E; cbn [fmap option_fmap option_map]; [|done].
  cbn [a_config a_inbox abs_inst]. unfold inbox_len. destruct (decide _); [done|]. cbn [fst snd]. split.
  - apply map_Forall_insert_2; [|done]. destruct (Hm _ _ E). split; try done. by apply (consistent_ext T).
  - by rewrite fmap_insert.
Qed.

Lemma a_route_all_refines from sigs insts st :
  map_Forall (λ _ i, inst_sound i) insts →
  let st' := fold_left (route_one from) sigs (insts, st) in
  map_Forall (λ _ i, inst_sound i) st'.1 ∧
  ∃ evs, a_route_all from (abs_inst <$> insts) sigs = (abs_inst <$> st'.1, evs) ∧ st'.2.2 = shown st.2 evs.
Proof.
  revert insts st. induction sigs as [|s sigs IH]; intros insts st Hm; cbn [fold_left a_route_all].
  { split; [done|]. by exists []. }
  destruct (a_route_sound from insts s Hm) as [Hm1 Ha].
  destruct (route_signal from insts s) as [insts1 ev] eqn:E. cbn [fst snd] in *.
  assert (route_one from (insts, st) s = (insts1, deliver_counted st ev)) as -> by (unfold route_one; cbn; by rewrite E).
  destruct (IH insts1 (deliver_counted st ev) Hm1) as (Hm2 & evs & Ha2 & Ho). cbv zeta in *.
  split; [exact Hm2|]. rewrite Ha, Ha2. exists (ev :: evs). split; [done|].
  rewrite Ho, deliver_counted_shown. done.
Qed.

(** ** The driver *)

Record result_matches (x : InstanceStepResult) (t : Turn) : Prop := {
  rm_id : res_popped_id x = turn_id t;
  rm_verdict : res_verdict x = turn_verdict t;
  rm_applied : res_effects_applied x = turn_applied t;
  rm_denied : res_effects_denied x = turn_denied t;
  rm_emitted : res_domain_events_emitted x = turn_emitted t
}.

Section kernel.
Context `{Postcard InstanceSnapshot, Postcard WalRecordBody} {B3 : Blake3} {SS : SigSchemes}.

Definition all_sound (m : gmap InstanceId Instance_) : Prop := map_Forall (λ _ i, inst_sound i) m.

Lemma process_refines progs k id now session m ot evs m' :
  runs (action_registry k) progs → all_sound (instances k) →
  a_process progs now session (abs_inst <$> instances k) id = Some (ot, evs, m') →
  ∃ r k', process_instance_record k id now session m = Done (r, k') ∧ all_sound (instances k') ∧
    abs_inst <$> instances k' = m' ∧ observers k' = shown (observers k) evs ∧ same_frame k k' ∧
    match r, ot with
    | None, None => True
    | Some x, Some t => result_matches x t ∧ turn_instance t = id
    | _, _ => False
    end.
Proof.
  intros Hr Hs Ha. unfold a_process in Ha. rewrite lookup_fmap in Ha. unfold process_instance_record.
  destruct (instances k !! id) as [i|] eqn:Ei; cbn [fmap option_fmap option_map] in Ha.
  2:{ injection Ha as <- <- <-. exists None, k. by split_and!. }
  destruct (a_turn progs id (abs_inst i) now session) as [[ot1 A1]|] eqn:Et; [|done]. cbn [mbind option_bind] in Ha.
  destruct (step_refines progs _ id i (step_scratch k) now session m ot1 A1 Hr (Hs _ _ Ei) Et)
    as (oc & i' & sc' & -> & Hs' & Habs & Hm). cbn [mbind Outcome_bind].
  assert (abs_inst <$> <[id := i']> (instances k) = <[id := A1]> (abs_inst <$> instances k)) as Hins
    by (rewrite fmap_insert; by rewrite Habs).
  assert (all_sound (<[id := i']> (instances k))) as Hall by by apply map_Forall_insert_2.
  destruct oc as [core|], ot1 as [t|]; try done.
  2:{ injection Ha as <- <- <-. eexists None, _. split_and!; try done. }
  rewrite <- Hins in Ha. destruct Hm as [M1 M2 M3 M4 M5 M6 M7 M8 M9]. rewrite <- M8, <- M9, <- M4, <- M3 in Ha.
  set (st1 := fold_left deliver_counted (core_events core) (0, observers k)).
  set (st2 := if executed_verdict (core_verdict core) then deliver_counted st1 _ else st1).
  assert (st2.2 = shown (observers k) (core_events core ++
            (if executed_verdict (core_verdict core) then [ActionExecuted id (core_action_type core) now] else []))) as Ho.
  { rewrite shown_app. subst st2 st1. destruct (executed_verdict _).
    - by rewrite deliver_counted_shown, deliveries_shown.
    - by rewrite deliveries_shown. }
  destruct (a_route_all_refines id (core_pending_signals core) (<[id := i']> (instances k)) st2 Hall)
    as (Hall2 & evs2 & Hra & Ho2). cbv zeta in *.
  rewrite Hra in Ha. injection Ha as <- <- <-.
  destruct (fold_left (route_one id) _ _) as [insts2 [n obs2]]. cbn [fst snd] in *.
  eexists (Some _), _. split; [reflexivity|]. split_and!; try done.
  - cbn. by rewrite Ho2, Ho, <- shown_app, <- app_assoc.
Qed.

(** What the log keeps of a request, digests apart, and what a round logs. *)
Definition erase_digest (q : AppendReq) : AppendReq :=
  match q with
  | ReqStep i id now caps v _ => ReqStep i id now caps v []
  | ReqSubmit _ _ _ _ _ _ _ _ => q
  end.
Definition turn_log (now : Tick) (session : CapabilityMask) (t : Turn) : AppendReq :=
  ReqStep (turn_instance t) (turn_id t) now session (turn_verdict t) [].

(** The log of [k'] is that of [k] and lines for the requests [log]. *)
Definition logs (k k' : Kernel) (log : list AppendReq) : Prop :=
  ∀ w, wal k = Some w → ∃ reqs, wal k' = Some (run_appends w reqs) ∧ erase_digest <$> reqs = log.

Lemma logs_nil k k' : wal k' = wal k → logs k k' [].
Proof. intros E w Hw. exists []. by rewrite E. Qed.

Lemma logs_app k k1 k2 l1 l2 : logs k k1 l1 → logs k1 k2 l2 → logs k k2 (l1 ++ l2).
Proof.
  intros H1 H2 w Hw. destruct (H1 w Hw) as (r1 & W1 & E1). destruct (H2 _ W1) as (r2 & W2 & E2).
  exists (r1 ++ r2). rewrite W2, fmap_app, E1, E2. split; [|done]. unfold run_appends. by rewrite fold_left_app.
Qed.

(** The aggregation of turns into a report, [observers_evicted] apart. *)
Record report_matches (r0 r : StepReport) (ts : list Turn) : Prop := {
  rp_executed : actions_executed r = clamp32 (actions_executed r0 + len ts);
  rp_applied : effects_applied r = clamp32 (effects_applied r0 + sum_of turn_applied ts);
  rp_denied : effects_denied r = clamp32 (effects_denied r0 + sum_of turn_denied ts);
  rp_emitted : domain_events_emitted r = clamp32 (domain_events_emitted r0 + sum_of turn_emitted ts)
}.

Lemma report_matches_step r0 r1 r2 t ts x :
  result_matches x t → r1 = report_add r0 x → report_matches r1 r2 ts → report_matches r0 r2 (t :: ts).
Proof.
  intros [X1 X2 X3 X4 X5] -> [R1 R2 R3 R4].
  cbn [report_add actions_executed effects_applied effects_denied domain_events_emitted] in *. rewrite X3 in R2. rewrite X4 in R3. rewrite X5 in R4.
  unfold clamp32, sat_add32, sum_of in *. split; unfold clamp32, sum_of; cbn [foldr].
  - rewrite R1, len_cons. lia.
  - rewrite R2. lia.
  - rewrite R3. lia.
  - rewrite R4. lia.
Qed.

Definition report_in_range (r : StepReport) : Prop :=
  actions_executed r ≤ U32_MAX ∧ effects_applied r ≤ U32_MAX ∧ effects_denied r ≤ U32_MAX ∧
  domain_events_emitted r ≤ U32_MAX.

Lemma round_refines progs now session m ids r0 k ts evs m' :
  runs (action_registry k) progs → all_sound (instances k) → report_in_range r0 →
  a_round progs now session (abs_inst <$> instances k) ids = Some (ts, evs, m') →
  ∃ r k', fold_outcome (step_instance now session m) (r0, k) ids = Done (r, k') ∧ all_sound (instances k') ∧
    abs_inst <$> instances k' = m' ∧ observers k' = shown (observers k) evs ∧
    action_registry k' = action_registry k ∧ next_instance_id k' = next_instance_id k ∧ report_matches r0 r ts ∧
    logs k k' (turn_log now session <$> ts).
Proof.
  revert r0 k ts evs m'. induction ids as [|id ids IH]; intros r0 k ts evs m' Hr Hs Hr0 Ha; cbn [a_round fold_outcome] in *.
  { injection Ha as <- <- <-. exists r0, k. split_and!; try done; [|by apply logs_nil]. destruct Hr0 as (? & ? & ? & ?).
    split; unfold clamp32, sum_of, len; cbn; lia. }
  destruct (a_process progs now session (abs_inst <$> instances k) id) as [[[ot evs1] m1]|] eqn:Ep; [|done].
  cbn [mbind option_bind] in Ha. destruct (a_round progs now session m1 ids) as [[[ts2 evs2] m2]|] eqn:E2; [|done].
  cbn [mbind option_bind] in Ha. injection Ha as <- <- <-.
  destruct (process_refines progs k id now session m ot evs1 m1 Hr Hs Ep)
    as (x & k1 & Hp & Hs1 & Hm1 & Ho1 & (F1 & F2 & F3 & F4) & Hx).
  assert (∀ k2 r1, instances k2 = instances k1 → observers k2 = observers k1 → action_registry k2 = action_registry k1 →
    next_instance_id k2 = next_instance_id k1 → report_in_range r1 →
    ∃ r k', fold_outcome (step_instance now session m) (r1, k2) ids = Done (r, k') ∧ all_sound (instances k') ∧
      abs_inst <$> instances k' = m2 ∧ observers k' = shown (observers k) (evs1 ++ evs2) ∧
      action_registry k' = action_registry k ∧ next_instance_id k' = next_instance_id k ∧ report_matches r1 r ts2 ∧
      logs k2 k' (turn_log now session <$> ts2)) as Hrest.
  { intros k2 r1 E3 E4 E5 E6 Hr1. destruct (IH r1 k2 ts2 evs2 m2) as (r & k' & H1 & H2 & H3 & H4 & H5 & H6 & H7 & H8);
      [by rewrite E5, F1|by rewrite E3|done|by rewrite E3, Hm1|].
    exists r, k'. split_and!; try done; [|congruence..]. by rewrite H4, E4, Ho1, shown_app. }
  destruct x as [x|], ot as [t|]; try done.
  - set (k2 := match wal k1 with
              | Some w => set_wal k1 (Some (append_step w id (res_popped_id x) now session (res_verdict x) (res_digest x)).2)
              | None => k1
              end).
    assert (step_instance now session m (r0, k) id = Done (report_add r0 x, k2)) as ->
      by (unfold step_instance; cbn [fst snd]; rewrite Hp; done). cbn [mbind Outcome_bind].
    destruct (Hrest k2 (report_add r0 x)) as (r & k' & Hrun & Hrest'); [subst k2; by destruct (wal k1)..| |].
    { unfold report_in_range, report_add, sat_add32. cbn. lia. }
    exists r, k'. split; [exact Hrun|]. destruct Hrest' as (H1 & H2 & H3 & H4 & H5 & H6 & H7). destruct Hx as [Hx Hid].
    split_and!; try done; cbn [option_list app]; [by eapply report_matches_step|].
    change (t :: ts2) with ([t] ++ ts2). rewrite fmap_app. apply (logs_app k k2 k'); [|done].
    intros w Hw. exists [ReqStep id (res_popped_id x) now session (res_verdict x) (res_digest x)].
    split; [subst k2; by rewrite F2, Hw|]. cbn. unfold turn_log. by rewrite Hid, (rm_id _ _ Hx), (rm_verdict _ _ Hx).
  - assert (step_instance now session m (r0, k) id = Done (r0, k1)) as ->
      by (unfold step_instance; cbn [fst snd]; rewrite Hp; done). cbn [mbind Outcome_bind].
    destruct (Hrest k1 r0) as (r & k' & H1 & H2 & H3 & H4 & H5 & H6 & H7 & H8); try done.
    exists r, k'. split_and!; try done. intros w Hw. apply (H8 w). by rewrite F2.
Qed.

(** ** Calls *)

(** What a call of the kernel's interface returns. *)
Inductive CallResult : Type :=
  | ResCreated (id : InstanceId)
  | ResObserved (h : ObserverHandle)
  | ResSubmitted (r : Result ArkheError ScheduledActionId)
  | ResStepped (r : StepReport)
  | ResUnloaded (r : Result ArkheError N).

Definition call_result (k : Kernel) (c : KernelCall) : Outcome (CallResult * Kernel) :=
  match c with
  | CallCreate cfg => r ← create_instance k cfg; mret (ResCreated r.1, r.2)
  | CallObserve obs mask => let '(h, k') := register_observer_filtered k obs mask in mret (ResObserved h, k')
  | CallSubmit instance p actor caps at_ tc bs =>
      r ← submit k instance p actor caps at_ tc bs; mret (ResSubmitted r.1, r.2)
  | CallStep now caps => r ← step k now caps; mret (ResStepped r.1, r.2)
  | CallForceUnload route caps => let '(n, k') := force_unload k route caps in mret (ResUnloaded n, k')
  end.

Fixpoint call_results (k : Kernel) (cs : list KernelCall) : Outcome (list CallResult * Kernel) :=
  match cs with
  | [] => mret ([], k)
  | c :: cs' =>
      r ← call_result k c;
      rest ← call_results r.2 cs';
      mret (r.1 :: rest.1, rest.2)
  end.

(** The sessions of [Kernel], with the results. *)
Lemma call_result_run k c : run_call k c = r ← call_result k c; mret r.2.
Proof.
  destruct c as [cfg|obs m|inst p a cp t tc bs|now caps|route caps]; cbn [run_call call_result]; [by destruct (create_instance k cfg) as [[? ?]|]
    |by destruct (register_observer_filtered k obs m)|by destruct (submit _ _ _ _ _ _ _ _) as [[? ?]|]
    |by destruct (step k now caps) as [[? ?]|]|by destruct (force_unload k route caps)].
Qed.

Lemma call_results_run k cs : run_calls k cs = r ← call_results k cs; mret r.2.
Proof.
  unfold run_calls. revert k. induction cs as [|c cs IH]; intros k; cbn [fold_outcome call_results]; [done|].
  rewrite call_result_run. destruct (call_result k c) as [[x k1]|]; cbn [mbind Outcome_bind mret Outcome_ret snd]; [|done].
  rewrite IH. by destruct (call_results k1 cs) as [[xs k2]|].
Qed.

(** The result of a call is the specified one. *)
Definition out_matches (o : CallOut) (x : CallResult) : Prop :=
  match o, x with
  | OutCreated id, ResCreated id' => id = id'
  | OutObserved, ResObserved _ => True
  | OutSubmitted r, ResSubmitted r' => r = r'
  | OutStepped ts, ResStepped rep => report_matches StepReport_default rep ts
  | OutUnloaded r, ResUnloaded r' => r = r'
  | _, _ => False
  end.

(** The observers after a call that showed [evs]. *)
Definition observe_call (obs : ObserverRegistry) (ce : KernelCall * list KernelEvent) : ObserverRegistry :=
  match ce.1 with
  | CallObserve o mask => (register_filtered obs o mask).2
  | _ => shown obs ce.2
  end.

(** What a call with this outcome logs. *)
Definition call_log (c : KernelCall) (out : CallOut) : list AppendReq :=
  match c, out with
  | CallSubmit inst p actor caps at_ tc bs, OutSubmitted (Ok id) => [ReqSubmit inst p actor caps at_ tc bs id]
  | CallStep now session, OutStepped ts => turn_log now session <$> ts
  | _, _ => []
  end.

(** The abstraction of a kernel. *)
Record refines (k : Kernel) (K : AKernel) : Prop := {
  rf_sound : all_sound (instances k);
  rf_instances : abs_inst <$> instances k = ak_instances K;
  rf_created : next_instance_id k = ak_created K
}.

Lemma refines_keys k K : refines k K → btree_keys (ak_instances K) = btree_keys (instances k).
Proof.
  intros [_ H2 _]. rewrite <- H2. unfold btree_keys.
  assert (btree_iter (abs_inst <$> instances k) = (λ x, (x.1, abs_inst x.2)) <$> btree_iter (instances k)) as ->.
  { apply btree_iter_unique.
    - pose proof (btree_iter_sorted (instances k)) as Hs. induction Hs as [|x l Hl IH Hx]; [constructor|].
      rewrite fmap_cons. constructor; [done|]. by rewrite Forall_fmap.
    - rewrite map_to_list_fmap, btree_iter_perm. by rewrite (list_fmap_ext _ (prod_map id abs_inst)) by (by intros ? []). }
  by rewrite <- list_fmap_compose.
Qed.

Lemma inst_sound_new id cfg : config_in_range cfg → inst_sound (Instance_new id cfg) ∧ abs_inst (Instance_new id cfg) = a_new cfg.
Proof.
  intros Hc. split; [|reflexivity]. split; cbn; try done; try (unfold U64_MAX; lia).
  apply consistent_new.
Qed.

Lemma submit_refines k K inst p actor caps at_ tc bs r K' :
  refines k K → a_submit K inst p actor caps at_ tc bs = Some (r, K') →
  ∃ k', submit k inst p actor caps at_ tc bs = Done (r, k') ∧ refines k' K' ∧ observers k' = observers k ∧
    action_registry k' = action_registry k ∧
    logs k k' (call_log (CallSubmit inst p actor caps at_ tc bs) (OutSubmitted r)).
Proof.
  intros R Ha. pose proof R as [R1 R2 R3]. unfold a_submit in Ha. rewrite <- R2, lookup_fmap in Ha. unfold submit.
  destruct (instances k !! inst) as [i|] eqn:Ei; cbn [fmap option_fmap option_map] in Ha.
  2:{ injection Ha as <- <-. exists k. by split_and!; [..|apply logs_nil]. }
  cbn [a_config a_queue abs_inst] in Ha. rewrite queue_of_length in Ha.
  destruct (decide _); [injection Ha as <- <-; exists k; by split_and!; [..|apply logs_nil]|].
  destruct (a_schedule _ _ _ _ _ _ _) as [[id A1]|] eqn:Es; [|done]. cbn [mbind option_bind fst snd] in Ha.
  injection Ha as <- <-. pose proof (R1 _ _ Ei) as [H1 H2 H3 H4 H5 H6 H7].
  assert (sched_agrees (scheduler i) (abs_inst i)) as Hsa by by split.
  destruct (schedule_agrees _ _ _ _ _ _ _ _ _ _ Hsa Es) as (Hid & Hm & [C1 C2 C3 C4 C5]).
  cbn [a_minted abs_inst] in Hid, Hm. rewrite minted_id_new, <- Hid. cbn [expect mbind Outcome_bind].
  set (i2 := with_scheduler _ _). set (k1 := set_instances k _).
  assert (inst_sound i2 ∧ abs_inst i2 = A1) as [Hs2 Habs].
  { unfold a_schedule in Es. destruct (decide _) as [Hd|]; [|done]. injection Es as _ <-. split.
    - split; cbn; try done; [by apply (consistent_ext i)|cbn in C3; rewrite <- Hm in *; cbn in *; lia..].
    - unfold abs_inst. cbn in *. rewrite <- Hm, C2, C4. done. }
  assert (refines k1 (mkAKernel (<[inst := A1]> (abs_inst <$> instances k)) (ak_created K))) as Hk1.
  { split; cbn; [by apply map_Forall_insert_2|by rewrite fmap_insert, Habs|done]. }
  eexists. split; [reflexivity|]. destruct Hk1 as [K1 K2 K3].
  split_and!; [by destruct (wal k1)|by destruct (wal k1)..|].
  intros w Hw. exists [ReqSubmit inst p actor caps at_ tc bs id]. split; [|done].
  assert (wal k1 = Some w) as -> by exact Hw. done.
Qed.

Lemma call_refines progs k K c out evs K' :
  runs (action_registry k) progs → refines k K → a_call progs K c = Some (out, evs, K') →
  ∃ x k', call_result k c = Done (x, k') ∧ refines k' K' ∧ out_matches out x ∧
    observers k' = observe_call (observers k) (c, evs) ∧ action_registry k' = action_registry k ∧
    logs k k' (call_log c out).
Proof.
  intros Hr R Ha. pose proof R as [R1 R2 R3].
  destruct c as [cfg|obs mask|inst p a cp t tc bs|now caps|route caps]; cbn [a_call call_result] in *.
  - destruct (decide _) as [[L1 L2]|]; [|done]. injection Ha as <- <- <-. unfold create_instance, InstanceId_new.
    pose proof (minted_id_new (next_instance_id k)) as Hid. unfold ScheduledActionId_new in Hid. rewrite Hid.
    rewrite R3, minted_id_below by done. cbn [expect mbind Outcome_bind mret Outcome_ret fst snd].
    destruct (inst_sound_new (N.succ_pos (ak_created K)) cfg L2) as [Hn Habs].
    do 2 eexists. split_and!; [reflexivity| |done|done|done|by apply logs_nil].
    split; cbn; [by apply map_Forall_insert_2|by rewrite fmap_insert, Habs, R2|apply sat_add64_exact; lia].
  - injection Ha as <- <- <-. do 2 eexists. split_and!; [reflexivity|by split|done|done|done|by apply logs_nil].
  - destruct (a_submit _ _ _ _ _ _ _ _) as [[r K1]|] eqn:Es; [|done]. injection Ha as <- <- <-.
    destruct (submit_refines _ _ _ _ _ _ _ _ _ _ _ R Es) as (k' & -> & Hk' & Ho & Hreg & Hlog).
    do 2 eexists. split_and!; [reflexivity|done|done|exact Ho|done|exact Hlog].
  - rewrite (refines_keys k K R) in Ha. rewrite <- R2 in Ha.
    destruct (a_round _ _ _ _ _) as [[[ts evs1] m]|] eqn:Er; [|done]. injection Ha as <- <- <-.
    assert (report_in_range StepReport_default) as H0r by (unfold report_in_range, U32_MAX; cbn; lia).
    destruct (round_refines progs now caps (match wal k with Some _ => true | None => false end) _ _ _ _ _ _ Hr R1 H0r Er)
      as (rep & k' & Hrun & S1 & S2 & S3 & S4 & S5 & S6 & S7).
    unfold step. rewrite Hrun. do 2 eexists. split_and!; [reflexivity| |exact S6|exact S3|exact S4|exact S7].
    split; [done|done|cbn; congruence].
  - unfold force_unload.
    assert (caps_contains caps ADMIN_UNLOAD = true ↔ ADMIN_UNLOAD ⊑c caps) as Hc by apply caps_contains_spec.
    destruct (decide _) as [Hd|Hd].
    2:{ injection Ha as <- <- <-. destruct (caps_contains caps ADMIN_UNLOAD) eqn:Ec; [destruct Hd; by apply Hc|].
        cbn [negb]. do 2 eexists. by split_and!; [..|apply logs_nil]. }
    rewrite (proj2 Hc Hd). cbn [negb]. injection Ha as <- <- <-.
    assert (fold_left (add_refs route) (btree_values (instances k)) 0 = clamp32 (a_refs_total (ak_instances K) route)) as ->.
    { rewrite refs_sum by (unfold U32_MAX; lia). unfold a_refs_total. rewrite <- R2, <- map_fmap_compose.
      by rewrite map_sum_values. }
    destruct (deliver _ _) as [gone obs] eqn:Ed. do 2 eexists. split_and!; [reflexivity| |done| |done|by apply logs_nil].
    + split; cbn; [|rewrite <- R2, <- !map_fmap_compose; done|done].
      intros id i (j & <- & Hj)%lookup_fmap_Some. destruct (R1 _ _ Hj). split; try done. by apply (consistent_ext j).
    + cbn in *. by rewrite Ed.
Qed.

End kernel.

(** ** Properties *)

Section properties.
Context `{Postcard InstanceSnapshot, Postcard WalRecordBody} {B3 : Blake3} {SS : SigSchemes}.

(** C3: the kernel refines its specification. On any session of calls for
    which the specification defines an outcome (no 64-bit counter exhausted,
    quotas of their Rust types), the kernel never panics, returns call by call
    the specified results (ids, errors, the counts of every step report), shows
    its observers exactly the specified events in order, logs exactly the
    specified requests (digests apart), and ends in a state that abstracts to
    the specified one. *)
Theorem kernel_refines_spec progs k K cs outs K' :
  runs (action_registry k) progs → refines k K → a_calls progs K cs = Some (outs, K') →
  ∃ xs k', call_results k cs = Done (xs, k') ∧ run_calls k cs = Done k' ∧ refines k' K' ∧
    Forall2 out_matches outs.*1 xs ∧
    observers k' = fold_left observe_call (zip cs outs.*2) (observers k) ∧
    logs k k' (mjoin (zip_with call_log cs outs.*1)).
Proof.
  revert k K outs. induction cs as [|c cs IH]; intros k K outs Hr R Ha; cbn [a_calls call_results] in *.
  { injection Ha as <- <-. exists [], k. by split_and!; [..|apply logs_nil]. }
  destruct (a_call progs K c) as [[[out evs] K1]|] eqn:E1; [|done]. cbn [mbind option_bind] in Ha.
  destruct (a_calls progs K1 cs) as [[outs1 K2]|] eqn:E2; [|done]. injection Ha as <- <-.
  destruct (call_refines progs k K c out evs K1 Hr R E1) as (x & k1 & Hx & R1 & Ho & Hobs & Hreg & Hlog).
  destruct (IH k1 K1 outs1) as (xs & k' & Hxs & _ & R2 & Hos & Hobs2 & Hlog2); [by rewrite Hreg|done|done|].
  exists (x :: xs), k'. rewrite call_results_run. cbn [call_results].
  rewrite Hx. cbn [mbind Outcome_bind fst snd]. rewrite Hxs. cbn [mbind Outcome_bind mret Outcome_ret fst snd].
  split_and!; [done|done|done|by constructor| |].
  - rewrite Hobs2, Hobs. reflexivity.
  - by eapply logs_app.
Qed.

(** C16: one step of one instance, on every branch. When the specified turn is
    defined, the step computes it: nothing happens when the front row is not
    due; otherwise the front row leaves the queue, the operations of its
    program are ruled on in order against capabilities, byte budget and
    quotas, and either all accepted ones take effect in order or, if one is
    unauthorized, none; the reported verdict, counts, signals and events are
    the specified ones. *)
Theorem step_refines_turn progs r id i sc now session m ot A' :
  runs r progs → inst_sound i → a_turn progs id (abs_inst i) now session = Some (ot, A') →
  ∃ oc i' sc', step_one_core id i r sc now session m = Done (oc, i', sc') ∧ inst_sound i' ∧ abs_inst i' = A' ∧
    match oc, ot with
    | None, None => True
    | Some core, Some t => turn_matches id core t
    | _, _ => False
    end.
Proof. apply step_refines. Qed.

End properties.

(** ** Witnesses *)

#[local] Instance ex_snapshot_postcard : Postcard InstanceSnapshot :=
  constant_postcard (to_snapshot (Instance_new 1 InstanceConfig_default)).
#[local] Instance ex_body_postcard : Postcard WalRecordBody := countable_postcard.
#[local] Instance ex_blake3 : Blake3 := tail_blake3.
#[local] Instance ex_sigs : SigSchemes := toy_sigs false.

(** An action that reads its context: it spawns an entity numbered after the
    ones that exist, attaches a component, emits an event, schedules itself
    again and signals its own instance. *)
Definition ex_program (v : ActionView) : list Op :=
  [SpawnEntity (N.succ_pos (av_entities v)) System; SetComponent (N.succ_pos (av_entities v)) 4 [] 60;
   EmitEvent None 9 []; ScheduleAction (av_now v + 2) None 1 []; SendSignal (av_instance v) 7 []].
Definition ex_spec_registry : ActionRegistry :=
  @register unit script_derived (λ _ ctx, Done (ex_program (view_of ctx))) ActionRegistry_new.
Definition ex_progs (tc : TypeCode) (bs : bytes) : Decoded :=
  if decide (tc = 1) then Program ex_program else NoType.

Lemma ex_spec_runs : runs ex_spec_registry ex_progs.
Proof.
  intros tc bs. unfold ex_spec_registry, ex_progs, resolve, registry_get, register. cbn [by_type_code ActionRegistry_new].
  change (TYPE_CODE (A := unit)) with 1. destruct (decide (tc = 1)) as [->|Hne].
  - rewrite lookup_insert_eq. done.
  - by rewrite lookup_insert_ne, lookup_empty by done.
Qed.

Definition ex_spec_kernel : Kernel :=
  mkKernel _ ∅ ex_spec_registry ObserverRegistry_new 0 zero32 (Some (WalWriter_new zero32 zero32)) StepStage_default.
Definition ex_spec_session : list KernelCall :=
  [CallCreate (mkConfig 15 2 0 1 100 None Reject); CallObserve (λ _ _, false) EM_ALL;
   CallSubmit 1 System None 15 3 1 []; CallSubmit 1 System None 15 3 8 []; CallSubmit 1 (External 5) None 0 4 1 [];
   CallStep 9 15; CallStep 9 15; CallStep 9 15; CallStep 12 15; CallForceUnload 7 15; CallForceUnload 7 0].

Lemma ex_spec_refines : refines ex_spec_kernel ak_new.
Proof. split; [apply map_Forall_empty|reflexivity|reflexivity]. Qed.

Lemma kernel_refines_spec_witness :
  ∃ outs K' k', a_calls ex_progs ak_new ex_spec_session = Some (outs, K') ∧
    run_calls ex_spec_kernel ex_spec_session = Done k' ∧ refines k' K' ∧
    ((λ t, turn_verdict t) <$>
      (outs.*1 ≫= λ o, match o with OutStepped ts => ts | _ => [] end))
    = [Committed; Skipped Unregistered; AuthDenied; BudgetPartial 1].
Proof.
  destruct (a_calls ex_progs ak_new ex_spec_session) as [[outs K']|] eqn:E; [|vm_compute in E; discriminate E].
  destruct (kernel_refines_spec ex_progs ex_spec_kernel ak_new ex_spec_session outs K' ex_spec_runs ex_spec_refines E)
    as (xs & k' & _ & H1 & H2 & _).
  exists outs, K', k'. split; [reflexivity|]. split; [exact H1|]. split; [exact H2|].
  vm_compute in E. injection E as <- _. vm_compute. reflexivity.
Defined.

Lemma step_refines_turn_witness :
  ∃ t A' core i' sc', a_turn ex_progs 1 (abs_inst (ex_inst 1)) 5 15 = Some (Some t, A') ∧
    step_one_core 1 (ex_inst 1) ex_spec_registry StepStage_default 5 15 false = Done (Some core, i', sc') ∧
    abs_inst i' = A' ∧ turn_verdict t = Committed ∧ core_verdict core = Committed.
Proof.
  destruct (a_turn ex_progs 1 (abs_inst (ex_inst 1)) 5 15) as [[[t|] A']|] eqn:E; try (vm_compute in E; discriminate E).
  assert (inst_sound (ex_inst 1)) as Hs.
  { split; [exact (inv_consistent _ (ex_inst_inv 1))|reflexivity| | | | |]; try (vm_compute; congruence).
    - apply schedule_with_id_wf; [apply Scheduler_new_wf|reflexivity|reflexivity].
    - split; vm_compute; congruence. }
  destruct (step_refines_turn ex_progs ex_spec_registry 1 (ex_inst 1) StepStage_default 5 15 false (Some t) A'
    ex_spec_runs Hs E) as ([core|] & i' & sc' & H1 & _ & H2 & H3); [|destruct H3].
  assert (turn_verdict t = Committed) as Hv by (vm_compute in E; injection E as <- _; reflexivity).
  exists t, A', core, i', sc'. split; [reflexivity|]. split; [exact H1|]. split; [exact H2|]. split; [exact Hv|].
  rewrite (tm_verdict _ _ _ H3). exact Hv.
Defined.
