(* ===== verification/Budget.v ===== *)
(** * The memory budget

    The byte budget of [step_one_core] compares a projection of the staged
    ledger operations with [memory_budget_bytes]
    ([src/arkhe-kernel/src/runtime/stage.rs], [runtime/kernel.rs]). This file
    proves what the projection is an upper bound of: for actions that remove
    each component at most once it bounds the committed ledger total, so the
    budget holds, step by step and over whole sessions. Without that
    condition it does not: a component removed [k] times in one action is
    credited [k] times and freed once. *)
From S2P Require Import Prelude Abi Quota Extern Authz Ledger Scheduler Instance Event.
From S2P Require Import Observer Stage Dispatch Apply Signature Wal Registry Step Kernel.

Local Open Scope N_scope.

(** ** Upper bounds per component *)

(** The component an operation removes. *)
Definition removed_key (op : Op) : option (EntityId * TypeCode) :=
  match op with RemoveComponent e tc _ => Some (e, tc) | _ => None end.

(** [u] bounds what each component can weigh once the staged operations [ops]
    are committed to [l0]: above the stored size, and above the size before
    the action unless a removal is staged. Its sum is the projection the gate
    computes, without saturation, and is at most [cap]. *)
Record upper_bound (l0 : ResourceLedger) (cap : N) (removed : list (EntityId * TypeCode)) (ops : list LedgerOp)
    (u : gmap (EntityId * TypeCode) N) : Prop := {
  ub_sizes : ∀ k, default 0 (component_sizes (fold_left apply_ledger_op ops l0) !! k) ≤ default 0 (u !! k);
  ub_fresh : ∀ k, k ∉ removed → default 0 (component_sizes l0 !! k) ≤ default 0 (u !! k);
  ub_projection : fold_left (project_ledger_op l0) ops (total_bytes l0) = map_sum u;
  ub_cap : map_sum u ≤ cap;
  ub_closed : ledger_closed (fold_left apply_ledger_op ops l0);
  ub_exact : ledger_exact (fold_left apply_ledger_op ops l0)
}.

Lemma upper_bound_start l0 cap :
  ledger_closed l0 → ledger_exact l0 → total_bytes l0 ≤ cap → upper_bound l0 cap [] [] (component_sizes l0).
Proof. intros Hc Hx Hle. split; cbn; try done. by rewrite <- Hx. Qed.

Lemma upper_bound_weaken l0 cap removed removed' ops u :
  upper_bound l0 cap removed ops u → removed ⊆ removed' → upper_bound l0 cap removed' ops u.
Proof. intros [] Hsub. split; try done. intros k Hk. by eauto. Qed.

(** The bound bounds the total. *)
Lemma upper_bound_total l0 cap removed ops u :
  upper_bound l0 cap removed ops u → total_bytes (fold_left apply_ledger_op ops l0) ≤ cap.
Proof. intros [U1 _ _ U4 _ U6]. rewrite U6. apply map_sum_mono in U1. lia. Qed.

(** Re-establishing the bound after one more staged operation. *)
Lemma upper_bound_snoc l0 cap removed removed' ops u op u' :
  upper_bound l0 cap removed ops u → cap ≤ U64_MAX →
  (∀ k, default 0 (component_sizes (apply_ledger_op (fold_left apply_ledger_op ops l0) op) !! k) ≤ default 0 (u' !! k)) →
  (∀ k, k ∉ removed' → default 0 (component_sizes l0 !! k) ≤ default 0 (u' !! k)) →
  project_ledger_op l0 (map_sum u) op = map_sum u' → map_sum u' ≤ cap →
  upper_bound l0 cap removed' (ops ++ [op]) u'.
Proof.
  intros [U1 U2 U3 U4 U5 U6] Hcap H1 H2 H3 H4.
  split; rewrite ?fold_left_app; cbn [fold_left]; try done.
  - by rewrite U3.
  - auto with arkhe.
  - apply apply_ledger_op_exact; [done|]. apply map_sum_mono in H1. lia.
Qed.

Lemma upper_bound_remove_entity l0 cap removed ops u id :
  upper_bound l0 cap removed ops u → cap ≤ U64_MAX →
  upper_bound l0 cap removed (ops ++ [LO_RemoveEntity id]) u.
Proof.
  intros U Hcap. pose proof U as [U1 U2 U3 U4 U5 U6]. apply (upper_bound_snoc _ _ removed _ _ u); try done.
  intros k. cbn [apply_ledger_op]. destruct (decide (id ∈ led_entities (fold_left apply_ledger_op ops l0))) as [Hi|Hi].
  - destruct (ledger_remove_entity_known _ _ Hi) as (d & l' & -> & _ & Hl & _). cbn [snd]. rewrite Hl.
    destruct (decide (k.1 = id)); [cbn; lia|apply U1].
  - rewrite ledger_remove_entity_unknown by done. apply U1.
Qed.

Lemma upper_bound_add l0 cap removed ops u e tc size :
  upper_bound l0 cap removed ops u → cap ≤ U64_MAX → map_sum u + size ≤ cap →
  ∃ u', upper_bound l0 cap removed (ops ++ [LO_AddComponent e tc size]) u'.
Proof.
  intros U Hcap Hs. pose proof U as [U1 U2 U3 U4 U5 U6].
  exists (<[(e, tc) := default 0 (u !! (e, tc)) + size]> u).
  pose proof (map_sum_insert_default u (e, tc) (default 0 (u !! (e, tc)) + size)) as Hsum.
  apply (upper_bound_snoc _ _ removed _ _ u); try done.
  - intros k. cbn [apply_ledger_op]. specialize (U1 k).
    destruct (decide (e ∈ led_entities (fold_left apply_ledger_op ops l0))) as [He|He].
    + destruct (ledger_add_component_known _ e tc size He) as [_ ->].
      destruct (decide (k = (e, tc))) as [->|Hne]; [rewrite !lookup_insert_eq; cbn; lia|by rewrite !lookup_insert_ne].
    + unfold ledger_add_component. rewrite decide_False by done. cbn [snd].
      destruct (decide (k = (e, tc))) as [->|Hne]; [rewrite lookup_insert_eq; change (default 0 (Some ?x)) with x; lia|].
      by rewrite lookup_insert_ne.
  - intros k Hk. specialize (U2 k Hk). destruct (decide (k = (e, tc))) as [->|Hne]; [|by rewrite lookup_insert_ne].
    rewrite lookup_insert_eq. change (default 0 (Some ?x)) with x. lia.
  - cbn [project_ledger_op]. unfold sat_add64. lia.
  - lia.
Qed.

Lemma upper_bound_remove l0 cap removed ops u e tc size :
  upper_bound l0 cap removed ops u → cap ≤ U64_MAX → (e, tc) ∉ removed →
  ∃ u', upper_bound l0 cap ((e, tc) :: removed) (ops ++ [LO_RemoveComponent e tc size]) u'.
Proof.
  intros U Hcap Hnew. pose proof U as [U1 U2 U3 U4 U5 U6]. pose proof (U2 _ Hnew) as Hle.
  exists (<[(e, tc) := default 0 (u !! (e, tc)) - default 0 (component_sizes l0 !! (e, tc))]> u).
  pose proof (map_sum_insert_default u (e, tc)
    (default 0 (u !! (e, tc)) - default 0 (component_sizes l0 !! (e, tc)))) as Hsum.
  apply (upper_bound_snoc _ _ removed _ _ u); try done.
  - intros k. cbn [apply_ledger_op]. specialize (U1 k).
    assert (default 0 (component_sizes (ledger_remove_component (fold_left apply_ledger_op ops l0) e tc size).2 !! k)
            ≤ if decide (k = (e, tc)) then 0 else default 0 (u !! k)) as Hk.
    { destruct (decide (e ∈ led_entities (fold_left apply_ledger_op ops l0))) as [He|He].
      - destruct (ledger_remove_component_known _ e tc size He) as [_ ->].
        destruct (decide (k = (e, tc))) as [->|Hne]; [by rewrite lookup_delete_eq|by rewrite lookup_delete_ne].
      - unfold ledger_remove_component. rewrite decide_False by done. cbn [snd].
        destruct (decide (k = (e, tc))) as [->|Hne]; [|done].
        destruct (component_sizes _ !! (e, tc)) eqn:E; [|done]. destruct He. by apply U5 in E. }
    destruct (decide (k = (e, tc))) as [->|Hne]; [rewrite lookup_insert_eq; lia|by rewrite lookup_insert_ne].
  - intros k [Hne Hk]%not_elem_of_cons. rewrite lookup_insert_ne by done. by apply U2.
  - cbn [project_ledger_op]. unfold sat_sub, component_size. lia.
  - lia.
Qed.

(** ** The gate loop *)

Definition removed_keys (ops : list Op) : list (EntityId * TypeCode) := omap removed_key ops.

(** An operation the budget gate lets through, removing nothing twice. *)
Lemma upper_bound_op l0 cap budget removed ops u op :
  upper_bound l0 cap removed ops u → cap ≤ U64_MAX → budget ≤ cap → budget < U64_MAX →
  projected_bytes l0 (map_sum u) op ≤ budget → (∀ k, removed_key op = Some k → k ∉ removed) →
  ∃ u', upper_bound l0 cap (removed_keys [op] ++ removed) (ops ++ staged_ledger_op op) u'.
Proof.
  intros U Hcap Hb Hlt Hp Hk. destruct op as [id owner|id|e tc bs size|e tc size| | |];
    cbn [staged_ledger_op removed_keys omap list_omap removed_key app] in *; rewrite ?app_nil_r; eauto.
  - exists u. pose proof U as []. by apply (upper_bound_snoc _ _ removed _ _ u).
  - exists u. by apply upper_bound_remove_entity.
  - apply (upper_bound_add _ _ _ _ u); [done..|]. cbn [projected_bytes] in Hp. unfold sat_add64 in Hp. lia.
  - apply (upper_bound_remove _ _ _ _ u); [done..|]. by apply Hk.
Qed.

Lemma budget_gate_pass inst stage op :
  budget_exceeded inst stage op = false → 0 < memory_budget_bytes (config inst) →
  projected_bytes (ledger inst)
    (fold_left (project_ledger_op (ledger inst)) (ledger_ops (ledger_delta stage)) (total_bytes (ledger inst))) op
  ≤ memory_budget_bytes (config inst).
Proof.
  unfold budget_exceeded. intros H Hb. rewrite decide_True in H by done.
  apply bool_decide_eq_false in H. unfold projected_component_bytes in H. lia.
Qed.

Section loop.
Context (inst_id : InstanceId) (inst : Instance_) (principal : Principal) (eff : CapabilityMask) (now : Tick).
Context (cap : N).
Hypothesis Hcap : cap ≤ U64_MAX.
Hypothesis Hbudget : 0 < memory_budget_bytes (config inst) < U64_MAX.
Hypothesis Hle : memory_budget_bytes (config inst) ≤ cap.

Definition staged_bounded (removed : list (EntityId * TypeCode)) (g : Gate) : Prop :=
  ∃ u, upper_bound (ledger inst) cap removed (ledger_ops (ledger_delta (g_stage g))) u.

Lemma gate_op_bounded removed g op g' :
  staged_bounded removed g → (∀ k, removed_key op = Some k → k ∉ removed) →
  gate_op inst_id inst principal eff now g op = Done g' → staged_bounded (removed_keys [op] ++ removed) g'.
Proof.
  intros [u U] Hk Hg. unfold gate_op in Hg.
  assert (upper_bound (ledger inst) cap (removed_keys [op] ++ removed) (ledger_ops (ledger_delta (g_stage g))) u) as Uw
    by (eapply upper_bound_weaken; [exact U|set_solver]).
  destruct (authorize _ _) as [au|] eqn:Ea; [|injection Hg as <-; by exists u].
  pose proof (authorize_Ok _ _ _ Ea) as (_ & _ & Hop & _). cbn in Hop.
  destruct (budget_exceeded inst (g_stage g) (eff_op au)) eqn:Hb; [injection Hg as <-; by exists u|].
  destruct (entity_quota_exceeded _ _ _); [injection Hg as <-; by exists u|].
  destruct (scheduled_quota_exceeded _ _ _); [injection Hg as <-; by exists u|].
  apply bind_Done in Hg as ([s' n'] & Hd & [= <-]). unfold staged_bounded. cbn [g_stage fst].
  rewrite (dispatch_ledger_ops _ _ _ _ _ _ _ Hd). apply budget_gate_pass in Hb; [|lia].
  rewrite (ub_projection _ _ _ _ _ U) in Hb. rewrite Hop in *.
  apply (upper_bound_op _ _ (memory_budget_bytes (config inst)) _ _ u); try done. lia.
Qed.

Lemma gate_loop_bounded ops removed g g' :
  staged_bounded removed g → NoDup (removed_keys ops) → (∀ k, k ∈ removed_keys ops → k ∉ removed) →
  fold_outcome (gate_op inst_id inst principal eff now) g ops = Done g' → ∃ removed', staged_bounded removed' g'.
Proof.
  revert removed g. induction ops as [|op ops IH]; intros removed g Hg Hnd Hdis Hf; cbn [fold_outcome] in Hf.
  { injection Hf as <-. eauto. }
  apply bind_Done in Hf as (g1 & Hg1 & Hf). unfold removed_keys in *. cbn [omap list_omap] in *.
  destruct (removed_key op) as [k|] eqn:Ek.
  - apply NoDup_cons in Hnd as [Hk Hnd].
    apply (IH ([k] ++ removed) g1); [|done| |done].
    + pose proof (gate_op_bounded removed g op g1 Hg) as Hb. unfold removed_keys in Hb. cbn [omap list_omap] in Hb.
      rewrite Ek in Hb. apply Hb; [|done]. intros k' [= <-]. apply Hdis. by left.
    + intros k' Hk'. apply not_elem_of_app. split; [intros ->%list_elem_of_singleton; done|].
      apply Hdis. by right.
  - apply (IH removed g1); [|done|done|done].
    pose proof (gate_op_bounded removed g op g1 Hg) as Hb. unfold removed_keys in Hb. cbn [omap list_omap] in Hb.
    rewrite Ek in Hb. by apply Hb.
Qed.

End loop.

(** ** Committing within the budget *)

Lemma apply_pairs_ledger ops i :
  ledger (fold_left apply_pair ops i) = fold_left apply_ledger_op (mirror <$> ops) (ledger i).
Proof. revert i. induction ops as [|d ops IH]; intros i; cbn [fold_left fmap list_fmap]; [done|]. by rewrite IH. Qed.

(** Every action the registry can produce removes each component at most once. *)
Definition removes_once (r : ActionRegistry) : Prop :=
  ∀ tc bs a ctx ops, resolve r tc bs = Some (Ok a) → compute_dyn a ctx = Done ops → NoDup (removed_keys ops).

(** The ledger is the exact sum, of known entities' rows, and below [cap]. *)
Definition ledger_within (cap : N) (l : ResourceLedger) : Prop :=
  ledger_closed l ∧ ledger_exact l ∧ total_bytes l ≤ cap.

Section budget.
Context `{Postcard InstanceSnapshot} {B3 : Blake3}.

Lemma step_ends_budget cap inst_id inst1 e registry scratch now session m core inst2 scratch' :
  removes_once registry → 0 < memory_budget_bytes (config inst1) < U64_MAX →
  memory_budget_bytes (config inst1) ≤ cap → cap ≤ U64_MAX → ledger_within cap (ledger inst1) →
  step_ends inst_id inst1 e registry scratch now session m core inst2 scratch' → ledger_within cap (ledger inst2).
Proof.
  intros Hro Hb Hle Hcap Hl He. destruct He as [| | |a ops g inst2 st2 Hr Ho Hg [G1 _ _ _ _] _ Ha]; try done.
  destruct (commit_fields _ _ _ _ _ _ _ G1 Ha) as (_ & _ & (_ & _ & El) & _).
  rewrite apply_pairs_ledger, <- (so_mirror _ _ _ G1) in El. change (ledger (apply_counters ?i _)) with (ledger i) in El.
  destruct Hl as (Hc & Hx & Ht).
  destruct (gate_loop_bounded inst_id inst1 (se_principal e) (resolved_caps inst1 e session) now cap Hcap Hb Hle
    ops [] (mkGate (clear scratch) (next_scheduled (id_counters inst1)) false 0 0) g) as (removed & u & U); [| | |exact Hg|].
  - eexists. by apply upper_bound_start.
  - by eapply Hro.
  - intros k _ Hk. by apply elem_of_nil in Hk.
  - unfold ledger_within. rewrite El. split_and!; [by eapply ub_closed|by eapply ub_exact|by eapply upper_bound_total].
Qed.

(** The memory budget. When every action removes each component at most
    once, a step keeps the ledger an exact account and never lifts its total
    over [memory_budget_bytes]: the total after the step is at most the budget
    or the total before it, whatever the operations, their declared sizes and
    their order. *)
Theorem step_memory_budget inst_id inst registry scratch now session m core inst2 scratch' :
  computes_total registry → removes_once registry → next_scheduled (id_counters inst) ≤ U64_MAX →
  0 < memory_budget_bytes (config inst) < U64_MAX →
  ledger_closed (ledger inst) → ledger_exact (ledger inst) → total_bytes (ledger inst) ≤ U64_MAX →
  step_one_core inst_id inst registry scratch now session m = Done (Some core, inst2, scratch') →
  ledger_exact (ledger inst2) ∧
  total_bytes (ledger inst2) ≤ N.max (total_bytes (ledger inst)) (memory_budget_bytes (config inst)).
Proof.
  intros Hct Hro Hle Hb Hc Hx Ht Hs. destruct (step_one_core_cases inst_id inst registry scratch now session m Hct Hle)
    as [[Heq _]|(key & e & core' & inst2' & sc' & Hf & _ & Heq & He)]; rewrite Hs in Heq; [done|].
  injection Heq as <- <- <-.
  destruct (step_ends_budget (N.max (total_bytes (ledger inst)) (memory_budget_bytes (config inst))) inst_id
    (with_scheduler inst (sched_remove (scheduler inst) key e)) e registry scratch now session m core inst2 scratch')
    as (_ & H2 & H3); cbn [with_scheduler config ledger]; [done|done|lia|lia|split_and!; [done|done|lia]|exact He|done].
Qed.

(** ** Sessions within limits *)

(** The configured limits of an instance hold: entity count, queue depth and,
    under a condition [once] on the actions, byte budget (with an exact
    ledger). A limit of 0 is no limit. *)
Record within_limits (once : Prop) (i : Instance_) : Prop := {
  wl_entities : 0 < max_entities (config i) ≤ U64_MAX → entities_len i ≤ max_entities (config i);
  wl_scheduled : 0 < max_scheduled (config i) ≤ U64_MAX → Scheduler_len (scheduler i) ≤ max_scheduled (config i);
  wl_budget : once → 0 < memory_budget_bytes (config i) < U64_MAX →
    ledger_within (memory_budget_bytes (config i)) (ledger i)
}.

Lemma within_limits_new once id cfg : within_limits once (Instance_new id cfg).
Proof.
  split; cbn.
  - intros _. unfold entities_len. cbn. rewrite map_size_empty. lia.
  - intros _. unfold Scheduler_len. cbn. rewrite map_size_empty. lia.
  - intros _ _. split_and!; [apply ledger_new_closed|done|cbn; lia].
Qed.

(** The limits are about four fields. *)
Lemma within_limits_ext once i i' :
  config i' = config i → entities i' = entities i → scheduler i' = scheduler i → ledger i' = ledger i →
  within_limits once i → within_limits once i'.
Proof. intros E1 E2 E3 E4 [L1 L2 L3]. unfold entities_len in *. split; unfold entities_len; by rewrite E1, ?E2, ?E3, ?E4. Qed.

Lemma step_ends_limits once inst_id inst key e registry scratch now session m core inst2 scratch' :
  (once → removes_once registry) → within_limits once inst → first_key_value (ready (scheduler inst)) = Some (key, e) →
  step_ends inst_id (with_scheduler inst (sched_remove (scheduler inst) key e)) e registry scratch now session m
    core inst2 scratch' → within_limits once inst2.
Proof.
  intros Hro [L1 L2 L3] Hf He. destruct (step_ends_quotas _ _ _ _ _ _ _ _ _ _ _ _ Hf He) as [Q1 Q2].
  destruct (step_ends_frame _ _ _ _ _ _ _ _ _ _ _ He) as (_ & Ec & _). cbn [with_scheduler config] in Ec.
  split; rewrite Ec.
  - intros Hq. specialize (Q1 Hq). specialize (L1 Hq). lia.
  - intros Hq. specialize (Q2 Hq). specialize (L2 Hq). lia.
  - intros Ho Hb. eapply (step_ends_budget (memory_budget_bytes (config inst))); [exact (Hro Ho)| | | | |exact He]; cbn; [done|lia|lia|by apply L3].
Qed.

Lemma route_all_limits {PW : Postcard WalRecordBody} {SS : SigSchemes} once from insts sigs :
  map_Forall (λ _, within_limits once) insts → map_Forall (λ _, within_limits once) (route_all from insts sigs).
Proof.
  revert insts. induction sigs as [|s sigs IH]; intros insts Hi; [done|]. apply IH.
  destruct (route_signal_cases from insts s) as [->|(target & Ht & _ & ->)]; [done|].
  apply map_Forall_insert_2; [|done]. by apply (within_limits_ext _ target), (Hi _ _ Ht).
Qed.

End budget.

Section sessions.
Context `{Postcard InstanceSnapshot, Postcard WalRecordBody} {B3 : Blake3} {SS : SigSchemes}.

(** The kernel invariant with the limits. *)
Record limits_inv (once : Prop) (k : Kernel) : Prop := {
  li_inv : kernel_inv false k;
  li_removes : once → removes_once (action_registry k);
  li_limits : map_Forall (λ _, within_limits once) (instances k)
}.

Lemma process_limits once k id now session m r k' :
  limits_inv once k → process_instance_record k id now session m = Done (r, k') → limits_inv once k'.
Proof.
  intros [Hk Hro Hl] Hp. pose proof Hk as [K1 K2].
  destruct (process_inv false k id now session m Hk) as (r1 & k1 & Hp1 & Hk1 & (Hreg & _) & _).
  rewrite Hp in Hp1. injection Hp1 as <- <-. split; [done|by rewrite Hreg|].
  destruct (process_cases k id now session m K2) as
    [(k1 & Hp1 & Hi & _)|(i & key & e & core & i' & sc & n & k1 & Ei & Hf & _ & _ & He & Hp1 & Hi & _)];
    [intros i Ei; apply (K1 id i Ei)| |]; rewrite Hp in Hp1; injection Hp1 as -> ->; rewrite Hi; [done|].
  apply route_all_limits, map_Forall_insert_2; [|done].
  by eapply step_ends_limits; [exact Hro|exact (Hl id i Ei)|exact Hf|exact He].
Qed.

Lemma limits_inv_ext once k k' :
  instances k' = instances k → action_registry k' = action_registry k → limits_inv once k → limits_inv once k'.
Proof. intros E1 E2 [L1 L2 L3]. split; [by apply (kernel_inv_ext false k)|by rewrite E2|by rewrite E1]. Qed.

Lemma step_instance_limits once now caps m st id st' :
  limits_inv once st.2 → step_instance now caps m st id = Done st' → limits_inv once st'.2.
Proof.
  intros Hl Hs. unfold step_instance in Hs. apply bind_Done in Hs as ([r q] & Hp & Hs).
  pose proof (process_limits _ _ _ _ _ _ _ _ Hl Hp) as Hq.
  destruct r as [x|]; injection Hs as <-; cbn [snd]; [|done]. destruct (wal q); [|done].
  by apply (limits_inv_ext _ q).
Qed.

(** The admission test keeps the queue within its quota. *)
Lemma submit_limits once k instance p a c t tc bs r k' :
  map_Forall (λ _, within_limits once) (instances k) → submit k instance p a c t tc bs = Done (r, k') →
  map_Forall (λ _, within_limits once) (instances k').
Proof.
  intros Hl Hs. unfold submit in Hs. destruct (instances k !! instance) as [i|] eqn:Ei; [|by injection Hs as <- <-].
  destruct (decide _) as [|Hroom]; [by injection Hs as <- <-|].
  apply bind_Done in Hs as (id & _ & [= <- <-]).
  match goal with |- map_Forall _ (instances ?k2) => assert (∃ i', instances k2 = <[instance := i']> (instances k) ∧
    config i' = config i ∧ entities i' = entities i ∧ ledger i' = ledger i ∧
    (Scheduler_len (scheduler i') ≤ Scheduler_len (scheduler i) + 1)) as (i' & -> & E1 & E2 & E3 & E4) end.
  { eexists. split; [cbn; by destruct (wal k)|]. split_and!; [done..|]. cbn [with_scheduler with_id_counters scheduler].
    unfold Scheduler_len. pose proof (schedule_with_id_size (scheduler i) id t a p c tc bs). lia. }
  apply map_Forall_insert_2; [|done]. destruct (Hl _ _ Ei) as [L1 L2 L3].
  split; unfold entities_len; rewrite E1, ?E2, ?E3; [done| |done]. intros Hq. specialize (L2 Hq). lia.
Qed.

Lemma run_call_limits once k c k' : limits_inv once k → run_call k c = Done k' → limits_inv once k'.
Proof.
  intros Hk Hr. pose proof Hk as [Hi Hro Hl].
  destruct (run_call_inv false k c Hi) as (k1 & Hr1 & Hi1 & Hreg); [done|]. rewrite Hr in Hr1. injection Hr1 as <-.
  split; [done|by rewrite Hreg|].
  destruct c as [cfg|obs mask|inst p a cp t tc bs|now caps|route caps]; cbn [run_call] in Hr.
  - apply bind_Done in Hr as ([id q] & Hr & [= <-]). unfold create_instance in Hr.
    apply bind_Done in Hr as (id' & _ & [= <- <-]). cbn. apply map_Forall_insert_2; [apply within_limits_new|done].
  - by injection Hr as <-.
  - apply bind_Done in Hr as ([x q] & Hr & [= <-]). by eapply submit_limits.
  - apply bind_Done in Hr as ([rep q] & Hr & [= <-]). unfold step in Hr.
    apply (fold_outcome_inv (λ st, limits_inv once st.2)) in Hr; [by destruct Hr|done|].
    intros st id st' _ Hst Hs. by eapply step_instance_limits.
  - injection Hr as <-. unfold force_unload. destruct (negb _); [done|]. destruct (deliver _ _) as [gone obs]. cbn.
    intros id i (j & <- & Hj)%lookup_fmap_Some. by apply (within_limits_ext _ j), (Hl id j Hj).
Qed.

(** C14: sessions stay within limits. Start from a kernel whose instances
    respect their configured limits and whose actions compute without
    panicking. After any sequence of calls (instance creation, observers,
    submissions of arbitrary bytes, steps, forced unloads), every instance, old
    or new, has at most [max_entities] entities and at most [max_scheduled]
    queued actions, for each limit that is set. If moreover no registered
    action removes one component twice, every ledger is exact and at most
    [memory_budget_bytes]; without that condition the byte budget can be
    exceeded. *)
Theorem session_within_limits k cs k' id i :
  let once := removes_once (action_registry k) in
  kernel_inv false k → map_Forall (λ _, within_limits once) (instances k) →
  run_calls k cs = Done k' → instances k' !! id = Some i →
  (0 < max_entities (config i) ≤ U64_MAX → entities_len i ≤ max_entities (config i)) ∧
  (0 < max_scheduled (config i) ≤ U64_MAX → Scheduler_len (scheduler i) ≤ max_scheduled (config i)) ∧
  (once → 0 < memory_budget_bytes (config i) < U64_MAX →
   ledger_exact (ledger i) ∧ total_bytes (ledger i) ≤ memory_budget_bytes (config i)).
Proof.
  intros once Hk Hl Hr Hi. assert (limits_inv once k') as [_ _ Hl'].
  { apply (fold_outcome_inv (limits_inv once)) in Hr; [done|by split|].
    intros q c q' _ Hq Hc. by eapply run_call_limits. }
  destruct (Hl' id i Hi) as [L1 L2 L3]. split_and!; [done|done|].
  intros Ho Hb. by destruct (L3 Ho Hb) as (_ & ? & ?).
Qed.

End sessions.

(** ** Repeated removals *)







Section repeated.
Context `{Postcard InstanceSnapshot} {B3 : Blake3}.
Context (inst_id : InstanceId) (inst : Instance_) (registry : ActionRegistry) (scratch : StepStage).
Context (now : Tick) (session : CapabilityMask) (m : bool) (key : SchedKey) (e : ScheduledEntry).
Hypothesis Hcompute : computes_total registry.
Hypothesis Hcounter : next_scheduled (id_counters inst) ≤ U64_MAX.
Hypothesis Hwidth : max_entities (config inst) ≤ U64_MAX ∧ max_scheduled (config inst) ≤ U64_MAX.
Hypothesis Hfirst : first_key_value (ready (scheduler inst)) = Some (key, e).
Hypothesis Hdue : key_at key ≤ now.

#[local] Notation inst1 := (with_scheduler inst (sched_remove (scheduler inst) key e)).
#[local] Notation eff := (resolved_caps inst e session).



End repeated.

(** ** Witnesses *)

Lemma removes_once_register A `{Derived A, ActionCompute A} r :
  (∀ (a : A) ctx ops, compute a ctx = Done ops → NoDup (removed_keys ops)) → removes_once r →
  removes_once (register A r).
Proof.
  intros Ha Hr tc bs a ctx ops. unfold resolve, registry_get, register. cbn [by_type_code].
  destruct (decide (TYPE_CODE (A := A) = tc)) as [->|Hne].
  - rewrite lookup_insert_eq. cbn. intros [= Heq]. apply bind_Ok in Heq as (x & _ & [= <-]). apply Ha.
  - rewrite lookup_insert_ne by done. apply (Hr tc bs a ctx).
Qed.

Lemma script_registry_removes ops : NoDup (removed_keys ops) → removes_once (script_registry ops).
Proof.
  intros Hnd. apply removes_once_register.
  - intros a ctx ops' [= <-]. exact Hnd.
  - intros tc bs a ctx ops' Hr. unfold resolve, registry_get in Hr. cbn in Hr. by rewrite lookup_empty in Hr.
Qed.

#[local] Instance ex_snapshot_postcard : Postcard InstanceSnapshot :=
  constant_postcard (to_snapshot (Instance_new 1 InstanceConfig_default)).
#[local] Instance ex_body_postcard : Postcard WalRecordBody := countable_postcard.
#[local] Instance ex_blake3 : Blake3 := tail_blake3.
#[local] Instance ex_sigs : SigSchemes := toy_sigs false.

(** Two live 100-byte components under a 200-byte budget. *)
Definition ex_full : Instance_ :=
  fold_left apply_pair
    [SD_SpawnEntity 1 (mkMeta System 0); SD_SetComponent 1 1 [] 100; SD_SetComponent 1 2 [] 100]
    (ex_inst 1).



(** One removal, a write that would break the budget of 200, one that fits. *)
Definition ex_budget_ops : list Op :=
  [RemoveComponent 1 1 100; SetComponent 1 3 [] 150; SetComponent 1 4 [] 60].

Lemma step_memory_budget_witness :
  ∃ core inst2 scratch',
    step_one_core 1 ex_full (script_registry ex_budget_ops) StepStage_default 5 1 false
      = Done (Some core, inst2, scratch') ∧
    core_verdict core = BudgetPartial 1 ∧ total_bytes (ledger inst2) = 160 ∧
    total_bytes (ledger inst2) ≤ N.max (total_bytes (ledger ex_full)) 200.
Proof.
  destruct (step_one_core 1 ex_full (script_registry ex_budget_ops) StepStage_default 5 1 false)
    as [[[[core|] inst2] sc]|] eqn:Hs; try (vm_compute in Hs; discriminate Hs).
  exists core, inst2, sc. split; [reflexivity|].
  split; [vm_compute in Hs; injection Hs as <- _ _; reflexivity|].
  split; [vm_compute in Hs; injection Hs as _ <- _; reflexivity|].
  assert (NoDup (removed_keys ex_budget_ops)) as Hnd by (repeat constructor; set_solver).
  assert (ledger_closed (ledger ex_full)) as Hc
    by exact (co_closed _ (apply_pairs_consistent _ (ex_inst 1) (inv_consistent _ (ex_inst_inv 1)))).
  refine (proj2 (step_memory_budget 1 ex_full (script_registry ex_budget_ops) StepStage_default 5 1 false core inst2 sc
    (script_registry_total _) (script_registry_removes _ Hnd) _ _ Hc _ _ Hs)).
  - vm_compute. discriminate.
  - split; vm_compute; reflexivity.
  - vm_compute. reflexivity.
  - vm_compute. discriminate.
Defined.

(** Two entities per action under a limit of one, and a write over budget. *)
Definition ex_greedy : list Op :=
  [SpawnEntity 1 System; SpawnEntity 2 System; SetComponent 1 1 [] 70; SetComponent 1 2 [] 70].
Definition ex_limited : Kernel :=
  mkKernel _ ∅ (script_registry ex_greedy) ObserverRegistry_new 0 zero32 None StepStage_default.
Definition ex_greedy_session : list KernelCall :=
  [CallCreate (mkConfig 15 1 2 0 100 None Reject);
   CallSubmit 1 System None 15 0 1 []; CallSubmit 1 System None 15 0 1 []; CallSubmit 1 System None 15 0 1 [];
   CallStep 5 15].

Lemma session_within_limits_witness :
  ∃ k' i, run_calls ex_limited ex_greedy_session = Done k' ∧ instances k' !! 1%positive = Some i ∧
    entities_len i = 1 ∧ Scheduler_len (scheduler i) = 1 ∧ total_bytes (ledger i) = 70 ∧ total_bytes (ledger i) ≤ 100.
Proof.
  destruct (run_calls ex_limited ex_greedy_session) as [k'|] eqn:Hr; [|vm_compute in Hr; discriminate Hr].
  destruct (instances k' !! 1%positive) as [i|] eqn:Hi;
    [|vm_compute in Hr; injection Hr as <-; vm_compute in Hi; discriminate Hi].
  assert (entities_len i = 1 ∧ Scheduler_len (scheduler i) = 1 ∧ total_bytes (ledger i) = 70 ∧
          memory_budget_bytes (config i) = 100) as (E1 & E2 & E3 & E4).
  { vm_compute in Hr. injection Hr as <-. vm_compute in Hi. injection Hi as <-. repeat split. }
  exists k', i. split; [reflexivity|]. split; [exact Hi|]. split; [exact E1|]. split; [exact E2|]. split; [exact E3|].
  assert (NoDup (removed_keys ex_greedy)) as Hnd by constructor.
  rewrite <- E4. refine (proj2 (proj2 (proj2 (session_within_limits ex_limited ex_greedy_session k' 1 i
    _ (map_Forall_empty _) Hr Hi)) (script_registry_removes _ Hnd) _)).
  - split; [apply map_Forall_empty|apply script_registry_total].
  - rewrite E4. split; reflexivity.
Defined.
