(* ===== verification/Progress.v ===== *)
(** * Progress

    What repeated rounds of [Kernel::step]
    ([src/arkhe-kernel/src/runtime/kernel.rs]) achieve: when the session
    ceiling withholds [SYSTEM], no action can extend any queue, and each round
    moves every instance exactly one due entry forward. *)
From S2P Require Import Prelude Abi Quota Extern Authz Ledger Scheduler Instance Event.
From S2P Require Import Observer Stage Dispatch Apply Signature Wal Registry Step Kernel.

Local Open Scope N_scope.

(** The due entries of a queue, in execution order. *)
Definition due_rows (now : Tick) (s : Scheduler) : list (SchedKey * ScheduledEntry) :=
  filter (λ row, key_at row.1 ≤ now) (btree_iter (ready s)).

(** The queue without its first row, if that row is due. *)
Definition pop_first (now : Tick) (s : Scheduler) : Scheduler :=
  match first_key_value (ready s) with
  | Some (key, e) => if decide (key_at key ≤ now) then sched_remove s key e else s
  | None => s
  end.

Lemma due_rows_pop now s : due_rows now (pop_first now s) = tail (due_rows now s).
Proof.
  unfold pop_first, due_rows. destruct (first_key_value (ready s)) as [[key e]|] eqn:Ef.
  - rewrite (btree_iter_first _ _ _ Ef), filter_cons. cbn [fst].
    destruct (decide (key_at key ≤ now)) as [Hd|Hd]; [done|].
    rewrite (btree_iter_first _ _ _ Ef), filter_cons. cbn [fst]. rewrite decide_False by done.
    apply first_key_value_Some in Ef as [_ Hmin]. rewrite filter_none; [done|].
    intros [k a] Hin. cbn [fst]. apply elem_of_btree_iter, lookup_delete_Some in Hin as [_ Hin].
    specialize (Hmin k ltac:(eauto)). cbn in Hmin. unfold SchedKey_le in Hmin. lia.
  - apply first_key_value_None in Ef. rewrite Ef. unfold btree_iter. by rewrite map_to_list_empty.
Qed.

Lemma pop_first_future now s key e : now < key_at key → ready (pop_first now s) !! key = Some e ↔ ready s !! key = Some e.
Proof.
  intros Hf. unfold pop_first. destruct (first_key_value (ready s)) as [[k a]|]; [|done].
  destruct (decide (key_at k ≤ now)); [|done]. cbn [sched_remove ready]. rewrite lookup_delete_ne; [done|].
  intros ->. lia.
Qed.

Lemma tail_of_drop {A} n (l : list A) : tail (drop n l) = drop (S n) l.
Proof. revert l. induction n as [|n IH]; intros [|x l]; cbn; [done..|]. apply IH. Qed.

Lemma due_rows_pops now n s : due_rows now (Nat.iter n (pop_first now) s) = drop n (due_rows now s).
Proof.
  induction n as [|n IH]; [done|]. by rewrite Nat.iter_succ, due_rows_pop, IH, tail_of_drop.
Qed.

Lemma pops_future now n s key e :
  now < key_at key → ready (Nat.iter n (pop_first now) s) !! key = Some e ↔ ready s !! key = Some e.
Proof. intros Hf. induction n as [|n IH]; [done|]. by rewrite Nat.iter_succ, pop_first_future. Qed.

Section progress.
Context `{Postcard InstanceSnapshot, Postcard WalRecordBody} {B3 : Blake3} {SS : SigSchemes}.

(** Without [SYSTEM] a step leaves the queue popped and sends nothing. *)
Lemma step_ends_unprivileged inst_id inst1 e registry scratch now session m core inst2 scratch' :
  ¬ SYSTEM ⊑c session → step_ends inst_id inst1 e registry scratch now session m core inst2 scratch' →
  scheduler inst2 = scheduler inst1 ∧ core_pending_signals core = [].
Proof.
  intros Hs He. destruct He as [| | |a ops g inst2 st2 _ _ _ Hok _ Ha]; try done.
  assert (schedule_deltas (g_stage g) = [] ∧ pending_signals (g_stage g) = []) as [Hd Hp].
  { destruct Hok as [_ _ _ _ G5].
    assert (¬ SYSTEM ⊑c resolved_caps inst1 e session) as Hno.
    { intros Hc. apply Hs. etransitivity; [exact Hc|]. apply caps_and_le_r. }
    destruct (schedule_deltas (g_stage g)), (pending_signals (g_stage g)); try done;
      exfalso; apply Hno, G5; (by left) || (by right). }
  destruct (commit_fields _ _ _ _ _ _ _ (go_stage _ _ _ _ Hok) Ha) as (_ & Hsch & _).
  rewrite Hd in Hsch. cbn [fold_outcome] in Hsch. injection Hsch as Hsch. done.
Qed.

Lemma process_pops k id now session m r k' :
  kernel_inv false k → ¬ SYSTEM ⊑c session → process_instance_record k id now session m = Done (r, k') →
  ∀ id', scheduler <$> instances k' !! id'
    = (if decide (id' = id) then pop_first now else λ s, s) <$> (scheduler <$> instances k !! id').
Proof.
  intros [K1 K2] Hs Hp id'.
  destruct (process_cases k id now session m K2) as
    [(k1 & Hp1 & Hi & _ & Hn)|(i & key & e & core & i' & sc & n & k1 & Ei & Hf & Hat & _ & He & Hp1 & Hi & _)];
    [intros i Ei; apply (K1 id i Ei)| |]; rewrite Hp in Hp1; injection Hp1 as -> ->; rewrite Hi.
  - destruct (decide (id' = id)) as [->|_]; [|by destruct (instances k !! id')].
    destruct (instances k !! id) as [i|] eqn:Ei; [|done]. cbn. f_equal. unfold pop_first.
    destruct (first_key_value (ready (scheduler i))) as [[key e]|] eqn:Ef; [|done].
    apply first_row in Ef. assert (now < key_at key) by (apply (Hn i eq_refl); eauto).
    rewrite decide_False by lia. done.
  - destruct (step_ends_unprivileged _ _ _ _ _ _ _ _ _ _ _ Hs He) as [E1 ->]. cbn [route_all fold_left].
    destruct (decide (id' = id)) as [->|Hne].
    + rewrite lookup_insert_eq, Ei. cbn. rewrite E1. cbn. unfold pop_first. by rewrite Hf, decide_True.
    + rewrite lookup_insert_ne by done. by destruct (instances k !! id').
Qed.

Lemma step_loop_pops now caps m ids rep k :
  NoDup ids → kernel_inv false k → ¬ SYSTEM ⊑c caps →
  ∃ rep' k', fold_outcome (step_instance now caps m) (rep, k) ids = Done (rep', k') ∧ kernel_inv false k' ∧
    ∀ id, scheduler <$> instances k' !! id
      = (if decide (id ∈ ids) then pop_first now else λ s, s) <$> (scheduler <$> instances k !! id).
Proof.
  revert rep k. induction ids as [|id ids IH]; intros rep k Hnd Hk Hs; cbn [fold_outcome].
  { exists rep, k. split_and!; [done|done|]. intros id. rewrite decide_False by (intros Hn; by apply elem_of_nil in Hn).
    by destruct (instances k !! id). }
  apply NoDup_cons in Hnd as [Hid Hnd].
  destruct (step_instance_inv false now caps m (rep, k) id Hk) as ([rep1 k1] & Hst & Hk1 & _).
  rewrite Hst. cbn [mbind Outcome_bind]. destruct (IH rep1 k1 Hnd Hk1 Hs) as (rep' & k' & -> & Hk' & Hall).
  exists rep', k'. split_and!; [done|done|]. intros id'. rewrite Hall.
  unfold step_instance in Hst. apply bind_Done in Hst as ([r q] & Hp & Hst). cbn [snd] in Hp.
  assert (instances k1 = instances q) as -> by (destruct r; injection Hst as _ <-; [destruct (wal q)|]; done).
  rewrite (process_pops _ _ _ _ _ _ _ Hk Hs Hp id'). destruct (decide (id' = id)) as [->|Hne].
  - rewrite decide_False by done. rewrite (decide_True (P := id ∈ id :: ids)) by left. by destruct (instances k !! id).
  - destruct (decide (id' ∈ ids)).
    + rewrite (decide_True (P := id' ∈ id :: ids)) by (by right). by destruct (instances k !! id').
    + rewrite (decide_False (P := id' ∈ id :: ids)) by (by apply not_elem_of_cons). by destruct (instances k !! id').
Qed.

Lemma step_pops k now caps :
  kernel_inv false k → ¬ SYSTEM ⊑c caps →
  ∃ k', run_call k (CallStep now caps) = Done k' ∧ kernel_inv false k' ∧
    ∀ id, scheduler <$> instances k' !! id = pop_first now <$> (scheduler <$> instances k !! id).
Proof.
  intros Hk Hs. cbn [run_call]. unfold step.
  destruct (step_loop_pops now caps (match wal k with Some _ => true | None => false end) (btree_keys (instances k))
    StepReport_default k (btree_keys_NoDup _) Hk Hs) as (rep & k' & -> & Hk' & Hall).
  exists k'. split_and!; [done|done|]. intros id. rewrite Hall.
  destruct (instances k !! id) as [i|] eqn:Ei; [|done]. rewrite decide_True; [done|].
  apply elem_of_btree_keys. eauto.
Qed.

(** C26: progress. Under a session ceiling without [SYSTEM], [n] rounds of
    [step] at one tick never panic and execute, in every instance, exactly
    its [n] first due entries in [(tick, sequence, id)] order; entries that
    are not due stay. So as many rounds as the longest queue has due entries
    leave nothing due anywhere. *)
Theorem rounds_drain k now caps n :
  kernel_inv false k → ¬ SYSTEM ⊑c caps →
  ∃ k', run_calls k (replicate n (CallStep now caps)) = Done k' ∧
    dom (instances k') = dom (instances k) ∧
    ∀ id i i', instances k !! id = Some i → instances k' !! id = Some i' →
      due_rows now (scheduler i') = drop n (due_rows now (scheduler i)) ∧
      (∀ key e, now < key_at key → ready (scheduler i') !! key = Some e ↔ ready (scheduler i) !! key = Some e).
Proof.
  intros Hk Hs. assert (∃ k', run_calls k (replicate n (CallStep now caps)) = Done k' ∧ kernel_inv false k' ∧
    ∀ id, scheduler <$> instances k' !! id = Nat.iter n (pop_first now) <$> (scheduler <$> instances k !! id))
    as (k' & Hr & _ & Hall).
  { clear -Hk Hs. unfold run_calls. revert k Hk. induction n as [|n IH]; intros k Hk; cbn [replicate fold_outcome].
    - exists k. split_and!; [done|done|]. intros id. by destruct (instances k !! id).
    - destruct (step_pops k now caps Hk Hs) as (k1 & -> & Hk1 & H1). cbn [mbind Outcome_bind].
      destruct (IH k1 Hk1) as (k' & -> & Hk' & Hall). exists k'. split_and!; [done|done|].
      intros id. rewrite Hall, H1. destruct (instances k !! id) as [i|]; [|done].
      cbn [fmap option_fmap option_map]. by rewrite Nat.iter_succ_r. }
  exists k'. split_and!; [done| |].
  - apply set_eq. intros id. rewrite !elem_of_dom. specialize (Hall id).
    destruct (instances k !! id), (instances k' !! id); cbn in Hall; try done; split; intros [? ?]; by eauto.
  - intros id i i' Hi Hi'. specialize (Hall id). rewrite Hi, Hi' in Hall. injection Hall as ->.
    split; [apply due_rows_pops|]. intros key e Hf. by apply pops_future.
Qed.

End progress.

(** ** Witness *)

#[local] Instance ex_snapshot_postcard : Postcard InstanceSnapshot :=
  constant_postcard (to_snapshot (Instance_new 1 InstanceConfig_default)).
#[local] Instance ex_body_postcard : Postcard WalRecordBody := countable_postcard.
#[local] Instance ex_blake3 : Blake3 := tail_blake3.
#[local] Instance ex_sigs : SigSchemes := toy_sigs false.

(** An instance with three entries, two of them due at tick 5; the action
    tries to schedule a child. *)
Definition ex_queue : Kernel :=
  mkKernel _
    {[1%positive := with_scheduler (with_id_counters (ex_inst 1) (mkCounters 0 3 0))
        (schedule_with_id (schedule_with_id (scheduler (ex_inst 1)) 2 9 None System 1 1 []) 3 4 None System 1 1 [])]}
    (script_registry [ScheduleAction 0 None 1 []]) ObserverRegistry_new 1 zero32 None StepStage_default.

Lemma rounds_drain_witness :
  ∃ k' i', run_calls ex_queue (replicate 2 (CallStep 5 0)) = Done k' ∧ instances k' !! 1%positive = Some i' ∧
    due_rows 5 (scheduler i') = [].
Proof.
  assert (kernel_inv false ex_queue) as Hk.
  { split; [|apply script_registry_total]. apply map_Forall_singleton. split; [|discriminate].
    split; [split; [apply (consistent_ext (Instance_new 1 ex_config)); [reflexivity..|apply consistent_new]|vm_compute; discriminate|]
           |reflexivity|].
    - intros _ _. split; [|vm_compute; discriminate].
      repeat (apply schedule_with_id_wf; [|reflexivity|reflexivity]). apply Scheduler_new_wf.
    - split; [intros route Hq; vm_compute in Hq; discriminate Hq|].
      intros _ route sigs Hs. cbn in Hs. rewrite lookup_empty in Hs. discriminate Hs. }
  destruct (rounds_drain ex_queue 5 0 2 Hk) as (k' & Hr & Hd & Hall); [intros Hc%caps_contains_spec; vm_compute in Hc; discriminate Hc|].
  destruct (instances k' !! 1%positive) as [i'|] eqn:Hi.
  - exists k', i'. split; [exact Hr|]. split; [exact Hi|].
    rewrite (proj1 (Hall 1%positive _ i' (lookup_singleton_eq _ _) Hi)). vm_compute. reflexivity.
  - apply not_elem_of_dom in Hi. rewrite Hd in Hi. destruct Hi. vm_compute. reflexivity.
Defined.
