(* ===== verification/Isolation.v ===== *)
(** * Instance isolation

    One kernel of [src/arkhe-kernel/src/runtime/kernel.rs] hosts many
    instances; they share the registry, the log, the observers and the scratch
    stage, and send each other signals. This file proves what is left of that
    coupling: everything of an instance but its mailbox (the inbox, its
    counter and the in-flight counts) is a function of its own past, the calls
    addressed to it and the ticks. The proof goes through a machine with one
    instance, [solo_run], that every session projects to. *)
From S2P Require Import Prelude Abi Quota Extern Authz Ledger Scheduler Instance Event.
From S2P Require Import Observer Stage Dispatch Apply Signature Wal Registry Step Kernel.

Local Open Scope N_scope.

(** ** The private part of an instance *)

(** The mailbox is what the router and [force_unload] write. *)
Definition with_mailbox (i : Instance_) (refs : gmap RouteId N) (inbox : gmap RouteId (list InboundSignal)) (sq : N)
    : Instance_ :=
  mkInstance (inst_id i) (config i) (entities i) (components i) (scheduler i) (id_counters i) (ledger i)
    refs inbox sq (wall_remainder i) (local_tick i).

(** The instance with an empty mailbox. *)
Definition private (i : Instance_) : Instance_ := with_mailbox i ∅ ∅ 0.

(** What an action can read of its context ([state/context.rs]): the three
    public fields and the three accessors; the instance itself is
    [pub(crate)]. *)
Definition ctx_visible (c : ActionContext) : option EntityId * Tick * InstanceId * N * N * N :=
  (ctx_actor c, ctx_now c, ctx_instance_id c, ctx_entities_len c, ctx_components_len c, ctx_local_tick c).

(** Actions are written against that surface. *)
Definition accessors_only (r : ActionRegistry) : Prop :=
  ∀ tc bs a c1 c2, resolve r tc bs = Some (Ok a) → ctx_visible c1 = ctx_visible c2 →
    compute_dyn a c1 = compute_dyn a c2.

Lemma accessors_only_register A `{Derived A, ActionCompute A} r :
  (∀ (a : A) c1 c2, ctx_visible c1 = ctx_visible c2 → compute a c1 = compute a c2) →
  accessors_only r → accessors_only (register A r).
Proof.
  intros Ha Hr tc bs a c1 c2. unfold resolve, registry_get, register. cbn [by_type_code].
  destruct (decide (TYPE_CODE (A := A) = tc)) as [->|Hne].
  - rewrite lookup_insert_eq. cbn. intros [= Heq]. apply bind_Ok in Heq as (x & _ & [= <-]). apply Ha.
  - rewrite lookup_insert_ne by done. apply (Hr tc bs a c1 c2).
Qed.

Lemma accessors_only_new : accessors_only ActionRegistry_new.
Proof. intros tc bs a c1 c2 H. unfold resolve, registry_get in H. cbn in H. by rewrite lookup_empty in H. Qed.

(** ** A step does not read the mailbox *)

Lemma apply_state_ops_private ops i :
  fold_left apply_state_op ops (private i) = private (fold_left apply_state_op ops i).
Proof.
  revert i. induction ops as [|op ops IH]; intros i; cbn [fold_left]; [done|]. rewrite <- IH. f_equal.
  destruct op; cbn [apply_state_op]; try done. change (entity_meta (private i)) with (entity_meta i).
  by destruct (entity_meta i entity).
Qed.

Lemma apply_stage_private i st sigs i' st' :
  apply_stage i st = Done (sigs, i', st') → apply_stage (private i) st = Done (sigs, private i', st').
Proof.
  unfold apply_stage. change (apply_counters (private i) (stage_id_counters st))
    with (private (apply_counters i (stage_id_counters st))).
  rewrite apply_state_ops_private. set (j := fold_left apply_state_op _ _).
  intros Ha. apply bind_Done in Ha as (s & Hs & Ha). injection Ha as <- <- <-.
  cbn [with_ledger with_mailbox private scheduler ledger] in *. rewrite Hs. reflexivity.
Qed.

Section step.
Context `{Postcard InstanceSnapshot} {B3 : Blake3}.

(** The core without its digest, which covers the mailbox. *)
Definition undigested (c : StepCore) : StepCore :=
  mkCore (core_popped_id c) (core_action_type c) (core_verdict c) zero32 (core_pending_signals c) (core_events c)
    (core_effects_applied c) (core_effects_denied c) (core_domain_events_emitted c).

Lemma finish_step_private i e m g c i' st' :
  finish_step i e m g = Done (c, i', st') → finish_step (private i) e false g = Done (undigested c, private i', st').
Proof.
  unfold finish_step. destruct (g_any_denied g); [by intros [= <- <- <-]|]. intros Ha.
  apply bind_Done in Ha as ([[sigs i2] st2] & Ha & [= <- <- <-]).
  by rewrite (apply_stage_private _ _ _ _ _ Ha).
Qed.

(** A step of the private part is the private part of the step, with the same
    verdict, counts, events and outgoing signals. *)
Lemma step_private inst_id i r sc1 sc2 now caps m oc i' sc' :
  accessors_only r → step_one_core inst_id i r sc1 now caps m = Done (oc, i', sc') →
  ∃ sc'', step_one_core inst_id (private i) r sc2 now caps false = Done (undigested <$> oc, private i', sc'').
Proof.
  intros Hr. unfold step_one_core. change (scheduler (private i)) with (scheduler i).
  destruct (pop_due (scheduler i) now) as [[[e|] s]|]; cbn [mbind Outcome_bind];
    [|intros [= <- <- <-]; eexists; reflexivity|done].
  change (with_scheduler (private i) s) with (private (with_scheduler i s)). set (j := with_scheduler i s).
  pose proof (λ a c1 c2, Hr (se_type_code e) (se_bytes e) a c1 c2) as Hc. unfold resolve in Hc.
  destruct (registry_get r (se_type_code e)) as [reg|]; [|intros [= <- <- <-]; eexists; reflexivity].
  cbn [mbind option_bind] in Hc.
  destruct (deserializer reg (schema_version reg) (se_bytes e)) as [a|]; [|intros [= <- <- <-]; eexists; reflexivity].
  intros Hs. apply bind_Done in Hs as (ops & Ho & Hs). apply bind_Done in Hs as (g & Hg & Hs).
  apply bind_Done in Hs as ([[c i2] st2] & Hf & [= <- <- <-]).
  rewrite <- (Hc a (ActionContext_new (se_actor e) now inst_id j)
                (ActionContext_new (se_actor e) now inst_id (private j)) eq_refl eq_refl), Ho. cbn [mbind Outcome_bind].
  change (resolved_caps (private j)) with (resolved_caps j).
  assert (run_gates inst_id (private j) e (resolved_caps j e caps) sc2 now ops = Done g) as ->.
  { revert Hg. unfold run_gates. by rewrite !clear_default. }
  cbn [mbind Outcome_bind]. rewrite (finish_step_private _ _ _ _ _ _ _ Hf). eexists. reflexivity.
Qed.

End step.

(** ** The machine with one instance *)

Section solo.
Context `{Postcard InstanceSnapshot, Postcard WalRecordBody} {B3 : Blake3} {SS : SigSchemes}.
Context (id : InstanceId) (reg : ActionRegistry).

(** One turn at a tick. *)
Definition solo_step (now : Tick) (caps : CapabilityMask) (o : option Instance_) : option Instance_ * list AppendReq :=
  match o with
  | None => (None, [])
  | Some i =>
      match step_one_core id i reg StepStage_default now caps false with
      | Done (Some core, i', _) =>
          (Some i', [ReqStep id (core_popped_id core) now caps (core_verdict core) zero32])
      | Done (None, i', _) => (Some i', [])
      | Panicked _ => (Some i, [])
      end
  end.

(** A submission. *)
Definition solo_submit (principal : Principal) (actor : option EntityId) (caps : CapabilityMask) (at_ : Tick)
    (tc : TypeCode) (bs : bytes) (o : option Instance_) : option Instance_ * list AppendReq :=
  match o with
  | None => (None, [])
  | Some i =>
      if decide (0 < max_scheduled (config i) ∧ max_scheduled (config i) ≤ Scheduler_len (scheduler i))
      then (Some i, [])
      else
        let n := sat_add64 (next_scheduled (id_counters i)) 1 in
        let sid := N.succ_pos (n - 1) in
        (Some (with_scheduler
                 (with_id_counters i (mkCounters (next_entity (id_counters i)) n (next_source_seq (id_counters i))))
                 (schedule_with_id (scheduler i) sid at_ actor principal caps tc bs)),
         [ReqSubmit id principal actor caps at_ tc bs sid])
  end.

(** The calls that concern the instance, and what they do to it. *)
Definition concerns (c : KernelCall) : bool :=
  match c with
  | CallSubmit i _ _ _ _ _ _ => bool_decide (i = id)
  | CallStep _ _ => true
  | CallCreate _ | CallObserve _ _ | CallForceUnload _ _ => false
  end.
Definition solo_call (c : KernelCall) (o : option Instance_) : option Instance_ * list AppendReq :=
  match c with
  | CallSubmit i p a cp t tc bs => if decide (i = id) then solo_submit p a cp t tc bs o else (o, [])
  | CallStep now caps => solo_step now caps o
  | CallCreate _ | CallObserve _ _ | CallForceUnload _ _ => (o, [])
  end.
Fixpoint solo_run (cs : list KernelCall) (o : option Instance_) : option Instance_ * list AppendReq :=
  match cs with
  | [] => (o, [])
  | c :: cs' =>
      let '(o1, l1) := solo_call c o in
      let '(o2, l2) := solo_run cs' o1 in
      (o2, l1 ++ l2)
  end.

Lemma solo_run_filter cs o : solo_run cs o = solo_run (filter (λ c, concerns c = true) cs) o.
Proof.
  revert o. induction cs as [|c cs IH]; intros o; [done|]. rewrite filter_cons. destruct (decide _) as [Hc|Hc].
  - cbn [solo_run]. destruct (solo_call c o). by rewrite IH.
  - cbn [solo_run]. assert (solo_call c o = (o, [])) as ->.
    { destruct c; try done. cbn in *. destruct (decide (instance = id)) as [->|]; [|done].
      destruct Hc. by apply bool_decide_eq_true. }
    rewrite IH. by destruct (solo_run _ o).
Qed.

(** ** Sessions project to it *)

(** The private part of the instance in a kernel, and the requests of the log
    that are about it, without digests. *)
Definition private_view (k : Kernel) : option Instance_ := private <$> instances k !! id.
Definition about (q : AppendReq) : option AppendReq :=
  match q with
  | ReqSubmit i p a c t tc bs sid => if decide (i = id) then Some q else None
  | ReqStep i sid now c v d => if decide (i = id) then Some (ReqStep i sid now c v zero32) else None
  end.

(** The id is taken: later creations do not mint it again. *)
Definition hosted (k : Kernel) : Prop := Npos id ≤ next_instance_id k ∧ Npos id < U64_MAX.

Lemma route_all_private from insts sigs i :
  private <$> route_all from insts sigs !! i = private <$> insts !! i.
Proof.
  revert insts. induction sigs as [|s sigs IH]; intros insts; [done|]. unfold route_all in *. cbn [fold_left].
  rewrite IH. destruct (route_signal_cases from insts s) as [->|(target & Ht & _ & ->)]; [done|].
  destruct (decide (ps_target s = i)) as [<-|Hne]; [|by rewrite lookup_insert_ne].
  by rewrite lookup_insert_eq, Ht.
Qed.

Definition turn_reqs (i : InstanceId) (now : Tick) (caps : CapabilityMask) (r : option InstanceStepResult) : list AppendReq :=
  match r with
  | Some x => [ReqStep i (res_popped_id x) now caps (res_verdict x) (res_digest x)]
  | None => []
  end.

Lemma process_solo k i now caps m :
  kernel_inv false k → action_registry k = reg → accessors_only reg →
  ∃ r k', process_instance_record k i now caps m = Done (r, k') ∧ kernel_inv false k' ∧ same_frame k k' ∧
    (private_view k', omap about (turn_reqs i now caps r))
      = if decide (i = id) then solo_step now caps (private_view k) else (private_view k, []).
Proof.
  intros Hk Er Ha. destruct (process_inv false k i now caps m Hk) as (r & k' & Hp & Hk' & Hfr & _).
  exists r, k'. split_and!; [done..|]. destruct Hk as [K1 K2].
  destruct (process_cases k i now caps m K2) as
    [(q & Hq & Hi & _ & Hn)|(j & key & e & core & j' & sc & n & q & Ej & Hf & Hat & Hs & _ & Hq & Hi & _)];
    [intros j Ej; apply (K1 i j Ej)|rewrite Hp in Hq; injection Hq as -> ->..]; cbn [turn_reqs omap list_omap about];
    unfold private_view; rewrite Hi.
  - case_decide as Hid; [subst i|done]. unfold solo_step. destruct (instances k !! id) as [j|] eqn:Ej; [|done].
    cbn [fmap option_fmap option_map].
    destruct (step_one_core_cases id j reg StepStage_default now caps false) as [[Hs _]|(key & e & c & j2 & sc & Hf & Hat & _)];
      [by rewrite <- Er|apply (K1 id j Ej)| |].
    + destruct (step_private _ _ _ _ StepStage_default _ _ _ _ _ _ Ha Hs) as [sc' ->]. done.
    + exfalso. specialize (Hn j eq_refl key). apply first_row in Hf. assert (now < key_at key) by (apply Hn; eauto). lia.
  - rewrite route_all_private. case_decide as Hid.
    + subst i. rewrite lookup_insert_eq, Ej. cbn [fmap option_fmap option_map]. unfold solo_step.
      rewrite Er in Hs. destruct (step_private _ _ _ _ StepStage_default _ _ _ _ _ _ Ha Hs) as [sc' ->]. done.
    + by rewrite lookup_insert_ne.
Qed.

(** The requests a piece of a run appends. *)
Definition logged (k k' : Kernel) (reqs : list AppendReq) : Prop :=
  wal k' = (λ w, run_appends w reqs) <$> wal k.

Lemma logged_trans k1 k2 k3 l1 l2 : logged k1 k2 l1 → logged k2 k3 l2 → logged k1 k3 (l1 ++ l2).
Proof.
  unfold logged, run_appends. intros H1 H2. rewrite H2, H1. destruct (wal k1); [|done]. cbn. by rewrite fold_left_app.
Qed.

(** A kernel reached from another by calls or turns, with what it logged. *)
Record reached (k k' : Kernel) (reqs : list AppendReq) : Prop := {
  re_inv : kernel_inv false k';
  re_registry : action_registry k' = action_registry k;
  re_hosted : hosted k → hosted k';
  re_logged : logged k k' reqs
}.

Lemma reached_refl k : kernel_inv false k → reached k k [].
Proof. intros Hk. split; [done..|]. unfold logged. by destruct (wal k). Qed.

Lemma reached_trans k1 k2 k3 l1 l2 : reached k1 k2 l1 → reached k2 k3 l2 → reached k1 k3 (l1 ++ l2).
Proof. intros [] []. split; [done|congruence|auto|by eapply logged_trans]. Qed.

(** The instance after a piece of a run, with what was logged about it. *)
Definition projects (k k' : Kernel) (reqs : list AppendReq) (f : option Instance_ → option Instance_ * list AppendReq)
    : Prop :=
  (private_view k', omap about reqs) = f (private_view k).

Lemma step_instance_solo k i now caps m rep :
  kernel_inv false k → action_registry k = reg → accessors_only reg →
  ∃ rep' k' reqs, step_instance now caps m (rep, k) i = Done (rep', k') ∧ reached k k' reqs ∧
    dom (instances k') = dom (instances k) ∧
    projects k k' reqs (λ o, if decide (i = id) then solo_step now caps o else (o, [])).
Proof.
  intros Hk Er Ha. destruct (process_solo k i now caps m Hk Er Ha) as (r & k1 & Hp & Hk1 & (F1 & F2 & F3 & F4) & Hv).
  destruct (process_inv false k i now caps m Hk) as (r' & k1' & Hp' & _ & _ & Hd). rewrite Hp in Hp'.
  injection Hp' as <- <-. unfold step_instance. cbn [snd fst]. rewrite Hp. cbn [mbind Outcome_bind].
  exists (match r with Some x => report_add rep x | None => rep end).
  exists (match r, wal k1 with
          | Some x, Some w => set_wal k1 (Some (do_append w (ReqStep i (res_popped_id x) now caps (res_verdict x) (res_digest x))))
          | _, _ => k1 end), (turn_reqs i now caps r).
  split_and!.
  - destruct r; [|done]. destruct (wal k1); done.
  - split.
    + destruct r; [|done]. destruct (wal k1); [|done]. by apply (kernel_inv_ext false k1).
    + destruct r; [|done]. by destruct (wal k1).
    + unfold hosted. rewrite <- F3. destruct r; [|done]. by destruct (wal k1).
    + unfold logged. rewrite <- F2. destruct r; cbn [turn_reqs]; destruct (wal k1) eqn:Ew; done.
  - rewrite <- Hd. destruct r; [|done]. by destruct (wal k1).
  - unfold projects. rewrite <- Hv. destruct r; [|done]. by destruct (wal k1).
Qed.

Lemma step_loop_solo now caps m ids rep k :
  NoDup ids → kernel_inv false k → action_registry k = reg → accessors_only reg →
  ∃ rep' k' reqs, fold_outcome (step_instance now caps m) (rep, k) ids = Done (rep', k') ∧ reached k k' reqs ∧
    projects k k' reqs (λ o, if decide (id ∈ ids) then solo_step now caps o else (o, [])).
Proof.
  intros Hnd. revert rep k. induction Hnd as [|i ids Hnin Hnd IH]; intros rep k Hk Er Ha; cbn [fold_outcome].
  { exists rep, k, []. split_and!; [done|by apply reached_refl|done]. }
  destruct (step_instance_solo k i now caps m rep Hk Er Ha) as (rep1 & k1 & l1 & -> & R1 & _ & P1).
  cbn [mbind Outcome_bind]. destruct (IH rep1 k1) as (rep2 & k2 & l2 & -> & R2 & P2);
    [apply R1|by rewrite (re_registry _ _ _ R1)|done|].
  exists rep2, k2, (l1 ++ l2). split_and!; [done|by eapply reached_trans|].
  unfold projects in *. rewrite omap_app. destruct (decide (i = id)) as [->|Hne].
  - rewrite decide_False in P2 by done. rewrite decide_True by left. injection P2 as -> ->.
    by rewrite app_nil_r.
  - injection P1 as P1 ->. rewrite app_nil_l, P2, P1. apply decide_ext. rewrite elem_of_cons.
    split; [by right|]. by intros [->|?].
Qed.

Lemma submit_solo k i p a cp t tc bs :
  kernel_inv false k →
  ∃ x k' reqs, submit k i p a cp t tc bs = Done (x, k') ∧ reached k k' reqs ∧
    projects k k' reqs (solo_call (CallSubmit i p a cp t tc bs)).
Proof.
  intros Hk. destruct (submit_inv false k i p a cp t tc bs Hk) as ([x k'] & Hs & Hk' & Hr). exists x, k'.
  pose proof Hs as He. rewrite submit_exact in He. unfold projects, private_view. cbn [snd solo_call] in *.
  assert (∀ o : option Instance_, o = None → (if decide (i = id) then solo_submit p a cp t tc bs o else (o, [])) = (o, []))
    as Hnone by (intros o ->; by case_decide).
  destruct (instances k !! i) as [j|] eqn:Ej.
  2:{ injection He as <- <-. exists []. split_and!; [done|by apply reached_refl|].
      destruct (decide (i = id)) as [->|]; [by rewrite Ej|done]. }
  destruct (decide _) as [Hq|Hq] in He.
  { injection He as <- <-. exists []. split_and!; [done|by apply reached_refl|].
    destruct (decide (i = id)) as [->|]; [|done]. rewrite Ej. cbn. by rewrite decide_True. }
  cbv zeta in He. set (n := sat_add64 _ 1) in He. set (sid := N.succ_pos (n - 1)) in He.
  injection He as <- <-. exists [ReqSubmit i p a cp t tc bs sid]. split_and!; [done| |].
  - split; [done..|]. unfold logged. by destruct (wal k).
  - cbn [instances omap list_omap about]. destruct (decide (i = id)) as [->|Hne].
    + rewrite lookup_insert_eq, Ej. cbn. rewrite decide_False by done. reflexivity.
    + by rewrite lookup_insert_ne.
Qed.

Lemma run_call_solo k c :
  kernel_inv false k → action_registry k = reg → accessors_only reg → hosted k →
  ∃ k' reqs, run_call k c = Done k' ∧ reached k k' reqs ∧ projects k k' reqs (solo_call c).
Proof.
  intros Hk Er Ha [H1 H2]. destruct (run_call_inv false k c Hk) as (k' & Hc & Hk' & Hr); [done|].
  destruct c as [cfg|obs mask|i p a cp t tc bs|now caps|route caps].
  - exists k', []. split; [done|]. cbn [run_call] in Hc. unfold create_instance, InstanceId_new in Hc.
    destruct (sat_succ_nonzero (next_instance_id k)) as (nid & Hn & He). rewrite Hn in Hc. injection Hc as <-.
    split; [split; [done..| |]|].
    + intros [_ _]. split; cbn; [unfold sat_add64|]; lia.
    + unfold logged. cbn. by destruct (wal k).
    + unfold projects, private_view. cbn. rewrite lookup_insert_ne; [done|]. intros ->.
      unfold sat_add64 in He. lia.
  - exists k', []. split; [done|]. injection Hc as <-. split; [|done]. split; [done..|]. unfold logged. cbn. by destruct (wal k).
  - destruct (submit_solo k i p a cp t tc bs Hk) as (x & q & reqs & Hs & R & P). cbn [run_call] in *.
    exists q, reqs. split_and!; [by rewrite Hs|exact R|exact P].
  - cbn [run_call] in Hc. unfold step in Hc.
    destruct (step_loop_solo now caps (match wal k with Some _ => true | None => false end) (btree_keys (instances k))
      StepReport_default k (btree_keys_NoDup _) Hk Er Ha) as (rep & q & reqs & Hl & R & P).
    rewrite Hl in Hc. injection Hc as <-. exists q, reqs. split_and!; [cbn [run_call]; unfold step; by rewrite Hl|done|].
    unfold projects in *. rewrite P. cbn [solo_call]. destruct (decide _) as [Hin|Hnin]; [done|].
    rewrite elem_of_btree_keys in Hnin. unfold private_view. destruct (instances k !! id); [|done]. destruct Hnin. eauto.
  - exists k', []. split; [done|]. injection Hc as <-.
    assert (∀ q, (force_unload k route caps).2 = q → next_instance_id q = next_instance_id k ∧ wal q = wal k ∧
      private_view q = private_view k) as Hf.
    { intros q <-. unfold force_unload. destruct (negb _); [done|]. destruct (deliver _ _). split_and!; [done..|].
      unfold private_view. cbn. rewrite lookup_fmap. by destruct (instances k !! id). }
    destruct (Hf _ eq_refl) as (F1 & F2 & F3). split; [split; [done..| |]|].
    + unfold hosted. by rewrite F1.
    + unfold logged. rewrite F2. by destruct (wal k).
    + unfold projects. by rewrite F3.
Qed.

Lemma run_calls_solo k cs :
  kernel_inv false k → action_registry k = reg → accessors_only reg → hosted k →
  ∃ k' reqs, run_calls k cs = Done k' ∧ reached k k' reqs ∧ projects k k' reqs (solo_run cs).
Proof.
  unfold run_calls. revert k. induction cs as [|c cs IH]; intros k Hk Er Ha Hh; cbn [fold_outcome solo_run].
  { exists k, []. split_and!; [done|by apply reached_refl|done]. }
  destruct (run_call_solo k c Hk Er Ha Hh) as (k1 & l1 & -> & R1 & P1). cbn [mbind Outcome_bind].
  destruct (IH k1) as (k2 & l2 & -> & R2 & P2);
    [apply R1|by rewrite (re_registry _ _ _ R1)|done|by apply R1|].
  exists k2, (l1 ++ l2). split_and!; [done|by eapply reached_trans|].
  unfold projects in *. rewrite omap_app. destruct (solo_call c _). injection P1 as <- <-.
  destruct (solo_run cs _). by injection P2 as <- <-.
Qed.

End solo.

(** ** Properties *)

Section properties.
Context `{Postcard InstanceSnapshot, Postcard WalRecordBody} {B3 : Blake3} {SS : SigSchemes}.

(** C7: instances are isolated. Take two kernels with the same registry that
    agree on the private part of an instance (everything but its mailbox), and
    any two sessions that make the same submissions to it and the same steps,
    in the same order; whatever else the sessions do (other instances, their
    submissions and signals, observers, forced unloads) may differ. Neither
    session panics, the private part of the instance is the same after both,
    and both logs gain the same records about it: the same admissions under
    the same ids, the same turns with the same verdicts. *)
Theorem instance_isolation id k1 k2 cs1 cs2 :
  kernel_inv false k1 → kernel_inv false k2 →
  action_registry k1 = action_registry k2 → accessors_only (action_registry k1) →
  hosted id k1 → hosted id k2 → private_view id k1 = private_view id k2 →
  filter (λ c, concerns id c = true) cs1 = filter (λ c, concerns id c = true) cs2 →
  ∃ k1' k2' reqs1 reqs2, run_calls k1 cs1 = Done k1' ∧ run_calls k2 cs2 = Done k2' ∧
    private_view id k1' = private_view id k2' ∧
    wal k1' = (λ w, run_appends w reqs1) <$> wal k1 ∧ wal k2' = (λ w, run_appends w reqs2) <$> wal k2 ∧
    omap (about id) reqs1 = omap (about id) reqs2.
Proof.
  intros K1 K2 Er Ha H1 H2 Hv Hcs.
  destruct (run_calls_solo id _ k1 cs1 K1 eq_refl Ha H1) as (k1' & reqs1 & R1 & [_ _ _ L1] & P1).
  rewrite Er in Ha, P1.
  destruct (run_calls_solo id _ k2 cs2 K2 eq_refl Ha H2) as (k2' & reqs2 & R2 & [_ _ _ L2] & P2).
  unfold projects in *. rewrite solo_run_filter, Hcs, <- solo_run_filter, Hv, <- P2 in P1. injection P1 as P1 P1'.
  exists k1', k2', reqs1, reqs2. done.
Qed.

End properties.

(** ** Witness: an instance behaves as if it were alone *)

(** The kernel that hosts nothing but this instance, with an empty mailbox. *)
Definition alone {SS : SigSchemes} (id : InstanceId) (k : Kernel) : Kernel :=
  mkKernel _ (match instances k !! id with Some i => {[id := private i]} | None => ∅ end) (action_registry k)
    ObserverRegistry_new (next_instance_id k) (manifest_digest k) None StepStage_default.

Lemma private_inst_ok id i : inst_ok false id i → inst_ok false id (private i).
Proof.
  intros [[G1 G2 _] _]. split; [|done]. split; [by apply (inst_inv_ext i)|done|]. split.
  - intros route _. unfold inbox_len. cbn. rewrite lookup_empty. unfold len. simpl. lia.
  - intros _ route sigs. cbn. by rewrite lookup_empty.
Qed.

Lemma alone_ok {SS : SigSchemes} id k :
  kernel_inv false k → kernel_inv false (alone id k) ∧ private_view id (alone id k) = private_view id k.
Proof.
  intros [K1 K2]. unfold private_view, alone. cbn [instances]. split.
  - split; [|done]. cbn [instances]. destruct (instances k !! id) as [i|] eqn:Ei; [|apply map_Forall_empty].
    apply map_Forall_singleton, private_inst_ok, (K1 _ _ Ei).
  - destruct (instances k !! id); cbn; [by rewrite lookup_singleton_eq|by rewrite lookup_empty].
Qed.

#[local] Instance ex_snapshot_postcard : Postcard InstanceSnapshot :=
  constant_postcard (to_snapshot (Instance_new 1 InstanceConfig_default)).
#[local] Instance ex_body_postcard : Postcard WalRecordBody := countable_postcard.
#[local] Instance ex_blake3 : Blake3 := tail_blake3.
#[local] Instance ex_sigs : SigSchemes := toy_sigs false.

Lemma script_registry_accessors ops : accessors_only (script_registry ops).
Proof. by apply accessors_only_register; [|apply accessors_only_new]. Qed.

(** A session in which instance 2 signals instance 1, another instance comes
    and goes through its own actions, and a route is force-unloaded. *)
Definition busy_session : list KernelCall :=
  [CallSubmit 2 System None 15 0 1 []; CallSubmit 1 System None 15 7 1 []; CallCreate InstanceConfig_default;
   CallStep 5 15; CallSubmit 3 System None 15 0 9 []; CallObserve (λ _ _, true) EM_ALL; CallStep 9 15;
   CallForceUnload 7 15].
Definition quiet_session : list KernelCall := filter (λ c, concerns 1 c = true) busy_session.

Lemma script_kernel_ready : action_registry ex_ready = script_registry ex_ops ∧ hosted 1 ex_ready.
Proof. vm_compute. split_and!; [reflexivity|discriminate|reflexivity]. Qed.

Lemma instance_isolation_witness :
  ∃ k1 k2, run_calls ex_ready busy_session = Done k1 ∧ run_calls (alone 1 ex_ready) quiet_session = Done k2 ∧
    private_view 1 k1 = private_view 1 k2.
Proof.
  destruct script_kernel_ready as [Hr Hh]. destruct (alone_ok 1 ex_ready ex_ready_inv) as [Hk Hv].
  assert (accessors_only (action_registry ex_ready)) as Ha by (rewrite Hr; apply script_registry_accessors).
  destruct (instance_isolation 1 ex_ready (alone 1 ex_ready) busy_session quiet_session ex_ready_inv Hk eq_refl Ha Hh Hh
              (eq_sym Hv)) as (k1 & k2 & _ & _ & H1 & H2 & H3 & _).
  - reflexivity.
  - exists k1, k2. split; [exact H1|]. split; [exact H2|exact H3].
Defined.
