(* ===== verification/Codec.v ===== *)
(** * Concrete codecs of the persisted state

    Every type the kernel persists is countable, so [countable_postcard] gives
    it a codec that is total and inverts. The witnesses of [Snapshot] and
    [Replay] run on these codecs. *)
From S2P Require Import Prelude Abi Quota Extern Ledger Scheduler Instance Signature Wal Kernel.

#[global] Instance QuotaReductionPolicy_countable : Countable QuotaReductionPolicy.
Proof.
  refine (inj_countable' (λ p, match p with Reject => 0 | GrandfatherExisting => 1 | ThrottleProportional => 2 end)%N
    (λ n, match n with 0 => Reject | 1 => GrandfatherExisting | _ => ThrottleProportional end)%N _).
  by intros [].
Defined.

#[global] Instance ScheduledEntry_eq_dec : EqDecision ScheduledEntry.
Proof. solve_decision. Defined.
#[global] Instance ScheduledEntry_countable : Countable ScheduledEntry.
Proof.
  refine (inj_countable'
    (λ e, (se_id e, se_at e, se_actor e, se_principal e, se_type_code e, se_bytes e, se_caps_ceiling e))
    (λ '(i, t, a, p, tc, bs, c), mkEntry i t a p tc bs c) _).
  by intros [].
Defined.

#[global] Instance Scheduler_eq_dec : EqDecision Scheduler.
Proof. solve_decision. Defined.
#[global] Instance Scheduler_countable : Countable Scheduler.
Proof.
  refine (inj_countable' (λ s, (ready s, by_id s, by_actor s, next_seq s, next_id s))
    (λ '(r, b, a, q, n), mkScheduler r b a q n) _).
  by intros [].
Defined.

#[global] Instance ResourceLedger_eq_dec : EqDecision ResourceLedger.
Proof. solve_decision. Defined.
#[global] Instance ResourceLedger_countable : Countable ResourceLedger.
Proof.
  refine (inj_countable' (λ l, (led_entities l, component_sizes l, total_bytes l))
    (λ '(e, c, t), mkLedger e c t) _).
  by intros [].
Defined.

#[global] Instance InstanceConfig_eq_dec : EqDecision InstanceConfig.
Proof. solve_decision. Defined.
#[global] Instance InstanceConfig_countable : Countable InstanceConfig.
Proof.
  refine (inj_countable'
    (λ c, (default_caps c, max_entities c, max_scheduled c, max_inbox_per_route c, memory_budget_bytes c,
           parent c, quota_reduction c))
    (λ '(d, e, s, i, m, p, q), mkConfig d e s i m p q) _).
  by intros [].
Defined.

#[global] Instance EntityMeta_eq_dec : EqDecision EntityMeta.
Proof. solve_decision. Defined.
#[global] Instance EntityMeta_countable : Countable EntityMeta.
Proof. refine (inj_countable' (λ m, (owner m, created m)) (λ '(o, c), mkMeta o c) _). by intros []. Defined.

#[global] Instance InboundSignal_eq_dec : EqDecision InboundSignal.
Proof. solve_decision. Defined.
#[global] Instance InboundSignal_countable : Countable InboundSignal.
Proof.
  refine (inj_countable' (λ s, (sig_from s, sig_principal s, sig_payload s, sig_seq s))
    (λ '(f, p, b, n), mkSignal f p b n) _).
  by intros [].
Defined.

#[global] Instance IdCounters_eq_dec : EqDecision IdCounters.
Proof. solve_decision. Defined.
#[global] Instance IdCounters_countable : Countable IdCounters.
Proof.
  refine (inj_countable' (λ c, (next_entity c, next_scheduled c, next_source_seq c))
    (λ '(a, b, c), mkCounters a b c) _).
  by intros [].
Defined.

#[global] Instance InstanceSnapshot_eq_dec : EqDecision InstanceSnapshot.
Proof. solve_decision. Defined.
#[global] Instance InstanceSnapshot_countable : Countable InstanceSnapshot.
Proof.
  refine (inj_countable'
    (λ s, (snap_id s, snap_config s, snap_entities s, snap_components s, snap_scheduler s, snap_id_counters s,
           snap_ledger s, snap_inflight_refs s, snap_signal_inbox s, snap_inbox_seq s, snap_wall_remainder s,
           snap_local_tick s))
    (λ '(a, b, c, d, e, f, g, h, i, j, k, l), mkSnapshot a b c d e f g h i j k l) _).
  by intros [].
Defined.

#[global] Instance KernelSnapshot_eq_dec : EqDecision KernelSnapshot.
Proof. solve_decision. Defined.
#[global] Instance KernelSnapshot_countable : Countable KernelSnapshot.
Proof.
  refine (inj_countable' (λ s, (ks_instances s, ks_next_instance_id s)) (λ '(i, n), mkKernelSnapshot i n) _).
  by intros [].
Defined.
