(* ===== verification/Snapshot.v ===== *)
(** * Kernel snapshots

    Models [src/arkhe-kernel/src/persist/snapshot.rs]: the snapshot codec, its
    structural validation, and the digest gate for untrusted bytes. The
    capture and restore of a kernel ([Kernel::snapshot],
    [Kernel::from_snapshot]) are in [Kernel]. *)
From S2P Require Import Prelude Abi Quota Extern Authz Ledger Scheduler Instance Event.
From S2P Require Import Observer Stage Dispatch Apply Signature Wal Registry Step Kernel.
From S2P Require Import Codec.

Local Open Scope N_scope.

Inductive SnapshotError : Type :=
  | SnapshotSerializeFailed (m : string)
  | SnapshotDeserializeFailed (m : string)
  | Inconsistent (m : string)
  | IntegrityMismatch.

(** [impl Display for SnapshotError]. *)
Definition SnapshotError_display (e : SnapshotError) : string :=
  match e with
  | SnapshotSerializeFailed m => "snapshot serialize failed: " +:+ m
  | SnapshotDeserializeFailed m => "snapshot deserialize failed: " +:+ m
  | Inconsistent m => "snapshot structural validation failed: " +:+ m
  | IntegrityMismatch => "snapshot integrity digest mismatch"
  end.

(** [derive(Debug)] on the one-field tuple struct [InstanceId]. *)
Definition InstanceId_debug (id : InstanceId) : string :=
  "InstanceId(" +:+ pretty (InstanceId_get id) +:+ ")".

Section snapshot.
Context `{Postcard KernelSnapshot} {B3 : Blake3}.

(** [KernelSnapshot::serialize]. *)
Definition snapshot_serialize (s : KernelSnapshot) : Result SnapshotError bytes :=
  map_err SnapshotSerializeFailed (to_allocvec s).

(** [validate_structure]. *)
Definition validate_structure (s : KernelSnapshot) : Result SnapshotError unit :=
  fold_result (λ _ row,
      map_err (λ reason, Inconsistent ("instance " +:+ InstanceId_debug row.1 +:+ ": " +:+ reason))
        (validate (snap_scheduler row.2)))
    () (btree_iter (ks_instances s)).

(** [KernelSnapshot::deserialize]. *)
Definition snapshot_deserialize (bs : bytes) : Result SnapshotError KernelSnapshot :=
  snap ← map_err SnapshotDeserializeFailed (from_bytes bs);
  _ ← validate_structure snap;
  mret snap.

(** [KernelSnapshot::deserialize_verified], [KernelSnapshot::digest]. *)
Definition deserialize_verified (bs : bytes) (expected_digest : bytes) : Result SnapshotError KernelSnapshot :=
  if decide (blake3_hash bs ≠ expected_digest) then Err IntegrityMismatch
  else snapshot_deserialize bs.
Definition snapshot_digest (bs : bytes) : bytes := blake3_hash bs.

(** [instance_count], [instance_ids], [__construct], [__into_parts]. *)
Definition snapshot_instance_count (s : KernelSnapshot) : N := N.of_nat (size (ks_instances s)).
Definition snapshot_instance_ids (s : KernelSnapshot) : list InstanceId := btree_keys (ks_instances s).
Definition snapshot_construct (insts : gmap InstanceId InstanceSnapshot) (next : N) : KernelSnapshot :=
  mkKernelSnapshot insts next.
Definition snapshot_into_parts (s : KernelSnapshot) : gmap InstanceId InstanceSnapshot * N :=
  (ks_instances s, ks_next_instance_id s).

(** ** Lemmas *)

Lemma validate_structure_Ok s :
  validate_structure s = Ok () ↔ map_Forall (λ _ x, sched_wf (snap_scheduler x)) (ks_instances s).
Proof.
  unfold validate_structure. rewrite fold_result_check. split.
  - intros Hv id x Hx. apply elem_of_btree_iter in Hx. specialize (Hv _ Hx). cbn in Hv.
    apply map_err_Ok in Hv. by apply validate_wf.
  - intros Hv [id x] Hx%elem_of_btree_iter. apply map_err_Ok, validate_wf. by apply (Hv id).
Qed.

Lemma snapshot_deserialize_Ok bs s :
  snapshot_deserialize bs = Ok s ↔
  from_bytes bs = Ok s ∧ map_Forall (λ _ x, sched_wf (snap_scheduler x)) (ks_instances s).
Proof.
  unfold snapshot_deserialize. rewrite bind_Ok. split.
  - intros (x & Hx%map_err_Ok & ([] & Hv & [= ->])%bind_Ok). by rewrite validate_structure_Ok in Hv.
  - intros [Hb Hv]. exists s. rewrite map_err_Ok. split; [done|]. apply bind_Ok. exists ().
    by rewrite validate_structure_Ok.
Qed.

End snapshot.

(** No counter of the kernel's instances is saturated. *)
Definition unsaturated {SS : SigSchemes} (k : Kernel) : Prop :=
  map_Forall (λ _ i, next_scheduled (id_counters i) < U64_MAX ∧ next_seq (scheduler i) < U64_MAX) (instances k).

(** ** Properties *)

Section properties.
Context `{Postcard InstanceSnapshot, Postcard WalRecordBody, Postcard KernelSnapshot} {B3 : Blake3} {SS : SigSchemes}.

Lemma restored_instances k : instances (Kernel_from_snapshot (snapshot k)) = instances k.
Proof.
  cbn. rewrite <- map_fmap_compose. rewrite <- (map_fmap_id (instances k)) at 2. apply map_fmap_ext.
  intros id i _. apply from_to_snapshot.
Qed.

(** The encoding of a reachable kernel decodes and validates. *)
Lemma snapshot_decodes {PR : PostcardRoundtrip KernelSnapshot} k bs :
  kernel_inv false k → unsaturated k → snapshot_serialize (snapshot k) = Ok bs →
  snapshot_deserialize bs = Ok (snapshot k).
Proof.
  intros [K1 _] Hu Hs%map_err_Ok. apply snapshot_deserialize_Ok. split; [by apply postcard_roundtrip|].
  intros id x (i & <- & Hi)%lookup_fmap_Some. destruct (Hu id i Hi) as [Hu1 Hu2].
  destruct (K1 id i Hi) as [[[_ _ Hsch] _ _] _]. by apply Hsch.
Qed.

(** A restored kernel after the caller registered its actions again. *)
Definition with_registry (k : Kernel) (r : ActionRegistry) : Kernel :=
  mkKernel _ (instances k) r (observers k) (next_instance_id k) (manifest_digest k) (wal k) (step_scratch k).

(** Snapshot and restore. The snapshot of any reachable kernel below
    counter saturation survives encoding: its bytes decode and pass
    validation, alone or against their own digest, to the same snapshot, and
    the kernel restored from it has the same instances and id allocator
    (with empty registries and no log, as documented). *)
Theorem snapshot_roundtrip {PR : PostcardRoundtrip KernelSnapshot} k bs :
  kernel_inv false k → unsaturated k → snapshot_serialize (snapshot k) = Ok bs →
  snapshot_deserialize bs = Ok (snapshot k) ∧
  deserialize_verified bs (snapshot_digest bs) = Ok (snapshot k) ∧
  instances (Kernel_from_snapshot (snapshot k)) = instances k ∧
  next_instance_id (Kernel_from_snapshot (snapshot k)) = next_instance_id k ∧
  wal (Kernel_from_snapshot (snapshot k)) = None.
Proof.
  intros Hk Hu Hs. pose proof (snapshot_decodes k bs Hk Hu Hs) as Hd. split_and!; [done| |apply restored_instances|done|done].
  unfold deserialize_verified, snapshot_digest. by rewrite decide_False by (intros Hn; by apply Hn).
Qed.

(** C24: resuming from a snapshot. Encode a reachable kernel below counter
    saturation, decode the bytes, restore and register the same actions: every
    further session runs on the restored kernel as it runs on the original,
    log and observers of the original notwithstanding, and ends in the same
    snapshot. *)
Theorem snapshot_resume {PR : PostcardRoundtrip KernelSnapshot} k bs cs k' :
  kernel_inv false k → unsaturated k → snapshot_serialize (snapshot k) = Ok bs → run_calls k cs = Done k' →
  ∃ s r', snapshot_deserialize bs = Ok s ∧
    run_calls (with_registry (Kernel_from_snapshot s) (action_registry k)) cs = Done r' ∧
    snapshot r' = snapshot k'.
Proof.
  intros Hk Hu Hs Hr. exists (snapshot k). destruct (run_calls_same_state k
    (with_registry (Kernel_from_snapshot (snapshot k)) (action_registry k)) cs k') as (r' & Hr' & E1 & _ & E3); [|exact Hr|].
  { split_and!; [cbn; symmetry; apply restored_instances|done|done]. }
  exists r'. split_and!; [by apply snapshot_decodes|done|]. unfold snapshot. by rewrite E1, E3.
Qed.

(** C32: hostile snapshots. Whatever the bytes, [deserialize] either fails or
    yields a snapshot all of whose schedulers are well formed, so that no
    entry popped or cancelled after restoring can hit a missing row; and
    [deserialize_verified] accepts only bytes whose digest is the caller's,
    with the same result as [deserialize]. *)
Theorem snapshot_deserialize_sound bs expected s :
  (snapshot_deserialize bs = Ok s →
   map_Forall (λ _ x, sched_wf (snap_scheduler x)) (ks_instances s) ∧
   ∀ id i, instances (Kernel_from_snapshot s) !! id = Some i →
     (∀ a, ∃ r s', cancel (scheduler i) a = Done (r, s')) ∧ (∀ now, ∃ r s', pop_due (scheduler i) now = Done (r, s'))) ∧
  (deserialize_verified bs expected = Ok s ↔ blake3_hash bs = expected ∧ snapshot_deserialize bs = Ok s).
Proof.
  split.
  - intros [_ Hwf]%snapshot_deserialize_Ok. split; [done|].
    intros id i (x & <- & Hx)%lookup_fmap_Some. specialize (Hwf id x Hx). cbn [from_snapshot scheduler]. split.
    + intros a. destruct (cancel_cases _ a Hwf) as [[_ ->]|(? & ? & _ & _ & _ & ->)]; eauto.
    + intros now. destruct (pop_due_cases (snap_scheduler x) now) as [[-> _]|(? & ? & -> & _)]; eauto.
  - unfold deserialize_verified. destruct (decide (blake3_hash bs ≠ expected)) as [Hn|Hn].
    + split; [done|]. by intros [? _].
    + apply dec_stable in Hn. tauto.
Qed.

End properties.

(** ** Witness *)

#[local] Instance ex_snapshot_postcard : Postcard InstanceSnapshot := countable_postcard.
#[local] Instance ex_body_postcard : Postcard WalRecordBody := countable_postcard.
#[local] Instance ex_kernel_postcard : Postcard KernelSnapshot := countable_postcard.
#[local] Instance ex_kernel_postcard_rt : PostcardRoundtrip KernelSnapshot := countable_postcard_roundtrip.
#[local] Instance ex_blake3 : Blake3 := tail_blake3.
#[local] Instance ex_sigs : SigSchemes := toy_sigs false.

(** A kernel with one instance that has one queued entry. *)
Definition snap_kernel : Kernel :=
  mkKernel _ {[1%positive := ex_inst 1]} (script_registry []) ObserverRegistry_new 1 zero32 None StepStage_default.

Definition ex_bytes : bytes := pos_bits (encode (snapshot snap_kernel)).

Lemma ex_serialized : snapshot_serialize (snapshot snap_kernel) = Ok ex_bytes.
Proof. unfold snapshot_serialize, ex_bytes. generalize (snapshot snap_kernel). intros s. reflexivity. Qed.

Lemma snap_kernel_inv : kernel_inv false snap_kernel.
Proof.
  split; [|apply script_registry_total]. apply map_Forall_singleton. split; [|discriminate].
  split; [exact (ex_inst_inv 1)|reflexivity|]. split.
  - intros route Hq. vm_compute in Hq. discriminate Hq.
  - intros _ route sigs Hs. cbn in Hs. rewrite lookup_empty in Hs. discriminate Hs.
Qed.

Lemma ex_kernel_unsaturated : unsaturated snap_kernel.
Proof. apply map_Forall_singleton. split; vm_compute; reflexivity. Qed.

Lemma snapshot_roundtrip_witness :
  snapshot_serialize (snapshot snap_kernel) = Ok ex_bytes ∧ snapshot_deserialize ex_bytes = Ok (snapshot snap_kernel).
Proof.
  split; [exact ex_serialized|].
  exact (proj1 (snapshot_roundtrip snap_kernel ex_bytes snap_kernel_inv ex_kernel_unsaturated ex_serialized)).
Defined.

Lemma snapshot_resume_witness :
  ∃ s r' k', run_calls snap_kernel [CallStep 5 1] = Done k' ∧ snapshot_deserialize ex_bytes = Ok s ∧
    run_calls (with_registry (Kernel_from_snapshot s) (script_registry [])) [CallStep 5 1] = Done r' ∧
    snapshot r' = snapshot k'.
Proof.
  destruct (run_calls snap_kernel [CallStep 5 1]) as [k'|] eqn:Hr; [|vm_compute in Hr; discriminate Hr].
  destruct (snapshot_resume snap_kernel ex_bytes [CallStep 5 1] k' snap_kernel_inv ex_kernel_unsaturated ex_serialized Hr)
    as (s & r' & H1 & H2 & H3).
  exists s, r', k'. split; [reflexivity|]. split; [exact H1|]. split; [exact H2|exact H3].
Defined.
