(* ===== verification/Replay.v ===== *)
(** * Replay

    Models [src/arkhe-kernel/src/persist/replay.rs]: the header gates, the
    record loop that re-executes the log through the kernel's own driver and
    re-seals it, and the two entry points. *)
From S2P Require Import Prelude Abi Quota Extern Authz Ledger Scheduler Instance Event.
From S2P Require Import Observer Stage Dispatch Apply Signature Wal Registry Step Kernel.
From S2P Require Import Codec.

Local Open Scope N_scope.

(** ** Data *)

Record ReplayReport : Type := mkReplayReport {
  submits_replayed : N;
  steps_replayed : N;
  total_effects_applied : N;
  total_effects_denied : N;
  final_chain_tip : bytes
}.
(** [ReplayReport::default]. *)
Definition ReplayReport_default : ReplayReport := mkReplayReport 0 0 0 0 zero32.

Inductive ReplayError : Type :=
  | ReplayHeaderIncompatible (m : string)
  | KernelSemverMismatch (expected got : N * N * N)
  | AbiVersionMismatch (expected got : N * N)
  | PostcardVersionMismatch (expected got : N)
  | Blake3VersionMismatch (expected got : N)
  | WalCorrupted (e : WalError)
  | SubmitFailed (m : string)
  | StepUnderflow (instance : InstanceId)
  | PoppedIdDivergence (seq : N)
  | VerdictDivergence (seq : N) (expected got : StepVerdict)
  | StateDigestDivergence (seq : N)
  | ChainTipDivergence (expected measured : bytes)
  | ReplayManifestDigestMismatch (expected got : bytes).

(** ** Display *)

(** [derive(Debug)] of the types the messages print. *)
Definition semver_debug (v : N * N * N) : string :=
  let '(a, b, c) := v in "(" +:+ pretty a +:+ ", " +:+ pretty b +:+ ", " +:+ pretty c +:+ ")".
Definition version_debug (v : N * N) : string := "(" +:+ pretty v.1 +:+ ", " +:+ pretty v.2 +:+ ")".
Definition SkipReason_debug (r : SkipReason) : string :=
  match r with Unregistered => "Unregistered" | DeserFailed => "DeserFailed" end.
Definition StepVerdict_debug (v : StepVerdict) : string :=
  match v with
  | Committed => "Committed"
  | AuthDenied => "AuthDenied"
  | BudgetPartial n => "BudgetPartial { denied: " +:+ pretty n +:+ " }"
  | Skipped r => "Skipped { reason: " +:+ SkipReason_debug r +:+ " }"
  end.

(** [blake3::Hash::to_hex]: two lower-case digits per byte. *)
Definition hex_digit (n : N) : string :=
  String (Ascii.ascii_of_N (if decide (n < 10) then 48 + n else 87 + n)) EmptyString.
Definition to_hex (bs : bytes) : string :=
  foldr (λ b acc, hex_digit (Byte.to_N b / 16) +:+ hex_digit (Byte.to_N b mod 16) +:+ acc) EmptyString bs.

(** [impl Display for ReplayError]. *)
Definition ReplayError_display (e : ReplayError) : string :=
  match e with
  | ReplayHeaderIncompatible m => "wal header incompatible: " +:+ m
  | KernelSemverMismatch expected got =>
      "kernel semver mismatch: expected " +:+ semver_debug expected +:+ ", got " +:+ semver_debug got
  | AbiVersionMismatch expected got =>
      "abi version mismatch: expected " +:+ version_debug expected +:+ ", got " +:+ version_debug got
  | PostcardVersionMismatch expected got =>
      "postcard version mismatch: expected " +:+ pretty expected +:+ ", got " +:+ pretty got
  | Blake3VersionMismatch expected got =>
      "blake3 version mismatch: expected " +:+ pretty expected +:+ ", got " +:+ pretty got
  | WalCorrupted e => "wal corrupted: " +:+ WalError_display e
  | SubmitFailed m => "submit failed: " +:+ m
  | StepUnderflow instance =>
      "replay step underflow: no due action for InstanceId(" +:+ pretty (InstanceId_get instance) +:+ ")"
  | PoppedIdDivergence seq => "replay popped-id divergence at record " +:+ pretty seq
  | VerdictDivergence seq expected got =>
      "replay verdict divergence at record " +:+ pretty seq +:+ ": expected " +:+ StepVerdict_debug expected
        +:+ ", got " +:+ StepVerdict_debug got
  | StateDigestDivergence seq => "replay state-digest divergence at record " +:+ pretty seq
  | ChainTipDivergence expected measured =>
      "replay chain-tip divergence: expected " +:+ to_hex expected +:+ ", measured " +:+ to_hex measured
  | ReplayManifestDigestMismatch expected got =>
      "replay manifest_digest mismatch: wal " +:+ to_hex expected +:+ ", kernel " +:+ to_hex got
  end.

Section replay.
Context `{Postcard InstanceSnapshot, Postcard WalRecordBody} {B3 : Blake3} {SS : SigSchemes}.
(** [format!("{:?}", e)] of a kernel error ([derive(Debug)], with the [bytes]
    crate's formatting of a payload). *)
Context (error_debug : ArkheError → string).

(** ** Header gates *)

(** [check_header_gates]. *)
Definition check_header_gates (w : Wal) : Result ReplayError unit :=
  let h := header w in
  if decide (magic h ≠ MAGIC) then Err (ReplayHeaderIncompatible "magic mismatch (expected ARKHEWAL)")
  else if decide ((kernel_semver h).1.1 ≠ CURRENT_KERNEL_SEMVER.1.1)
  then Err (KernelSemverMismatch CURRENT_KERNEL_SEMVER (kernel_semver h))
  else if decide (abi_version h ≠ ABI_VERSION) then Err (AbiVersionMismatch ABI_VERSION (abi_version h))
  else if decide (postcard_version h ≠ POSTCARD_MAJOR)
  then Err (PostcardVersionMismatch POSTCARD_MAJOR (postcard_version h))
  else if decide (blake3_version h ≠ BLAKE3_MAJOR)
  then Err (Blake3VersionMismatch BLAKE3_MAJOR (blake3_version h))
  else Ok ().

(** ** The record loop *)

(** The state the loop carries: the kernel, the measuring writer, the report.
    An error leaves the kernel as far as the loop came. *)
Record ReplayState : Type := mkReplay { rp_kernel : Kernel; rp_writer : WalWriter; rp_report : ReplayReport }.

Definition add_submit (r : ReplayReport) : ReplayReport :=
  mkReplayReport (sat_add32 (submits_replayed r) 1) (steps_replayed r) (total_effects_applied r)
    (total_effects_denied r) (final_chain_tip r).
Definition add_step (r : ReplayReport) (x : InstanceStepResult) : ReplayReport :=
  mkReplayReport (submits_replayed r) (sat_add32 (steps_replayed r) 1)
    (sat_add32 (total_effects_applied r) (res_effects_applied x))
    (sat_add32 (total_effects_denied r) (res_effects_denied x)) (final_chain_tip r).

(** One turn of the loop of [replay_records]: the error, if any, with the
    kernel it leaves. *)
Definition replay_record (st : ReplayState) (c : WalRecordContent) : Outcome (Kernel * Result ReplayError ReplayState) :=
  let k := rp_kernel st in
  match c with
  | CSubmit _ instance principal actor caps_at_submit at_ action_type_code action_bytes allocated_id =>
      match submit_with_id k instance principal actor caps_at_submit allocated_id at_ action_type_code action_bytes with
      | Err e => mret (k, Err (SubmitFailed (error_debug e)))
      | Ok k' =>
          match append_submit (rp_writer st) instance principal actor caps_at_submit at_ action_type_code
                  action_bytes allocated_id with
          | (Err e, _) => mret (k', Err (WalCorrupted e))
          | (Ok _, w') => mret (k', Ok (mkReplay k' w' (add_submit (rp_report st))))
          end
      end
  | CStep seq instance popped_id now session_caps verdict post_state_digest =>
      r ← process_instance_record k instance now session_caps true;
      match r with
      | (None, k') => mret (k', Err (StepUnderflow instance))
      | (Some result, k') =>
          if decide (res_popped_id result ≠ popped_id) then mret (k', Err (PoppedIdDivergence seq))
          else if decide (res_verdict result ≠ verdict)
          then mret (k', Err (VerdictDivergence seq verdict (res_verdict result)))
          else if decide (res_digest result ≠ post_state_digest) then mret (k', Err (StateDigestDivergence seq))
          else
            match append_step (rp_writer st) instance popped_id now session_caps verdict post_state_digest with
            | (Err e, _) => mret (k', Err (WalCorrupted e))
            | (Ok _, w') => mret (k', Ok (mkReplay k' w' (add_step (rp_report st) result)))
            end
      end
  end.

Fixpoint replay_loop (st : ReplayState) (recs : list WalRecord) : Outcome (Kernel * Result ReplayError ReplayState) :=
  match recs with
  | [] => mret (rp_kernel st, Ok st)
  | rec :: recs' =>
      r ← replay_record st (content rec);
      match r with
      | (k', Err e) => mret (k', Err e)
      | (_, Ok st') => replay_loop st' recs'
      end
  end.

(** [replay_records]. *)
Definition replay_records (k : Kernel) (w : Wal) : Outcome (Kernel * Result ReplayError ReplayReport) :=
  r ← replay_loop (mkReplay k (rebuild_from_header (header w)) ReplayReport_default) (records w);
  match r with
  | (k', Err e) => mret (k', Err e)
  | (k', Ok st) =>
      let measured := writer_chain_tip (rp_writer st) in
      let sealed := chain_tip w in
      if decide (measured ≠ sealed) then mret (k', Err (ChainTipDivergence sealed measured))
      else
        let rep := rp_report st in
        mret (k', Ok (mkReplayReport (submits_replayed rep) (steps_replayed rep) (total_effects_applied rep)
                        (total_effects_denied rep) measured))
  end.

(** [replay_into]. *)
Definition replay_into (k : Kernel) (w : Wal) : Outcome (Kernel * Result ReplayError ReplayReport) :=
  match check_header_gates w with
  | Err e => mret (k, Err e)
  | Ok _ =>
      if decide (header_manifest_digest (header w) ≠ manifest_digest k)
      then mret (k, Err (ReplayManifestDigestMismatch (header_manifest_digest (header w)) (manifest_digest k)))
      else
        v ← verify_chain w (world_id (header w));
        match v with
        | Err e => mret (k, Err (WalCorrupted e))
        | Ok _ => replay_records k w
        end
  end.

(** [replay_into_verified]. *)
Definition replay_into_verified (k : Kernel) (w : Wal) (world : bytes) (anchor : TrustAnchor)
    : Outcome (Kernel * Result ReplayError ReplayReport) :=
  match check_header_gates w with
  | Err e => mret (k, Err e)
  | Ok _ =>
      v ← verify_chain_anchored w world anchor;
      match v with
      | Err e => mret (k, Err (WalCorrupted e))
      | Ok _ => replay_records k w
      end
  end.

(** ** Simulation *)

(** The replaying side tracks the live side: same instances and registry, and
    a measuring writer at the same point of the same chain. *)
Record synced (k : Kernel) (w : WalWriter) (r : Kernel) (rw : WalWriter) : Prop := {
  sy_instances : instances r = instances k;
  sy_registry : action_registry r = action_registry k;
  sy_seq : w_next_seq rw = w_next_seq w;
  sy_prev : w_prev_hash rw = w_prev_hash w;
  sy_key : w_chain_key rw = w_chain_key w
}.

(** The contents a writer at sequence [n] records for the requests. *)
Fixpoint numbered (n : N) (reqs : list AppendReq) : list WalRecordContent :=
  match reqs with
  | [] => []
  | q :: reqs' => req_content q (sat_add64 n 1) :: numbered (sat_add64 n 1) reqs'
  end.

(** The counters of a report, request by request. *)
Definition is_submit (q : AppendReq) : bool := match q with ReqSubmit _ _ _ _ _ _ _ _ => true | _ => false end.
Definition tally (f : AppendReq → bool) (n : N) (reqs : list AppendReq) : N :=
  fold_left (λ n q, if f q then sat_add32 n 1 else n) reqs n.
Definition report_grows (rep rep' : ReplayReport) (reqs : list AppendReq) : Prop :=
  submits_replayed rep' = tally is_submit (submits_replayed rep) reqs ∧
  steps_replayed rep' = tally (λ q, negb (is_submit q)) (steps_replayed rep) reqs.

Lemma tally_count f n reqs :
  n ≤ U32_MAX → tally f n reqs = N.min (n + len (filter (λ q, f q = true) reqs)) U32_MAX.
Proof.
  unfold tally. revert n. induction reqs as [|q reqs IH]; intros n Hn; cbn [fold_left].
  { unfold len. cbn. lia. }
  rewrite filter_cons. destruct (f q) eqn:E.
  - rewrite IH by (unfold sat_add32; lia). rewrite decide_True, len_cons by done. unfold sat_add32. lia.
  - rewrite IH by done. by rewrite decide_False by done.
Qed.

Lemma report_grows_app rep rep1 rep2 q1 q2 :
  report_grows rep rep1 q1 → report_grows rep1 rep2 q2 → report_grows rep rep2 (q1 ++ q2).
Proof. intros [A1 A2] [B1 B2]. unfold report_grows, tally in *. rewrite !fold_left_app, B1, B2, A1, A2. done. Qed.

(** The writer records every request: no append fails. *)
Fixpoint appends_ok (w : WalWriter) (reqs : list AppendReq) : Prop :=
  match reqs with
  | [] => True
  | q :: reqs' => is_ok (append w (req_content q)).1 = true ∧ appends_ok (do_append w q) reqs'
  end.

(** The live transition from [k] to [k'] logs [reqs], and, if none of them is
    lost, replaying records with those contents from any synchronized state
    succeeds, counts them, shows its observers [evs], and stays
    synchronized. *)
Definition replays (k : Kernel) (w : WalWriter) (k' : Kernel) (reqs : list AppendReq) (evs : list KernelEvent) : Prop :=
  wal k' = Some (run_appends w reqs) ∧
  (appends_ok w reqs → ∀ r rw rep recs, synced k w r rw → content <$> recs = numbered (w_next_seq w) reqs →
    ∃ r' rw' rep', replay_loop (mkReplay r rw rep) recs = Done (r', Ok (mkReplay r' rw' rep')) ∧
      synced k' (run_appends w reqs) r' rw' ∧ observers r' = shown (observers r) evs ∧ report_grows rep rep' reqs).

Lemma replays_nil k w k' :
  wal k' = Some w → instances k' = instances k → action_registry k' = action_registry k → replays k w k' [] [].
Proof.
  intros Hw Hi Hr. split; [done|]. intros _ r rw rep recs [S1 S2 S3 S4 S5] Hrecs.
  destruct recs; [|done]. exists r, rw, rep. split_and!; [done| |done|done]. split; cbn; congruence.
Qed.

Lemma append_next_seq w c : w_next_seq (append w c).2 = sat_add64 (w_next_seq w) 1.
Proof. destruct (append_cases w c) as [(m & _ & ->)|(b & sg & sp & _ & _ & ->)]; done. Qed.

Lemma run_appends_cons w q reqs : run_appends w (q :: reqs) = run_appends (do_append w q) reqs.
Proof. done. Qed.

Lemma run_appends_app w q1 q2 : run_appends w (q1 ++ q2) = run_appends (run_appends w q1) q2.
Proof. unfold run_appends. apply fold_left_app. Qed.

Lemma appends_ok_app w q1 q2 : appends_ok w (q1 ++ q2) ↔ appends_ok w q1 ∧ appends_ok (run_appends w q1) q2.
Proof.
  revert w. induction q1 as [|q q1 IH]; intros w; cbn [app appends_ok]; [cbn; tauto|].
  rewrite run_appends_cons, IH. tauto.
Qed.

(** With a codec that always encodes, no request is lost. *)
Lemma append_total {PT : PostcardTotal WalRecordBody} w c : is_ok (append w c).1 = true.
Proof.
  destruct (append_cases w c) as [(m & Hm & _)|(b & sg & sp & _ & _ & ->)]; [|done].
  destruct (postcard_total (from_content (c (sat_add64 (w_next_seq w) 1)) (w_prev_hash w))) as [b Hb]. congruence.
Qed.
Lemma appends_ok_total {PT : PostcardTotal WalRecordBody} w reqs : appends_ok w reqs.
Proof. revert w. induction reqs; intros w; cbn [appends_ok]; [done|]. split; [apply append_total|auto]. Qed.

(** What is recorded shows in the number of records. *)
Lemma run_appends_length w reqs :
  len (w_records (run_appends w reqs)) ≤ len (w_records w) + len reqs ∧
  (len (w_records w) + len reqs ≤ len (w_records (run_appends w reqs)) → appends_ok w reqs).
Proof.
  revert w. induction reqs as [|q reqs IH]; intros w; [cbn [run_appends fold_left appends_ok]; unfold len; cbn; lia|].
  rewrite run_appends_cons, len_cons. cbn [appends_ok]. destruct (IH (do_append w q)) as [I1 I2]. revert I1 I2.
  rewrite do_append_eq. destruct (append_cases w (req_content q)) as [(m & _ & ->)|(b & sg & sp & _ & _ & ->)];
    cbn [fst snd is_ok w_records]; rewrite ?len_app, ?len_cons; intros I1 I2.
  - lia.
  - change (len []) with 0 in *. split; [lia|]. intros Hle. split; [done|]. apply I2. lia.
Qed.

(** A log that lost nothing: every request that led to it is recorded. *)
Definition recorded (w w' : WalWriter) : Prop := ∀ reqs, w' = run_appends w reqs → appends_ok w reqs.

Lemma run_appends_seq w reqs :
  w_next_seq w ≤ U64_MAX → w_next_seq (run_appends w reqs) = N.min (w_next_seq w + len reqs) U64_MAX.
Proof.
  revert w. induction reqs as [|q reqs IH]; intros w Hw; [cbn [run_appends fold_left]; change (len []) with 0; lia|].
  rewrite run_appends_cons, IH, do_append_eq, append_next_seq, len_cons; unfold sat_add64;
    [|rewrite do_append_eq, append_next_seq; unfold sat_add64]; lia.
Qed.

(** As many records as sequence numbers, from a fresh writer. *)
Lemma recorded_count w w' :
  w_next_seq w = 0 → w_records w = [] → w_next_seq w' = len (w_records w') → w_next_seq w' < U64_MAX → recorded w w'.
Proof.
  intros Hz Hn Hc Hlt reqs ->. pose proof (run_appends_seq w reqs ltac:(lia)) as Hs.
  apply (proj2 (run_appends_length w reqs)). rewrite Hz in Hs. rewrite Hn. change (len []) with 0. lia.
Qed.

Lemma numbered_app w q1 q2 :
  numbered (w_next_seq w) (q1 ++ q2) = numbered (w_next_seq w) q1 ++ numbered (w_next_seq (run_appends w q1)) q2.
Proof.
  revert w. induction q1 as [|q q1 IH]; intros w; [done|]. cbn [app numbered]. f_equal.
  assert (w_next_seq (do_append w q) = sat_add64 (w_next_seq w) 1) as <- by by rewrite do_append_eq, append_next_seq.
  rewrite run_appends_cons. apply IH.
Qed.

Lemma replay_loop_app st recs1 recs2 r' st' :
  replay_loop st recs1 = Done (r', Ok st') → replay_loop st (recs1 ++ recs2) = replay_loop st' recs2.
Proof.
  revert st. induction recs1 as [|rec recs1 IH]; intros st Hl; cbn [replay_loop app] in *.
  { by injection Hl as _ ->. }
  apply bind_Done in Hl as ([q [st1|e]] & -> & Hl); cbn [mbind Outcome_bind]; [by apply IH|done].
Qed.

Lemma replays_trans k w k1 q1 e1 k2 q2 e2 :
  replays k w k1 q1 e1 → replays k1 (run_appends w q1) k2 q2 e2 → replays k w k2 (q1 ++ q2) (e1 ++ e2).
Proof.
  intros [W1 R1] [W2 R2]. split; [by rewrite run_appends_app|]. intros [A1 A2]%appends_ok_app r rw rep recs Hs Hrecs.
  rewrite numbered_app in Hrecs. apply fmap_app_inv in Hrecs as (recs1 & recs2 & Hr1 & Hr2 & ->).
  destruct (R1 A1 r rw rep recs1 Hs (eq_sym Hr1)) as (r1 & rw1 & rep1 & L1 & S1 & O1 & G1).
  destruct (R2 A2 r1 rw1 rep1 recs2 S1 (eq_sym Hr2)) as (r2 & rw2 & rep2 & L2 & S2 & O2 & G2).
  exists r2, rw2, rep2. split_and!; [by rewrite (replay_loop_app _ _ _ _ _ L1)|by rewrite run_appends_app| |].
  - by rewrite O2, O1, shown_app.
  - by eapply report_grows_app.
Qed.

(** What the live writer records, the measuring writer records, and stays
    synchronized. *)
Lemma append_synced k w r rw q :
  is_ok (append w (req_content q)).1 = true → synced k w r rw →
  ∃ rec, append rw (req_content q) = (Ok rec, (append rw (req_content q)).2) ∧
    synced k (do_append w q) r (append rw (req_content q)).2.
Proof.
  intros Hok [S1 S2 S3 S4 S5]. rewrite do_append_eq.
  destruct (append_unsigned rw w (req_content q) S3 S4 S5) as (F0 & F1 & F2 & F3). rewrite Hok in F0.
  destruct (append rw (req_content q)) as [[rec|e] rw'] eqn:Ha; [|done].
  exists rec. split; [done|]. by split.
Qed.

(** A logged transition of one record. *)
Lemma replays_one k w k' q evs :
  wal k' = Some (do_append w q) →
  (is_ok (append w (req_content q)).1 = true → ∀ r rw rep, synced k w r rw →
     ∃ r' rep', replay_record (mkReplay r rw rep) (req_content q (sat_add64 (w_next_seq w) 1))
                = Done (r', Ok (mkReplay r' (append rw (req_content q)).2 rep')) ∧
       instances r' = instances k' ∧ action_registry r' = action_registry k' ∧
       observers r' = shown (observers r) evs ∧ report_grows rep rep' [q]) →
  replays k w k' [q] evs.
Proof.
  intros Hw Hq. split; [done|]. intros [Hok _] r rw rep recs Hs Hrecs.
  destruct recs as [|rec [|]]; try done. injection Hrecs as Hrec.
  destruct (Hq Hok r rw rep Hs) as (r' & rep' & Hr & Hi & Hreg & Hobs & Hgr). destruct (append_synced k w r rw q Hok Hs) as (x & _ & Hs').
  exists r', (append rw (req_content q)).2, rep'. cbn [replay_loop]. rewrite Hrec, Hr.
  cbn [mbind Outcome_bind rp_kernel]. split_and!; [done| |done|done]. destruct Hs' as [_ _ T3 T4 T5]. by split.
Qed.

(** A live turn of [step] replays. *)
Lemma step_turn_replays strict now caps rep k id rep' k' w :
  kernel_inv strict k → wal k = Some w → step_instance now caps true (rep, k) id = Done (rep', k') →
  ∃ reqs evs, replays k w k' reqs evs ∧ observers k' = shown (observers k) evs.
Proof.
  intros Hk Hw Hs. unfold step_instance in Hs. cbn [fst snd] in Hs.
  apply bind_Done in Hs as ([x k1] & Hp & Hs).
  destruct (process_cases k id now caps true (ki_registry _ _ Hk)) as
    [(k2 & Hp' & Hi & (F1 & F2 & _) & _)|(? & ? & ? & core & ? & ? & n & k2 & _ & _ & _ & _ & _ & Hp' & _ & (F1 & F2 & _))].
  { intros i Ei. apply (ki_instances _ _ Hk id i Ei). }
  - pose proof (process_shown _ _ _ _ _ _ _ Hp) as Ho. pose proof Hp as Hq.
    rewrite Hp in Hp'. injection Hp' as -> ->. injection Hs as <- <-. exists [], []. split; [apply replays_nil; congruence|].
    rewrite Ho. unfold process_events. unfold process_instance_record in Hq.
    destruct (instances k !! id) as [i|]; [|done]. apply bind_Done in Hq as ([[oc i'] sc] & Hs & Hq).
    destruct (step_scratch_irrelevant _ _ _ _ StepStage_default _ _ _ _ _ _ Hs) as [sc' ->].
    destruct oc as [core|]; [|done]. by destruct (fold_left (route_one id) _ _) as [? [? ?]].
  - rewrite Hp in Hp'. injection Hp' as -> ->. cbn [mret Outcome_ret] in Hs. rewrite F2, Hw in Hs.
    injection Hs as <- <-. set (q := ReqStep id (core_popped_id core) now caps (core_verdict core) (core_digest core)).
    pose proof (process_shown _ _ _ _ _ _ _ Hp) as Ho.
    exists [q], (process_events (instances k) (action_registry k) id now caps true). split; [|exact Ho]. apply replays_one; [done|]. intros Hok r rw rrep Hsy.
    destruct (process_same_state k r id now caps true _ _ (eq_sym (sy_instances _ _ _ _ Hsy))
                (eq_sym (sy_registry _ _ _ _ Hsy)) Hp) as (y & r' & Hr & Hi' & _ & (G1 & _) & Hres).
    destruct y as [y|]; [|done]. destruct Hres as (core' & n1 & n2 & Hx & ->).
    destruct (append_synced k w r rw q Hok Hsy) as (rec & Ha & _).
    exists r', (add_step rrep (result_of core' n2)). cbn [replay_record req_content q rp_kernel rp_writer].
    rewrite Hr. cbn [mbind Outcome_bind]. injection Hx as X1 X2 X3 X4 X5 X6 X7.
    cbn [result_of res_popped_id res_verdict res_digest]. rewrite <- X1, <- X2, <- X3.
    rewrite !decide_False by (intros Hn; by apply Hn).
    change (append_step rw id (core_popped_id core) now caps (core_verdict core) (core_digest core))
      with (append rw (req_content q)). rewrite Ha. split; [done|]. cbn [set_wal instances action_registry].
    split_and!; [congruence|rewrite G1, F1; apply Hsy| |done].
    rewrite (process_shown _ _ _ _ _ _ _ Hr). by rewrite (sy_instances _ _ _ _ Hsy), (sy_registry _ _ _ _ Hsy).
Qed.

Lemma step_loop_replays strict now caps ids rep k rep' k' w :
  kernel_inv strict k → wal k = Some w →
  fold_outcome (step_instance now caps true) (rep, k) ids = Done (rep', k') →
  ∃ reqs evs, replays k w k' reqs evs ∧ observers k' = shown (observers k) evs.
Proof.
  revert rep k w. induction ids as [|id ids IH]; intros rep k w Hk Hw Hf; cbn [fold_outcome] in Hf.
  { injection Hf as <- <-. exists [], []. split; [by apply replays_nil|done]. }
  apply bind_Done in Hf as ([rep1 k1] & Hs & Hf).
  destruct (step_turn_replays _ _ _ _ _ _ _ _ _ Hk Hw Hs) as (q1 & e1 & Hq1 & Ho1).
  destruct (step_instance_inv strict now caps true (rep, k) id Hk) as (st & Hs' & Hk1 & _).
  rewrite Hs in Hs'. injection Hs' as <-.
  destruct (IH rep1 k1 (run_appends w q1) Hk1 (proj1 Hq1) Hf) as (q2 & e2 & Hq2 & Ho2).
  exists (q1 ++ q2), (e1 ++ e2). split; [by eapply replays_trans|]. by rewrite Ho2, Ho1, shown_app.
Qed.

(** A live submission replays. *)
Lemma submit_replays strict k i p a c t tc bs x k' w :
  kernel_inv strict k → wal k = Some w → submit k i p a c t tc bs = Done (x, k') →
  ∃ reqs, replays k w k' reqs [] ∧ observers k' = observers k.
Proof.
  intros Hk Hw Hs. unfold submit in Hs. destruct (instances k !! i) as [inst|] eqn:Ei.
  2:{ injection Hs as <- <-. exists []. split; [by apply replays_nil|done]. }
  destruct (decide _); [injection Hs as <- <-; exists []; split; [by apply replays_nil|done]|].
  apply bind_Done in Hs as (id & Hid%expect_Done & Hs). cbn [set_instances wal] in Hs. rewrite Hw in Hs.
  injection Hs as <- <-. exists [ReqSubmit i p a c t tc bs id]. split; [|done]. apply replays_one; [done|].
  intros Hok r rw rep Hsy. destruct (append_synced k w r rw (ReqSubmit i p a c t tc bs id) Hok Hsy) as (rec & Ha & _).
  destruct Hsy as [S1 S2 _ _ _]. cbn [replay_record req_content rp_kernel rp_writer]. unfold submit_with_id.
  rewrite S1, Ei. cbn [ok_or mbind Result_bind mret Result_ret].
  change (append_submit rw i p a c t tc bs id) with (append rw (req_content (ReqSubmit i p a c t tc bs id))).
  rewrite Ha. do 2 eexists. split; [reflexivity|]. split_and!; [|exact S2|done|done]. cbn [set_instances set_wal instances].
  f_equal. assert (Npos id = sat_add64 (next_scheduled (id_counters inst)) 1) as Hid'
    by (unfold ScheduledActionId_new, NonZero_new in Hid; destruct (sat_add64 _ 1); congruence).
  pose proof (inv_counter _ (ig_inv _ _ (proj1 (ki_instances _ _ Hk i inst Ei)))) as Hle.
  unfold ScheduledActionId_get. unfold sat_add64 in *. rewrite <- Hid'.
  case_decide; [done|]. do 3 f_equal. lia.
Qed.

(** The calls a log reproduces: submissions and steps; observers do not
    matter. Instances are created before, and [force_unload] is not logged. *)
Definition replayable (c : KernelCall) : Prop :=
  match c with CallSubmit _ _ _ _ _ _ _ | CallStep _ _ | CallObserve _ _ => True | _ => False end.

Definition no_observe (c : KernelCall) : Prop := match c with CallObserve _ _ => False | _ => True end.

Lemma session_replays strict k cs k' w :
  kernel_inv strict k → wal k = Some w → Forall replayable cs → run_calls k cs = Done k' →
  ∃ reqs evs, replays k w k' reqs evs ∧ (Forall no_observe cs → observers k' = shown (observers k) evs).
Proof.
  unfold run_calls. revert k w. induction cs as [|c cs IH]; intros k w Hk Hw Hcs Hr; cbn [fold_outcome] in Hr.
  { injection Hr as <-. exists [], []. split; [by apply replays_nil|done]. }
  apply Forall_cons in Hcs as [Hc Hcs]. apply bind_Done in Hr as (k1 & H1 & Hr).
  destruct (run_call_inv strict k c Hk) as (k1' & H1' & Hk1 & _); [by destruct c|].
  rewrite H1 in H1'. injection H1' as <-.
  assert (∃ q1 e1, replays k w k1 q1 e1 ∧ (no_observe c → observers k1 = shown (observers k) e1)) as (q1 & e1 & Hq1 & Ho1).
  { destruct c as [|obs mask|inst p a cp t tc bs|now caps|]; try done; cbn [run_call] in H1.
    - injection H1 as <-. exists [], []. split; [by apply replays_nil|done].
    - apply bind_Done in H1 as ([x q] & H1 & [= <-]). destruct (submit_replays _ _ _ _ _ _ _ _ _ _ _ _ Hk Hw H1) as (q1 & Hq & Ho).
      by exists q1, [].
    - apply bind_Done in H1 as ([x q] & H1 & [= <-]). unfold step in H1. rewrite Hw in H1.
      destruct (step_loop_replays _ _ _ _ _ _ _ _ _ Hk Hw H1) as (q1 & e1 & Hq & Ho). by exists q1, e1. }
  destruct (IH k1 (run_appends w q1) Hk1 (proj1 Hq1) Hcs Hr) as (q2 & e2 & Hq2 & Ho2).
  exists (q1 ++ q2), (e1 ++ e2). split; [by eapply replays_trans|]. intros [Hn Hns]%Forall_cons.
  by rewrite (Ho2 Hns), (Ho1 Hn), shown_app.
Qed.

Lemma run_appends_numbered w reqs :
  appends_ok w reqs →
  content <$> w_records (run_appends w reqs) = (content <$> w_records w) ++ numbered (w_next_seq w) reqs.
Proof.
  revert w. induction reqs as [|q reqs IH]; intros w Hok; [by rewrite app_nil_r|]. destruct Hok as [Hq Hok].
  rewrite run_appends_cons, IH, do_append_eq, append_next_seq by done. cbn [numbered].
  destruct (append_cases w (req_content q)) as [(m & _ & Ha)|(b & sg & sp & _ & _ & ->)].
  - by rewrite Ha in Hq.
  - cbn [snd w_records]. rewrite fmap_app, <- app_assoc. done.
Qed.

(** The records of a kind. *)
Definition count_kind (kd : WalRecordKind) (w : WalWriter) : N := len (filter (λ rec, record_kind rec = kd) (w_records w)).
Definition request_kind (q : AppendReq) : WalRecordKind := if is_submit q then KindSubmit else KindStep.

Lemma count_requests kd w reqs :
  appends_ok w reqs → w_records w = [] → count_kind kd (run_appends w reqs) = len (filter (λ q, request_kind q = kd) reqs).
Proof.
  intros Hok Hw. pose proof (run_appends_numbered w reqs Hok) as Hn. clear Hok. rewrite Hw in Hn. cbn [fmap list_fmap app] in Hn.
  unfold count_kind. generalize (w_next_seq w), Hn. clear Hn. generalize (w_records (run_appends w reqs)). clear Hw.
  induction reqs as [|q reqs IH]; intros recs n Hn; destruct recs as [|rec recs]; try done. cbn [numbered] in Hn.
  injection Hn as Hc Hn. specialize (IH recs _ Hn). rewrite !filter_cons.
  assert (record_kind rec = request_kind q) as -> by (unfold record_kind; rewrite Hc; by destruct q).
  destruct (decide _); [by rewrite !len_cons, IH|done].
Qed.

Lemma append_header w c : w_header (append w c).2 = w_header w.
Proof. destruct (append_cases w c) as [(m & _ & ->)|(b & sg & sp & _ & _ & ->)]; done. Qed.

Lemma run_appends_header w reqs : w_header (run_appends w reqs) = w_header w.
Proof.
  revert w. induction reqs as [|q reqs IH]; intros w; [done|].
  by rewrite run_appends_cons, IH, do_append_eq, append_header.
Qed.

Lemma run_appends_key w reqs : w_chain_key (run_appends w reqs) = w_chain_key w.
Proof.
  revert w. induction reqs as [|q reqs IH]; intros w; [done|]. rewrite run_appends_cons, IH, do_append_eq.
  destruct (append_cases w (req_content q)) as [(m & _ & ->)|(b & sg & sp & _ & _ & ->)]; done.
Qed.

(** Every header the kernel's own writers pin passes the gates. *)
Lemma own_header_gates world md c reqs :
  check_header_gates (from_writer (run_appends (with_signature world md c) reqs)) = Ok ().
Proof. unfold check_header_gates. cbn [from_writer header]. by rewrite run_appends_header. Qed.

(** The records of a live session replay from a kernel in the initial state. *)
Lemma own_log_replays world md c strict k cs k' r :
  wal k = Some (with_signature world md c) → kernel_inv strict k → Forall replayable cs →
  run_calls k cs = Done k' → instances r = instances k → action_registry r = action_registry k →
  ∃ reqs w' evs, w' = run_appends (with_signature world md c) reqs ∧ wal k' = Some w' ∧
    (Forall no_observe cs → observers k' = shown (observers k) evs) ∧
    (appends_ok (with_signature world md c) reqs → chain_tip (from_writer w') = writer_chain_tip w' →
     ∃ r' rep, replay_records r (from_writer w') = Done (r', Ok rep) ∧ instances r' = instances k' ∧
       final_chain_tip rep = writer_chain_tip w' ∧ observers r' = shown (observers r) evs ∧
       submits_replayed rep = N.min (count_kind KindSubmit w') U32_MAX ∧
       steps_replayed rep = N.min (count_kind KindStep w') U32_MAX).
Proof.
  intros Hw Hk Hcs Hr Hi Hreg. destruct (session_replays strict k cs k' _ Hk Hw Hcs Hr) as (reqs & evs & [Hw' Hrep] & Hobs).
  exists reqs, (run_appends (with_signature world md c) reqs), evs. split_and!; [done|done|done|]. intros Hok Htip.
  destruct (Hrep Hok r (rebuild_from_header (header (from_writer (run_appends (with_signature world md c) reqs))))
              ReplayReport_default (records (from_writer (run_appends (with_signature world md c) reqs))))
    as (r' & rw' & rep' & Hl & [T1 _ _ T4 _] & Ho' & G1 & G2).
  { cbn [from_writer header]. rewrite run_appends_header. by split. }
  { cbn [from_writer records]. by rewrite run_appends_numbered by done. }
  unfold replay_records. rewrite Hl. cbn [mbind Outcome_bind]. cbn [rp_writer rp_report].
  assert (writer_chain_tip rw' = chain_tip (from_writer (run_appends (with_signature world md c) reqs))) as Heq
    by (rewrite Htip; exact T4).
  rewrite decide_False by (intros Hn; by apply Hn). do 2 eexists. split; [reflexivity|].
  split_and!; [done|cbn; rewrite Heq; exact Htip|exact Ho'|..]; cbn [submits_replayed steps_replayed].
  - rewrite G1, tally_count by (cbn; unfold U32_MAX; lia). rewrite count_requests by done.
    cbn [submits_replayed steps_replayed ReplayReport_default]. rewrite N.add_0_l. do 2 f_equal.
    apply filter_ext_in. intros q _. by destruct q.
  - rewrite G2, tally_count by (cbn; unfold U32_MAX; lia). rewrite count_requests by done.
    cbn [submits_replayed steps_replayed ReplayReport_default]. rewrite N.add_0_l. do 2 f_equal.
    apply filter_ext_in. intros q _. by destruct q.
Qed.

(** ** Untrusted logs *)

(** Every id in the log fits 64 bits, as its type says. *)
Definition ids_typed (w : Wal) : Prop :=
  Forall (λ rec, match content rec with
                 | CSubmit _ _ _ _ _ _ _ _ id => ScheduledActionId_get id ≤ U64_MAX
                 | CStep _ _ _ _ _ _ _ => True end) (records w).

(** What replay of a hostile log preserves: no index is assumed well formed. *)
Definition counters_ok (k : Kernel) : Prop :=
  computes_total (action_registry k) ∧
  map_Forall (λ _ i, next_scheduled (id_counters i) ≤ U64_MAX) (instances k).

Lemma step_ends_counter id i1 e reg sc now session m core i2 sc' :
  next_scheduled (id_counters i1) ≤ U64_MAX →
  step_ends id i1 e reg sc now session m core i2 sc' → next_scheduled (id_counters i2) ≤ U64_MAX.
Proof.
  intros Hle He. destruct He as [| | |? ? g ? ? _ _ _ [G1 _ _ _ _] _ Ha]; try done.
  destruct (commit_fields _ _ _ _ _ _ _ G1 Ha) as (_ & _ & _ & Hn & _). rewrite Hn. unfold sat_add64. lia.
Qed.

Lemma route_all_counters from insts sigs :
  map_Forall (λ _ i, next_scheduled (id_counters i) ≤ U64_MAX) insts →
  map_Forall (λ _ i, next_scheduled (id_counters i) ≤ U64_MAX) (route_all from insts sigs).
Proof.
  revert insts. induction sigs as [|s sigs IH]; intros insts Hi; [done|]. apply IH.
  destruct (route_signal_cases from insts s) as [->|(target & Ht & _ & ->)]; [done|].
  apply map_Forall_insert_2; [|done]. exact (Hi _ _ Ht).
Qed.

Lemma process_counters k id now session m :
  counters_ok k → ∃ x k', process_instance_record k id now session m = Done (x, k') ∧ counters_ok k'.
Proof.
  intros [Hc Hi].
  destruct (process_cases k id now session m Hc) as
    [(k' & -> & Hi' & (F1 & _) & _)|(i & key & e & core & i' & sc & n & k' & Ei & _ & _ & _ & He & -> & Hi' & (F1 & _))].
  { intros i Ei. exact (Hi id i Ei). }
  - do 2 eexists. split; [reflexivity|]. unfold counters_ok. by rewrite F1, Hi'.
  - do 2 eexists. split; [reflexivity|]. unfold counters_ok. rewrite F1, Hi'. split; [done|].
    apply route_all_counters, map_Forall_insert_2; [|done]. eapply step_ends_counter; [|exact He]. exact (Hi id i Ei).
Qed.

Lemma replay_record_total st c :
  counters_ok (rp_kernel st) →
  match c with CSubmit _ _ _ _ _ _ _ _ id => ScheduledActionId_get id ≤ U64_MAX | _ => True end →
  ∃ k' x, replay_record st c = Done (k', x) ∧
    match x with Ok st' => counters_ok (rp_kernel st') | Err _ => True end.
Proof.
  intros [Hc Hi] Hid. destruct c as [sq i p a cp t tc bs id|sq i pid now cp v d]; cbn [replay_record].
  - destruct (submit_with_id (rp_kernel st) i p a cp id t tc bs) as [k'|e] eqn:Es; [|by do 2 eexists].
    destruct (append_submit _ _ _ _ _ _ _ _ _) as [[y|e] w']; [|by do 2 eexists].
    do 2 eexists. split; [reflexivity|]. cbn [rp_kernel].
    apply bind_Ok in Es as (inst & Ei%ok_or_Ok & [= <-]). split; [done|]. cbn [set_instances instances].
    apply map_Forall_insert_2; [|done]. cbn. case_decide; [exact Hid|exact (Hi i inst Ei)].
  - destruct (process_counters (rp_kernel st) i now cp true (conj Hc Hi)) as (x & k' & -> & Hk').
    cbn [mbind Outcome_bind]. destruct x as [x|]; [|by do 2 eexists].
    destruct (decide _); [by do 2 eexists|]. destruct (decide _); [by do 2 eexists|].
    destruct (decide _); [by do 2 eexists|].
    destruct (append_step _ _ _ _ _ _ _) as [[y|e] w']; by do 2 eexists.
Qed.

Lemma replay_loop_total st recs :
  counters_ok (rp_kernel st) →
  Forall (λ rec, match content rec with
                 | CSubmit _ _ _ _ _ _ _ _ id => ScheduledActionId_get id ≤ U64_MAX
                 | CStep _ _ _ _ _ _ _ => True end) recs →
  ∃ k' x, replay_loop st recs = Done (k', x).
Proof.
  revert st. induction recs as [|rec recs IH]; intros st Hst Hids; cbn [replay_loop]; [by do 2 eexists|].
  apply Forall_cons in Hids as [Hid Hids].
  destruct (replay_record_total st (content rec) Hst) as (k' & x & -> & Hx); [by destruct (content rec)|].
  cbn [mbind Outcome_bind]. destruct x as [st'|e]; [by apply IH|by do 2 eexists].
Qed.

Lemma replay_records_total k w : counters_ok k → ids_typed w → ∃ k' x, replay_records k w = Done (k', x).
Proof.
  intros Hk Hw. unfold replay_records.
  destruct (replay_loop_total (mkReplay k (rebuild_from_header (header w)) ReplayReport_default) (records w) Hk Hw)
    as (k' & [st|e] & ->); cbn [mbind Outcome_bind]; [|by do 2 eexists].
  destruct (decide _); by do 2 eexists.
Qed.

End replay.

(** The anchor that pins everything a writer of class [c] puts in its log. *)
Definition own_anchor {SS : SigSchemes} (md : bytes) (c : SignatureClass) (tip : bytes) : TrustAnchor :=
  mkAnchor
    (Some match c with SC_None => TierNone | SC_Ed25519 _ _ => TierEd25519 | SC_Hybrid _ _ _ => TierHybrid end)
    (verifying_key_bytes c) (verifying_key_pqc_bytes c) (Some md) (Some tip).

(** ** Properties *)

Section properties.
Context `{Postcard InstanceSnapshot, Postcard WalRecordBody} {B3 : Blake3} {SS : SigSchemes}.
Context (error_debug : ArkheError → string).

(** The whole of both entry points on a log of one's own. *)
Lemma own_session_replays {SL : SigLaws} world md c k cs k' w' r :
  honest c → pqc_total c →
  wal k = Some (with_signature world md c) → kernel_inv false k →
  Forall replayable cs → run_calls k cs = Done k' → wal k' = Some w' →
  recorded (with_signature world md c) w' → instances r = instances k → action_registry r = action_registry k → manifest_digest r = md →
  ∃ r' rep evs,
    replay_into error_debug r (from_writer w') = Done (r', Ok rep) ∧
    replay_into_verified error_debug r (from_writer w') world (own_anchor md c (writer_chain_tip w'))
      = Done (r', Ok rep) ∧
    instances r' = instances k' ∧ final_chain_tip rep = writer_chain_tip w' ∧
    submits_replayed rep = N.min (count_kind KindSubmit w') U32_MAX ∧
    steps_replayed rep = N.min (count_kind KindStep w') U32_MAX ∧
    observers r' = shown (observers r) evs ∧ (Forall no_observe cs → observers k' = shown (observers k) evs).
Proof.
  intros Hh Ht Hw Hk Hcs Hr Hw' Hrec Hi Hreg Hmd.
  destruct (own_log_replays error_debug world md c false k cs k' r Hw Hk Hcs Hr Hi Hreg)
    as (reqs & w & evs & Hweq & Hw2 & Hobs & Hrep).
  rewrite Hw' in Hw2. injection Hw2 as ->. destruct (honest_verifier c Hh) as [v Hv].
  assert (writer_ok v world w) as [W1 W2 W3].
  { rewrite Hweq. apply run_appends_ok; [done|done|done|]. split; [constructor|done|exact Hv]. }
  assert (chain_tip (from_writer w) = writer_chain_tip w) as Htip by (symmetry; exact (valid_chain_tip _ _ _ _ _ W1)).
  assert (w_header w = w_header (with_signature world md c)) as Hhd by (rewrite Hweq; apply run_appends_header).
  assert (verify_chain (from_writer w) world = Done (Ok ())) as Hver.
  { destruct (verify_chain_valid (from_writer w) world) as (x & -> & Hx). f_equal. apply Hx.
    exists v. split; [exact W3|]. rewrite Htip, <- W2. exact W1. }
  assert (check_header_gates (from_writer w) = Ok ()) as Hg by (rewrite Hweq; apply own_header_gates).
  destruct (Hrep (Hrec reqs Hweq) Htip) as (r' & rep & Hrr & Hir & Hfin & Ho & Hc1 & Hc2). exists r', rep, evs.
  split_and!; [| |done..].
  - unfold replay_into. rewrite Hg. cbn [from_writer header]. rewrite Hhd. cbn [with_signature w_header
      header_manifest_digest world_id]. rewrite decide_False by (rewrite Hmd; intros Hn; by apply Hn).
    rewrite Hver. exact Hrr.
  - unfold replay_into_verified. rewrite Hg.
    destruct (verify_chain_anchored_Ok (from_writer w) world (own_anchor md c (writer_chain_tip w))) as (x & -> & Hx).
    assert (x = Ok ()) as ->; [|exact Hrr]. apply Hx. split_and!; [|done|].
    + apply anchor_gates_Ok. unfold header_tier. cbn [from_writer header]. rewrite Hhd.
      split_and!; [|by intros ? [=]..|by intros ? [= <-]].
      destruct Hh; (eexists; split; [reflexivity|]); intros floor [= <-]; done.
    + intros tip [= <-]. exact Htip.
Qed.

(** C1: replay reproduces the session. Take a kernel with an attached fresh
    log of any honest signing class whose PQC provider does not fail, a codec
    that always encodes, instances already created, and any sequence of
    submissions, steps and observer registrations on it (no forced unload),
    whatever the operations the actions compute, the session ceilings and the
    observers.
    Replaying the exported log into any kernel with the initial instances, the
    same actions and the same manifest succeeds: the chain and its signatures
    verify, every re-executed pop, verdict and state digest matches, the
    replayed instances equal the live ones field by field, the re-measured
    chain tip is the live tip, the report counts the submissions and the steps
    of the log, and the replaying kernel's observers are shown the very events
    the live session showed. The same holds for the verified entry point under
    the anchor that pins the writer's tier, keys, manifest and tip. *)
Theorem replay_reproduces_session {PT : PostcardTotal WalRecordBody} {SL : SigLaws} world md c k cs k' w' r :
  honest c → pqc_total c →
  wal k = Some (with_signature world md c) → kernel_inv false k →
  Forall replayable cs → run_calls k cs = Done k' → wal k' = Some w' →
  instances r = instances k → action_registry r = action_registry k → manifest_digest r = md →
  ∃ r' rep evs,
    replay_into error_debug r (from_writer w') = Done (r', Ok rep) ∧
    replay_into_verified error_debug r (from_writer w') world (own_anchor md c (writer_chain_tip w'))
      = Done (r', Ok rep) ∧
    instances r' = instances k' ∧ final_chain_tip rep = writer_chain_tip w' ∧
    submits_replayed rep = N.min (count_kind KindSubmit w') U32_MAX ∧
    steps_replayed rep = N.min (count_kind KindStep w') U32_MAX ∧
    observers r' = shown (observers r) evs ∧ (Forall no_observe cs → observers k' = shown (observers k) evs).
Proof.
  intros Hh Ht Hw Hk Hcs Hr Hw'. apply (own_session_replays world md c k cs); try done.
  intros reqs _. apply appends_ok_total.
Qed.

(** C9: replay of untrusted logs is panic-free. Whatever the log (any
    header, any records, broken chains, unknown instances, duplicate or
    out-of-order ids, forged verdicts), both entry points return a report or
    an error; only the 64-bit width of ids and counters is assumed, and that
    registered actions compute without panicking. *)
Theorem replay_never_panics k w world anchor :
  counters_ok k → ids_typed w →
  (∃ k' x, replay_into error_debug k w = Done (k', x)) ∧
  (∃ k' x, replay_into_verified error_debug k w world anchor = Done (k', x)).
Proof.
  intros Hk Hw. destruct (replay_records_total error_debug k w Hk Hw) as (k' & x & Hrr). split.
  - unfold replay_into. destruct (check_header_gates w); [|by do 2 eexists].
    destruct (decide _); [by do 2 eexists|].
    destruct (verify_chain_valid w (world_id (header w))) as ([[]|e] & -> & _); cbn [mbind Outcome_bind];
      [|by do 2 eexists]. eauto.
  - unfold replay_into_verified. destruct (check_header_gates w); [|by do 2 eexists].
    destruct (verify_chain_anchored_Ok w world anchor) as ([[]|e] & -> & _); cbn [mbind Outcome_bind];
      [|by do 2 eexists]. eauto.
Qed.

(** A verified replay pins the log. If [replay_into_verified] accepts a
    log under an anchor that pins a tip and a manifest digest, then the header
    is compatible, the chain verifies under the caller's world, the manifest
    is the pinned one, and the tip it re-measured by re-sealing the records is
    the log's tip and the pinned tip; no record is applied otherwise. *)
Theorem verified_replay_sound k w world anchor k' rep tip md :
  expected_chain_tip anchor = Some tip → expected_manifest_digest anchor = Some md →
  replay_into_verified error_debug k w world anchor = Done (k', Ok rep) →
  check_header_gates w = Ok () ∧ verify_chain w world = Done (Ok ()) ∧
  header_manifest_digest (header w) = md ∧ chain_tip w = tip ∧ final_chain_tip rep = tip.
Proof.
  intros Htip Hmd Hr. unfold replay_into_verified in Hr.
  destruct (check_header_gates w) as [[]|]; [|done].
  destruct (verify_chain_anchored_Ok w world anchor) as (x & Hx & Hiff). rewrite Hx in Hr. cbn [mbind Outcome_bind] in Hr.
  destruct x as [[]|e]; [|done]. destruct (proj1 Hiff eq_refl) as (Hg & Hv & Ht).
  apply anchor_gates_Ok in Hg as (_ & _ & _ & Hm). specialize (Ht tip Htip).
  split_and!; [done|done|by apply Hm|done|]. unfold replay_records in Hr.
  apply bind_Done in Hr as ([k1 [st|e]] & _ & Hr); [|done].
  destruct (decide (writer_chain_tip (rp_writer st) ≠ chain_tip w)) as [|Hne]; [done|].
  apply dec_stable in Hne. injection Hr as _ <-. cbn. congruence.
Qed.

End properties.

(** ** Witnesses *)

(** Cheap total codecs that keep the fields the examples exercise: the
    in-flight counts and the queue length of an instance; the sequence, tip
    and digest of a record body. *)
Definition ex_num (n : N) : bytes := pos_bits (N.succ_pos n) ++ [Byte.xff].
#[local] Instance ex_snapshot_postcard : Postcard InstanceSnapshot := {|
  to_allocvec := λ s, Ok (mjoin ((λ x, ex_num x.1 ++ ex_num x.2) <$> map_to_list (snap_inflight_refs s))
                          ++ ex_num (Scheduler_len (snap_scheduler s)));
  from_bytes := λ _, Err "unused"%string
|}.
#[local] Instance ex_body_postcard : Postcard WalRecordBody := {|
  to_allocvec := λ b, Ok (body_prev b ++
    match body_content b with
    | BSubmit s _ _ _ _ _ _ _ _ => ex_num s
    | BStep s _ _ _ _ _ d => ex_num s ++ d
    end);
  from_bytes := λ _, Err "unused"%string
|}.
#[local] Instance ex_body_postcard_total : PostcardTotal WalRecordBody.
Proof. intros x. eexists. reflexivity. Qed.
#[local] Instance ex_sigs : SigSchemes := toy_sigs false.
#[local] Instance ex_sigs_laws : SigLaws := toy_sigs_laws false.

(** A state hash that is injective (the identity) beside a 32-byte chain hash. *)
#[local] Instance ex_blake3 : Blake3 := {|
  blake3_hash := λ m, m;
  blake3_derive_key := λ _ m, tail32 m;
  blake3_keyed := λ _ m, tail32 m
|}.

(** One instance; its actions send a signal to it on route 7. *)
Definition ex_instance : Instance_ := Instance_new 1 (mkConfig 1 0 0 0 0 None Reject).
Definition replay_kernel (c : SignatureClass) : Kernel :=
  mkKernel _ {[1%positive := ex_instance]} (script_registry [SendSignal 1 7 []]) ObserverRegistry_new 1 zero32
    (Some (with_signature zero32 zero32 c)) StepStage_default.
Definition ex_fresh : Kernel :=
  mkKernel _ {[1%positive := ex_instance]} (script_registry [SendSignal 1 7 []]) ObserverRegistry_new 1 zero32
    None StepStage_default.
Definition replay_session : list KernelCall :=
  [CallObserve (λ _ _, true) EM_ALL; CallSubmit 1 System None 1 0 1 []; CallSubmit 1 System None 0 0 1 [];
   CallSubmit 1 System None 1 0 2 []; CallStep 5 1; CallStep 5 1; CallStep 5 1].

Lemma replay_kernel_inv c : kernel_inv false (replay_kernel c).
Proof. split; [apply map_Forall_singleton, inst_ok_new|apply script_registry_total]. Qed.

Definition ex_class : SignatureClass := new_hybrid_from_secrets [] [].
Definition logged (o : Outcome Kernel) (n : N) : bool :=
  match o with
  | Done k => match wal k with Some w => bool_decide (len (w_records w) = n) | None => false end
  | Panicked _ => false
  end.

Lemma logged_spec o n : logged o n = true → ∃ k w, o = Done k ∧ wal k = Some w ∧ len (w_records w) = n.
Proof.
  destruct o as [k|]; [|done]. cbn. destruct (wal k) as [w|] eqn:E; [|done]. intros H%bool_decide_eq_true. eauto.
Qed.

Lemma ex_result_logged : logged (run_calls (replay_kernel ex_class) replay_session) 6 = true.
Proof. vm_compute. reflexivity. Qed.

Lemma replay_reproduces_session_witness :
  ∃ k' w' r' rep, run_calls (replay_kernel ex_class) replay_session = Done k' ∧ wal k' = Some w' ∧
    len (records (from_writer w')) = 6 ∧
    replay_into ArkheError_display ex_fresh (from_writer w') = Done (r', Ok rep) ∧ instances r' = instances k'.
Proof.
  destruct (logged_spec _ _ ex_result_logged) as (k' & w' & Hr & Hw & Hl).
  assert (honest ex_class) as Hh by constructor.
  assert (pqc_total ex_class) as Ht by (intros m; eexists; reflexivity).
  assert (Forall replayable replay_session) as Hcs by (repeat constructor).
  destruct (replay_reproduces_session ArkheError_display zero32 zero32 ex_class (replay_kernel ex_class) replay_session k' w' ex_fresh
              Hh Ht eq_refl (replay_kernel_inv ex_class) Hcs Hr Hw eq_refl eq_refl eq_refl) as (r' & rep & _ & H1 & _ & H2 & _).
  exists k', w', r', rep. split; [exact Hr|]. split; [exact Hw|]. split; [exact Hl|]. split; [exact H1|exact H2].
Defined.

(** A log whose only record steps an unknown instance under a forged hash. *)
Definition ex_hostile : Wal :=
  mkWal (w_header (with_signature zero32 zero32 SC_None))
    [mkRecord (CStep 9 7 1 0 0 Committed []) zero32 [] None None].

Lemma ex_fresh_counters : counters_ok ex_fresh.
Proof. split; [apply script_registry_total|]. apply map_Forall_singleton. vm_compute. discriminate. Qed.

Lemma replay_never_panics_witness :
  ids_typed ex_hostile ∧ ∃ k' x, replay_into ArkheError_display ex_fresh ex_hostile = Done (k', x).
Proof.
  assert (ids_typed ex_hostile) as Hw by (repeat constructor). split; [exact Hw|].
  exact (proj1 (replay_never_panics ArkheError_display ex_fresh ex_hostile zero32 TrustAnchor_default ex_fresh_counters Hw)).
Defined.

(** The empty log, pinned. *)
Lemma verified_replay_sound_witness :
  let w := from_writer (with_signature zero32 zero32 SC_None) in
  let anchor := mkAnchor None None None (Some zero32) (Some zero32) in
  ∃ k' rep, replay_into_verified ArkheError_display ex_fresh w zero32 anchor = Done (k', Ok rep) ∧
    final_chain_tip rep = zero32.
Proof.
  intros w anchor. eexists _, _. split; [reflexivity|].
  refine (proj2 (proj2 (proj2 (proj2 (verified_replay_sound ArkheError_display ex_fresh w zero32 anchor _ _ zero32 zero32
    eq_refl eq_refl _))))). reflexivity.
Defined.

(** ** Forced unload and replay *)

Definition unload_session : list KernelCall :=
  [CallSubmit 1 System None 1 0 1 []; CallStep 5 1; CallForceUnload 7 ADMIN_UNLOAD;
   CallSubmit 1 System None 1 0 2 []; CallStep 5 1].

(** C38: [force_unload] breaks replay. It removes in-flight counts, which the
    per-step state digest covers, but leaves no record: the log a live kernel
    exports after a session with a forced unload between two steps verifies,
    yet replaying it into the same initial state stops with
    [StateDigestDivergence] at the step after the unload. *)
Theorem force_unload_breaks_replay :
  ∃ k' w' r', run_calls (replay_kernel SC_None) unload_session = Done k' ∧ wal k' = Some w' ∧
    verify_chain (from_writer w') zero32 = Done (Ok ()) ∧
    replay_into ArkheError_display ex_fresh (from_writer w') = Done (r', Err (StateDigestDivergence 4)).
Proof.
  destruct (run_calls (replay_kernel SC_None) unload_session) as [k'|] eqn:Hr; [|vm_compute in Hr; discriminate Hr].
  destruct (wal k') as [w'|] eqn:Hw; [|vm_compute in Hr; injection Hr as <-; vm_compute in Hw; discriminate Hw].
  vm_compute in Hr. injection Hr as <-. vm_compute in Hw. injection Hw as <-.
  do 3 eexists. split; [reflexivity|]. split; [reflexivity|]. split; vm_compute; reflexivity.
Qed.
