(* ===== verification/Acceptance.v ===== *)
(** * What replay accepts

    An independent reading of [persist/replay.rs]: a log is accepted exactly
    when its header and chain verify and its records, executed one after the
    other, do what they say. [executes] and [rejects] are relations on the
    kernel alone; the measuring writer and the report of the code do not occur
    in them. *)
From S2P Require Import Prelude Abi Quota Extern Authz Ledger Scheduler Instance Event.
From S2P Require Import Observer Stage Dispatch Apply Signature Wal Registry Step Kernel Replay.

Local Open Scope N_scope.

(** The append request a record answers: its contents without the number. *)
Definition req_of (c : WalRecordContent) : AppendReq :=
  match c with
  | CSubmit _ instance principal actor caps at_ tc bs id => ReqSubmit instance principal actor caps at_ tc bs id
  | CStep _ instance id now caps verdict digest => ReqStep instance id now caps verdict digest
  end.

Section acceptance.
Context {P1 : Postcard InstanceSnapshot} {P2 : Postcard WalRecordBody} {B3 : Blake3} {SS : SigSchemes}.
Context (error_debug : ArkheError → string).

(** ** Executing records *)

(** Each submission is admitted under its recorded id; each step pops the
    recorded action with the recorded verdict and leaves the recorded state. *)
Inductive executes : Kernel → list WalRecordContent → Kernel → Prop :=
  | ex_nil k : executes k [] k
  | ex_submit k k1 k' seq instance principal actor caps at_ tc bs id cs :
      submit_with_id k instance principal actor caps id at_ tc bs = Ok k1 →
      executes k1 cs k' →
      executes k (CSubmit seq instance principal actor caps at_ tc bs id :: cs) k'
  | ex_step k k1 k' seq instance id now caps verdict digest result cs :
      process_instance_record k instance now caps true = Done (Some result, k1) →
      res_popped_id result = id → res_verdict result = verdict → res_digest result = digest →
      executes k1 cs k' →
      executes k (CStep seq instance id now caps verdict digest :: cs) k'.

(** The ways a record can fail, the first difference deciding the error, and
    the kernel that is left: a failed submission changes nothing, a diverging
    step has run. *)
Inductive rejects : Kernel → WalRecordContent → ReplayError → Kernel → Prop :=
  | rj_submit k seq instance principal actor caps at_ tc bs id :
      instances k !! instance = None →
      rejects k (CSubmit seq instance principal actor caps at_ tc bs id) (SubmitFailed (error_debug InstanceNotFound)) k
  | rj_underflow k k' seq instance id now caps verdict digest :
      process_instance_record k instance now caps true = Done (None, k') →
      rejects k (CStep seq instance id now caps verdict digest) (StepUnderflow instance) k'
  | rj_id k k' seq instance id now caps verdict digest result :
      process_instance_record k instance now caps true = Done (Some result, k') → res_popped_id result ≠ id →
      rejects k (CStep seq instance id now caps verdict digest) (PoppedIdDivergence seq) k'
  | rj_verdict k k' seq instance now caps verdict digest result :
      process_instance_record k instance now caps true = Done (Some result, k') → res_verdict result ≠ verdict →
      rejects k (CStep seq instance (res_popped_id result) now caps verdict digest)
        (VerdictDivergence seq verdict (res_verdict result)) k'
  | rj_digest k k' seq instance now caps digest result :
      process_instance_record k instance now caps true = Done (Some result, k') → res_digest result ≠ digest →
      rejects k (CStep seq instance (res_popped_id result) now caps (res_verdict result) digest)
        (StateDigestDivergence seq) k'.

(** The tip of the chain that re-sealing the records under consecutive numbers
    builds. *)
Definition contents (w : Wal) : list WalRecordContent := content <$> records w.
Definition resealed_tip (w : Wal) : bytes :=
  writer_chain_tip (run_appends (rebuild_from_header (header w)) (req_of <$> contents w)).

(** What must hold before a record is touched. *)
Definition admissible (k : Kernel) (w : Wal) : Prop :=
  check_header_gates w = Ok () ∧ header_manifest_digest (header w) = manifest_digest k ∧
  verify_chain w (world_id (header w)) = Done (Ok ()).

(** ** The loop *)

Context {PT : PostcardTotal WalRecordBody}.

Lemma append_result w c : ∃ rec, append w c = (Ok rec, (append w c).2).
Proof. pose proof (append_total w c) as H. destruct (append w c) as [[rec|e] w']; [by exists rec|done]. Qed.

Lemma submit_with_id_Err k i p a cp id t tc bs e :
  submit_with_id k i p a cp id t tc bs = Err e → e = InstanceNotFound ∧ instances k !! i = None.
Proof. unfold submit_with_id. destruct (instances k !! i); cbn; [done|]. by intros [= <-]. Qed.

(** One record: it executes or is rejected. *)
Lemma replay_record_cases st c r :
  replay_record error_debug st c = Done r →
  (∃ k' rep', r = (k', Ok (mkReplay k' (do_append (rp_writer st) (req_of c)) rep')) ∧
     report_grows (rp_report st) rep' [req_of c] ∧ executes (rp_kernel st) [c] k') ∨
  (∃ k' e, r = (k', Err e) ∧ rejects (rp_kernel st) c e k').
Proof.
  destruct st as [k w rep]. destruct c as [sq i p a cp t tc bs id|sq i id now cp v d]; cbn [replay_record rp_kernel rp_writer rp_report].
  - destruct (submit_with_id k i p a cp id t tc bs) as [k'|e] eqn:Es; intros Hr.
    2:{ right. apply submit_with_id_Err in Es as [-> Hi]. injection Hr as <-. do 2 eexists. split; [done|by constructor]. }
    left. unfold append_submit in Hr. destruct (append_result w (λ seq, CSubmit seq i p a cp t tc bs id)) as [rec Ha].
    rewrite Ha in Hr. injection Hr as <-. do 2 eexists. split_and!; [reflexivity|done|].
    by eapply ex_submit; [|constructor].
  - intros Hr. apply bind_Done in Hr as ([[result|] k'] & Hp & Hr).
    2:{ right. injection Hr as <-. do 2 eexists. split; [done|by constructor]. }
    destruct (decide (res_popped_id result ≠ id)) as [H1|H1%dec_stable].
    { right. injection Hr as <-. do 2 eexists. split; [done|by eapply rj_id]. } subst id.
    destruct (decide (res_verdict result ≠ v)) as [H2|H2%dec_stable].
    { right. injection Hr as <-. do 2 eexists. split; [done|by eapply rj_verdict]. } subst v.
    destruct (decide (res_digest result ≠ d)) as [H3|H3%dec_stable].
    { right. injection Hr as <-. do 2 eexists. split; [done|by eapply rj_digest]. } subst d.
    left. unfold append_step in Hr.
    destruct (append_result w (λ seq, CStep seq i (res_popped_id result) now cp (res_verdict result) (res_digest result)))
      as [rec Ha].
    rewrite Ha in Hr. injection Hr as <-. do 2 eexists. split_and!; [reflexivity|done|].
    by eapply ex_step; [..|constructor].
Qed.

Lemma executes_app k cs1 k1 cs2 k2 : executes k cs1 k1 → executes k1 cs2 k2 → executes k (cs1 ++ cs2) k2.
Proof. induction 1; intros He; cbn [app]; [done|by econstructor; eauto..]. Qed.

(** A record that executes is replayed. *)
Lemma replay_record_executes st c k' :
  executes (rp_kernel st) [c] k' → ∃ st', replay_record error_debug st c = Done (k', Ok st') ∧ rp_kernel st' = k'.
Proof.
  destruct st as [k w rep]. cbn [rp_kernel]. intros H. inversion H as [|k0 k1 k2 sq i p a cp t tc bs id cs Hs Hn|
    k0 k1 k2 sq i id now cp v d result cs Hp E1 E2 E3 Hn]; subst; inversion Hn; subst; cbn [replay_record rp_kernel rp_writer].
  - rewrite Hs. unfold append_submit. destruct (append_result w (λ seq, CSubmit seq i p a cp t tc bs id)) as [rec ->].
    eexists. split; [reflexivity|done].
  - rewrite Hp. cbn [mbind Outcome_bind]. do 3 rewrite decide_False by (intros Hn'; by apply Hn'). unfold append_step.
    match goal with |- context [append w ?c] => destruct (append_result w c) as [rec ->] end.
    eexists. split; [reflexivity|done].
Qed.

Lemma executes_cons_inv k c cs k' : executes k (c :: cs) k' → ∃ k1, executes k [c] k1 ∧ executes k1 cs k'.
Proof. intros H. inversion H; subst; eexists; (split; [|eassumption]); econstructor; (done || constructor). Qed.

Lemma replay_loop_cases st recs r :
  replay_loop error_debug st recs = Done r →
  (∃ k' rep', r = (k', Ok (mkReplay k' (run_appends (rp_writer st) (req_of <$> (content <$> recs))) rep')) ∧
     report_grows (rp_report st) rep' (req_of <$> (content <$> recs)) ∧
     executes (rp_kernel st) (content <$> recs) k') ∨
  (∃ k' e pre c post k1, r = (k', Err e) ∧ content <$> recs = pre ++ c :: post ∧ executes (rp_kernel st) pre k1 ∧
     rejects k1 c e k').
Proof.
  revert st. induction recs as [|rec recs IH]; intros st Hl; cbn [replay_loop] in Hl.
  { left. injection Hl as <-. destruct st as [k w rep]. do 2 eexists. split_and!; [reflexivity|done|constructor]. }
  apply bind_Done in Hl as (r1 & Hr1 & Hl).
  destruct (replay_record_cases st (content rec) r1 Hr1) as [(k1 & rep1 & -> & G1 & E1)|(k1 & e & -> & Hrej)].
  - destruct (IH _ Hl) as [(k' & rep' & -> & G & E)|(k' & e & pre & c & post & k2 & -> & Hc & E & Hrej)].
    + left. do 2 eexists. split_and!; [reflexivity| |].
      * by eapply (report_grows_app _ _ _ [req_of (content rec)]).
      * rewrite fmap_cons. by eapply (executes_app _ [content rec]).
    + right. exists k', e, (content rec :: pre), c, post, k2. split_and!; [done|by rewrite fmap_cons, Hc| |done].
      by eapply (executes_app _ [content rec]).
  - right. injection Hl as <-. exists k1, e, [], (content rec), (content <$> recs), (rp_kernel st).
    split_and!; [done|done|constructor|done].
Qed.

Lemma replay_loop_executes st recs k' :
  executes (rp_kernel st) (content <$> recs) k' → ∃ st', replay_loop error_debug st recs = Done (k', Ok st').
Proof.
  revert st. induction recs as [|rec recs IH]; intros st He; cbn [replay_loop].
  { inversion He; subst. by eexists. }
  rewrite fmap_cons in He. apply executes_cons_inv in He as (k1 & E1 & E2).
  destruct (replay_record_executes st (content rec) k1 E1) as (st1 & -> & <-). cbn [mbind Outcome_bind]. by apply IH.
Qed.

(** A verified chain with consecutive numbers re-seals to its own tip. *)
Lemma reseal_valid v key prev recs tip ww :
  valid_chain v key prev recs tip → w_prev_hash ww = prev → w_chain_key ww = key →
  numbered (w_next_seq ww) (req_of <$> (content <$> recs)) = content <$> recs →
  w_prev_hash (run_appends ww (req_of <$> (content <$> recs))) = tip.
Proof.
  intros Hc. revert ww. induction Hc as [prev|prev rec recs tip Hr Hc IH]; intros ww Hp Hk Hn; [done|].
  rewrite !fmap_cons in *. cbn [numbered] in Hn. injection Hn as Hn1 Hn2. rewrite run_appends_cons, do_append_eq.
  destruct (append_cases ww (req_content (req_of (content rec)))) as [(m & Hm & _)|(b & sg & sp & Hb & _ & Ha)].
  { destruct (postcard_total (from_content (req_content (req_of (content rec)) (sat_add64 (w_next_seq ww) 1)) (w_prev_hash ww)))
      as [b Hb]. congruence. }
  rewrite Ha. cbn [snd]. destruct Hr as (Hprev & b' & Hb' & Hh & _). rewrite Hn1, Hp in Hb.
  assert (b' = b) as -> by (unfold from_record in Hb'; congruence).
  apply IH; [by rewrite Hp, Hk in *|done|].
  cbn [w_next_seq]. exact Hn2.
Qed.

(** ** The entry points *)

(** The record loop and the tip comparison that both entry points end in. *)
Lemma replay_records_outcome k w k' x :
  replay_records error_debug k w = Done (k', x) →
  match x with
  | Ok rep => executes k (contents w) k' ∧ resealed_tip w = chain_tip w ∧ final_chain_tip rep = chain_tip w ∧
      submits_replayed rep = N.min (len (filter (λ q, is_submit q = true) (req_of <$> contents w))) U32_MAX ∧
      steps_replayed rep = N.min (len (filter (λ q, negb (is_submit q) = true) (req_of <$> contents w))) U32_MAX
  | Err e =>
      (∃ pre c post k1, contents w = pre ++ c :: post ∧ executes k pre k1 ∧ rejects k1 c e k') ∨
      (executes k (contents w) k' ∧ resealed_tip w ≠ chain_tip w ∧ e = ChainTipDivergence (chain_tip w) (resealed_tip w))
  end.
Proof.
  intros Hr. unfold replay_records in Hr. apply bind_Done in Hr as (r & Hl & Hr).
  destruct (replay_loop_cases _ _ _ Hl) as [(k1 & rep & -> & [G1 G2] & He)|(k1 & e & pre & c & post & k2 & -> & Hc & He & Hrej)].
  2:{ injection Hr as <- <-. left. by do 4 eexists. }
  cbn [rp_writer rp_kernel rp_report] in *. fold (contents w) in *. fold (resealed_tip w) in Hr.
  destruct (decide (_ ≠ _)) as [Ht|Ht%dec_stable]; injection Hr as <- <-.
  { right. by split_and!. }
  cbn [final_chain_tip submits_replayed steps_replayed]. rewrite G1, G2, !tally_count by (cbn; unfold U32_MAX; lia).
  split_and!; try done.
Qed.

Lemma replay_records_accepts k w k' :
  executes k (contents w) k' → resealed_tip w = chain_tip w →
  ∃ rep, replay_records error_debug k w = Done (k', Ok rep).
Proof.
  intros He Ht. unfold replay_records.
  destruct (replay_loop_executes (mkReplay k (rebuild_from_header (header w)) ReplayReport_default) (records w) k' He) as [st Hl].
  rewrite Hl. cbn [mbind Outcome_bind].
  destruct (replay_loop_cases _ _ _ Hl) as [(k1 & rep & [= <- ->] & _ & _)|(k1 & e & pre & c & post & k2 & [=] & _)].
  cbn [rp_writer rp_report]. fold (contents w). fold (resealed_tip w). rewrite decide_False by (intros Hn; by apply Hn).
  by eexists.
Qed.

Lemma replay_into_outcome k w k' x :
  replay_into error_debug k w = Done (k', x) →
  match x with
  | Ok rep => admissible k w ∧ executes k (contents w) k' ∧ resealed_tip w = chain_tip w ∧
      final_chain_tip rep = chain_tip w ∧
      submits_replayed rep = N.min (len (filter (λ q, is_submit q = true) (req_of <$> contents w))) U32_MAX ∧
      steps_replayed rep = N.min (len (filter (λ q, negb (is_submit q) = true) (req_of <$> contents w))) U32_MAX
  | Err e =>
      (k' = k ∧ (check_header_gates w = Err e ∨
                 header_manifest_digest (header w) ≠ manifest_digest k ∧
                   e = ReplayManifestDigestMismatch (header_manifest_digest (header w)) (manifest_digest k) ∨
                 ∃ we, verify_chain w (world_id (header w)) = Done (Err we) ∧ e = WalCorrupted we)) ∨
      (admissible k w ∧ ∃ pre c post k1, contents w = pre ++ c :: post ∧ executes k pre k1 ∧ rejects k1 c e k') ∨
      (admissible k w ∧ executes k (contents w) k' ∧ resealed_tip w ≠ chain_tip w ∧
         e = ChainTipDivergence (chain_tip w) (resealed_tip w))
  end.
Proof.
  intros Hr. unfold replay_into in Hr. unfold admissible.
  destruct (check_header_gates w) as [[]|e] eqn:Hg; [|injection Hr as <- <-; by left; auto].
  destruct (decide (_ ≠ _)) as [Hm|Hm%dec_stable]; [injection Hr as <- <-; left; by auto|].
  apply bind_Done in Hr as ([[]|we] & Hv & Hr); [|injection Hr as <- <-; left; by eauto 6].
  apply replay_records_outcome in Hr. destruct x as [rep|e]; [tauto|]. right.
  destruct Hr as [Hr|Hr]; [left|right]; tauto.
Qed.

Lemma replay_into_accepts k w k' :
  admissible k w → executes k (contents w) k' → resealed_tip w = chain_tip w →
  ∃ rep, replay_into error_debug k w = Done (k', Ok rep).
Proof.
  intros (Hg & Hm & Hv) He Ht. unfold replay_into. rewrite Hg, decide_False, Hv by (intros Hn; by apply Hn).
  cbn [mbind Outcome_bind]. by apply replay_records_accepts.
Qed.

(** Consecutive numbers make the re-sealed tip the sealed one. *)
Lemma numbered_reseals w :
  verify_chain w (world_id (header w)) = Done (Ok ()) → numbered 0 (req_of <$> contents w) = contents w →
  resealed_tip w = chain_tip w.
Proof.
  intros Hv Hn. unfold resealed_tip, writer_chain_tip.
  destruct (verify_chain_valid w (world_id (header w))) as (x & Hx & Hiff). rewrite Hv in Hx. injection Hx as <-.
  destruct (proj1 Hiff eq_refl) as (v & _ & Hc). by apply (reseal_valid v _ _ _ _ _ Hc).
Qed.

(** What [replay_into_verified] asks of a log before it runs a record: nothing
    is compared with the kernel, everything pinned is compared with the log. *)
Definition vouched (w : Wal) (world : bytes) (anchor : TrustAnchor) : Prop :=
  check_header_gates w = Ok () ∧
  (∃ t, header_tier w = Ok t ∧ ∀ floor, min_tier anchor = Some floor → tier_rank floor ≤ tier_rank t) ∧
  (∀ vk, anchor_ed25519_verifying_key anchor = Some vk → header_verifying_key (header w) = Some vk) ∧
  (∀ vk, anchor_mldsa_verifying_key anchor = Some vk → header_verifying_key_pqc (header w) = Some vk) ∧
  (∀ d, expected_manifest_digest anchor = Some d → header_manifest_digest (header w) = d) ∧
  verify_chain w world = Done (Ok ()) ∧
  (∀ tip, expected_chain_tip anchor = Some tip → chain_tip w = tip).

Lemma vouched_gates w world anchor :
  vouched w world anchor ↔ check_header_gates w = Ok () ∧ verify_chain_anchored w world anchor = Done (Ok ()).
Proof.
  unfold vouched. destruct (verify_chain_anchored_Ok w world anchor) as (r & -> & Hiff).
  assert (Done r = Done (Ok ()) ↔ r = Ok ()) as -> by (split; congruence). rewrite Hiff, anchor_gates_Ok. tauto.
Qed.

(** ** Properties *)

(** C11: the verdict of replay, on every log. [replay_into] accepts exactly
    when the header gates pass, the manifests agree, the chain verifies, every
    record executes as it says, and re-sealing the records reaches the sealed
    tip (which follows from the rest when the records are numbered
    consecutively); the resulting kernel is the one execution reaches, and the
    report counts the records. It fails exactly in one of these ways: a gate,
    the manifest, the chain, with the kernel untouched; the first record that
    does not execute, with the kernel as execution left it; or the tip. *)
Theorem replay_exact k w :
  (∀ k' x, replay_into error_debug k w = Done (k', x) →
     match x with
     | Ok rep => admissible k w ∧ executes k (contents w) k' ∧ resealed_tip w = chain_tip w ∧
         final_chain_tip rep = chain_tip w ∧
         submits_replayed rep = N.min (len (filter (λ q, is_submit q = true) (req_of <$> contents w))) U32_MAX ∧
         steps_replayed rep = N.min (len (filter (λ q, negb (is_submit q) = true) (req_of <$> contents w))) U32_MAX
     | Err e =>
         (k' = k ∧ (check_header_gates w = Err e ∨
                    header_manifest_digest (header w) ≠ manifest_digest k ∧
                      e = ReplayManifestDigestMismatch (header_manifest_digest (header w)) (manifest_digest k) ∨
                    ∃ we, verify_chain w (world_id (header w)) = Done (Err we) ∧ e = WalCorrupted we)) ∨
         (admissible k w ∧ ∃ pre c post k1, contents w = pre ++ c :: post ∧ executes k pre k1 ∧ rejects k1 c e k') ∨
         (admissible k w ∧ executes k (contents w) k' ∧ resealed_tip w ≠ chain_tip w ∧
            e = ChainTipDivergence (chain_tip w) (resealed_tip w))
     end) ∧
  (∀ k', admissible k w → executes k (contents w) k' → resealed_tip w = chain_tip w →
     ∃ rep, replay_into error_debug k w = Done (k', Ok rep)) ∧
  (admissible k w → numbered 0 (req_of <$> contents w) = contents w → resealed_tip w = chain_tip w).
Proof. split_and!; [apply replay_into_outcome|apply replay_into_accepts|intros (_ & _ & Hv); by apply numbered_reseals]. Qed.

(** C19: the verdict of a verified replay, on every log. [replay_into_verified]
    accepts exactly when the header gates pass, the log has the pinned tier,
    keys, manifest and tip and verifies under the caller's world, every record
    executes as it says, and re-sealing the records reaches the sealed tip; the
    report then carries that tip. It fails exactly in one of these ways: a log
    that is not what the anchor vouches for, with the error of the first check
    it fails and the kernel untouched, so that no record of it has run; the
    first record that does not execute; or the re-sealed tip, which follows
    from the rest when the caller's world is the header's and the records are
    numbered consecutively. The kernel's own manifest is not consulted: only an
    anchor that pins one is. *)
Theorem verified_replay_exact k w world anchor :
  (∀ k' x, replay_into_verified error_debug k w world anchor = Done (k', x) →
     match x with
     | Ok rep => vouched w world anchor ∧ executes k (contents w) k' ∧ resealed_tip w = chain_tip w ∧
         final_chain_tip rep = chain_tip w ∧
         submits_replayed rep = N.min (len (filter (λ q, is_submit q = true) (req_of <$> contents w))) U32_MAX ∧
         steps_replayed rep = N.min (len (filter (λ q, negb (is_submit q) = true) (req_of <$> contents w))) U32_MAX
     | Err e =>
         (k' = k ∧ ¬ vouched w world anchor ∧
            (check_header_gates w = Err e ∨
             check_header_gates w = Ok () ∧
               ∃ we, verify_chain_anchored w world anchor = Done (Err we) ∧ e = WalCorrupted we)) ∨
         (vouched w world anchor ∧ ∃ pre c post k1,
            contents w = pre ++ c :: post ∧ executes k pre k1 ∧ rejects k1 c e k') ∨
         (vouched w world anchor ∧ executes k (contents w) k' ∧ resealed_tip w ≠ chain_tip w ∧
            e = ChainTipDivergence (chain_tip w) (resealed_tip w))
     end) ∧
  (∀ k', vouched w world anchor → executes k (contents w) k' → resealed_tip w = chain_tip w →
     ∃ rep, replay_into_verified error_debug k w world anchor = Done (k', Ok rep)) ∧
  (vouched w (world_id (header w)) anchor → numbered 0 (req_of <$> contents w) = contents w →
     resealed_tip w = chain_tip w).
Proof.
  split_and!.
  - intros k' x Hr. unfold replay_into_verified in Hr. pose proof (vouched_gates w world anchor) as Hvg.
    destruct (check_header_gates w) as [[]|e] eqn:Hg.
    2:{ injection Hr as <- <-. left. split_and!; [done|rewrite Hvg; by intros [? _]|by left]. }
    apply bind_Done in Hr as ([[]|we] & Hv & Hr).
    + apply replay_records_outcome in Hr. assert (vouched w world anchor) as Hvo by by apply Hvg.
      destruct x as [rep|e]; [tauto|]. right. destruct Hr as [Hr|Hr]; [left|right]; tauto.
    + injection Hr as <- <-. left. split_and!; [done|rewrite Hvg, Hv; by intros [_ ?]|right; eauto].
  - intros k' [Hg Hv]%vouched_gates He Ht. unfold replay_into_verified. rewrite Hg, Hv. by apply replay_records_accepts.
  - intros (_ & _ & _ & _ & _ & Hv & _). by apply numbered_reseals.
Qed.

End acceptance.

(** ** Witness *)

#[local] Existing Instances Replay.ex_snapshot_postcard Replay.ex_body_postcard Replay.ex_body_postcard_total
  Replay.ex_sigs Replay.ex_blake3.

(** The log of the example session of [Replay]. *)
Definition ex_log : Wal :=
  match run_calls (replay_kernel ex_class) replay_session with
  | Done k => match wal k with Some w => from_writer w | None => from_writer (WalWriter_new zero32 zero32) end
  | Panicked _ => from_writer (WalWriter_new zero32 zero32)
  end.
Definition accepts (o : Outcome (Kernel * Result ReplayError ReplayReport)) : bool :=
  match o with Done (_, Ok _) => true | _ => false end.

Lemma accepts_spec o : accepts o = true → ∃ k' rep, o = Done (k', Ok rep).
Proof. destruct o as [[k' [rep|e]]|]; try done. eauto. Qed.

Lemma ex_log_accepted : accepts (replay_into ArkheError_display ex_fresh ex_log) = true.
Proof. vm_compute. reflexivity. Qed.

Lemma replay_exact_witness :
  ∃ k' rep, replay_into ArkheError_display ex_fresh ex_log = Done (k', Ok rep) ∧
    executes ex_fresh (contents ex_log) k' ∧ submits_replayed rep = 3 ∧ steps_replayed rep = 3.
Proof.
  destruct (accepts_spec _ ex_log_accepted) as (k' & rep & H). exists k', rep. split; [exact H|].
  destruct (proj1 (replay_exact ArkheError_display ex_fresh ex_log) k' (Ok rep) H) as (_ & He & _ & _ & H1 & H2).
  split; [exact He|]. rewrite H1, H2. split; vm_compute; reflexivity.
Defined.

(** The same log under an anchor that pins its tip and its tier. *)
Lemma verified_replay_exact_witness :
  let anchor := mkAnchor None None None None (Some (chain_tip ex_log)) in
  ∃ k' rep, replay_into_verified ArkheError_display ex_fresh ex_log (world_id (header ex_log)) anchor = Done (k', Ok rep) ∧
    executes ex_fresh (contents ex_log) k' ∧ final_chain_tip rep = chain_tip ex_log.
Proof.
  intros anchor.
  assert (accepts (replay_into_verified ArkheError_display ex_fresh ex_log (world_id (header ex_log)) anchor) = true) as Ha
    by (vm_compute; reflexivity).
  destruct (accepts_spec _ Ha) as (k' & rep & H). exists k', rep. split; [exact H|].
  destruct (proj1 (verified_replay_exact ArkheError_display ex_fresh ex_log (world_id (header ex_log)) anchor) k' (Ok rep) H)
    as (_ & He & _ & Ht & _).
  split; [exact He|exact Ht].
Defined.
