(* ===== verification/Recovery.v ===== *)
(** * Truncated logs: crash recovery and rollback

    [persist/wal.rs] and [persist/replay.rs] say nothing of a log that lost
    its end. This file proves what follows from the code: every prefix of an
    accepted log is a log that replay accepts, it leaves the kernel at that
    point of the history, and executing the lost records from there reaches
    the kernel of the whole log. So a crash loses the end of a session and
    nothing else; and, the other side of it, a log whose end was removed on
    purpose is only told from a complete one by an anchor that pins the tip. *)
From S2P Require Import Prelude Abi Quota Extern Authz Ledger Scheduler Instance Event.
From S2P Require Import Observer Stage Dispatch Apply Signature Wal Registry Step Kernel Replay Acceptance.

Local Open Scope N_scope.

(** The first [n] records of a log, under its header. *)
Definition truncate (n : nat) (w : Wal) : Wal := mkWal (header w) (take n (records w)).

(** ** Numbers *)

Lemma req_of_numbered n reqs : req_of <$> numbered n reqs = reqs.
Proof.
  revert n. induction reqs as [|q reqs IH]; intros n; [done|]. cbn [numbered]. rewrite fmap_cons, IH. by destruct q.
Qed.

Lemma numbered_take n m reqs : numbered n (take m reqs) = take m (numbered n reqs).
Proof.
  revert n m. induction reqs as [|q reqs IH]; intros n m; [by destruct m|].
  destruct m as [|m]; [done|]. cbn [take numbered]. by rewrite IH.
Qed.

Section recovery.
Context {P1 : Postcard InstanceSnapshot} {P2 : Postcard WalRecordBody} {B3 : Blake3} {SS : SigSchemes}.
Context (error_debug : ArkheError → string).

(** The records are numbered consecutively from 1, as a writer numbers them. *)
Definition consecutive (w : Wal) : Prop := numbered 0 (req_of <$> contents w) = contents w.

Lemma contents_truncate n w : contents (truncate n w) = take n (contents w).
Proof. unfold contents. cbn. by rewrite fmap_take. Qed.

Lemma truncate_consecutive n w : consecutive w → consecutive (truncate n w).
Proof. unfold consecutive. intros Hw. by rewrite contents_truncate, fmap_take, numbered_take, Hw. Qed.

(** ** Prefixes of a chain and of an execution *)

Lemma valid_chain_app_inv v key prev recs1 recs2 tip :
  valid_chain v key prev (recs1 ++ recs2) tip →
  ∃ mid, valid_chain v key prev recs1 mid ∧ valid_chain v key mid recs2 tip.
Proof.
  revert prev. induction recs1 as [|rec recs1 IH]; intros prev Hv; cbn [app] in Hv.
  { exists prev. split; [constructor|done]. }
  inversion Hv as [|? ? ? ? Hr Hc]; subst. destruct (IH _ Hc) as (mid & H1 & H2). exists mid. split; [by constructor|done].
Qed.

Lemma verify_chain_truncate n w world :
  verify_chain w world = Done (Ok ()) → verify_chain (truncate n w) world = Done (Ok ()).
Proof.
  intros Hv. destruct (verify_chain_valid w world) as (x & Hx & Hiff). rewrite Hv in Hx. injection Hx as <-.
  destruct (proj1 Hiff eq_refl) as (v & Hh & Hc). rewrite <- (take_drop n (records w)) in Hc.
  apply valid_chain_app_inv in Hc as (mid & Hc & _).
  destruct (verify_chain_valid (truncate n w) world) as (x & -> & Hiff'). f_equal. apply Hiff'. exists v.
  split; [exact Hh|]. assert (chain_tip (truncate n w) = mid) as ->; [|exact Hc].
  symmetry. exact (valid_chain_tip _ _ _ _ _ Hc).
Qed.

Lemma admissible_truncate n k w : admissible k w → admissible k (truncate n w).
Proof. intros (H1 & H2 & H3). split_and!; [exact H1|exact H2|by apply verify_chain_truncate]. Qed.

Lemma executes_app_inv k cs1 cs2 k' :
  executes k (cs1 ++ cs2) k' → ∃ k1, executes k cs1 k1 ∧ executes k1 cs2 k'.
Proof.
  revert k. induction cs1 as [|c cs1 IH]; intros k He; cbn [app] in He; [exists k; split; [constructor|done]|].
  apply executes_cons_inv in He as (k1 & E1 & E2). destruct (IH _ E2) as (k2 & E3 & E4).
  exists k2. split; [by apply (executes_app _ [c] k1)|done].
Qed.

Context {PT : PostcardTotal WalRecordBody}.

(** Recovery from a prefix: the log is accepted, and what was cut off leads
    on to the same kernel. *)
Lemma truncate_accepted n k w k' rep :
  replay_into error_debug k w = Done (k', Ok rep) → consecutive w →
  ∃ k1 rep1, replay_into error_debug k (truncate n w) = Done (k1, Ok rep1) ∧
    final_chain_tip rep1 = chain_tip (truncate n w) ∧ executes k1 (drop n (contents w)) k'.
Proof.
  intros Hr Hn. destruct (replay_into_outcome error_debug _ _ _ _ Hr) as (Ha & He & _).
  rewrite <- (take_drop n (contents w)) in He. apply executes_app_inv in He as (k1 & E1 & E2).
  pose proof (admissible_truncate n k w Ha) as Ha'.
  destruct (replay_into_accepts error_debug k (truncate n w) k1 Ha') as (rep1 & Hr1).
  - by rewrite contents_truncate.
  - apply numbered_reseals; [apply Ha'|by apply truncate_consecutive].
  - destruct (replay_into_outcome error_debug _ _ _ _ Hr1) as (_ & _ & _ & Ht & _).
    exists k1, rep1. split_and!; [exact Hr1|exact Ht|exact E2].
Qed.

(** ** Logs of one's own *)

Lemma own_log_consecutive world md c reqs : consecutive (from_writer (run_appends (with_signature world md c) reqs)).
Proof.
  unfold consecutive, contents. cbn [from_writer records]. rewrite run_appends_numbered by apply appends_ok_total.
  cbn [with_signature w_records w_next_seq fmap list_fmap app]. by rewrite req_of_numbered.
Qed.

Lemma run_appends_records w reqs : w_records w `prefix_of` w_records (run_appends w reqs).
Proof.
  revert w. induction reqs as [|q reqs IH]; intros w; [done|]. rewrite run_appends_cons.
  etransitivity; [|apply IH]. rewrite do_append_eq.
  destruct (append_cases w (req_content q)) as [(m & _ & ->)|(b & sg & sp & _ & _ & ->)]; cbn; [done|].
  by eexists.
Qed.

(** A log, cut where a later call of the session found it. *)
Lemma truncate_run_appends w reqs :
  truncate (length (w_records w)) (from_writer (run_appends w reqs)) = from_writer w.
Proof.
  destruct (run_appends_records w reqs) as [recs Hrecs]. unfold truncate, from_writer. cbn [header records].
  by rewrite Hrecs, run_appends_header, take_app_length.
Qed.

End recovery.

(** ** Properties *)

Section properties.
Context {P1 : Postcard InstanceSnapshot} {P2 : Postcard WalRecordBody} {B3 : Blake3} {SS : SigSchemes}.
Context (error_debug : ArkheError → string).

(** C12: crash recovery. Take a live session of submissions, steps and observer
    registrations (no forced unload) on a kernel with an attached fresh log of
    an honest signing class whose PQC provider does not fail and a codec that
    always encodes, cut at any call ([cs1] then [cs2]), and a kernel with the initial instances, the same actions and manifest.
    The log only grows: what it held after [cs1] is a prefix of what it holds
    at the end. Whatever number of records survive of the final log, replay
    accepts them, reports their tip, and executing the lost records from the
    recovered kernel reaches the instances of the whole session; if the
    records up to the end of [cs1] survive, the recovered instances are the
    live ones at that moment. *)
Theorem crash_recovery {PT : PostcardTotal WalRecordBody} {SL : SigLaws} world md c k cs1 cs2 k1 k2 w1 w2 r :
  honest c → pqc_total c → wal k = Some (with_signature world md c) → kernel_inv false k →
  Forall replayable (cs1 ++ cs2) → run_calls k cs1 = Done k1 → run_calls k1 cs2 = Done k2 →
  wal k1 = Some w1 → wal k2 = Some w2 →
  instances r = instances k → action_registry r = action_registry k → manifest_digest r = md →
  w_records w1 `prefix_of` w_records w2 ∧
  ∀ n, ∃ r1 rep r2,
    replay_into error_debug r (truncate n (from_writer w2)) = Done (r1, Ok rep) ∧
    final_chain_tip rep = chain_tip (truncate n (from_writer w2)) ∧
    executes r1 (drop n (contents (from_writer w2))) r2 ∧ instances r2 = instances k2 ∧
    (n = length (w_records w1) → instances r1 = instances k1).
Proof.
  intros Hh Ht Hw Hk Hcs Hr1 Hr2 Hw1 Hw2 Hi Hreg Hmd. pose proof Hcs as [Hcs1 Hcs2]%Forall_app.
  destruct (session_replays error_debug false k cs1 k1 _ Hk Hw Hcs1 Hr1) as (q1 & _ & [L1 _] & _).
  destruct (run_calls_inv false k cs1 Hk) as (k1' & Hr1' & Hk1 & _); [done|]. rewrite Hr1 in Hr1'. injection Hr1' as <-.
  destruct (session_replays error_debug false k1 cs2 k2 w1 Hk1 Hw1 Hcs2 Hr2) as (q2 & _ & [L2 _] & _).
  rewrite Hw1 in L1. injection L1 as L1. rewrite Hw2 in L2. injection L2 as L2.
  assert (run_calls k (cs1 ++ cs2) = Done k2) as Hr by (unfold run_calls in *; by rewrite fold_outcome_app, Hr1).
  destruct (own_session_replays error_debug world md c k (cs1 ++ cs2) k2 w2 r Hh Ht Hw Hk Hcs Hr Hw2
    (λ reqs _, appends_ok_total _ reqs) Hi Hreg Hmd)
    as (r2 & rep2 & _ & A2 & _ & I2 & _).
  destruct (own_session_replays error_debug world md c k cs1 k1 w1 r Hh Ht Hw Hk Hcs1 Hr1 Hw1
    (λ reqs _, appends_ok_total _ reqs) Hi Hreg Hmd)
    as (r1 & rep1 & _ & A1 & _ & I1 & _).
  split; [rewrite L2; apply run_appends_records|]. intros n.
  destruct (truncate_accepted error_debug n r (from_writer w2) r2 rep2 A2) as (r1' & rep' & B1 & B2 & B3').
  { rewrite L2, L1, <- run_appends_app. apply own_log_consecutive. }
  exists r1', rep', r2. split_and!; [exact B1|exact B2|exact B3'|exact I2|]. intros ->.
  rewrite L2, truncate_run_appends in B1. rewrite A1 in B1. injection B1 as <- <-. exact I1.
Qed.

(** C22: rollback needs an anchor to be seen. Remove records from the end of a
    log that [replay_into] accepts, numbered consecutively: it is accepted
    still. With an anchor that pins the tip of the whole log,
    [replay_into_verified] accepts the shortened log only if the messages of
    the two logs exhibit a collision of the keyed hash. *)
Theorem rollback_needs_anchor {PT : PostcardTotal WalRecordBody} {PI : PostcardInj WalRecordBody} {BL : Blake3Laws}
    k w k' rep n anchor k2 k2' rep2 :
  replay_into error_debug k w = Done (k', Ok rep) → consecutive w →
  (n < length (records w))%nat → expected_chain_tip anchor = Some (chain_tip w) →
  (∃ k1 rep1, replay_into error_debug k (truncate n w) = Done (k1, Ok rep1)) ∧
  (replay_into_verified error_debug k2 (truncate n w) (world_id (header w)) anchor = Done (k2', Ok rep2) →
   exhibits_collision (build_chain_key (world_id (header w))) (records (truncate n w)) (records w)).
Proof.
  intros Hr Hc Hn Ha. split.
  { destruct (truncate_accepted error_debug n k w k' rep Hr Hc) as (k1 & rep1 & H1 & _). eauto. }
  intros Hv. destruct (replay_into_outcome error_debug _ _ _ _ Hr) as ((_ & _ & Hw) & _). set (w1 := truncate n w) in *.
  unfold replay_into_verified in Hv. destruct (check_header_gates w1); [|done].
  destruct (verify_chain_anchored_Ok w1 (world_id (header w)) anchor) as (x & Hx & Hiff). rewrite Hx in Hv.
  cbn [mbind Outcome_bind] in Hv. destruct x as [[]|]; [|done].
  destruct (proj1 Hiff eq_refl) as (_ & Hw1 & Htip). specialize (Htip _ Ha).
  destruct (verify_chain_valid w (world_id (header w))) as (x1 & E1 & V1). rewrite Hw in E1. injection E1 as <-.
  destruct (verify_chain_valid w1 (world_id (header w))) as (x2 & E2 & V2). rewrite Hw1 in E2. injection E2 as <-.
  destruct (proj1 V1 eq_refl) as (v1 & _ & C1). destruct (proj1 V2 eq_refl) as (v2 & _ & C2). rewrite Htip in C2.
  destruct (same_tip_same_contents v2 v1 _ _ _ _ C2 C1) as [Heq|Hx']; [|exact Hx'].
  apply (f_equal length) in Heq. revert Heq. rewrite !length_fmap. cbn [w1 truncate records]. rewrite length_take. lia.
Qed.

End properties.

(** ** Witnesses *)

Section crash_example.
#[local] Existing Instances Replay.ex_snapshot_postcard Replay.ex_body_postcard Replay.ex_body_postcard_total
  Replay.ex_sigs Replay.ex_sigs_laws Replay.ex_blake3.

(** The session of [Replay], cut after its first step. *)
Definition before_crash : list KernelCall := take 5 replay_session.
Definition after_crash : list KernelCall := drop 5 replay_session.

Lemma before_logged : logged (run_calls (replay_kernel ex_class) before_crash) 4 = true.
Proof. vm_compute. reflexivity. Qed.

(** The rest of the session runs and is logged from wherever it starts. *)
Lemma after_logged k w :
  kernel_inv false k → wal k = Some w → ∃ k' w', run_calls k after_crash = Done k' ∧ wal k' = Some w'.
Proof.
  intros Hk Hw. destruct (run_calls_inv false k after_crash Hk) as (k' & Hr & _); [done|].
  destruct (session_replays ArkheError_display false k after_crash k' w Hk Hw) as (reqs & _ & [Hw' _] & _);
    [by repeat constructor|done|]. eauto.
Qed.

Lemma before_inv k : run_calls (replay_kernel ex_class) before_crash = Done k → kernel_inv false k.
Proof.
  intros Hr. destruct (run_calls_inv false (replay_kernel ex_class) before_crash (replay_kernel_inv _))
    as (k' & Hr' & Hk & _); [done|]. rewrite Hr in Hr'. by injection Hr' as <-.
Qed.

Lemma crash_recovery_witness :
  ∃ k1 w1 k2 w2 r1 rep, run_calls (replay_kernel ex_class) before_crash = Done k1 ∧ wal k1 = Some w1 ∧
    len (w_records w1) = 4 ∧ run_calls k1 after_crash = Done k2 ∧ wal k2 = Some w2 ∧
    replay_into ArkheError_display ex_fresh (truncate (length (w_records w1)) (from_writer w2)) = Done (r1, Ok rep) ∧
    instances r1 = instances k1.
Proof.
  destruct (logged_spec _ _ before_logged) as (k1 & w1 & R1 & W1 & L1).
  destruct (after_logged k1 w1 (before_inv k1 R1) W1) as (k2 & w2 & R2 & W2).
  assert (honest ex_class) as Hh by constructor.
  assert (pqc_total ex_class) as Ht by (intros m; eexists; reflexivity).
  assert (Forall replayable (before_crash ++ after_crash)) as Hcs by (repeat constructor).
  destruct (crash_recovery ArkheError_display zero32 zero32 ex_class (replay_kernel ex_class) before_crash after_crash
              k1 k2 w1 w2 ex_fresh Hh Ht eq_refl (replay_kernel_inv ex_class) Hcs R1 R2 W1 W2 eq_refl eq_refl eq_refl)
    as (_ & Hn).
  destruct (Hn (length (w_records w1))) as (r1 & rep & _ & H1 & _ & _ & _ & H2).
  exists k1, w1, k2, w2, r1, rep. split; [exact R1|]. split; [exact W1|]. split; [exact L1|]. split; [exact R2|].
  split; [exact W2|]. split; [exact H1|exact (H2 eq_refl)].
Defined.
End crash_example.

Section rollback_example.
#[local] Instance ex_snapshot_postcard : Postcard InstanceSnapshot :=
  constant_postcard (to_snapshot (Instance_new 1 InstanceConfig_default)).
#[local] Instance ex_body_postcard : Postcard WalRecordBody := countable_postcard.
#[local] Instance ex_body_total : PostcardTotal WalRecordBody := countable_postcard_total.
#[local] Instance ex_body_roundtrip : PostcardRoundtrip WalRecordBody := countable_postcard_roundtrip.
#[local] Instance ex_blake3 : Blake3 := tail_blake3.
#[local] Instance ex_blake3_laws : Blake3Laws := tail_blake3_laws.
#[local] Instance ex_sigs : SigSchemes := toy_sigs false.

(** A kernel with one instance and a log of one refused action. *)
Definition host (log : option WalWriter) : Kernel :=
  mkKernel _ {[1%positive := Instance_new 1 InstanceConfig_default]} ActionRegistry_new ObserverRegistry_new 1 zero32
    log StepStage_default.
Definition one_step : list KernelCall := [CallSubmit 1 System None 0 0 9 []; CallStep 5 0].
Definition rollback_log : Wal :=
  match run_calls (host (Some (WalWriter_new zero32 zero32))) one_step with
  | Done k => default (mkWal (w_header (WalWriter_new zero32 zero32)) []) (export_wal k)
  | Panicked _ => mkWal (w_header (WalWriter_new zero32 zero32)) []
  end.

Lemma rollback_log_accepted :
  Acceptance.accepts (replay_into ArkheError_display (host None) rollback_log) = true ∧
  length (records rollback_log) = 2%nat ∧ consecutive rollback_log.
Proof. split_and!; vm_compute; reflexivity. Qed.

Lemma rollback_needs_anchor_witness :
  ∃ k1 rep1, replay_into ArkheError_display (host None) (truncate 1 rollback_log) = Done (k1, Ok rep1).
Proof.
  destruct rollback_log_accepted as (H1 & H2 & H3). destruct (Acceptance.accepts_spec _ H1) as (k' & rep & Hr).
  assert (1 < length (records rollback_log))%nat as Hn by (rewrite H2; lia).
  exact (proj1 (rollback_needs_anchor ArkheError_display (host None) rollback_log k' rep 1
    (mkAnchor None None None None (Some (chain_tip rollback_log))) (host None) (host None) ReplayReport_default
    Hr H3 Hn eq_refl)).
Defined.
End rollback_example.
