(* ===== verification/Macros.v ===== *)
(** * The derive macros

    Models [src/arkhe-macros/src/lib.rs]: the parser of [#[arkhe(...)]] and
    the code the three derives emit. The token parser of [syn] is outside the
    repository; an attribute enters as what [parse_nested_meta] hands to its
    closure: the comma-separated items in order, each with the integer literal
    after its [=] or the error [syn] reports for it, and the syntax error, if
    any, that [syn] reports behind the last item. An error is its message. *)
From S2P Require Import Prelude Abi.

Local Open Scope N_scope.

(** ** Input *)

Abbreviation SynError := string (only parsing).

(** One item of an attribute. [meta_value] is the outcome of [meta.value()?]
    and of parsing a [LitInt] behind it. *)
Record NestedMeta : Type := mkMeta_ { meta_path : string; meta_value : Result SynError Z }.

Record Attribute : Type := mkAttribute {
  attr_path : string;
  attr_metas : list NestedMeta;
  attr_syntax : option SynError
}.

(** The generics of the deriving type are passed through. *)
Record DeriveInput (Generics : Type) : Type := mkInput {
  ident : string;
  attrs : list Attribute;
  generics : Generics
}.
Arguments mkInput {_} _ _ _.
Arguments ident {_} _.
Arguments attrs {_} _.
Arguments generics {_} _.

(** ** Arguments *)

Record ArkheArgs : Type := mkArgs { args_type_code : N; args_schema_version : N }.

(** [LitInt::base10_parse::<u32>]. *)
Definition base10_parse (lit : Z) : Result SynError N :=
  if decide (lit < 0)%Z then Err "invalid digit found in string"%string
  else if decide (Z.to_N lit ≤ U32_MAX) then Ok (Z.to_N lit)
  else Err "number too large to fit in target type"%string.

(** The closure of [parse_arkhe_args], on the two variables it captures. *)
Definition on_meta (st : option N * N) (meta : NestedMeta) : Result SynError (option N * N) :=
  let '(type_code, schema_version) := st in
  if decide (meta_path meta = "type_code"%string) then
    lit ← meta_value meta;
    v ← base10_parse lit;
    mret (Some v, schema_version)
  else if decide (meta_path meta = "schema_version"%string) then
    lit ← meta_value meta;
    v ← base10_parse lit;
    mret (type_code, v)
  else Err "unknown #[arkhe(...)] argument; expected `type_code` or `schema_version`"%string.

(** [attr.parse_nested_meta]: items in order up to the first error. *)
Definition parse_nested_meta (st : option N * N) (attr : Attribute) : Result SynError (option N * N) :=
  st ← fold_result on_meta st (attr_metas attr);
  match attr_syntax attr with None => mret st | Some e => Err e end.

(** The loop over the attributes. *)
Definition on_attribute (st : option N * N) (attr : Attribute) : Result SynError (option N * N) :=
  if decide (attr_path attr = "arkhe"%string) then parse_nested_meta st attr else mret st.

(** [parse_arkhe_args]. *)
Definition parse_arkhe_args (attrs : list Attribute) : Result SynError ArkheArgs :=
  st ← fold_result on_attribute (None, 1) attrs;
  match st.1 with
  | Some type_code => mret (mkArgs type_code st.2)
  | None => Err "missing #[arkhe(type_code = N)] attribute"%string
  end.

(** ** Output *)

(** The implementations the derives emit. *)
Inductive ArkheTrait : Type :=
  | Sealed
  | ActionDeriv (TYPE_CODE : TypeCode) (SCHEMA_VERSION : N)
  | Component (TYPE_CODE : TypeCode) (SCHEMA_VERSION : N)
  | Event (TYPE_CODE : TypeCode) (SCHEMA_VERSION : N).

(** [impl <generics> trait for name <generics>]. *)
Record ImplBlock (Generics : Type) : Type := mkImpl { impl_trait : ArkheTrait; impl_for : string; impl_generics : Generics }.
Arguments mkImpl {_} _ _ _.
Arguments impl_trait {_} _.

Inductive TokenStream (Generics : Type) : Type :=
  | compile_error (message : SynError)
  | expanded (impls : list (ImplBlock Generics)).
Arguments compile_error {_} _.
Arguments expanded {_} _.

Section derive.
Context {Generics : Type}.

(** [sealed_impl]. *)
Definition sealed_impl (name : string) (g : Generics) : ImplBlock Generics := mkImpl Sealed name g.

(** The shared body: the arguments, then the sealed and the trait block. *)
Definition derive_with (trait : N → N → ArkheTrait) (input : Result SynError (DeriveInput Generics))
    : TokenStream Generics :=
  match input with
  | Err e => compile_error e
  | Ok input =>
      match parse_arkhe_args (attrs input) with
      | Err ts => compile_error ts
      | Ok args =>
          expanded [sealed_impl (ident input) (generics input);
                    mkImpl (trait (args_type_code args) (args_schema_version args)) (ident input) (generics input)]
      end
  end.

Definition derive_arkhe_action : Result SynError (DeriveInput Generics) → TokenStream Generics := derive_with ActionDeriv.
Definition derive_arkhe_component : Result SynError (DeriveInput Generics) → TokenStream Generics := derive_with Component.
Definition derive_arkhe_event : Result SynError (DeriveInput Generics) → TokenStream Generics := derive_with Event.

End derive.

(** ** What the attributes say *)

(** The value an item assigns to [name], and the error it causes. *)
Definition item_value (meta : NestedMeta) : Result SynError N := meta_value meta ≫= base10_parse.
Definition known_path (meta : NestedMeta) : Prop :=
  meta_path meta = "type_code"%string ∨ meta_path meta = "schema_version"%string.
#[global] Instance known_path_dec meta : Decision (known_path meta).
Proof. unfold known_path. apply _. Defined.

Definition item_error (meta : NestedMeta) : option SynError :=
  if decide (known_path meta) then match item_value meta with Ok _ => None | Err e => Some e end
  else Some "unknown #[arkhe(...)] argument; expected `type_code` or `schema_version`"%string.

(** The items and errors of all [arkhe] attributes, in source order; other
    attributes do not count. *)
Definition arkhe_items (attrs : list Attribute) : list NestedMeta :=
  filter (λ a, attr_path a = "arkhe"%string) attrs ≫= attr_metas.
Definition arkhe_errors (attrs : list Attribute) : list SynError :=
  filter (λ a, attr_path a = "arkhe"%string) attrs ≫= λ a, omap item_error (attr_metas a) ++ option_list (attr_syntax a).

(** The last assignment to [name] wins. *)
Definition assigned (name : string) (items : list NestedMeta) : option N :=
  last (omap (λ m, if decide (meta_path m = name)
                   then match item_value m with Ok v => Some v | Err _ => None end else None) items).

Definition after_items (st : option N * N) (items : list NestedMeta) : option N * N :=
  (match assigned "type_code" items with Some v => Some v | None => st.1 end,
   default st.2 (assigned "schema_version" items)).

Lemma assigned_cons name m items :
  assigned name (m :: items)
  = match assigned name items with
    | Some v => Some v
    | None => if decide (meta_path m = name) then match item_value m with Ok v => Some v | Err _ => None end else None
    end.
Proof.
  unfold assigned. cbn [omap list_omap].
  destruct (decide (meta_path m = name)); [destruct (item_value m)|]; try by destruct (last _).
  rewrite last_cons. by destruct (last _).
Qed.

Lemma on_meta_exact st m :
  on_meta st m = match item_error m with Some e => Err e | None => Ok (after_items st [m]) end.
Proof.
  destruct st as [tc sv]. unfold on_meta, item_error, after_items, known_path, item_value. rewrite !assigned_cons.
  unfold item_value. cbn [assigned omap list_omap last].
  destruct (decide (meta_path m = "type_code"%string)) as [E|E].
  - rewrite (decide_True (P := _ ∨ _)) by by left. rewrite decide_False by by rewrite E.
    cbn. destruct (meta_value m) as [z|]; [|done]. cbn. by destruct (base10_parse z).
  - destruct (decide (meta_path m = "schema_version"%string)) as [E'|E'].
    + rewrite (decide_True (P := _ ∨ _)) by by right. cbn. destruct (meta_value m) as [z|]; [|done]. cbn.
      by destruct (base10_parse z).
    + rewrite decide_False by by intros [?|?]. done.
Qed.

Lemma after_items_cons st m items : after_items (after_items st [m]) items = after_items st (m :: items).
Proof.
  unfold after_items. rewrite !(assigned_cons _ m). cbn [assigned omap list_omap last fst snd].
  destruct (assigned "type_code" items), (assigned "schema_version" items); done.
Qed.

Lemma on_metas_exact st items :
  fold_result on_meta st items = match head (omap item_error items) with Some e => Err e | None => Ok (after_items st items) end.
Proof.
  revert st. induction items as [|m items IH]; intros st; cbn [fold_result omap list_omap].
  { by destruct st. }
  rewrite on_meta_exact. destruct (item_error m) as [e|]; [done|]. cbn [mbind Result_bind].
  by rewrite IH, after_items_cons.
Qed.

Lemma after_items_app st l1 l2 : after_items (after_items st l1) l2 = after_items st (l1 ++ l2).
Proof.
  revert st. induction l1 as [|m l1 IH]; intros st; cbn [app]; [by destruct st|].
  by rewrite <- (after_items_cons st m l1), IH, after_items_cons.
Qed.

Lemma on_attribute_exact st a :
  on_attribute st a
  = if decide (attr_path a = "arkhe"%string) then
      match head (omap item_error (attr_metas a) ++ option_list (attr_syntax a)) with
      | Some e => Err e
      | None => Ok (after_items st (attr_metas a))
      end
    else Ok st.
Proof.
  unfold on_attribute. destruct (decide _); [|done]. unfold parse_nested_meta. rewrite on_metas_exact.
  destruct (omap item_error (attr_metas a)) as [|err errs]; [|done]. cbn. by destruct (attr_syntax a).
Qed.

Lemma on_attributes_exact st attrs :
  fold_result on_attribute st attrs
  = match head (arkhe_errors attrs) with Some e => Err e | None => Ok (after_items st (arkhe_items attrs)) end.
Proof.
  unfold arkhe_errors, arkhe_items. revert st. induction attrs as [|a attrs IH]; intros st; cbn [fold_result].
  { by destruct st. }
  rewrite filter_cons, on_attribute_exact. destruct (decide (attr_path a = "arkhe"%string)).
  2:{ cbn [mbind Result_bind]. apply IH. }
  cbn [mbind list_bind]. destruct (omap item_error (attr_metas a) ++ option_list (attr_syntax a)) as [|err errs]; [|done].
  cbn [head mbind Result_bind app]. by rewrite IH, after_items_app.
Qed.

(** ** Properties *)

(** C35: the attribute parser and the derives on every input. Attributes
    other than [arkhe] are ignored; the first error in source order (an
    unknown argument, a missing or non-integer value, a literal that does not
    fit 32 bits, or bad syntax behind the last item) is the compile error; a
    missing type code is an error; otherwise the last assignment of each
    argument wins, the schema version defaults to 1, both fit 32 bits, and each
    derive emits exactly the sealing block and its own trait's block with
    these constants. *)
Theorem derive_exact {G} (attrs : list Attribute) name (g : G) :
  let tc := assigned "type_code" (arkhe_items attrs) in
  let sv := default 1 (assigned "schema_version" (arkhe_items attrs)) in
  parse_arkhe_args attrs
    = match head (arkhe_errors attrs), tc with
      | Some e, _ => Err e
      | None, None => Err "missing #[arkhe(type_code = N)] attribute"%string
      | None, Some v => Ok (mkArgs v sv)
      end ∧
  (∀ args, parse_arkhe_args attrs = Ok args → args_type_code args ≤ U32_MAX ∧ args_schema_version args ≤ U32_MAX) ∧
  (∀ trait derive, (trait, derive) ∈ [(ActionDeriv, derive_arkhe_action); (Component, derive_arkhe_component);
                                      (Event, derive_arkhe_event)] →
     derive (Ok (mkInput name attrs g))
     = match parse_arkhe_args attrs with
       | Err e => compile_error e
       | Ok args => expanded [mkImpl Sealed name g;
                              mkImpl (trait (args_type_code args) (args_schema_version args)) name g]
       end).
Proof.
  intros tc sv.
  assert (parse_arkhe_args attrs
    = match head (arkhe_errors attrs), tc with
      | Some e, _ => Err e
      | None, None => Err "missing #[arkhe(type_code = N)] attribute"%string
      | None, Some v => Ok (mkArgs v sv)
      end) as Hp.
  { unfold parse_arkhe_args. rewrite on_attributes_exact. destruct (head _); [done|]. cbn [mbind Result_bind].
    unfold after_items. cbn [fst snd]. fold tc sv. by destruct tc. }
  assert (∀ nm v, assigned nm (arkhe_items attrs) = Some v → v ≤ U32_MAX) as Hb.
  { intros nm v Hv. apply last_Some in Hv as [l Hl].
    assert (v ∈ l ++ [v]) as Hin by (apply elem_of_app; right; by apply list_elem_of_singleton).
    rewrite <- Hl in Hin. apply list_elem_of_omap in Hin as (m & _ & Hm). destruct (decide _); [|done].
    unfold item_value in Hm. destruct (meta_value m) as [z|]; [|done]. cbn in Hm. unfold base10_parse in Hm.
    destruct (decide _); [done|]. destruct (decide _) as [Hle|]; [|done]. by injection Hm as <-. }
  split_and!; [exact Hp| |].
  - intros args Ha. rewrite Hp in Ha. destruct (head _); [done|]. destruct tc as [v|] eqn:E; [|done].
    injection Ha as <-. cbn. split; [by eapply Hb|]. subst sv.
    destruct (assigned "schema_version" _) as [w|] eqn:E2; [by eapply Hb|]. cbn. unfold U32_MAX. lia.
  - intros trait derive Hin. rewrite !elem_of_cons, elem_of_nil in Hin.
    destruct Hin as [[= -> ->]|[[= -> ->]|[[= -> ->]|[]]]]; unfold derive_arkhe_action, derive_arkhe_component, derive_arkhe_event, derive_with;
      by destruct (parse_arkhe_args _).
Qed.

(** ** Witness *)

(** [#[derive(ArkheComponent)] #[serde] #[arkhe(type_code = 5002)]] and a
    second [#[arkhe(type_code = 5003)]]. *)
Definition ex_attrs : list Attribute :=
  [mkAttribute "serde" [mkMeta_ "rename" (Err "expected integer literal"%string)] None;
   mkAttribute "arkhe" [mkMeta_ "type_code" (Ok 5002%Z)] None;
   mkAttribute "arkhe" [mkMeta_ "type_code" (Ok 5003%Z)] None].

Lemma derive_exact_witness :
  derive_arkhe_component (Ok (mkInput "Defaulted" ex_attrs tt))
  = expanded [mkImpl Sealed "Defaulted" tt; mkImpl (Component 5003 1) "Defaulted" tt] ∧
  parse_arkhe_args ex_attrs = Ok (mkArgs 5003 1) ∧
  parse_arkhe_args [mkAttribute "arkhe" [mkMeta_ "schema_version" (Ok 4294967296%Z)] None]
  = Err "number too large to fit in target type"%string.
Proof.
  destruct (derive_exact ex_attrs "Defaulted" tt) as (H1 & _ & H3). split; [|split; [exact H1|reflexivity]].
  rewrite (H3 Component derive_arkhe_component) by set_solver. reflexivity.
Defined.
