(* ===== verification/Dice.v ===== *)
(** * The dice example

    Models [src/examples/dice/src/main.rs]: a client of the kernel that rolls
    dice through actions, captures the outcomes in an observer, exports the
    log, replays it into a fresh kernel of the same shape and compares the two
    runs. The theorems show that the comparison cannot fail. *)
From S2P Require Import Macros.
From S2P Require Import Prelude Abi Quota Extern Authz Ledger Scheduler Queue Instance Event.
From S2P Require Import Observer Stage Dispatch Apply Signature Wal Registry Step Kernel Spec Refinement Replay.

Local Open Scope N_scope.

(** ** Payloads *)

Definition WORLD_ID : bytes := replicate 32 Byte.x42.
Definition MANIFEST_DIGEST : bytes := replicate 32 Byte.x9a.
Definition DICE_EVENT_TC : TypeCode := 8001.

(** A [u8] is an [N]; [dice] is an array of three. *)
Record DiceRolled : Type := mkRolled {
  rolled_nonce : N;
  rolled_dice : N * N * N;
  rolled_sum : N;
  rolled_target_sum : N;
  rolled_won : bool;
  rolled_entropy_digest : bytes
}.

Record RollAction : Type := mkRoll { roll_seed : bytes; roll_nonce : N; roll_target_sum : N }.

#[global] Instance DiceRolled_eq_dec : EqDecision DiceRolled.
Proof. solve_decision. Defined.
#[global] Instance RollAction_eq_dec : EqDecision RollAction.
Proof. solve_decision. Defined.

(** [u64::to_le_bytes]: eight bytes, the least significant first. *)
Definition byte_at (v : N) (i : nat) : byte :=
  default Byte.x00 (Byte.of_N ((v / 2 ^ (8 * N.of_nat i)) mod 256)).
Definition to_le_bytes (v : N) : bytes := byte_at v <$> seq 0 8.

(** [u8 + u8] and [u32 + u32] under overflow checks. *)
Definition checked_u8 (a b : N) : Outcome N :=
  if decide (a + b < 256) then Done (a + b) else Panicked "attempt to add with overflow".
Definition checked_u32 (a b : N) : Outcome N :=
  if decide (a + b ≤ U32_MAX) then Done (a + b) else Panicked "attempt to add with overflow".

(** One die: [(bytes[i] % 6) + 1]. *)
Definition die (digest : bytes) (i : nat) : Outcome N :=
  b ← expect "index out of bounds" (digest !! i);
  checked_u8 (Byte.to_N b mod 6) 1.

(** [RollAction::roll]. The hasher sees the concatenation of its updates. *)
Definition roll `{Blake3} (self : RollAction) (at_ : Tick) : Outcome DiceRolled :=
  let digest := blake3_hash (roll_seed self ++ to_le_bytes at_ ++ to_le_bytes (roll_nonce self)) in
  d1 ← die digest 0;
  d2 ← die digest 1;
  d3 ← die digest 2;
  s ← checked_u8 d1 d2;
  sum ← checked_u8 s d3;
  mret {| rolled_nonce := roll_nonce self;
          rolled_dice := (d1, d2, d3);
          rolled_sum := sum;
          rolled_target_sum := roll_target_sum self;
          rolled_won := bool_decide (roll_target_sum self ≤ sum);
          rolled_entropy_digest := digest |}.

Section dice.
Context `{Postcard InstanceSnapshot, Postcard WalRecordBody, Postcard RollAction, Postcard DiceRolled}.
Context {B3 : Blake3} {SS : SigSchemes}.

(** [#[arkhe(type_code = 8000, schema_version = 1)]]. *)
#[export] Instance RollAction_derived : Derived RollAction :=
  {| TYPE_CODE := 8000; SCHEMA_VERSION := 1; derived_postcard := _ |}.

(** [<RollAction as ActionCompute>::compute]; the map's length is a [usize],
    below the maximum of [u64]. *)
Definition roll_compute (self : RollAction) (ctx : ActionContext) : Outcome (list Op) :=
  outcome ← roll self (ctx_now ctx);
  event_bytes ← match to_allocvec outcome with
                | Ok bs => Done bs
                | Err _ => Panicked "postcard encode DiceRolled"
                end;
  entity_id ← expect "next entity id > 0" (EntityId_new (ctx_entities_len ctx + 1));
  mret [SpawnEntity entity_id System; EmitEvent (Some entity_id) DICE_EVENT_TC event_bytes].
#[export] Instance RollAction_compute : ActionCompute RollAction := roll_compute.

(** ** Observer *)

(** [CaptureObserver::on_event]: what it adds to its log; it never panics. *)
Definition captured (event : KernelEvent) : option DiceRolled :=
  match event with
  | DomainEventEmitted _ _ event_type_code bs =>
      if decide (event_type_code = DICE_EVENT_TC) then
        match from_bytes bs with Ok outcome => Some outcome | Err _ => None end
      else None
  | _ => None
  end.
Definition CaptureObserver : KernelObserver := λ _ _, false.

(** The shared [RollLog] of the observer with handle [h], after everything
    delivered to it so far. *)
Definition roll_log (h : ObserverHandle) (obs : ObserverRegistry) : list DiceRolled :=
  omap (λ d, if decide (d.1 = h) then captured d.2 else None) (deliveries obs).

(** ** Driver helpers *)

Definition dice_config : InstanceConfig :=
  let dflt := InstanceConfig_default in
  mkConfig (default_caps dflt) 1024 1024 (max_inbox_per_route dflt) (N.shiftl 1 20) (parent dflt)
    (quota_reduction dflt).

(** [fresh_kernel_with_wal]; the shared log is that of the observer handle. *)
Definition fresh_kernel_with_wal : Outcome (Kernel * InstanceId * ObserverHandle) :=
  let kernel := new_with_wal WORLD_ID MANIFEST_DIGEST in
  let kernel := register_action RollAction kernel in
  let '(h, kernel) := register_observer kernel CaptureObserver in
  r ← create_instance kernel dice_config;
  mret (r.2, r.1, h).

(** The body of the loop of [roll_n]. *)
Definition roll_one (inst : InstanceId) (seed : bytes) (target_sum : N) (kernel : Kernel) (nonce : N)
    : Outcome Kernel :=
  let action := mkRoll seed nonce target_sum in
  bs ← Action_canonical_bytes action;
  let at_ : Tick := nonce in
  r ← submit kernel inst System None SYSTEM at_ (TYPE_CODE (A := RollAction)) bs;
  match r with
  | (Ok _, kernel) => s ← step kernel at_ SYSTEM; mret s.2
  | (Err _, _) => Panicked "submit ok"
  end.

(** [0..n]. *)
Definition nonces (n : N) : list N := N.of_nat <$> seq 0 (N.to_nat n).

(** [roll_n]. *)
Definition roll_n (kernel : Kernel) (inst : InstanceId) (seed : bytes) (n : N) (target_sum : N) : Outcome Kernel :=
  fold_outcome (roll_one inst seed target_sum) kernel (nonces n).

(** ** Printing *)

(** [{:>w}]: padded with blanks on the left. *)
Fixpoint pad_left (w : nat) (s : string) : string :=
  match w with
  | O => s
  | S w' => if decide (String.length s < w)%nat then " " +:+ pad_left w' s else s
  end.
Definition show_bool (b : bool) : string := if b then "true" else "false".
Definition show_dice (d : N * N * N) : string :=
  let '(a, b, c) := d in "[" +:+ pretty a +:+ ", " +:+ pretty b +:+ ", " +:+ pretty c +:+ "]".

(** [fmt_outcome], [fmt_chain_tip]. *)
Definition fmt_outcome (o : DiceRolled) : string :=
  "  nonce=" +:+ pad_left 3 (pretty (rolled_nonce o)) +:+ " dice=" +:+ show_dice (rolled_dice o)
  +:+ " sum=" +:+ pad_left 2 (pretty (rolled_sum o)) +:+ " target>=" +:+ pad_left 2 (pretty (rolled_target_sum o))
  +:+ " won=" +:+ show_bool (rolled_won o) +:+ " digest=0x" +:+ to_hex (take 8 (rolled_entropy_digest o)).
Definition fmt_chain_tip (tip : bytes) : string := to_hex (take 16 tip).

(** ** The demo *)

(** What [main] has measured when it reaches its verdict. *)
Record DemoRun : Type := mkRun {
  original_tip : bytes;
  original_records : N;
  original_outcomes : list DiceRolled;
  run_report : ReplayReport;
  records_replayed : N;
  replayed_outcomes : list DiceRolled
}.
Definition chain_match (d : DemoRun) : bool := bool_decide (final_chain_tip (run_report d) = original_tip d).
Definition outcome_match (d : DemoRun) : bool := bool_decide (replayed_outcomes d = original_outcomes d).
Definition count_match (d : DemoRun) : bool := bool_decide (records_replayed d = original_records d).
Definition verified (d : DemoRun) : bool := chain_match d && outcome_match d && count_match d.

Context (error_debug : ArkheError → string).

(** Both stages of [main]; the second stage of the source spells
    [fresh_kernel_with_wal] out. *)
Definition demo (seed : bytes) (n_rolls target_sum : N) : Outcome DemoRun :=
  f1 ← fresh_kernel_with_wal;
  let '(k1, inst1, log1) := f1 in
  k1 ← roll_n k1 inst1 seed n_rolls target_sum;
  tip ← expect "wal attached" (wal_chain_tip k1);
  recs ← expect "wal attached" (kernel_wal_record_count k1);
  w ← expect "wal attached" (export_wal k1);
  f2 ← fresh_kernel_with_wal;
  let '(k2, _, replay_log) := f2 in
  r ← replay_into error_debug k2 w;
  match r with
  | (_, Err _) => Panicked "replay ok"
  | (k2, Ok report) =>
      replayed ← checked_u32 (submits_replayed report) (steps_replayed report);
      mret (mkRun tip recs (roll_log log1 (observers k1)) report replayed (roll_log replay_log (observers k2)))
  end.

(** The lines [main] prints between its banners, and its exit status. *)
Definition newline : string := String (Ascii.ascii_of_nat 10) "".
Definition verdict_word (b : bool) : string := if b then "YES" else "NO ".
Definition demo_output (n_rolls : N) (d : DemoRun) : list string :=
  [newline +:+ "[phase 1] roll " +:+ pretty n_rolls +:+ " times against fresh kernel + WAL"]
  ++ (fmt_outcome <$> original_outcomes d)
  ++ ["  records=" +:+ pretty (original_records d) +:+ " chain_tip=0x" +:+ fmt_chain_tip (original_tip d) +:+ "…";
      newline +:+ "[phase 2] replay WAL into fresh kernel of same shape"]
  ++ (fmt_outcome <$> replayed_outcomes d)
  ++ ["  submits=" +:+ pretty (submits_replayed (run_report d)) +:+ " steps=" +:+ pretty (steps_replayed (run_report d))
        +:+ " chain_tip=0x" +:+ fmt_chain_tip (final_chain_tip (run_report d)) +:+ "…";
      "  chain_tip_match    : " +:+ verdict_word (chain_match d);
      "  outcome_match      : " +:+ verdict_word (outcome_match d);
      "  record_count_match : " +:+ verdict_word (count_match d);
      newline +:+ (if verified d then "  ✓ A1 D1-Total verified: WAL replay is bit-identical."
                   else "  ✗ INTEGRITY BREACH: replay diverged from original run.")].

(** [main]: the run and its exit status. *)
Definition main : Outcome (list string * N) :=
  d ← demo (replicate 32 Byte.x5a) 5 12;
  mret (demo_output 5 d, if verified d then 0 else 1).

End dice.

(** ** Rolling *)

Section rolling.
Context {B3 : Blake3} {BL : Blake3Laws}.

Lemma die_bounds digest i : length digest = 32%nat → (i < 32)%nat → ∃ v, die digest i = Done v ∧ 1 ≤ v ≤ 6.
Proof.
  intros Hl Hi. unfold die. destruct (lookup_lt_is_Some_2 digest i) as [b ->]; [lia|]. cbn [expect mbind Outcome_bind].
  pose proof (N.mod_upper_bound (Byte.to_N b) 6 ltac:(done)) as Hm. unfold checked_u8.
  generalize dependent (Byte.to_N b mod 6). intros v Hv. rewrite decide_True by lia. exists (v + 1). split; [done|lia].
Qed.

Definition dice_message (self : RollAction) (at_ : Tick) : bytes :=
  roll_seed self ++ to_le_bytes at_ ++ to_le_bytes (roll_nonce self).

Lemma roll_facts self at_ :
  ∃ o d1 d2 d3, roll self at_ = Done o ∧ rolled_nonce o = roll_nonce self ∧ rolled_dice o = (d1, d2, d3) ∧
    (1 ≤ d1 ≤ 6 ∧ 1 ≤ d2 ≤ 6 ∧ 1 ≤ d3 ≤ 6) ∧ rolled_sum o = d1 + d2 + d3 ∧
    rolled_target_sum o = roll_target_sum self ∧ (rolled_won o = true ↔ roll_target_sum self ≤ rolled_sum o) ∧
    rolled_entropy_digest o = blake3_hash (dice_message self at_).
Proof.
  unfold roll. fold (dice_message self at_). pose proof (blake3_hash_length (dice_message self at_)) as Hl.
  destruct (die_bounds _ 0 Hl ltac:(lia)) as (d1 & -> & B1), (die_bounds _ 1 Hl ltac:(lia)) as (d2 & -> & B2),
    (die_bounds _ 2 Hl ltac:(lia)) as (d3 & -> & B3'). cbn [mbind Outcome_bind]. unfold checked_u8.
  rewrite decide_True by lia. cbn [mbind Outcome_bind]. rewrite decide_True by lia.
  eexists _, d1, d2, d3. split; [reflexivity|]. cbn. rewrite bool_decide_eq_true. done.
Qed.

End rolling.

(** ** Little-endian bytes *)

Lemma byte_at_value v i : Byte.to_N (byte_at v i) = (v / 2 ^ (8 * N.of_nat i)) mod 256.
Proof.
  unfold byte_at. destruct (Byte.of_N _) as [b|] eqn:E; [by apply Byte.to_of_N in E|].
  apply Byte.of_N_None_iff in E. pose proof (N.mod_upper_bound (v / 2 ^ (8 * N.of_nat i)) 256 ltac:(done)). lia.
Qed.

Lemma to_le_bytes_length v : length (to_le_bytes v) = 8%nat.
Proof. reflexivity. Qed.

Lemma to_le_bytes_inj v w : v ≤ U64_MAX → w ≤ U64_MAX → to_le_bytes v = to_le_bytes w → v = w.
Proof.
  intros Hv Hw Heq. unfold U64_MAX in *.
  assert (∀ i, (i < 8)%nat → (v / 2 ^ (8 * N.of_nat i)) mod 256 = (w / 2 ^ (8 * N.of_nat i)) mod 256) as Hi.
  { intros i Hi. rewrite <- !byte_at_value. f_equal.
    assert (∀ u, to_le_bytes u !! i = Some (byte_at u i)) as Hu.
    { intros u. unfold to_le_bytes. rewrite list_lookup_fmap, lookup_seq_lt by done. done. }
    pose proof (Hu v) as H1. rewrite Heq, Hu in H1. by injection H1. }
  apply N.bits_inj. intros n. destruct (decide (n < 64)) as [Hn|Hn].
  - specialize (Hi (N.to_nat (n / 8))). rewrite N2Nat.id in Hi.
    assert (n / 8 < 8) as H8 by (apply N.Div0.div_lt_upper_bound; lia).
    assert (∀ u, N.testbit u n = N.testbit ((u / 2 ^ (8 * (n / 8))) mod 256) (n mod 8)) as Hb.
    { intros u. pose proof (N.mod_upper_bound n 8 ltac:(done)). change 256 with (2 ^ 8).
      rewrite N.mod_pow2_bits_low, N.div_pow2_bits by lia. f_equal. pose proof (N.div_mod n 8 ltac:(done)). lia. }
    rewrite !Hb, Hi by lia. done.
  - assert (∀ u, u < 2 ^ 64 → N.testbit u n = false) as Hh.
    { intros u Hu. destruct (decide (u = 0)) as [->|]; [apply N.bits_0|]. apply N.bits_above_log2.
      apply N.log2_lt_pow2; [lia|]. eapply N.lt_le_trans; [exact Hu|]. apply N.pow_le_mono_r; lia. }
    rewrite !Hh by (change (2 ^ 64) with 18446744073709551616; lia). done.
Qed.

Lemma dice_message_inj a b t u :
  length (roll_seed a) = length (roll_seed b) → t ≤ U64_MAX → u ≤ U64_MAX →
  roll_nonce a ≤ U64_MAX → roll_nonce b ≤ U64_MAX → dice_message a t = dice_message b u →
  roll_seed a = roll_seed b ∧ t = u ∧ roll_nonce a = roll_nonce b.
Proof.
  intros Hl H1 H2 H3 H4 Heq. unfold dice_message in Heq. apply app_inj_1 in Heq as [-> Heq]; [|done].
  apply app_inj_1 in Heq as [E1 E2]; [|by rewrite !to_le_bytes_length].
  split_and!; [done|by apply to_le_bytes_inj..].
Qed.

(** ** The action as a program of the specification *)

Section program.
Context {P1 : Postcard InstanceSnapshot} {P2 : Postcard WalRecordBody} {P3 : Postcard RollAction} {P4 : Postcard DiceRolled}.
Context {B3 : Blake3} {SS : SigSchemes} {BL : Blake3Laws} {T4 : PostcardTotal DiceRolled} {T3 : PostcardTotal RollAction}
  {R4 : PostcardRoundtrip DiceRolled} {R3 : PostcardRoundtrip RollAction}.

(** The event bytes of a roll. *)
Definition roll_bytes (a : RollAction) (at_ : Tick) : bytes :=
  match roll a at_ with
  | Done o => match to_allocvec o with Ok bs => bs | Err _ => [] end
  | Panicked _ => []
  end.

Definition roll_program (a : RollAction) (v : ActionView) : list Op :=
  let id := N.succ_pos (av_entities v) in
  [SpawnEntity id System; EmitEvent (Some id) DICE_EVENT_TC (roll_bytes a (av_now v))].

Definition dice_progs (tc : TypeCode) (bs : bytes) : Decoded :=
  if decide (tc = 8000) then
    match from_bytes bs with Ok a => Program (roll_program a) | Err _ => BadBytes end
  else NoType.

Lemma roll_bytes_exact a at_ : ∃ o, roll a at_ = Done o ∧ to_allocvec o = Ok (roll_bytes a at_).
Proof.
  destruct (roll_facts a at_) as (o & _ & _ & _ & Ho & _). exists o. split; [done|]. unfold roll_bytes. rewrite Ho.
  by destruct (postcard_total o) as [bs ->].
Qed.

Lemma roll_bytes_captured a at_ inst e :
  ∃ o, roll a at_ = Done o ∧ captured (DomainEventEmitted inst e DICE_EVENT_TC (roll_bytes a at_)) = Some o.
Proof.
  destruct (roll_bytes_exact a at_) as (o & Ho & Hb). exists o. split; [done|]. unfold captured.
  by rewrite decide_True, (postcard_roundtrip _ _ Hb).
Qed.

Lemma dice_runs : runs (register RollAction ActionRegistry_new) dice_progs.
Proof.
  intros tc bs. unfold resolve, registry_get, register, dice_progs. cbn [by_type_code ActionRegistry_new].
  change (TYPE_CODE (A := RollAction)) with 8000. destruct (decide (tc = 8000)) as [->|Hne].
  2:{ by rewrite lookup_insert_ne, lookup_empty by done. }
  rewrite lookup_insert_eq. cbn [mbind option_bind deserializer schema_version]. unfold Action_from_bytes.
  rewrite decide_False by (intros Hn; by apply Hn).
  cbn [derived_postcard RollAction_derived]. destruct (from_bytes bs) as [a|e]; [|done].
  cbn [map_err mbind Result_bind mret Result_ret to_dyn compute_dyn]. intros ctx. unfold compute, RollAction_compute, roll_compute.
  destruct (roll_bytes_exact a (ctx_now ctx)) as (o & -> & Hb). cbn [mbind Outcome_bind]. rewrite Hb.
  cbn [mbind Outcome_bind]. unfold EntityId_new, NonZero_new.
  rewrite N.add_1_r, <- N.succ_pos_spec. reflexivity.
Qed.

(** ** One roll, abstractly *)

(** The entities of the first [m] rolls: number [j + 1] appears at tick [j]. *)
Fixpoint spawned (m : nat) : gmap EntityId EntityMeta :=
  match m with
  | O => ∅
  | S m' => <[N.succ_pos (N.of_nat m') := mkMeta System (N.of_nat m')]> (spawned m')
  end.

Lemma spawned_fresh m j : (m ≤ j)%nat → spawned m !! N.succ_pos (N.of_nat j) = None.
Proof.
  induction m as [|m IH]; intros Hj; cbn [spawned]; [apply lookup_empty|].
  rewrite lookup_insert_ne; [apply IH; lia|]. intros E. apply (f_equal Npos) in E. rewrite !N.succ_pos_spec in E. lia.
Qed.

Lemma spawned_size m : size (spawned m) = m.
Proof. induction m as [|m IH]; cbn [spawned]; [done|]. rewrite map_size_insert_None, IH; [done|by apply spawned_fresh]. Qed.

(** The dice instance after [m] rolls: one entity per roll up to the quota,
    an empty queue, everything else untouched. *)
Definition dice_inst (m : nat) : AInst :=
  mkAInst dice_config (spawned (m `min` 1024)) ∅ [] (N.of_nat m) (N.of_nat m) ∅ 0 ∅ 0.
Definition dice_abs (m : nat) : AKernel := mkAKernel {[1%positive := dice_inst m]} 1.

(** The instance between the submission and the step. *)
Definition dice_queued (m : nat) (bs : bytes) : AInst :=
  let id := N.succ_pos (N.of_nat m) in
  a_with_queue (dice_inst m) [(N.of_nat m, mkEntry id (N.of_nat m) None System 8000 bs SYSTEM)]
    (N.of_nat m + 1) (N.of_nat m + 1).

Lemma roll_submitted m bs :
  N.of_nat m < U64_MAX →
  a_call dice_progs (dice_abs m) (CallSubmit 1 System None SYSTEM (N.of_nat m) 8000 bs)
  = Some (OutSubmitted (Ok (N.succ_pos (N.of_nat m))), [], mkAKernel {[1%positive := dice_queued m bs]} 1).
Proof.
  intros Hm. unfold a_call, a_submit, dice_abs. cbn [ak_instances ak_created]. rewrite lookup_singleton_eq.
  rewrite decide_False by (vm_compute; intros [_ Hn]; by apply Hn). unfold a_schedule.
  cbn [dice_inst a_minted a_arrivals]. rewrite decide_True by done. cbn. by rewrite insert_singleton.
Qed.

(** What is spawned and shown by roll [m]: past the quota the entity is
    refused, the event is emitted all the same. *)
Definition roll_shown (seed : bytes) (target : N) (m : nat) : list KernelEvent :=
  let id := N.succ_pos (N.of_nat (m `min` 1024)) in
  (if decide (m < 1024)%nat then [] else [EffectFailed 1 (byte_str "entity_quota_exceeded")])
  ++ [DomainEventEmitted 1 (Some id) DICE_EVENT_TC (roll_bytes (mkRoll seed (N.of_nat m) target) (N.of_nat m));
      ActionExecuted 1 8000 (N.of_nat m)].

(** The instance the action runs on. *)
Definition dice_popped (m : nat) : AInst := a_with_queue (dice_inst m) [] (N.of_nat m + 1) (N.of_nat m + 1).

Lemma roll_judged m id a e bs eff :
  judge (dice_popped m) System eff (mkTally 0 0 0) [SpawnEntity id System; EmitEvent a e bs]
  = [(SpawnEntity id System, if decide (m < 1024)%nat then Accepted else Refused "entity_quota_exceeded");
     (EmitEvent a e bs, Accepted)].
Proof.
  assert (∀ t, t_bytes t = 0 → judge_one (dice_popped m) System eff t (EmitEvent a e bs) = Accepted) as Hemit.
  { intros t Ht. unfold judge_one. rewrite decide_False by (intros Hn; apply Hn; by split).
    rewrite decide_False; [done|]. cbn [t_project]. rewrite Ht. vm_compute. intros [_ Hn]. discriminate Hn. }
  cbn [judge]. assert (judge_one (dice_popped m) System eff (mkTally 0 0 0) (SpawnEntity id System)
    = if decide (m < 1024)%nat then Accepted else Refused "entity_quota_exceeded") as ->.
  { unfold judge_one. rewrite decide_False by (intros Hn; apply Hn; by split).
    rewrite decide_False by (vm_compute; intros [_ Hn]; discriminate Hn).
    cbn [dice_popped a_with_queue dice_inst a_config a_entities t_spawned]. rewrite spawned_size.
    change (max_entities dice_config) with 1024.
    destruct (decide (m < 1024)%nat); [rewrite decide_False by lia|rewrite decide_True by lia]; done. }
  f_equal. rewrite Hemit; [done|]. by destruct (decide (m < 1024)%nat).
Qed.

(** Both operations accepted, or the spawn refused. *)
Lemma settle_both A e eff now id a tc bs :
  se_principal e = System →
  a_settle 1 A e eff now [(SpawnEntity id System, Accepted); (EmitEvent a tc bs, Accepted)]
  = Some (mkTurn 1 (se_id e) (se_type_code e) Committed 2 0 1 [] [DomainEventEmitted 1 a tc bs],
          a_with_state A (<[id := mkMeta System now]> (a_entities A)) (a_components A)).
Proof. intros Hp. unfold a_settle. by rewrite Hp. Qed.

Lemma settle_refused A e eff now id a tc bs why :
  a_settle 1 A e eff now [(SpawnEntity id System, Refused why); (EmitEvent a tc bs, Accepted)]
  = Some (mkTurn 1 (se_id e) (se_type_code e) (BudgetPartial 1) 1 1 1 []
            [EffectFailed 1 (byte_str why); DomainEventEmitted 1 a tc bs], A).
Proof. reflexivity. Qed.

Lemma roll_settled m seed target e :
  se_principal e = System → se_type_code e = 8000 →
  ∃ t, a_settle 1 (dice_popped m) e (a_authority (dice_popped m) e SYSTEM) (N.of_nat m)
         (judge (dice_popped m) System (a_authority (dice_popped m) e SYSTEM) (mkTally 0 0 0)
            (roll_program (mkRoll seed (N.of_nat m) target) (a_view 1 (dice_popped m) (se_actor e) (N.of_nat m))))
       = Some (t, dice_inst (S m)) ∧ turn_signals t = [] ∧
       turn_events t ++ (if executed_verdict (turn_verdict t) then [ActionExecuted 1 (turn_type t) (N.of_nat m)] else [])
       = roll_shown seed target m.
Proof.
  intros Hp Ht. unfold roll_program. rewrite roll_judged.
  assert (av_entities (a_view 1 (dice_popped m) (se_actor e) (N.of_nat m)) = N.of_nat (m `min` 1024)) as ->
    by exact (f_equal N.of_nat (spawned_size _)).
  unfold roll_shown. destruct (decide (m < 1024)%nat) as [Hm|Hm]; [rewrite settle_both by done|rewrite settle_refused].
  - assert (a_with_state (dice_popped m) (<[N.succ_pos (N.of_nat (m `min` 1024)) := mkMeta System (N.of_nat m)]>
      (a_entities (dice_popped m))) (a_components (dice_popped m)) = dice_inst (S m)) as ->; [|by rewrite Ht; eexists].
    unfold dice_inst, dice_popped, a_with_state, a_with_queue.
    cbn [a_config a_entities a_components a_queue a_minted a_arrivals a_inbox a_delivered a_refs a_local_tick].
    replace (S m `min` 1024)%nat with (S (m `min` 1024))%nat by lia. cbn [spawned].
    replace (N.of_nat (m `min` 1024)) with (N.of_nat m) by lia.
    by rewrite Nat2N.inj_succ, <- (N.add_1_r (N.of_nat m)).
  - assert (dice_popped m = dice_inst (S m)) as ->; [|by rewrite Ht; eexists].
    unfold dice_inst, dice_popped, a_with_queue.
    cbn [a_config a_entities a_components a_queue a_minted a_arrivals a_inbox a_delivered a_refs a_local_tick].
    replace (S m `min` 1024)%nat with (m `min` 1024)%nat by lia. by rewrite Nat2N.inj_succ, <- N.add_1_r.
Qed.

Lemma roll_stepped m seed target bs :
  Action_canonical_bytes (mkRoll seed (N.of_nat m) target) = Done bs →
  ∃ t, a_call dice_progs (mkAKernel {[1%positive := dice_queued m bs]} 1) (CallStep (N.of_nat m) SYSTEM)
       = Some (OutStepped [t], roll_shown seed target m, dice_abs (S m)).
Proof.
  intros Hb. unfold a_call. cbn [ak_instances ak_created].
  assert (btree_keys {[1%positive := dice_queued m bs]} = [1%positive]) as -> by reflexivity.
  cbn [a_round]. unfold a_process. rewrite lookup_singleton_eq. unfold a_turn.
  cbn [dice_queued a_with_queue a_queue dequeue fst snd]. rewrite decide_True by lia.
  cbn [se_type_code se_bytes]. unfold dice_progs. rewrite decide_True by done.
  assert (from_bytes bs = Ok (mkRoll seed (N.of_nat m) target)) as ->.
  { apply postcard_roundtrip. unfold Action_canonical_bytes in Hb. cbn [derived_postcard RollAction_derived] in Hb.
    destruct (to_allocvec _); congruence. }
  cbn [se_principal].
  match goal with |- context [a_settle 1 ?A ?e ?eff ?now ?ds] =>
    assert (∃ t, a_settle 1 A e eff now ds = Some (t, dice_inst (S m)) ∧ turn_signals t = [] ∧
      turn_events t ++ (if executed_verdict (turn_verdict t) then [ActionExecuted 1 (turn_type t) (N.of_nat m)] else [])
       = roll_shown seed target m) as (t & -> & Hs & He) by exact (roll_settled m seed target e eq_refl eq_refl) end.
  cbn [mbind option_bind fst snd]. rewrite Hs. cbn [a_route_all]. rewrite insert_singleton. cbn [mbind option_bind option_list app].
  rewrite !app_nil_r, He. by exists t.
Qed.

(** ** The driver as a session *)

Definition roll_calls (m : nat) (bs : bytes) : list KernelCall :=
  [CallSubmit 1 System None SYSTEM (N.of_nat m) 8000 bs; CallStep (N.of_nat m) SYSTEM].

Lemma roll_canonical a : ∃ bs, Action_canonical_bytes a = Done bs ∧ to_allocvec a = Ok bs.
Proof.
  unfold Action_canonical_bytes. cbn [derived_postcard RollAction_derived].
  destruct (postcard_total a) as [bs Hb]. rewrite Hb. by exists bs.
Qed.

(** One turn of the loop of [roll_n], seen from the kernel that has done [m]
    rolls. *)
Lemma roll_one_refines k m seed target :
  N.of_nat m < U64_MAX → action_registry k = register RollAction ActionRegistry_new → refines k (dice_abs m) →
  ∃ bs k', roll_one 1 seed target k (N.of_nat m) = Done k' ∧ run_calls k (roll_calls m bs) = Done k' ∧
    refines k' (dice_abs (S m)) ∧ action_registry k' = action_registry k ∧
    observers k' = shown (observers k) (roll_shown seed target m) ∧
    ∃ q1 q2, logs k k' [q1; q2] ∧ request_kind q1 = KindSubmit ∧ request_kind q2 = KindStep.
Proof.
  intros Hm Hreg R. destruct (roll_canonical (mkRoll seed (N.of_nat m) target)) as (bs & Hb & _). exists bs.
  assert (runs (action_registry k) dice_progs) as Hr by (rewrite Hreg; apply dice_runs).
  destruct (call_refines dice_progs k _ _ _ _ _ Hr R (roll_submitted m bs Hm))
    as (x & k1 & Hx & R1 & Hout & Ho1 & Hg1 & L1).
  destruct (roll_stepped m seed target bs Hb) as [t Ht].
  destruct (call_refines dice_progs k1 _ _ _ _ _ ltac:(by rewrite Hg1) R1 Ht) as (y & k2 & Hy & R2 & _ & Ho2 & Hg2 & L2).
  exists k2. split_and!; [| |done|congruence|by rewrite Ho2, Ho1|].
  - unfold roll_one. rewrite Hb. cbn [mbind Outcome_bind]. change (TYPE_CODE (A := RollAction)) with 8000.
    cbn [call_result] in Hx, Hy. destruct (submit _ _ _ _ _ _ _ _) as [[r k1']|]; [|done].
    injection Hx as <- <-. cbn [out_matches] in Hout. subst r. cbn [mbind Outcome_bind].
    destruct (step _ _ _) as [[rep k2']|]; [|done]. by injection Hy as _ <-.
  - rewrite call_results_run. unfold roll_calls. cbn [call_results]. rewrite Hx. cbn [mbind Outcome_bind snd].
    rewrite Hy. reflexivity.
  - do 2 eexists. split; [exact (logs_app _ _ _ _ _ L1 L2)|done].
Qed.

(** A log with [n] requests of each kind. *)
Definition paired (n : nat) (log : list AppendReq) : Prop :=
  ∀ kd, len (filter (λ q, request_kind q = kd) log) = N.of_nat n.

Lemma paired_snoc n log q1 q2 :
  paired n log → request_kind q1 = KindSubmit → request_kind q2 = KindStep → paired (S n) (log ++ [q1; q2]).
Proof.
  intros Hl H1 H2 kd. rewrite filter_app, len_app, Hl, !filter_cons, H1, H2, filter_nil.
  destruct kd, (decide (KindSubmit = _)), (decide (KindStep = _)); try done; unfold len; cbn [length]; lia.
Qed.

Lemma erased_kind q : request_kind (erase_digest q) = request_kind q.
Proof. by destruct q. Qed.

Lemma paired_erased n reqs : paired n (erase_digest <$> reqs) → paired n reqs.
Proof.
  intros H kd. rewrite <- (H kd), filter_fmap_list. unfold len. rewrite length_fmap. do 2 f_equal.
  apply filter_ext_in. intros q _. by rewrite erased_kind.
Qed.

(** The events of [n] rolls. *)
Definition rolls_shown (seed : bytes) (target : N) (n : nat) : list KernelEvent :=
  mjoin (roll_shown seed target <$> seq 0 n).

Lemma roll_n_refines k seed target n :
  N.of_nat n ≤ U64_MAX → action_registry k = register RollAction ActionRegistry_new → refines k (dice_abs 0) →
  ∃ cs k', roll_n k 1 seed (N.of_nat n) target = Done k' ∧ run_calls k cs = Done k' ∧
    Forall replayable cs ∧ Forall no_observe cs ∧ refines k' (dice_abs n) ∧ action_registry k' = action_registry k ∧
    observers k' = shown (observers k) (rolls_shown seed target n) ∧ ∃ log, logs k k' log ∧ paired n log.
Proof.
  intros Hn Hreg R. unfold roll_n, nonces, rolls_shown. rewrite Nat2N.id. induction n as [|n IH].
  { exists [], k. split_and!; try done. exists []. split; [by apply logs_nil|done]. }
  destruct IH as (cs & k1 & H1 & H2 & H3 & H4 & H5 & H6 & H7 & log & H8 & H9); [lia|].
  destruct (roll_one_refines k1 n seed target) as (bs & k2 & J1 & J2 & J3 & J4 & J5 & q1 & q2 & J6 & J7 & J8);
    [lia|congruence|done|].
  exists (cs ++ roll_calls n bs), k2. rewrite seq_S, !fmap_app, fold_outcome_app, H1. cbn [Nat.add].
  cbn [fmap list_fmap mbind Outcome_bind fold_outcome]. rewrite J1. cbn [mbind Outcome_bind].
  split_and!; [done| | | |done|congruence| |].
  - unfold run_calls in *. by rewrite fold_outcome_app, H2.
  - apply Forall_app. split; [done|by repeat constructor].
  - apply Forall_app. split; [done|by repeat constructor].
  - rewrite join_app, shown_app, <- H7, J5. cbn [mjoin list_join]. by rewrite app_nil_r.
  - exists (log ++ [q1; q2]). split; [by eapply logs_app|by apply paired_snoc].
Qed.

(** ** The capturing observer *)

Definition dice_observers (log : list (ObserverHandle * KernelEvent)) : ObserverRegistry :=
  mkRegistry {[0 := mkSlot CaptureObserver EM_ALL]} ∅ 1 log.

Lemma dice_deliver log ev : (deliver (dice_observers log) ev).2 = dice_observers (log ++ [(0, ev)]).
Proof.
  unfold deliver. assert (btree_keys (slots (dice_observers log)) = [0]) as -> by reflexivity.
  cbn [fold_left]. unfold deliver_one. cbn [dice_observers evicted slots]. rewrite decide_False by set_solver.
  rewrite lookup_singleton_eq. cbn [slot_mask]. by rewrite mask_all_matches.
Qed.

Lemma dice_shown log evs : shown (dice_observers log) evs = dice_observers (log ++ (pair 0 <$> evs)).
Proof.
  unfold shown. revert log. induction evs as [|ev evs IH]; intros log; cbn [fold_left]; [by rewrite app_nil_r|].
  by rewrite dice_deliver, IH, <- app_assoc.
Qed.

Lemma dice_roll_log evs : roll_log 0 (shown (dice_observers []) evs) = omap captured evs.
Proof.
  rewrite dice_shown. unfold roll_log. cbn [dice_observers deliveries app].
  induction evs as [|ev evs IH]; [done|]. cbn. cbn in IH. rewrite IH. by destruct (captured ev).
Qed.

Lemma rolls_captured seed target n :
  Forall2 (λ nonce o, roll (mkRoll seed nonce target) nonce = Done o) (nonces (N.of_nat n))
    (omap captured (rolls_shown seed target n)).
Proof.
  unfold nonces, rolls_shown. rewrite Nat2N.id. generalize 0%nat.
  induction n as [|n IH]; intros j; cbn [seq fmap list_fmap mjoin list_join]; [constructor|].
  rewrite omap_app. unfold roll_shown at 1.
  destruct (roll_bytes_captured (mkRoll seed (N.of_nat j) target) (N.of_nat j) 1
    (Some (N.succ_pos (N.of_nat (j `min` 1024))))) as (o & Ho & Hc).
  destruct (decide (j < 1024)%nat); cbn [omap list_omap app captured] in *; cbn in Hc |- *; rewrite Hc; by constructor.
Qed.

(** ** The fresh kernel *)

Definition dice_fresh : Kernel :=
  mkKernel _ {[1%positive := Instance_new 1 dice_config]} (register RollAction ActionRegistry_new) (dice_observers []) 1
    MANIFEST_DIGEST (Some (with_signature WORLD_ID MANIFEST_DIGEST SC_None)) StepStage_default.

Lemma fresh_kernel_is : fresh_kernel_with_wal = Done (dice_fresh, 1%positive, 0).
Proof. reflexivity. Qed.

Lemma dice_fresh_refines : refines dice_fresh (dice_abs 0).
Proof.
  assert (config_in_range dice_config) as Hc by (vm_compute; split; discriminate).
  destruct (inst_sound_new 1 dice_config Hc) as [Hs Ha]. split; [by apply map_Forall_singleton| |done].
  cbn [instances dice_fresh]. by rewrite map_fmap_singleton, Ha.
Qed.

Lemma dice_fresh_inv : kernel_inv false dice_fresh.
Proof.
  split; [|exact (runs_total _ _ dice_runs)]. apply map_Forall_singleton. apply inst_ok_new.
Qed.

Lemma kinds_total w : record_count w = count_kind KindSubmit w + count_kind KindStep w.
Proof.
  unfold record_count, count_kind. induction (w_records w) as [|rec recs IH]; [done|].
  rewrite len_cons, IH, !filter_cons.
  destruct (record_kind rec), (decide (_ = KindSubmit)), (decide (_ = KindStep)); try done; rewrite len_cons; lia.
Qed.

Context {T2 : PostcardTotal WalRecordBody}.

(** The log of [n] rolls. *)
Lemma paired_log k' n log :
  logs dice_fresh k' log → paired n log →
  ∃ w, wal k' = Some w ∧ ∀ kd, count_kind kd w = N.of_nat n.
Proof.
  intros Hl Hp. destruct (Hl _ eq_refl) as (reqs & Hw & He). eexists. split; [exact Hw|]. intros kd.
  rewrite count_requests by (done || apply appends_ok_total). rewrite <- He in Hp. apply (paired_erased n reqs Hp kd).
Qed.

Lemma dice_abs_instance k' n :
  refines k' (dice_abs n) →
  ∃ i, instances k' = {[1%positive := i]} ∧ entities i = spawned (n `min` 1024) ∧ queue_of (scheduler i) = [] ∧
    config i = dice_config.
Proof.
  intros [_ H _]. cbn [dice_abs ak_instances] in H.
  assert (abs_inst <$> instances k' !! 1%positive = Some (dice_inst n)) as H1 by by rewrite <- lookup_fmap, H, lookup_singleton_eq.
  destruct (instances k' !! 1%positive) as [i|] eqn:E; [|done]. injection H1 as Hcfg Hent _ Hque. exists i. split.
  - apply map_eq. intros id. destruct (decide (id = 1%positive)) as [->|Hne]; [by rewrite lookup_singleton_eq|].
    rewrite lookup_singleton_ne by done. assert (abs_inst <$> instances k' !! id = None) as Hid
      by (rewrite <- lookup_fmap, H; by apply lookup_singleton_ne). by destruct (instances k' !! id).
  - done.
Qed.

End program.

(** ** Properties *)

Section properties.
Context {P1 : Postcard InstanceSnapshot} {P2 : Postcard WalRecordBody} {P3 : Postcard RollAction} {P4 : Postcard DiceRolled}.
Context {B3 : Blake3} {SS : SigSchemes} {BL : Blake3Laws}.

(** A roll. Rolling never overflows a [u8]: every face is between 1 and
    6, the sum is theirs (so between 3 and 18), the game is won exactly when
    the sum reaches the target, and the digest is the hash of seed, tick and
    nonce. Two rolls at different ticks or nonces, or from different seeds of
    one length, have different digests unless they exhibit a hash collision. *)
Theorem roll_exact a t :
  (∃ o d1 d2 d3, roll a t = Done o ∧ rolled_nonce o = roll_nonce a ∧ rolled_dice o = (d1, d2, d3) ∧
     (1 ≤ d1 ≤ 6 ∧ 1 ≤ d2 ≤ 6 ∧ 1 ≤ d3 ≤ 6) ∧ rolled_sum o = d1 + d2 + d3 ∧
     rolled_target_sum o = roll_target_sum a ∧ (rolled_won o = true ↔ roll_target_sum a ≤ rolled_sum o) ∧
     rolled_entropy_digest o = blake3_hash (dice_message a t)) ∧
  ∀ b u o1 o2, roll a t = Done o1 → roll b u = Done o2 → rolled_entropy_digest o1 = rolled_entropy_digest o2 →
    length (roll_seed a) = length (roll_seed b) →
    t ≤ U64_MAX → u ≤ U64_MAX → roll_nonce a ≤ U64_MAX → roll_nonce b ≤ U64_MAX →
    (roll_seed a = roll_seed b ∧ t = u ∧ roll_nonce a = roll_nonce b) ∨
    (dice_message a t ≠ dice_message b u ∧ blake3_hash (dice_message a t) = blake3_hash (dice_message b u)).
Proof.
  split; [apply roll_facts|]. intros b u o1 o2 H1 H2 Hd Hl B1 B2 B3' B4.
  destruct (roll_facts a t) as (p1 & _ & _ & _ & E1 & _ & _ & _ & _ & _ & _ & D1), (roll_facts b u) as (p2 & _ & _ & _ & E2 & _ & _ & _ & _ & _ & _ & D2).
  assert (p1 = o1) as -> by congruence. assert (p2 = o2) as -> by congruence.
  destruct (decide (dice_message a t = dice_message b u)) as [Hm|Hm].
  - left. by apply dice_message_inj.
  - right. split; [done|congruence].
Qed.

Context {T2 : PostcardTotal WalRecordBody} {T3 : PostcardTotal RollAction} {T4 : PostcardTotal DiceRolled}
  {R3 : PostcardRoundtrip RollAction} {R4 : PostcardRoundtrip DiceRolled}.

(** A session of rolls. Any number of rolls (below 2^64) on the fresh
    kernel runs without a panic; the observer captures exactly one outcome per
    nonce, in order, the one [roll] derives; the log has a submission and a
    step for each; entity [j + 1] was spawned at tick [j] for the first 1024
    rolls and no further entity exists; nothing is left in the queue. *)
Theorem roll_n_exact seed n target :
  n ≤ U64_MAX →
  ∃ k' i, roll_n dice_fresh 1 seed n target = Done k' ∧
    Forall2 (λ nonce o, roll (mkRoll seed nonce target) nonce = Done o) (nonces n) (roll_log 0 (observers k')) ∧
    kernel_wal_record_count k' = Some (2 * n) ∧
    instances k' = {[1%positive := i]} ∧ entities i = spawned (N.to_nat n `min` 1024) ∧
    entities_len i = N.min n 1024 ∧ queue_of (scheduler i) = [].
Proof.
  intros Hn. destruct (roll_n_refines dice_fresh seed target (N.to_nat n)) as
    (cs & k' & H1 & _ & _ & _ & H5 & _ & H7 & log & H8 & H9); [lia|done|apply dice_fresh_refines|].
  rewrite N2Nat.id in H1. destruct (dice_abs_instance k' _ H5) as (i & Hi & He & Hq & _).
  destruct (paired_log k' _ log H8 H9) as (w & Hw & Hk). exists k', i. split_and!; try done.
  - rewrite H7. cbn [observers dice_fresh]. rewrite dice_roll_log.
    pose proof (rolls_captured seed target (N.to_nat n)) as Hr. by rewrite N2Nat.id in Hr.
  - unfold kernel_wal_record_count. rewrite Hw. cbn. rewrite kinds_total, !Hk. f_equal. lia.
  - unfold entities_len. rewrite He, spawned_size. lia.
Qed.

Context {SL : SigLaws} (error_debug : ArkheError → string).

(** C23: the demo verifies. For every seed, target and number of rolls whose
    records a [u32] can count, both stages of the demo run without a panic,
    the replayed chain tip, the replayed outcomes and the record count all
    match the original run, and the outcomes are those [roll] derives; in
    particular [main] prints its success line and exits with status 0. *)
Theorem dice_demo_verified :
  (∀ seed n target, 2 * n ≤ U32_MAX →
     ∃ d, demo error_debug seed n target = Done d ∧ verified d = true ∧ original_records d = 2 * n ∧
       Forall2 (λ nonce o, roll (mkRoll seed nonce target) nonce = Done o) (nonces n) (original_outcomes d)) ∧
  ∃ lines, main error_debug = Done (lines, 0).
Proof.
  assert (∀ seed n target, 2 * n ≤ U32_MAX →
     ∃ d, demo error_debug seed n target = Done d ∧ verified d = true ∧ original_records d = 2 * n ∧
       Forall2 (λ nonce o, roll (mkRoll seed nonce target) nonce = Done o) (nonces n) (original_outcomes d)) as Hall.
  { intros seed n target Hn. unfold U32_MAX in Hn.
    destruct (roll_n_refines dice_fresh seed target (N.to_nat n)) as
      (cs & k' & H1 & H2 & H3 & H4 & _ & _ & H7 & log & H8 & H9); [unfold U64_MAX; lia|done|apply dice_fresh_refines|].
    rewrite N2Nat.id in H1. destruct (paired_log k' _ log H8 H9) as (w & Hw & Hk).
    destruct (own_session_replays error_debug WORLD_ID MANIFEST_DIGEST SC_None dice_fresh cs k' w dice_fresh
      honest_none I eq_refl dice_fresh_inv H3 H2 Hw (λ reqs _, appends_ok_total _ reqs) eq_refl eq_refl eq_refl)
      as (r' & rep & evs & Hr & _ & _ & Htip & Hs1 & Hs2 & Ho & Ho').
    assert (submits_replayed rep = n) as S1 by (rewrite Hs1, Hk; unfold U32_MAX; lia).
    assert (steps_replayed rep = n) as S2 by (rewrite Hs2, Hk; unfold U32_MAX; lia).
    unfold demo. rewrite fresh_kernel_is. cbn [mbind Outcome_bind]. rewrite H1. cbn [mbind Outcome_bind].
    unfold wal_chain_tip, kernel_wal_record_count, export_wal. rewrite Hw.
    cbn [fmap option_fmap option_map expect mbind Outcome_bind]. rewrite Hr. cbn [mbind Outcome_bind].
    unfold checked_u32. rewrite S1, S2, decide_True by (unfold U32_MAX; lia). cbn [mbind Outcome_bind].
    eexists. split; [reflexivity|].
    unfold verified, chain_match, outcome_match, count_match. cbn.
    rewrite Htip, bool_decide_true by done. rewrite Ho, (Ho' H4), bool_decide_true by done.
    rewrite kinds_total, !Hk, bool_decide_true by lia. split_and!; [done|lia|].
    rewrite <- (Ho' H4), H7. cbn [observers dice_fresh]. rewrite dice_roll_log.
    pose proof (rolls_captured seed target (N.to_nat n)) as Hf. by rewrite N2Nat.id in Hf. }
  split; [exact Hall|]. unfold main. destruct (Hall (replicate 32 Byte.x5a) 5 12) as (d & -> & Hv & _); [done|].
  cbn [mbind Outcome_bind]. rewrite Hv. by eexists.
Qed.

End properties.

(** ** Witnesses *)

#[local] Instance RollAction_countable : Countable RollAction.
Proof.
  refine (inj_countable' (λ a, (roll_seed a, roll_nonce a, roll_target_sum a)) (λ '(s, n, t), mkRoll s n t) _).
  by intros [].
Defined.
#[local] Instance DiceRolled_countable : Countable DiceRolled.
Proof.
  refine (inj_countable'
    (λ o, (rolled_nonce o, rolled_dice o, rolled_sum o, rolled_target_sum o, rolled_won o, rolled_entropy_digest o))
    (λ '(n, d, s, t, w, e), mkRolled n d s t w e) _).
  by intros [].
Defined.

#[local] Instance ex_snapshot_postcard : Postcard InstanceSnapshot :=
  constant_postcard (to_snapshot (Instance_new 1 InstanceConfig_default)).
#[local] Instance ex_body_postcard : Postcard WalRecordBody := countable_postcard.
#[local] Instance ex_roll_postcard : Postcard RollAction := countable_postcard.
#[local] Instance ex_rolled_postcard : Postcard DiceRolled := countable_postcard.
#[local] Instance ex_body_total : PostcardTotal WalRecordBody := countable_postcard_total.
#[local] Instance ex_roll_total : PostcardTotal RollAction := countable_postcard_total.
#[local] Instance ex_rolled_total : PostcardTotal DiceRolled := countable_postcard_total.
#[local] Instance ex_roll_roundtrip : PostcardRoundtrip RollAction := countable_postcard_roundtrip.
#[local] Instance ex_rolled_roundtrip : PostcardRoundtrip DiceRolled := countable_postcard_roundtrip.
#[local] Instance ex_blake3 : Blake3 := tail_blake3.
#[local] Instance ex_blake3_laws : Blake3Laws := tail_blake3_laws.
#[local] Instance ex_sigs : SigSchemes := toy_sigs false.
#[local] Instance ex_sigs_laws : SigLaws := toy_sigs_laws false.

(** The constants of [RollAction] are those its derive emits. *)
Example roll_action_derives :
  derive_arkhe_action (Ok (mkInput "RollAction"
    [mkAttribute "arkhe" [mkMeta_ "type_code" (Ok 8000%Z); mkMeta_ "schema_version" (Ok 1%Z)] None] tt))
  = expanded
      [mkImpl Sealed "RollAction" tt;
       mkImpl (ActionDeriv (TYPE_CODE (A := RollAction)) (SCHEMA_VERSION (A := RollAction))) "RollAction" tt].
Proof. reflexivity. Qed.

(** The test [roll_is_deterministic_for_same_inputs] of the source, and a
    printed line. *)
Definition ex_roll : RollAction := mkRoll (replicate 32 Byte.x07) 99 10.
Example ex_rolled :
  fmt_outcome <$> (match roll ex_roll 5 with Done o => Some o | Panicked _ => None end)
  = Some "  nonce= 99 dice=[1, 1, 1] sum= 3 target>=10 won=false digest=0x0000000000000063"%string.
Proof. vm_compute. reflexivity. Qed.

Lemma roll_exact_witness :
  ∃ o d1 d2 d3, roll ex_roll 5 = Done o ∧ rolled_dice o = (d1, d2, d3) ∧ rolled_sum o = d1 + d2 + d3 ∧ rolled_won o = false.
Proof.
  destruct (proj1 (roll_exact ex_roll 5)) as (o & d1 & d2 & d3 & H1 & _ & H3 & _ & H5 & _).
  exists o, d1, d2, d3. split; [exact H1|]. split; [exact H3|]. split; [exact H5|].
  vm_compute in H1. injection H1 as <-. reflexivity.
Defined.

Lemma roll_n_exact_witness :
  ∃ k', roll_n dice_fresh 1 (replicate 32 Byte.x5a) 1025 12 = Done k' ∧ kernel_wal_record_count k' = Some 2050 ∧
    length (roll_log 0 (observers k')) = 1025%nat.
Proof.
  assert (1025 ≤ U64_MAX) as Hn by (vm_compute; discriminate).
  destruct (roll_n_exact (replicate 32 Byte.x5a) 1025 12 Hn) as (k' & i & H1 & H2 & H3 & _).
  exists k'. split; [exact H1|]. split; [exact H3|].
  rewrite <- (Forall2_length _ _ _ H2). unfold nonces. rewrite length_fmap, length_seq. reflexivity.
Defined.

(** The parameters of the test [replay_reconstructs_chain_tip_and_outcomes]. *)
Lemma dice_demo_verified_witness :
  2 * 4 ≤ U32_MAX ∧
  ∃ d, demo ArkheError_display (replicate 32 Byte.xa5) 4 11 = Done d ∧ verified d = true ∧ original_records d = 8.
Proof.
  assert (2 * 4 ≤ U32_MAX) as Hn by (vm_compute; discriminate). split; [exact Hn|].
  destruct (proj1 (dice_demo_verified ArkheError_display) (replicate 32 Byte.xa5) 4 11 Hn) as (d & H1 & H2 & H3 & _).
  exists d. split; [exact H1|]. split; [exact H2|]. exact H3.
Defined.
