(* ===== verification/Wire.v ===== *)
(** * The postcard wire format of the log

    The encoding the [postcard] crate gives the types of [persist/wal.rs]
    (its published wire format: LEB128 integers checked against their width,
    length-prefixed sequences, untagged structs and arrays, a [u32]
    discriminant for enums), as instances of the interface of [Extern]. It
    models no code of the repository; [WalTests] and [RuntimeTests] compare it
    with the bytes and digests the repository's tests pin. A value outside the
    Rust type it stands for has no encoding; [Puts] says which have one. *)
From S2P Require Import Prelude Abi Extern Authz Scheduler Wal.

Local Open Scope N_scope.

(** ** Encodings that may fail, with their decoders *)

Record Wire (A : Type) : Type := mkWire { put : A → option bytes; get : bytes → option (A * bytes) }.
Arguments mkWire {_} _ _.
Arguments put {_} _ _.
Arguments get {_} _ _.

(** A decoder reads back an encoding and leaves the rest alone. *)
Class WireOk {A} (w : Wire A) : Prop :=
  wire_ok : ∀ x b rest, put w x = Some b → get w (b ++ rest) = Some (x, rest).

(** The values of a type that have an encoding. *)
Class Puts {A} (P : A → Prop) (w : Wire A) : Prop :=
  puts : ∀ x, P x → is_Some (put w x).

Lemma puts_mono {A} (P Q : A → Prop) (w : Wire A) : Puts Q w → (∀ x, P x → Q x) → Puts P w.
Proof. intros Hw HPQ x Hx. by apply Hw, HPQ. Qed.

(** A value decodes to at most what it was: the iso of two types. *)
Definition iso_wire {A B} (w : Wire A) (f : B → A) (g : A → option B) : Wire B :=
  mkWire (λ x, put w (f x)) (λ bs, r ← get w bs; x ← g r.1; Some (x, r.2)).
Lemma iso_wire_ok {A B} (w : Wire A) (f : B → A) (g : A → option B) :
  WireOk w → (∀ x, g (f x) = Some x) → WireOk (iso_wire w f g).
Proof. intros Hw Hg x b rest Hb. cbn [put get iso_wire] in *. rewrite (Hw _ _ _ Hb). cbn. by rewrite Hg. Qed.

Lemma iso_puts {A B} (P : A → Prop) (w : Wire A) (f : B → A) (g : A → option B) :
  Puts P w → Puts (λ x, P (f x)) (iso_wire w f g).
Proof. intros Hw x Hx. by apply Hw. Qed.

Definition pair_wire {A B} (a : Wire A) (b : Wire B) : Wire (A * B) :=
  mkWire (λ x, u ← put a x.1; v ← put b x.2; Some (u ++ v))
    (λ bs, r ← get a bs; s ← get b r.2; Some ((r.1, s.1), s.2)).
#[export] Instance pair_wire_ok {A B} (a : Wire A) (b : Wire B) : WireOk a → WireOk b → WireOk (pair_wire a b).
Proof.
  intros Ha Hb [x y] bs rest (u & Hu & (v & Hv & [= <-])%bind_Some)%bind_Some. cbn [get pair_wire fst snd] in *.
  rewrite <- app_assoc, (Ha _ _ _ Hu). cbn [mbind option_bind fst snd]. by rewrite (Hb _ _ _ Hv).
Qed.

Lemma pair_puts {A B} (P : A → Prop) (Q : B → Prop) (a : Wire A) (b : Wire B) :
  Puts P a → Puts Q b → Puts (λ x, P x.1 ∧ Q x.2) (pair_wire a b).
Proof.
  intros Ha Hb x [Hx Hy]. destruct (Ha _ Hx) as [u Hu], (Hb _ Hy) as [v Hv]. exists (u ++ v).
  cbn [put pair_wire]. by rewrite Hu, Hv.
Qed.

(** ** Integers *)

Definition byte_of (n : N) : byte := default Byte.x00 (Byte.of_N n).
Lemma byte_of_to n : n < 256 → Byte.to_N (byte_of n) = n.
Proof.
  intros Hn. unfold byte_of. destruct (Byte.of_N n) as [b|] eqn:E; cbn [default].
  - by apply Byte.to_of_N.
  - apply Byte.of_N_None_iff in E. lia.
Qed.

(** At most [g] groups of seven bits, least first, all but the last marked. *)
Fixpoint leb128 (g : nat) (n : N) : bytes :=
  match g with
  | O => []
  | S g' => if decide (n < 128) then [byte_of n] else byte_of (n mod 128 + 128) :: leb128 g' (n / 128)
  end.
Fixpoint read_leb128 (g : nat) (bs : bytes) : option (N * bytes) :=
  match g, bs with
  | S g', b :: bs' =>
      if decide (Byte.to_N b < 128) then Some (Byte.to_N b, bs')
      else r ← read_leb128 g' bs'; Some (Byte.to_N b - 128 + 128 * r.1, r.2)
  | _, _ => None
  end.

Lemma read_leb128_cons g b bs :
  read_leb128 (S g) (b :: bs) =
  if decide (Byte.to_N b < 128) then Some (Byte.to_N b, bs)
  else r ← read_leb128 g bs; Some (Byte.to_N b - 128 + 128 * r.1, r.2).
Proof. done. Qed.

Lemma read_leb128_ok g n rest :
  n < 128 ^ N.of_nat (S g) → read_leb128 (S g) (leb128 (S g) n ++ rest) = Some (n, rest).
Proof.
  revert n. induction g as [|g IH]; intros n Hn; rewrite Nat2N.inj_succ, N.pow_succ_r' in Hn; cbn [leb128].
  all: destruct (decide (n < 128)) as [Hs|Hs];
    [cbn [app read_leb128]; rewrite byte_of_to by lia; by rewrite decide_True by done|].
  { cbn in Hn. lia. }
  assert (n / 128 < 128 ^ N.of_nat (S g)) as Hlt by by apply N.Div0.div_lt_upper_bound.
  pose proof (N.div_mod n 128 ltac:(lia)) as Hd. pose proof (N.mod_lt n 128 ltac:(lia)) as Hm.
  change (read_leb128 (S (S g)) ((byte_of (n mod 128 + 128) :: leb128 (S g) (n / 128)) ++ rest) = Some (n, rest)).
  revert Hlt Hd Hm. generalize (n mod 128), (n / 128). intros m q Hlt Hd Hm.
  rewrite <- app_comm_cons, read_leb128_cons, byte_of_to by lia.
  rewrite decide_False by lia. rewrite (IH _ Hlt). cbn [mbind option_bind fst snd]. do 2 f_equal. lia.
Qed.

(** A [w]-bit integer; [g] groups hold [w] bits. *)
Definition varint (g : nat) (w : N) : Wire N :=
  mkWire (λ n, if decide (n < 2 ^ w) then Some (leb128 g n) else None)
    (λ bs, r ← read_leb128 g bs; if decide (r.1 < 2 ^ w) then Some r else None).
Lemma varint_ok g w : w ≤ 7 * N.of_nat (S g) → WireOk (varint (S g) w).
Proof.
  intros Hg n b rest. cbn [put get varint]. destruct (decide (n < 2 ^ w)) as [Hn|]; [|done].
  intros Hb. assert (b = leb128 (S g) n) as -> by congruence.
  rewrite read_leb128_ok; [cbn [mbind option_bind fst]; by rewrite decide_True|].
  eapply N.lt_le_trans; [exact Hn|]. change 128 with (2 ^ 7). rewrite <- N.pow_mul_r. by apply N.pow_le_mono_r.
Qed.

Lemma varint_puts g w : Puts (λ n, n < 2 ^ w) (varint g w).
Proof. intros n Hn. exists (leb128 g n). cbn [put varint]. by rewrite decide_True. Qed.

Definition u16_wire : Wire N := varint 3 16.
Definition u32_wire : Wire N := varint 5 32.
Definition u64_wire : Wire N := varint 10 64.
Definition u128_wire : Wire N := varint 19 128.
#[global] Typeclasses Opaque varint u16_wire u32_wire u64_wire u128_wire.
#[export] Instance u16_wire_ok : WireOk u16_wire.
Proof. apply varint_ok. lia. Qed.
#[export] Instance u32_wire_ok : WireOk u32_wire.
Proof. apply varint_ok. lia. Qed.
#[export] Instance u64_wire_ok : WireOk u64_wire.
Proof. apply varint_ok. lia. Qed.

#[export] Instance u128_wire_ok : WireOk u128_wire.
Proof. apply varint_ok. lia. Qed.

Lemma u16_puts : Puts (λ n, n < 65536) u16_wire.
Proof. exact (varint_puts 3 16). Qed.
Lemma u32_puts : Puts (λ n, n ≤ U32_MAX) u32_wire.
Proof. eapply puts_mono; [apply varint_puts|]. intros n Hn. by apply N.lt_succ_r in Hn. Qed.
Lemma u64_puts : Puts (λ n, n ≤ U64_MAX) u64_wire.
Proof. eapply puts_mono; [apply varint_puts|]. intros n Hn. by apply N.lt_succ_r in Hn. Qed.
Lemma u128_puts : Puts (λ n, n ≤ U128_MAX) u128_wire.
Proof. eapply puts_mono; [apply varint_puts|]. intros n Hn. by apply N.lt_succ_r in Hn. Qed.

(** [u8] and [bool]: one byte. *)
Definition u8_wire : Wire N :=
  mkWire (λ n, if decide (n < 256) then Some [byte_of n] else None)
    (λ bs, match bs with b :: bs' => Some (Byte.to_N b, bs') | [] => None end).
#[export] Instance u8_wire_ok : WireOk u8_wire.
Proof.
  intros n b rest. cbn [put get u8_wire]. destruct (decide (n < 256)) as [Hn|]; [|done]. intros [= <-].
  cbn [app]. by rewrite byte_of_to.
Qed.
Definition bool_wire : Wire bool :=
  iso_wire u8_wire (λ b : bool, if b then 1 else 0) (λ n, match n with 0 => Some false | 1 => Some true | _ => None end).
#[export] Instance bool_wire_ok : WireOk bool_wire.
Proof. apply iso_wire_ok; [apply _|by intros []]. Qed.

(** [NonZeroU64]. *)
Definition id_wire : Wire positive :=
  iso_wire u64_wire Npos (λ n, match n with Npos p => Some p | 0 => None end).
#[export] Instance id_wire_ok : WireOk id_wire.
Proof. by apply iso_wire_ok; [apply _|]. Qed.
Lemma id_puts : Puts (λ p, Npos p ≤ U64_MAX) id_wire.
Proof. exact (iso_puts _ _ _ _ u64_puts). Qed.

(** ** Arrays, sequences, options *)

(** [[u8; n]]: the bytes. *)
Definition array_wire (n : nat) : Wire bytes :=
  mkWire (λ bs, if decide (length bs = n) then Some bs else None)
    (λ bs, if decide (length bs < n)%nat then None else Some (take n bs, drop n bs)).
#[export] Instance array_wire_ok n : WireOk (array_wire n).
Proof.
  intros x b rest. cbn [put get array_wire]. destruct (decide (length x = n)) as [<-|]; [|done]. intros [= <-].
  rewrite decide_False by (rewrite length_app; lia). by rewrite take_app_length, drop_app_length.
Qed.

(** [Vec<u8>] and [&[u8]]. *)
Definition blob_wire : Wire bytes :=
  mkWire (λ bs, l ← put u64_wire (len bs); Some (l ++ bs))
    (λ bs, r ← get u64_wire bs;
           if decide (len r.2 < r.1) then None else get (array_wire (N.to_nat r.1)) r.2).
#[export] Instance blob_wire_ok : WireOk blob_wire.
Proof.
  intros x b rest (l & Hl & [= <-])%bind_Some. cbn [get blob_wire].
  rewrite <- app_assoc, (wire_ok (w := u64_wire) _ _ _ Hl). cbn [mbind option_bind fst snd].
  rewrite decide_False by (rewrite len_app; lia). apply (wire_ok (w := array_wire _)). cbn [put array_wire]. unfold len. by rewrite Nat2N.id, decide_True.
Qed.

Lemma array_puts n : Puts (λ bs, length bs = n) (array_wire n).
Proof. intros bs Hn. exists bs. cbn [put array_wire]. by rewrite decide_True. Qed.
Lemma blob_puts : Puts (λ bs, len bs ≤ U64_MAX) blob_wire.
Proof. intros bs Hn. destruct (u64_puts _ Hn) as [l Hl]. exists (l ++ bs). cbn [put blob_wire]. by rewrite Hl. Qed.

Definition opt_wire {A} (a : Wire A) : Wire (option A) :=
  mkWire (λ o, match o with None => Some [Byte.x00] | Some x => b ← put a x; Some (Byte.x01 :: b) end)
    (λ bs, match bs with
           | Byte.x00 :: bs' => Some (None, bs')
           | Byte.x01 :: bs' => r ← get a bs'; Some (Some r.1, r.2)
           | _ => None
           end).
#[export] Instance opt_wire_ok {A} (a : Wire A) : WireOk a → WireOk (opt_wire a).
Proof.
  intros Ha [x|] b rest; cbn [put get opt_wire].
  - intros (c & Hc & [= <-])%bind_Some. cbn [app]. by rewrite (Ha _ _ _ Hc).
  - by intros [= <-].
Qed.

Lemma opt_puts {A} (P : A → Prop) (a : Wire A) :
  Puts P a → Puts (λ o, match o with Some x => P x | None => True end) (opt_wire a).
Proof.
  intros Ha [x|] Hx; [|by eexists]. destruct (Ha x Hx) as [b Hb]. exists (Byte.x01 :: b).
  cbn [put opt_wire]. by rewrite Hb.
Qed.

Fixpoint put_many {A} (a : Wire A) (l : list A) : option bytes :=
  match l with
  | [] => Some []
  | x :: l' => u ← put a x; v ← put_many a l'; Some (u ++ v)
  end.
Fixpoint get_many {A} (a : Wire A) (n : nat) (bs : bytes) : option (list A * bytes) :=
  match n with
  | O => Some ([], bs)
  | S n' => r ← get a bs; s ← get_many a n' r.2; Some (r.1 :: s.1, s.2)
  end.
Definition vec_wire {A} (a : Wire A) : Wire (list A) :=
  mkWire (λ l, n ← put u64_wire (len l); b ← put_many a l; Some (n ++ b))
    (λ bs, r ← get u64_wire bs; get_many a (N.to_nat r.1) r.2).
#[export] Instance vec_wire_ok {A} (a : Wire A) : WireOk a → WireOk (vec_wire a).
Proof.
  intros Ha l b rest (n & Hn & (c & Hc & [= <-])%bind_Some)%bind_Some. cbn [get vec_wire].
  rewrite <- app_assoc, (wire_ok (w := u64_wire) _ _ _ Hn). cbn [mbind option_bind fst snd].
  unfold len. rewrite Nat2N.id. clear Hn. revert c Hc. induction l as [|x l IH]; intros c Hc; cbn [put_many] in Hc.
  { by injection Hc as <-. }
  apply bind_Some in Hc as (u & Hu & (v & Hv & [= <-])%bind_Some). cbn [length get_many].
  rewrite <- app_assoc, (Ha _ _ _ Hu). cbn [mbind option_bind fst snd]. by rewrite (IH _ Hv).
Qed.

Lemma vec_puts {A} (P : A → Prop) (a : Wire A) :
  Puts P a → Puts (λ l, len l ≤ U64_MAX ∧ Forall P l) (vec_wire a).
Proof.
  intros Ha l [Hn Hl]. destruct (u64_puts _ Hn) as [n Hp]. cbn [put vec_wire]. rewrite Hp. cbn [mbind option_bind].
  assert (is_Some (put_many a l)) as [b Hb]; [|exists (n ++ b); by rewrite Hb].
  clear Hn Hp. induction Hl as [|x l Hx Hl [v Hv]]; [by eexists|]. destruct (Ha x Hx) as [u Hu].
  exists (u ++ v). cbn [put_many]. by rewrite Hu, Hv.
Qed.

(** ** Maps and sets: their rows in key order

    Rows are inserted as they are read, so the last row of a key stands. *)
Section containers.
Context `{BTreeKey K}.

Definition map_wire {A} (k : Wire K) (a : Wire A) : Wire (gmap K A) :=
  iso_wire (vec_wire (pair_wire k a)) btree_iter (λ l, Some (list_to_map (reverse l))).
#[export] Instance map_wire_ok {A} (k : Wire K) (a : Wire A) : WireOk k → WireOk a → WireOk (map_wire k a).
Proof.
  intros Hk Ha. apply iso_wire_ok; [apply _|]. intros m. f_equal. rewrite <- (list_to_map_to_list m) at 2.
  pose proof (btree_keys_NoDup m) as Hnd. apply list_to_map_proper.
  - by rewrite fmap_reverse, reverse_Permutation.
  - by rewrite reverse_Permutation, btree_iter_perm.
Qed.
Lemma map_puts {A} (P : K → Prop) (Q : A → Prop) (k : Wire K) (a : Wire A) :
  Puts P k → Puts Q a →
  Puts (λ m, N.of_nat (size m) ≤ U64_MAX ∧ map_Forall (λ i x, P i ∧ Q x) m) (map_wire k a).
Proof.
  intros Hk Ha. eapply puts_mono; [apply iso_puts, vec_puts, pair_puts; [exact Hk|exact Ha]|].
  intros m [Hn Hm]. split.
  - unfold len. rewrite btree_iter_perm. by rewrite length_map_to_list.
  - apply Forall_forall. intros [i x] Hi%elem_of_btree_iter. by apply Hm.
Qed.

Definition set_wire (k : Wire K) : Wire (gset K) :=
  iso_wire (vec_wire k) btree_set_iter (λ l, Some (list_to_set l)).
#[export] Instance set_wire_ok (k : Wire K) : WireOk k → WireOk (set_wire k).
Proof.
  intros Hk. apply iso_wire_ok; [apply _|]. intros s. f_equal. apply set_eq. intros x.
  by rewrite elem_of_list_to_set, elem_of_btree_set_iter.
Qed.
Lemma set_puts (P : K → Prop) (k : Wire K) :
  Puts P k → Puts (λ s, N.of_nat (size s) ≤ U64_MAX ∧ ∀ x, x ∈ s → P x) (set_wire k).
Proof.
  intros Hk. eapply puts_mono; [apply iso_puts, vec_puts; exact Hk|]. intros s [Hn Hs]. split.
  - unfold len, btree_set_iter. rewrite merge_sort_Permutation. exact Hn.
  - apply Forall_forall. intros x Hx%elem_of_btree_set_iter. by apply Hs.
Qed.
End containers.

(** ** Enums: a discriminant and a payload *)

Definition choice_wire {A B} (tag : N) (a : Wire A) (b : Wire B) : Wire (A + B) :=
  mkWire (λ x, match x with inl y => t ← put u32_wire tag; u ← put a y; Some (t ++ u) | inr y => put b y end)
    (λ bs, r ← get u32_wire bs;
           if decide (r.1 = tag) then s ← get a r.2; Some (inl s.1, s.2)
           else s ← get b bs; Some (inr s.1, s.2)).

(** The encodings of [b] start with another discriminant. *)
Definition starts_beyond {B} (tag : N) (b : Wire B) : Prop :=
  ∀ x u rest, put b x = Some u → ∃ t r, get u32_wire (u ++ rest) = Some (t, r) ∧ tag < t.

Lemma choice_wire_ok {A B} tag (a : Wire A) (b : Wire B) :
  WireOk a → WireOk b → starts_beyond tag b → WireOk (choice_wire tag a b).
Proof.
  intros Ha Hb Hs [x|x] c rest; cbn [put get choice_wire].
  - intros (t & Ht & (u & Hu & [= <-])%bind_Some)%bind_Some. rewrite <- app_assoc, (wire_ok (w := u32_wire) _ _ _ Ht).
    cbn [mbind option_bind fst snd]. rewrite decide_True by done. by rewrite (Ha _ _ _ Hu).
  - intros Hc. destruct (Hs x c rest Hc) as (t & r & -> & Hlt). cbn [mbind option_bind fst snd].
    rewrite decide_False by lia. by rewrite (Hb _ _ _ Hc).
Qed.

(** The last variant of an enum. *)
Definition last_wire {A} (tag : N) (a : Wire A) : Wire A :=
  mkWire (λ x, t ← put u32_wire tag; u ← put a x; Some (t ++ u))
    (λ bs, r ← get u32_wire bs; if decide (r.1 = tag) then get a r.2 else None).
Lemma last_wire_ok {A} tag (a : Wire A) : WireOk a → WireOk (last_wire tag a).
Proof.
  intros Ha x c rest (t & Ht & (u & Hu & [= <-])%bind_Some)%bind_Some. cbn [get last_wire].
  rewrite <- app_assoc, (wire_ok (w := u32_wire) _ _ _ Ht). cbn [mbind option_bind fst snd].
  rewrite decide_True by done. exact (Ha _ _ _ Hu).
Qed.

Lemma last_starts {A} tag tag' (a : Wire A) : tag' < tag → starts_beyond tag' (last_wire tag a).
Proof.
  intros Hlt x c rest (t & Ht & (u & Hu & [= <-])%bind_Some)%bind_Some. exists tag, (u ++ rest).
  by rewrite <- app_assoc, (wire_ok (w := u32_wire) _ _ _ Ht).
Qed.
Lemma choice_starts {A B} tag tag' (a : Wire A) (b : Wire B) :
  tag' < tag → starts_beyond tag b → starts_beyond tag' (choice_wire tag a b).
Proof.
  intros Hlt Hb [x|x] c rest; cbn [put choice_wire].
  - intros (t & Ht & (u & Hu & [= <-])%bind_Some)%bind_Some. exists tag, (u ++ rest).
    by rewrite <- app_assoc, (wire_ok (w := u32_wire) _ _ _ Ht).
  - intros Hc. destruct (Hb x c rest Hc) as (t & r & Hr & Hle). exists t, r. split; [done|lia].
Qed.

Lemma choice_puts {A B} tag (P : A → Prop) (Q : B → Prop) (a : Wire A) (b : Wire B) :
  tag ≤ U32_MAX → Puts P a → Puts Q b →
  Puts (λ x, match x with inl y => P y | inr y => Q y end) (choice_wire tag a b).
Proof.
  intros Ht Ha Hb [x|x] Hx; cbn [put choice_wire]; [|by apply Hb].
  destruct (u32_puts _ Ht) as [t ->], (Ha x Hx) as [u ->]. by eexists.
Qed.
Lemma last_puts {A} tag (P : A → Prop) (a : Wire A) : tag ≤ U32_MAX → Puts P a → Puts P (last_wire tag a).
Proof.
  intros Ht Ha x Hx. cbn [put last_wire]. destruct (u32_puts _ Ht) as [t ->], (Ha x Hx) as [u ->]. by eexists.
Qed.

Definition unit_wire : Wire unit := mkWire (λ _, Some []) (λ bs, Some (tt, bs)).
#[export] Instance unit_wire_ok : WireOk unit_wire.
Proof. by intros [] b rest [= <-]. Qed.

Lemma unit_puts : Puts (λ _, True) unit_wire.
Proof. by eexists. Qed.

#[global] Typeclasses Opaque u8_wire bool_wire id_wire array_wire blob_wire opt_wire vec_wire pair_wire iso_wire
  map_wire set_wire choice_wire last_wire unit_wire.

Create HintDb wire discriminated.
#[export] Hint Resolve choice_wire_ok last_wire_ok choice_starts last_starts : wire.
#[export] Hint Extern 1 (_ < _) => lia : wire.
#[export] Hint Extern 2 (WireOk _) => apply _ : wire.

(** The values a composite encodes, by the composite's structure. *)
Create HintDb puts discriminated.
#[export] Hint Constants Opaque : puts.
#[export] Hint Resolve u16_puts u32_puts u64_puts u128_puts array_puts blob_puts unit_puts id_puts iso_puts pair_puts opt_puts vec_puts
  map_puts set_puts choice_puts last_puts : puts.
#[export] Hint Extern 1 (_ ≤ U32_MAX) => (vm_compute; congruence) : puts.
Ltac puts_by w := eapply puts_mono; [unfold w; solve [eauto 20 with puts nocore]|].

(** ** The types of the log *)

#[local] Notation "a ** b" := (pair_wire a b) (at level 40, left associativity).

Definition principal_wire : Wire Principal :=
  iso_wire (choice_wire 0 unit_wire (choice_wire 1 u64_wire (last_wire 2 unit_wire)))
    (λ p, match p with Unauthenticated => inl tt | External e => inr (inl e) | System => inr (inr tt) end)
    (λ x, Some match x with inl _ => Unauthenticated | inr (inl e) => External e | inr (inr _) => System end).
#[export] Instance principal_wire_ok : WireOk principal_wire.
Proof. apply iso_wire_ok; [auto 10 with wire|by intros []]. Qed.

Definition skip_wire : Wire SkipReason :=
  iso_wire (choice_wire 0 unit_wire (last_wire 1 unit_wire))
    (λ r, match r with Unregistered => inl tt | DeserFailed => inr tt end)
    (λ x, Some match x with inl _ => Unregistered | inr _ => DeserFailed end).
#[export] Instance skip_wire_ok : WireOk skip_wire.
Proof. apply iso_wire_ok; [auto 10 with wire|by intros []]. Qed.

Definition verdict_wire : Wire StepVerdict :=
  iso_wire (choice_wire 0 unit_wire (choice_wire 1 unit_wire (choice_wire 2 u32_wire (last_wire 3 skip_wire))))
    (λ v, match v with
          | Committed => inl tt | AuthDenied => inr (inl tt)
          | BudgetPartial n => inr (inr (inl n)) | Skipped r => inr (inr (inr r))
          end)
    (λ x, Some match x with
               | inl _ => Committed | inr (inl _) => AuthDenied
               | inr (inr (inl n)) => BudgetPartial n | inr (inr (inr r)) => Skipped r
               end).
#[export] Instance verdict_wire_ok : WireOk verdict_wire.
Proof. apply iso_wire_ok; [auto 10 with wire|by intros []]. Qed.

(** The content and the borrowed body content have one encoding. *)
Definition content_wire : Wire WalRecordContent :=
  iso_wire
    (choice_wire 0
       (u64_wire ** id_wire ** principal_wire ** opt_wire id_wire ** u64_wire ** u64_wire ** u32_wire ** blob_wire
        ** id_wire)
       (last_wire 1
          (u64_wire ** id_wire ** id_wire ** u64_wire ** u64_wire ** verdict_wire ** array_wire 32)))
    (λ c, match c with
          | CSubmit s i p a cs t tc bs id => inl (s, i, p, a, cs, t, tc, bs, id)
          | CStep s i id t cs v d => inr (s, i, id, t, cs, v, d)
          end)
    (λ x, Some match x with
               | inl (s, i, p, a, cs, t, tc, bs, id) => CSubmit s i p a cs t tc bs id
               | inr (s, i, id, t, cs, v, d) => CStep s i id t cs v d
               end).
#[export] Instance content_wire_ok : WireOk content_wire.
Proof. apply iso_wire_ok; [auto 10 with wire|by intros []]. Qed.

Definition body_wire : Wire WalRecordBody :=
  iso_wire (content_wire ** array_wire 32)
    (λ b, (match body_content b with
           | BSubmit s i p a cs t tc bs id => CSubmit s i p a cs t tc bs id
           | BStep s i id t cs v d => CStep s i id t cs v d
           end, body_prev b))
    (λ x, Some (from_content x.1 x.2)).
#[export] Instance body_wire_ok : WireOk body_wire.
Proof. apply iso_wire_ok; [apply _|by intros [[]]]. Qed.

Definition record_wire : Wire WalRecord :=
  iso_wire (content_wire ** array_wire 32 ** array_wire 32 ** opt_wire blob_wire ** opt_wire blob_wire)
    (λ r, (content r, prev_chain_hash r, this_chain_hash r, signature r, signature_pqc r))
    (λ '(c, p, t, s, q), Some (mkRecord c p t s q)).
#[export] Instance record_wire_ok : WireOk record_wire.
Proof. apply iso_wire_ok; [apply _|by intros []]. Qed.

Definition pin_wire : Wire TypeRegistryPin :=
  iso_wire (u32_wire ** array_wire 32) (λ p, (pin_type_code p, pin_schema_hash p)) (λ x, Some (mkPin x.1 x.2)).
#[export] Instance pin_wire_ok : WireOk pin_wire.
Proof. apply iso_wire_ok; [apply _|by intros []]. Qed.

Definition header_wire : Wire WalHeader :=
  iso_wire (array_wire 8 ** (u16_wire ** u16_wire ** u16_wire) ** u32_wire ** u32_wire ** blob_wire ** array_wire 32
            ** (u16_wire ** u16_wire) ** array_wire 32 ** vec_wire pin_wire ** opt_wire (array_wire 32)
            ** opt_wire blob_wire)
    (λ h, (magic h, kernel_semver h, postcard_version h, blake3_version h, domain_separation_context h, world_id h,
           abi_version h, header_manifest_digest h, type_registry_pins h, header_verifying_key h,
           header_verifying_key_pqc h))
    (λ '(m, k, p, b, d, w, a, md, t, v, q), Some (mkHeader m k p b d w a md t v q)).
#[export] Instance header_wire_ok : WireOk header_wire.
Proof. apply iso_wire_ok; [apply _|by intros []]. Qed.

Definition wal_wire : Wire Wal :=
  iso_wire (header_wire ** vec_wire record_wire) (λ w, (header w, records w)) (λ x, Some (mkWal x.1 x.2)).
#[export] Instance wal_wire_ok : WireOk wal_wire.
Proof. apply iso_wire_ok; [apply _|by intros []]. Qed.

(** ** As codecs

    [postcard::from_bytes] ignores bytes that are left over. *)
Definition wire_postcard {A} (w : Wire A) : Postcard A := {|
  to_allocvec := λ x, match put w x with Some b => Ok b | None => Err "value out of range"%string end;
  from_bytes := λ bs, match get w bs with Some (x, _) => Ok x | None => Err "malformed"%string end
|}.
Lemma wire_postcard_roundtrip {A} (w : Wire A) : WireOk w → @PostcardRoundtrip A (wire_postcard w).
Proof.
  intros Hw x b. cbn. destruct (put w x) as [c|] eqn:E; [|done]. intros [= <-].
  pose proof (Hw x c [] E) as H. rewrite app_nil_r in H. by rewrite H.
Qed.
