(* ===== verification/WireState.v ===== *)
(** * The postcard wire format of snapshots

    The encoding of [Wire], extended to the types [state/] and
    [persist/snapshot.rs] derive [Serialize] and [Deserialize] for, each field
    at its Rust width and in its declared order, and the values that have an
    encoding: those of the machine widths of [Widths] whose collections are no
    longer than a 64-bit length. From that, what the formats promise a
    session: no state digest is the zero fallback, every snapshot serializes,
    and a digest commits to the state. *)
From S2P Require Import Prelude Abi Quota Extern Blake3 Authz Ledger Scheduler Instance Event.
From S2P Require Import Observer Stage Dispatch Apply Signature Wal Registry Step Kernel Widths Codec Snapshot Wire.

Local Open Scope N_scope.

#[local] Notation "a ** b" := (pair_wire a b) (at level 40, left associativity).

(** ** Formats *)

Definition key_wire : Wire SchedKey :=
  iso_wire (u64_wire ** u64_wire ** id_wire) (λ k, (key_at k, key_seq k, key_id k))
    (λ '(t, s, i), Some (mkSchedKey t s i)).
#[export] Instance key_wire_ok : WireOk key_wire.
Proof. apply iso_wire_ok; [apply _|by intros []]. Qed.

Definition entry_wire : Wire ScheduledEntry :=
  iso_wire (id_wire ** u64_wire ** opt_wire id_wire ** principal_wire ** u32_wire ** blob_wire ** u64_wire)
    (λ e, (se_id e, se_at e, se_actor e, se_principal e, se_type_code e, se_bytes e, se_caps_ceiling e))
    (λ '(i, t, a, p, tc, bs, c), Some (mkEntry i t a p tc bs c)).
#[export] Instance entry_wire_ok : WireOk entry_wire.
Proof. apply iso_wire_ok; [apply _|by intros []]. Qed.

Definition scheduler_wire : Wire Scheduler :=
  iso_wire (map_wire key_wire entry_wire ** map_wire id_wire key_wire ** map_wire id_wire (set_wire id_wire)
            ** u64_wire ** u64_wire)
    (λ s, (ready s, by_id s, by_actor s, next_seq s, next_id s)) (λ '(r, i, a, q, n), Some (mkScheduler r i a q n)).
#[export] Instance scheduler_wire_ok : WireOk scheduler_wire.
Proof. apply iso_wire_ok; [apply _|by intros []]. Qed.

Definition ledger_wire : Wire ResourceLedger :=
  iso_wire (set_wire id_wire ** map_wire (id_wire ** u32_wire) u64_wire ** u64_wire)
    (λ l, (led_entities l, component_sizes l, total_bytes l)) (λ '(e, c, t), Some (mkLedger e c t)).
#[export] Instance ledger_wire_ok : WireOk ledger_wire.
Proof. apply iso_wire_ok; [apply _|by intros []]. Qed.

Definition policy_wire : Wire QuotaReductionPolicy :=
  iso_wire (choice_wire 0 unit_wire (choice_wire 1 unit_wire (last_wire 2 unit_wire)))
    (λ p, match p with Reject => inl tt | GrandfatherExisting => inr (inl tt) | ThrottleProportional => inr (inr tt) end)
    (λ x, Some match x with inl _ => Reject | inr (inl _) => GrandfatherExisting | inr (inr _) => ThrottleProportional end).
#[export] Instance policy_wire_ok : WireOk policy_wire.
Proof. apply iso_wire_ok; [auto 10 with wire|by intros []]. Qed.

Definition config_wire : Wire InstanceConfig :=
  iso_wire (u64_wire ** u32_wire ** u32_wire ** u32_wire ** u64_wire ** opt_wire id_wire ** policy_wire)
    (λ c, (default_caps c, max_entities c, max_scheduled c, max_inbox_per_route c, memory_budget_bytes c, parent c,
           quota_reduction c))
    (λ '(d, e, s, i, m, p, q), Some (mkConfig d e s i m p q)).
#[export] Instance config_wire_ok : WireOk config_wire.
Proof. apply iso_wire_ok; [apply _|by intros []]. Qed.

Definition meta_wire : Wire EntityMeta :=
  iso_wire (principal_wire ** u64_wire) (λ m, (owner m, created m)) (λ x, Some (mkMeta x.1 x.2)).
#[export] Instance meta_wire_ok : WireOk meta_wire.
Proof. apply iso_wire_ok; [apply _|by intros []]. Qed.

Definition inbound_wire : Wire InboundSignal :=
  iso_wire (id_wire ** principal_wire ** blob_wire ** u64_wire)
    (λ s, (sig_from s, sig_principal s, sig_payload s, sig_seq s)) (λ '(f, p, b, n), Some (mkSignal f p b n)).
#[export] Instance inbound_wire_ok : WireOk inbound_wire.
Proof. apply iso_wire_ok; [apply _|by intros []]. Qed.

Definition counters_wire : Wire IdCounters :=
  iso_wire (u64_wire ** u64_wire ** u64_wire) (λ c, (next_entity c, next_scheduled c, next_source_seq c))
    (λ '(a, b, c), Some (mkCounters a b c)).
#[export] Instance counters_wire_ok : WireOk counters_wire.
Proof. apply iso_wire_ok; [apply _|by intros []]. Qed.

Definition instance_wire : Wire InstanceSnapshot :=
  iso_wire (id_wire ** config_wire ** map_wire id_wire meta_wire ** map_wire (id_wire ** u32_wire) blob_wire
            ** scheduler_wire ** counters_wire ** ledger_wire ** map_wire u32_wire u32_wire
            ** map_wire u32_wire (vec_wire inbound_wire) ** u64_wire ** u128_wire ** u64_wire)
    (λ s, (snap_id s, snap_config s, snap_entities s, snap_components s, snap_scheduler s, snap_id_counters s,
           snap_ledger s, snap_inflight_refs s, snap_signal_inbox s, snap_inbox_seq s, snap_wall_remainder s,
           snap_local_tick s))
    (λ '(a, b, c, d, e, f, g, h, i, j, k, l), Some (mkSnapshot a b c d e f g h i j k l)).
#[export] Instance instance_wire_ok : WireOk instance_wire.
Proof. apply iso_wire_ok; [apply _|by intros []]. Qed.

Definition kernel_wire : Wire KernelSnapshot :=
  iso_wire (map_wire id_wire instance_wire ** u64_wire) (λ s, (ks_instances s, ks_next_instance_id s))
    (λ x, Some (mkKernelSnapshot x.1 x.2)).
#[export] Instance kernel_wire_ok : WireOk kernel_wire.
Proof. apply iso_wire_ok; [apply _|by intros []]. Qed.

(** ** Lengths: what fits in memory *)

Definition fits {A} (l : list A) : Prop := len l ≤ U64_MAX.

(** A map of at most [2^64 - 1] rows whose values fit. *)
Definition fits_map `{Countable K} {A} (P : A → Prop) (m : gmap K A) : Prop :=
  N.of_nat (size m) ≤ U64_MAX ∧ map_Forall (λ _ x, P x) m.
Definition fits_set `{Countable K} (s : gset K) : Prop := N.of_nat (size s) ≤ U64_MAX.
Definition any {A} (_ : A) : Prop := True.

Definition Scheduler_fits (s : Scheduler) : Prop :=
  fits_map (λ e, fits (se_bytes e)) (ready s) ∧ fits_map any (by_id s) ∧ fits_map fits_set (by_actor s).
Definition Instance_fits (s : InstanceSnapshot) : Prop :=
  fits_map any (snap_entities s) ∧ fits_map fits (snap_components s) ∧ Scheduler_fits (snap_scheduler s) ∧
  fits_set (led_entities (snap_ledger s)) ∧ fits_map any (component_sizes (snap_ledger s)) ∧
  fits_map any (snap_inflight_refs s) ∧
  fits_map (λ l, fits l ∧ Forall (λ x, fits (sig_payload x)) l) (snap_signal_inbox s).

#[global] Instance fits_dec {A} (l : list A) : Decision (fits l).
Proof. unfold fits. apply _. Defined.
#[global] Instance fits_set_dec `{Countable K} (s : gset K) : Decision (fits_set s).
Proof. unfold fits_set. apply _. Defined.
#[global] Instance any_dec {A} (x : A) : Decision (any x).
Proof. left. exact I. Defined.
#[global] Instance fits_map_dec `{Countable K} {A} (P : A → Prop) `{∀ x, Decision (P x)} (m : gmap K A) :
  Decision (fits_map P m).
Proof. unfold fits_map. apply _. Defined.
#[global] Instance Instance_fits_dec s : Decision (Instance_fits s).
Proof. unfold Instance_fits, Scheduler_fits. apply _. Defined.

(** ** Values of the machine widths that fit are encoded *)

Lemma typed_fits `{Countable K} {A} (key : K → Prop) (val P : A → Prop) (m : gmap K A) :
  typed_map key val m → fits_map P m →
  N.of_nat (size m) ≤ U64_MAX ∧ map_Forall (λ k a, key k ∧ val a ∧ P a) m.
Proof. intros Ht [Hn Hf]. split; [done|]. intros k a Hk. destruct (Ht k a Hk). specialize (Hf k a Hk). tauto. Qed.

Lemma principal_puts : Puts typed principal_wire.
Proof. puts_by principal_wire. by intros []. Qed.
#[export] Hint Resolve principal_puts : puts.
Lemma policy_puts : Puts any policy_wire.
Proof. puts_by policy_wire. by intros []. Qed.
#[export] Hint Resolve policy_puts : puts.
Lemma key_puts : Puts typed key_wire.
Proof. puts_by key_wire. intros [] (? & ? & ?). cbn in *. tauto. Qed.
#[export] Hint Resolve key_puts : puts.
Lemma entry_puts : Puts (λ e, typed e ∧ fits (se_bytes e)) entry_wire.
Proof. puts_by entry_wire. intros [] [(? & ? & ? & ? & ? & ?) ?]. cbn in *. tauto. Qed.
#[export] Hint Resolve entry_puts : puts.
Lemma scheduler_puts : Puts (λ s, typed s ∧ Scheduler_fits s) scheduler_wire.
Proof.
  puts_by scheduler_wire. intros s [[T1 T2 T3 T4 T5] (F1 & F2 & F3)]. cbn [fst snd]. split_and!; try done.
  - exact (proj1 F1).
  - exact (proj2 (typed_fits _ _ _ _ T1 F1)).
  - exact (proj1 F2).
  - exact (proj1 F3).
  - intros k a Hk. destruct (proj2 (typed_fits _ _ _ _ T3 F3) k a Hk) as (H1 & H2 & H3). by split_and!.
Qed.
#[export] Hint Resolve scheduler_puts : puts.
Lemma meta_puts : Puts typed meta_wire.
Proof. puts_by meta_wire. by intros []. Qed.
#[export] Hint Resolve meta_puts : puts.
Lemma inbound_puts : Puts (λ s, typed s ∧ fits (sig_payload s)) inbound_wire.
Proof. puts_by inbound_wire. intros [] [(? & ? & ?) ?]. cbn in *. tauto. Qed.
#[export] Hint Resolve inbound_puts : puts.
Lemma counters_puts : Puts typed counters_wire.
Proof. puts_by counters_wire. intros [] (? & ? & ?). cbn in *. tauto. Qed.
#[export] Hint Resolve counters_puts : puts.
Lemma config_puts : Puts typed config_wire.
Proof. puts_by config_wire. intros [] (? & ? & ? & ? & ? & ?). cbn in *. unfold any. tauto. Qed.
#[export] Hint Resolve config_puts : puts.
Lemma ledger_puts :
  Puts (λ l, typed l ∧ fits_set (led_entities l) ∧ fits_map any (component_sizes l)) ledger_wire.
Proof.
  puts_by ledger_wire. intros l [[T1 T2 T3] [F1 F2]]. cbn [fst snd]. split_and!; try done. exact (proj1 F2).
Qed.
#[export] Hint Resolve ledger_puts : puts.

(** A snapshot of an instance. *)
#[global] Instance Snapshot_typed : Typed InstanceSnapshot := λ s, typed (from_snapshot s).

Lemma instance_puts : Puts (λ s, typed s ∧ Instance_fits s) instance_wire.
Proof.
  puts_by instance_wire. intros s [[T1 T2 T3 T4 T5 T6 T7 T8 T9 T10 T11 T12] (F1 & F2 & F3 & F4 & F5 & F6 & F7)].
  cbn [fst snd from_snapshot inst_id config entities components scheduler id_counters ledger inflight_refs signal_inbox
    inbox_seq wall_remainder local_tick] in *.
  split_and!; try done; try exact (proj1 F1); try exact (proj1 F2); try exact (proj1 F6); try exact (proj1 F7).
  - intros k a Hk. destruct (T4 k a Hk) as [H1 _]. split; [exact H1|]. exact (proj2 F2 k a Hk).
  - intros k l Hk. destruct (T9 k l Hk) as [H1 H2]. destruct (proj2 F7 k l Hk) as [H3 H4]. split_and!; [done|done|].
    apply Forall_and. split; [exact H2|exact H4].
Qed.
#[export] Hint Resolve instance_puts : puts.

Definition Kernel_fits (s : KernelSnapshot) : Prop := fits_map Instance_fits (ks_instances s).
Lemma kernel_puts :
  Puts (λ s, typed_map typed typed (ks_instances s) ∧ is_u64 (ks_next_instance_id s) ∧ Kernel_fits s) kernel_wire.
Proof.
  puts_by kernel_wire. intros s (T1 & T2 & F). cbn [fst snd]. split; [|exact T2]. exact (typed_fits _ _ _ _ T1 F).
Qed.

(** ** As codecs *)

(** The values a snapshot of the program can hold. *)
Definition storable (s : InstanceSnapshot) : Prop := typed s ∧ Instance_fits s.
Definition storable_kernel (s : KernelSnapshot) : Prop :=
  typed_map typed typed (ks_instances s) ∧ is_u64 (ks_next_instance_id s) ∧ Kernel_fits s.

Lemma wire_postcard_encodes {A} (P : A → Prop) (w : Wire A) : Puts P w → @PostcardEncodes A (wire_postcard w) P.
Proof. intros Hw x Hx. destruct (Hw x Hx) as [b Hb]. exists b. cbn. by rewrite Hb. Qed.

#[export] Instance wire_snapshot_postcard : Postcard InstanceSnapshot := wire_postcard instance_wire.
#[export] Instance wire_kernel_postcard : Postcard KernelSnapshot := wire_postcard kernel_wire.
#[export] Instance wire_snapshot_roundtrip : PostcardRoundtrip InstanceSnapshot :=
  wire_postcard_roundtrip instance_wire _.
#[export] Instance wire_kernel_roundtrip : PostcardRoundtrip KernelSnapshot := wire_postcard_roundtrip kernel_wire _.
#[export] Instance wire_snapshot_encodes : PostcardEncodes InstanceSnapshot storable :=
  wire_postcard_encodes _ _ instance_puts.
#[export] Instance wire_kernel_encodes : PostcardEncodes KernelSnapshot storable_kernel :=
  wire_postcard_encodes _ _ kernel_puts.

(** ** Sessions

    Against the interface: a codec that inverts, and encodes the values of the
    Rust types that fit in memory. *)
Section properties.
Context {PS : Postcard InstanceSnapshot} {PB : Postcard WalRecordBody} {PK : Postcard KernelSnapshot}.
Context {RS : PostcardRoundtrip InstanceSnapshot} {ES : PostcardEncodes InstanceSnapshot storable}.
Context {RK : PostcardRoundtrip KernelSnapshot} {EK : PostcardEncodes KernelSnapshot storable_kernel}.
Context {B3 : Blake3} {SS : SigSchemes}.

Lemma to_snapshot_storable i : typed i → Instance_fits (to_snapshot i) → storable (to_snapshot i).
Proof. intros Hi Hf. split; [|exact Hf]. unfold typed, Snapshot_typed. by rewrite from_to_snapshot. Qed.

Lemma snapshot_storable k : typed k → Kernel_fits (snapshot k) → storable_kernel (snapshot k).
Proof.
  intros [K1 _ K3 _ _] Hf. split_and!; [|exact K3|exact Hf]. intros id s (i & <- & Hi)%lookup_fmap_Some.
  destruct (K1 id i Hi) as [H1 H2]. split; [exact H1|]. unfold typed, Snapshot_typed. by rewrite from_to_snapshot.
Qed.

(** The digest of a state that fits is the hash of its encoding. *)
Lemma state_digest_hash i :
  typed i → Instance_fits (to_snapshot i) →
  ∃ bs, to_allocvec (to_snapshot i) = Ok bs ∧ state_digest i = blake3_hash bs.
Proof.
  intros Hi Hf. destruct (postcard_encodes _ (to_snapshot_storable i Hi Hf)) as [bs Hbs]. exists bs.
  split; [exact Hbs|]. unfold state_digest. by rewrite Hbs.
Qed.

(** C25: states on the wire. After any session of calls within the machine
    widths, the state digest of every instance that fits in memory is the hash
    of its encoding, never the zero fallback, the encoding reads back as the
    instance, and any other instance with that digest is the same instance or
    its encoding is a second preimage of the digest; the kernel's snapshot
    serializes, and is read back below counter saturation. *)
Theorem session_states_encode k cs :
  kernel_inv false k → computes_typed (action_registry k) → typed k → typed cs →
  ∃ k', run_calls k cs = Done k' ∧
    (∀ id i, instances k' !! id = Some i → Instance_fits (to_snapshot i) →
       ∃ bs, to_allocvec (to_snapshot i) = Ok bs ∧ from_bytes bs = Ok (to_snapshot i) ∧
         state_digest i = blake3_hash bs ∧
         ∀ j, typed j → Instance_fits (to_snapshot j) → state_digest j = state_digest i →
           j = i ∨ ∃ bs', to_allocvec (to_snapshot j) = Ok bs' ∧ bs' ≠ bs ∧ blake3_hash bs' = blake3_hash bs) ∧
    (Kernel_fits (snapshot k') → ∃ bs, snapshot_serialize (snapshot k') = Ok bs ∧
       (unsaturated k' → snapshot_deserialize bs = Ok (snapshot k'))).
Proof.
  intros Hinv Hr Hk Hcs. destruct (run_calls_inv false k cs Hinv) as (k' & Hrun & Hinv' & _); [done|].
  destruct (run_calls_typed k cs k' Hr Hk Hcs Hrun) as [Hk' _]. exists k'. split_and!; [exact Hrun| |].
  - intros id i Hi Hf. destruct (tw_instances k' Hk' id i Hi) as [_ Ht].
    destruct (state_digest_hash i Ht Hf) as (bs & Hbs & Hd). exists bs. split_and!; [done|by apply postcard_roundtrip|done|].
    intros j Htj Hfj Hj. destruct (state_digest_hash j Htj Hfj) as (bs' & Hbs' & Hd').
    destruct (decide (bs' = bs)) as [->|Hne]; [left|right; exists bs'; split_and!; [done|done|congruence]].
    apply postcard_roundtrip in Hbs, Hbs'. rewrite <- (from_to_snapshot i), <- (from_to_snapshot j). congruence.
  - intros Hf. destruct (postcard_encodes _ (snapshot_storable k' Hk' Hf)) as [bs Hbs]. exists bs.
    assert (snapshot_serialize (snapshot k') = Ok bs) as Hs by (by apply map_err_Ok). split; [exact Hs|].
    intros Hu. by apply snapshot_decodes.
Qed.
End properties.

(** ** Witness: the wire format and BLAKE3 themselves *)

#[local] Instance ex_body_postcard : Postcard WalRecordBody := wire_postcard body_wire.
#[local] Instance ex_blake3 : Blake3 := standard_blake3.
#[local] Instance ex_sigs : SigSchemes := toy_sigs false.

Definition wire_ops : list Op :=
  [SpawnEntity 1 System; SetComponent 1 7 [Byte.xcd; Byte.xcd] 2; ScheduleAction 9 (Some 1%positive) 1 [];
   SendSignal 1 3 [Byte.x01]].
Definition wire_kernel : Kernel :=
  mkKernel _ ∅ (script_registry wire_ops) ObserverRegistry_new 0 zero32 None StepStage_default.
Definition wire_session : list KernelCall :=
  [CallCreate (mkConfig 15 8 8 8 100 None Reject); CallSubmit 1 System None U64_MAX 0 1 []; CallStep 1 U64_MAX].

(** The instance the session leaves: an entity, its component, a scheduled
    entry, a delivered signal. *)
Definition wire_end : option Instance_ :=
  match run_calls wire_kernel wire_session with Done k => instances k !! 1%positive | Panicked _ => None end.

Lemma wire_end_fits i : wire_end = Some i → Instance_fits (to_snapshot i).
Proof.
  assert (match wire_end with Some j => bool_decide (Instance_fits (to_snapshot j)) | None => false end = true) as Hf
    by (vm_compute; reflexivity).
  intros Hi. rewrite Hi in Hf. by apply bool_decide_eq_true in Hf.
Qed.

Lemma session_states_encode_witness :
  components_len <$> wire_end = Some 1 ∧ ∃ i bs, wire_end = Some i ∧ state_digest i = blake3_hash bs ∧
    from_bytes bs = Ok (to_snapshot i).
Proof.
  split; [vm_compute; reflexivity|]. assert (typed wire_ops) as Hops by (repeat constructor; solve_width).
  assert (kernel_inv false wire_kernel) as Hinv by (split; [apply map_Forall_empty|apply script_registry_total]).
  assert (typed wire_session) as Hcs by (repeat constructor; solve_width).
  assert (typed wire_kernel) as Hk by (destruct (fresh_typed zero32 zero32 SC_None) as ([] & _); split; assumption).
  destruct (session_states_encode wire_kernel wire_session Hinv (script_registry_typed _ Hops) Hk Hcs)
    as (k' & Hrun & Hstates & _).
  assert (wire_end = instances k' !! 1%positive) as He by (unfold wire_end; by rewrite Hrun).
  destruct wire_end as [i|] eqn:Hi; [|by vm_compute in Hi].
  destruct (Hstates 1%positive i (eq_sym He) (wire_end_fits i Hi)) as (bs & _ & Hd & Hh & _).
  exists i, bs. split; [reflexivity|]. split; [exact Hh|exact Hd].
Defined.
