(* ===== verification/Durable.v ===== *)
(** * Durable logs: sessions whose log survives export

    What [Replay] proves of a session's log, carried through to bytes. Instead
    of a codec that encodes every value, the formats are asked to encode the
    values of the Rust types that fit in memory ([storable_body],
    [storable_wal], which the format of [Wire] does): a session within the
    machine widths then loses no record, its log serializes and reads back,
    and replaying what was read back reproduces the session. *)
From S2P Require Import Prelude Abi Quota Extern Blake3 Authz Ledger Scheduler Instance Event.
From S2P Require Import Observer Stage Dispatch Apply Signature Wal Registry Step Kernel Widths Codec Snapshot.
From S2P Require Import Replay Wire WireState.

Local Open Scope N_scope.

(** ** The values a log can hold *)

Definition is_array (n : nat) (bs : bytes) : Prop := length bs = n.
Definition on_some {A} (P : A → Prop) (o : option A) : Prop := match o with Some x => P x | None => True end.

Definition content_fits (c : WalRecordContent) : Prop :=
  match c with
  | CSubmit _ _ _ _ _ _ _ action_bytes _ => fits action_bytes
  | CStep _ _ _ _ _ _ post_state_digest => is_array 32 post_state_digest
  end.
Definition storable_content (c : WalRecordContent) : Prop := typed c ∧ content_fits c.

Definition content_of (b : WalRecordBodyContent) : WalRecordContent :=
  match b with
  | BSubmit s i p a cs t tc bs id => CSubmit s i p a cs t tc bs id
  | BStep s i id t cs v d => CStep s i id t cs v d
  end.
Definition storable_body (b : WalRecordBody) : Prop :=
  storable_content (content_of (body_content b)) ∧ is_array 32 (body_prev b).

Definition storable_record (r : WalRecord) : Prop :=
  storable_content (content r) ∧ is_array 32 (prev_chain_hash r) ∧ is_array 32 (this_chain_hash r) ∧
  on_some fits (signature r) ∧ on_some fits (signature_pqc r).

Definition is_u16 (n : N) : Prop := n < 65536.
Definition is_version (v : N * N * N) : Prop := (is_u16 v.1.1 ∧ is_u16 v.1.2) ∧ is_u16 v.2.
Definition storable_header (h : WalHeader) : Prop :=
  is_array 8 (magic h) ∧ is_version (kernel_semver h) ∧ is_u32 (postcard_version h) ∧ is_u32 (blake3_version h) ∧
  fits (domain_separation_context h) ∧ is_array 32 (world_id h) ∧
  (is_u16 (abi_version h).1 ∧ is_u16 (abi_version h).2) ∧ is_array 32 (header_manifest_digest h) ∧
  (fits (type_registry_pins h) ∧
   Forall (λ p, is_u32 (pin_type_code p) ∧ is_array 32 (pin_schema_hash p)) (type_registry_pins h)) ∧
  on_some (is_array 32) (header_verifying_key h) ∧ on_some fits (header_verifying_key_pqc h).
Definition storable_wal (w : Wal) : Prop :=
  storable_header (header w) ∧ fits (records w) ∧ Forall storable_record (records w).

(** ** They have an encoding *)

Lemma skip_puts : Puts any skip_wire.
Proof. puts_by skip_wire. by intros []. Qed.
#[export] Hint Resolve skip_puts : puts.
Lemma verdict_puts : Puts typed verdict_wire.
Proof. puts_by verdict_wire. intros [| |n|r] Hv; unfold any; done. Qed.
#[export] Hint Resolve verdict_puts : puts.
Lemma content_puts : Puts storable_content content_wire.
Proof. puts_by content_wire. intros [] [Ht Hf]; cbn in *; tauto. Qed.
#[export] Hint Resolve content_puts : puts.
Lemma body_puts : Puts storable_body body_wire.
Proof. puts_by body_wire. intros [[] p] [Hc Hp]; exact (conj Hc Hp). Qed.
Lemma record_puts : Puts storable_record record_wire.
Proof. puts_by record_wire. intros r (H1 & H2 & H3 & H4 & H5). cbn [fst snd]. tauto. Qed.
#[export] Hint Resolve record_puts : puts.
Lemma pin_puts : Puts (λ p, is_u32 (pin_type_code p) ∧ is_array 32 (pin_schema_hash p)) pin_wire.
Proof. puts_by pin_wire. intros p Hp. exact Hp. Qed.
#[export] Hint Resolve pin_puts : puts.
Lemma header_puts : Puts storable_header header_wire.
Proof.
  puts_by header_wire. intros h (H1 & H2 & H3 & H4 & H5 & H6 & H7 & H8 & H9 & H10 & H11). cbn [fst snd].
  unfold is_version in H2. tauto.
Qed.
#[export] Hint Resolve header_puts : puts.
Lemma wal_puts : Puts storable_wal wal_wire.
Proof. puts_by wal_wire. intros w Hw. exact Hw. Qed.

(** ** A writer that loses nothing *)

Section durable.
Context {PS : Postcard InstanceSnapshot} {PB : Postcard WalRecordBody}.
Context {EB : PostcardEncodes WalRecordBody storable_body}.
Context {B3 : Blake3} {BL : Blake3Laws} {SS : SigSchemes} {SL : SigLaws}.

Record writer_good (w : WalWriter) : Prop := {
  wg_seq : w_next_seq w = N.min (len (w_records w)) U64_MAX;
  wg_prev : is_array 32 (w_prev_hash w);
  wg_header : storable_header (w_header w);
  wg_records : Forall storable_record (w_records w);
  wg_class : honest (w_sig_class w)
}.

(** The signatures of an honest class have fixed lengths. *)
Lemma signatures_fit c b sg sp :
  honest c →
  (sg, sp) = match sign_hybrid c b with
             | Some hyb => (Some (hs_ed25519 hyb), Some (hs_pqc hyb))
             | None => (sign c b, None)
             end →
  on_some fits sg ∧ on_some fits sp.
Proof.
  assert (∀ sk m, fits (ed_sign sk m)) as He by (intros; unfold fits; rewrite ed_sign_length; done).
  intros Hc Hs. destruct Hc as [|secret|secret seed]; cbn [sign_hybrid sign new_ed25519_from_secret] in Hs.
  - by injection Hs as -> ->.
  - injection Hs as -> ->. split; [apply He|done].
  - unfold new_hybrid_from_secrets in Hs. cbn [sign_hybrid sign SoftwareMlDsa65Signer_dyn pqc_sign] in Hs.
    destruct (ml_try_sign _ _) as [s|e]; cbn in Hs; injection Hs as -> ->; cbn; (split; [apply He|]); [|done].
    unfold fits. by rewrite ml_sig_length.
Qed.

Lemma content_of_content c p : content_of (body_content (from_content c p)) = c.
Proof. by destruct c. Qed.

Lemma append_good w c :
  writer_good w → storable_content (c (sat_add64 (w_next_seq w) 1)) → writer_good (append w c).2.
Proof.
  intros [G1 G2 G3 G4 G5] Hc. destruct (append_cases w c) as [(m & Hm & _)|(b & sg & sp & _ & Hs & ->)].
  - destruct (postcard_encodes (P := storable_body) (from_content (c (sat_add64 (w_next_seq w) 1)) (w_prev_hash w)))
      as [b Hb]; [|congruence]. split; [by rewrite content_of_content|exact G2].
  - destruct (signatures_fit _ _ _ _ G5 Hs) as [F1 F2]. split; cbn [snd w_next_seq w_records w_prev_hash w_header w_sig_class].
    + rewrite G1, len_app. change (len [_]) with 1. unfold sat_add64. lia.
    + apply blake3_keyed_length.
    + exact G3.
    + apply Forall_app. split; [exact G4|]. apply Forall_singleton. unfold storable_record.
      cbn [content prev_chain_hash this_chain_hash signature signature_pqc]. split_and!; try done.
      apply blake3_keyed_length.
    + exact G5.
Qed.

Lemma fresh_writer_good world md c :
  honest c → is_array 32 world → is_array 32 md → on_some (is_array 32) (verifying_key_bytes c) →
  writer_good (with_signature world md c).
Proof.
  intros Hc Hw Hm Hk. split; [done|done| |constructor|exact Hc]. unfold storable_header.
  cbn [with_signature w_header magic kernel_semver postcard_version blake3_version domain_separation_context world_id
    abi_version header_manifest_digest type_registry_pins header_verifying_key header_verifying_key_pqc].
  split_and!; try done.
  destruct Hc; cbn; try done. unfold fits. by rewrite ml_vk_length.
Qed.

(** ** Sessions *)

Definition log_good (k : Kernel) : Prop := ∃ w, wal k = Some w ∧ writer_good w.

Lemma state_digest_length i : is_array 32 (state_digest i).
Proof. unfold state_digest. destruct (to_allocvec _); [apply blake3_hash_length|done]. Qed.

Lemma step_ends_digest id i1 e reg sc now session core i2 sc' :
  step_ends id i1 e reg sc now session true core i2 sc' → is_array 32 (core_digest core).
Proof. intros He. destruct He; apply state_digest_length. Qed.

Lemma step_instance_good now caps st id st' :
  kernel_inv false st.2 → computes_typed (action_registry st.2) → typed st.2 → typed id → is_u64 now → is_u64 caps →
  log_good st.2 → step_instance now caps true st id = Done st' → log_good st'.2.
Proof.
  intros Hinv Hr Hk Hid Hnow Hcaps (w & Hw & Hg) Hs. unfold step_instance in Hs.
  apply bind_Done in Hs as ([r k'] & Hp & Hs). pose proof (process_typed _ _ _ _ _ _ _ Hr Hk Hid Hnow Hcaps Hp) as [Ht _].
  destruct (process_cases st.2 id now caps true (ki_registry _ _ Hinv)) as
    [(k2 & Hp' & _ & (_ & F2 & _) & _)|(? & ? & ? & core & ? & ? & n & k2 & _ & _ & _ & _ & He & Hp' & _ & (_ & F2 & _))].
  { intros i Ei. apply (ki_instances _ _ Hinv id i Ei). }
  - rewrite Hp in Hp'. injection Hp' as -> ->. injection Hs as <-. exists w. split; [cbn; congruence|exact Hg].
  - rewrite Hp in Hp'. injection Hp' as -> ->. rewrite F2, Hw in Hs. injection Hs as <-. eexists. split; [reflexivity|].
    destruct Ht as (T1 & T2 & _). apply append_good; [exact Hg|]. split.
    + split_and!; try done. unfold is_u64, sat_add64. lia.
    + exact (step_ends_digest _ _ _ _ _ _ _ _ _ _ He).
Qed.

Lemma step_good k now caps rep k' :
  kernel_inv false k → computes_typed (action_registry k) → typed k → is_u64 now → is_u64 caps →
  log_good k → step k now caps = Done (rep, k') → log_good k'.
Proof.
  intros Hinv Hr Hk Hnow Hcaps Hg Hs. unfold step in Hs. destruct Hg as (w & Hw & Hg). rewrite Hw in Hs.
  refine (proj2 (proj2 (fold_outcome_inv (λ st, (kernel_inv false st.2 ∧ action_registry st.2 = action_registry k) ∧
    (typed st.2 ∧ typed st.1) ∧ log_good st.2) _ _ _ _ _ _ Hs))).
  - split; [done|]. split; [|by exists w]. split; [done|]. unfold typed, StepReport_typed. cbn. split_and!; apply is_u32_zero.
  - intros st id st' Hin ((I1 & I2) & (I3 & I4) & I5) Hst. rewrite <- I2 in Hr.
    assert (typed id) as Hid.
    { apply elem_of_btree_keys in Hin as [i Hi]. by destruct (typed_map_lookup _ _ _ _ _ (tw_instances k Hk) Hi). }
    destruct (step_instance_inv false now caps true st id I1) as (st2 & Hst2 & J1 & J2).
    rewrite Hst in Hst2. injection Hst2 as <-.
    destruct (step_instance_typed now caps true st id st' Hr I3 I4 Hid Hnow Hcaps Hst) as (T1 & T2 & _).
    split_and!; [done|congruence|done|done|]. by apply (step_instance_good now caps st id).
Qed.

(** The calls whose payload fits in memory. *)
Definition call_fits (c : KernelCall) : Prop :=
  match c with CallSubmit _ _ _ _ _ _ bs => fits bs | _ => True end.

Lemma submit_good k i p a caps t tc bs r k' :
  typed k → typed i → typed p → typed a → is_u64 caps → is_u64 t → is_u32 tc → fits bs →
  log_good k → submit k i p a caps t tc bs = Done (r, k') → log_good k'.
Proof.
  intros Hk Hi Hp Ha Hc Ht Htc Hbs (w & Hw & Hg) Hs.
  destruct (submit_typed k i p a caps t tc bs r k' Hk Hi Hp Ha Hc Ht Htc Hs) as (_ & _ & Hid). unfold submit in Hs.
  destruct (instances k !! i) as [inst|]; [|injection Hs as <- <-; by exists w].
  destruct (decide _); [injection Hs as <- <-; by exists w|]. apply bind_Done in Hs as (id & _ & Hs).
  cbn [set_instances wal] in Hs. rewrite Hw in Hs. injection Hs as <- <-. eexists. split; [reflexivity|].
  apply append_good; [exact Hg|]. split; [|exact Hbs]. specialize (Hid id eq_refl).
  split_and!; try done. unfold is_u64, sat_add64. lia.
Qed.

Lemma run_calls_good k cs k' :
  kernel_inv false k → computes_typed (action_registry k) → typed k → typed cs → Forall call_fits cs →
  Forall replayable cs → log_good k → run_calls k cs = Done k' → log_good k'.
Proof.
  intros Hinv Hr Hk Hcs Hf Hrp Hg Hrun. unfold run_calls in Hrun. unfold typed, list_typed in Hcs.
  rewrite Forall_forall in Hcs, Hf, Hrp.
  refine (proj2 (fold_outcome_inv (λ q, (kernel_inv false q ∧ typed q ∧ action_registry q = action_registry k) ∧ log_good q)
    _ _ _ _ _ _ Hrun)); [done|].
  intros q c q' Hin ((I1 & I2 & I3) & I4) Hc. specialize (Hcs c Hin). specialize (Hf c Hin). specialize (Hrp c Hin).
  destruct (run_call_inv false q c I1) as (q2 & Hq2 & J1 & J2); [done|]. rewrite Hc in Hq2. injection Hq2 as <-.
  rewrite <- I3 in Hr. destruct (run_call_typed q c q' Hr I2 Hcs Hc) as [T1 _].
  split; [split_and!; [done|done|congruence]|].
  destruct c as [|obs mask|inst p a cp t tc bs|now caps|]; try done; cbn [run_call] in Hc.
  - by injection Hc as <-.
  - apply bind_Done in Hc as ([r q2] & Hs & [= <-]). destruct Hcs as (C1 & C2 & C3 & C4 & C5 & C6).
    by apply (submit_good q inst p a cp t tc bs r).
  - apply bind_Done in Hc as ([rep q2] & Hs & [= <-]). destruct Hcs as (C1 & C2). by apply (step_good q now caps rep).
Qed.
End durable.

(** ** Properties *)

Section properties.
Context {PS : Postcard InstanceSnapshot} {PB : Postcard WalRecordBody} {PW : Postcard Wal}.
Context {EB : PostcardEncodes WalRecordBody storable_body} {EW : PostcardEncodes Wal storable_wal}.
Context {RW : PostcardRoundtrip Wal}.
Context {B3 : Blake3} {BL : Blake3Laws} {SS : SigSchemes} {SL : SigLaws}.
Context (error_debug : ArkheError → string).

(** A good writer below sequence saturation serializes, and reads back. *)
Lemma writer_good_serializes w :
  writer_good w → w_next_seq w < U64_MAX →
  w_next_seq w = len (w_records w) ∧
  ∃ bs, serialize (from_writer w) = Ok bs ∧ deserialize bs = Ok (from_writer w).
Proof.
  intros [G1 _ G3 G4 _] Hlt. assert (w_next_seq w = len (w_records w)) as Hn by lia. split; [exact Hn|].
  destruct (postcard_encodes (P := storable_wal) (from_writer w)) as [bs Hbs].
  { split; [exact G3|]. split; [|exact G4]. unfold fits. cbn [from_writer records]. lia. }
  exists bs. unfold serialize, deserialize. rewrite Hbs. split; [done|].
  apply map_err_Ok. by apply postcard_roundtrip.
Qed.

(** C4: a session survives export. Take a kernel within the machine widths
    with an attached fresh log of an honest signing class whose PQC provider
    does not fail, and any submissions, steps and observer registrations (no
    forced unload) with arguments of their Rust types that fit in memory, below
    saturation of the sequence number. No append fails: the log has as many records as sequence
    numbers. It serializes, its bytes read back as the same log, and a kernel
    with the initial instances, the same actions and manifest that replays
    what was read back, anchored or not, ends with the instances of the live
    kernel and its chain tip. *)
Theorem exported_session_replays world md c k cs k' w' r :
  honest c → pqc_total c → is_array 32 world → is_array 32 md → on_some (is_array 32) (verifying_key_bytes c) →
  wal k = Some (with_signature world md c) → kernel_inv false k → computes_typed (action_registry k) →
  typed k → typed cs → Forall call_fits cs → Forall replayable cs →
  run_calls k cs = Done k' → wal k' = Some w' → w_next_seq w' < U64_MAX →
  instances r = instances k → action_registry r = action_registry k → manifest_digest r = md →
  w_next_seq w' = len (w_records w') ∧
  ∃ bs log r' rep,
    serialize (from_writer w') = Ok bs ∧ deserialize bs = Ok log ∧
    replay_into error_debug r log = Done (r', Ok rep) ∧
    replay_into_verified error_debug r log world (own_anchor md c (writer_chain_tip w')) = Done (r', Ok rep) ∧
    instances r' = instances k' ∧ final_chain_tip rep = writer_chain_tip w' ∧
    submits_replayed rep = N.min (count_kind KindSubmit w') U32_MAX ∧
    steps_replayed rep = N.min (count_kind KindStep w') U32_MAX.
Proof.
  intros Hc Ht Hworld Hmd Hkey Hw Hinv Hr Hk Hcs Hf Hrp Hrun Hw' Hlt Hi Hreg Hm.
  destruct (run_calls_good k cs k' Hinv Hr Hk Hcs Hf Hrp) as (w2 & Hw2 & Hg);
    [eexists; split; [exact Hw|by apply fresh_writer_good]|exact Hrun|]. rewrite Hw' in Hw2. injection Hw2 as <-.
  destruct (writer_good_serializes w' Hg Hlt) as (Hn & bs & Hs & Hd). split; [exact Hn|].
  destruct (own_session_replays error_debug world md c k cs k' w' r Hc Ht Hw Hinv Hrp Hrun Hw') as
    (r' & rep & _ & H1 & H2 & H3 & H4 & H5 & H6 & _); [by apply recorded_count|done..|].
  by exists bs, (from_writer w'), r', rep.
Qed.
End properties.

(** ** Witness: the wire format and BLAKE3 themselves *)

#[export] Instance wire_body_encodes : @PostcardEncodes WalRecordBody (wire_postcard body_wire) storable_body :=
  wire_postcard_encodes _ _ body_puts.
#[export] Instance wire_wal_encodes : @PostcardEncodes Wal (wire_postcard wal_wire) storable_wal :=
  wire_postcard_encodes _ _ wal_puts.

#[local] Instance ex_body_postcard : Postcard WalRecordBody := wire_postcard body_wire.
#[local] Instance ex_wal_postcard : Postcard Wal := wire_postcard wal_wire.
#[local] Instance ex_wal_roundtrip : PostcardRoundtrip Wal := wire_postcard_roundtrip wal_wire _.
#[local] Instance ex_blake3 : Blake3 := standard_blake3.
#[local] Instance ex_blake3_laws : Blake3Laws := standard_blake3_laws.
#[local] Instance ex_sigs : SigSchemes := toy_sigs false.
#[local] Instance ex_sigs_laws : SigLaws := toy_sigs_laws false.

Definition exported (o : Outcome Kernel) (n : N) : bool :=
  match o with
  | Done k => match wal k with Some w => bool_decide (w_next_seq w = n) | None => false end
  | Panicked _ => false
  end.
Lemma exported_spec o n : exported o n = true → ∃ k w, o = Done k ∧ wal k = Some w ∧ w_next_seq w = n.
Proof.
  destruct o as [k|]; [|done]. cbn. destruct (wal k) as [w|] eqn:E; [|done]. intros H%bool_decide_eq_true. eauto.
Qed.

(** An instance whose actions spawn, write, schedule and signal, a signed log,
    and a kernel in the same initial state without one. *)
Definition export_class : SignatureClass := new_hybrid_from_secrets [] [].
Definition export_config : InstanceConfig := mkConfig 15 8 8 8 100 None Reject.
Definition export_kernel (log : option WalWriter) : Kernel :=
  mkKernel _ {[1%positive := Instance_new 1 export_config]} (script_registry wire_ops) ObserverRegistry_new 1 zero32
    log StepStage_default.
Definition live : Kernel := export_kernel (Some (with_signature zero32 zero32 export_class)).
Definition export_session : list KernelCall :=
  [CallObserve (λ _ _, true) EM_ALL; CallSubmit 1 System None U64_MAX 0 1 []; CallSubmit 1 System None 0 0 1 [];
   CallSubmit 1 System (Some 1%positive) 1 0 2 [Byte.x07]; CallStep 5 15; CallStep 5 15; CallStep 9 15].

Lemma session_exported : exported (run_calls live export_session) 6 = true.
Proof. vm_compute. reflexivity. Qed.

Lemma live_inv : kernel_inv false live.
Proof. split; [apply map_Forall_singleton, inst_ok_new|apply script_registry_total]. Qed.

Lemma live_typed : typed live.
Proof.
  destruct (fresh_typed zero32 zero32 export_class) as ([_ F2 _ _ F5] & _ & [_ _ _ F4 _]).
  split; [|exact F2|vm_compute; congruence|exact F4|exact F5].
  apply map_Forall_singleton. split; [vm_compute; congruence|].
  apply Instance_new_typed; repeat split; vm_compute; congruence.
Qed.

Lemma exported_session_replays_witness :
  ∃ k' w' bs log r' rep, run_calls live export_session = Done k' ∧ wal k' = Some w' ∧
    len (w_records w') = 6 ∧ serialize (from_writer w') = Ok bs ∧ deserialize bs = Ok log ∧
    replay_into ArkheError_display (export_kernel None) log = Done (r', Ok rep) ∧ instances r' = instances k'.
Proof.
  destruct (exported_spec _ _ session_exported) as (k' & w' & Hr & Hw & Hl).
  assert (honest export_class) as Hh by constructor.
  assert (pqc_total export_class) as Ht by (intros m; eexists; reflexivity).
  assert (computes_typed (action_registry live)) as Hct
    by (apply script_registry_typed; repeat constructor; solve_width).
  assert (typed export_session) as Hcs by (repeat constructor; solve_width).
  assert (Forall call_fits export_session) as Hf by (repeat constructor; solve_width).
  assert (Forall replayable export_session) as Hrp by (repeat constructor).
  assert (w_next_seq w' < U64_MAX) as Hlt by (rewrite Hl; reflexivity).
  destruct (exported_session_replays ArkheError_display zero32 zero32 export_class live export_session
    k' w' (export_kernel None) Hh Ht eq_refl eq_refl eq_refl eq_refl live_inv Hct live_typed Hcs Hf Hrp
    Hr Hw Hlt eq_refl eq_refl eq_refl) as (Hn & bs & log & r' & rep & H1 & H2 & H3 & _ & H4 & _).
  exists k', w', bs, log, r', rep. split; [exact Hr|]. split; [exact Hw|]. split; [rewrite <- Hn; exact Hl|].
  split; [exact H1|]. split; [exact H2|]. split; [exact H3|exact H4].
Defined.
