(* ===== verification/TestKit.v ===== *)
(** * Concrete primitives and a test harness

    What the translated unit tests ([KernelTests], [WalTests], [ReplayTests],
    [StateTests], [RuntimeTests], [DiceTests]) run on: the BLAKE3 of [Blake3],
    the wire formats of [Wire] and [WireState], an executable signature scheme
    that tells keys and messages apart, and assertions. The parameters so
    chosen satisfy the laws the theorems assume, all at once
    ([kit_blake3_laws], [kit_sigs_laws], [kit_body_roundtrip],
    [wire_snapshot_encodes], ...). None of it models code of the
    repository. *)
From S2P Require Import Prelude Abi Quota Extern Blake3 Authz Ledger Scheduler Instance Event.
From S2P Require Import Observer Signature Wal Registry Kernel.
From S2P Require Export Wire WireState.

Local Open Scope N_scope.

(** ** The hash *)

#[export] Instance kit_blake3 : Blake3 := standard_blake3.
#[export] Instance kit_blake3_laws : Blake3Laws := standard_blake3_laws.

(** A 256-bit multiplicative hash, for the signature scheme. *)
Definition mask256 : N := Eval vm_compute in N.ones 256.
Definition mix (acc : N) (b : byte) : N := N.land (acc * 1099511628211 + Byte.to_N b + 1) mask256.
Definition mix_hash (m : bytes) : bytes := le_digits 32 (fold_left mix m 14695981039346656037).

(** ** A signature scheme

    A verifying key is a hash of the secret, a signature a hash of key and
    message. It keeps no secret from its verifier, which no law asks for. *)
Definition tag (key m : bytes) : byte := hd Byte.x00 (mix_hash (key ++ m)).
Definition padded (n : nat) (b : byte) : bytes := b :: replicate n Byte.x00.

#[export] Instance kit_sigs : SigSchemes := {|
  EdSigningKey := bytes;
  EdVerifyingKey := bytes;
  ed_signing_from_bytes := λ secret, secret;
  ed_verifying_key := mix_hash;
  ed_vk_to_bytes := λ vk, vk;
  ed_vk_from_bytes := Some;
  ed_sign := λ sk m, mix_hash (mix_hash sk ++ m) ++ replicate 32 Byte.x00;
  ed_verify_strict := λ vk m s, bool_decide (s = mix_hash (vk ++ m) ++ replicate 32 Byte.x00);
  MlSigningKey := bytes;
  MlVerifyingKey := byte;
  MlSignature := byte;
  ml_signing_from_seed := λ seed, seed;
  ml_verifying_key := tag [];
  ml_vk_encode := padded 1951;
  ml_vk_decode := λ bs, hd Byte.x00 bs;
  ml_try_sign := λ sk m, Ok (tag [tag [] sk] m);
  ml_sig_encode := padded 3308;
  ml_sig_decode := head;
  ml_verify := λ vk m s, bool_decide (s = tag [vk] m)
|}.

#[export] Instance kit_sigs_laws : SigLaws.
Proof.
  assert (∀ n b, len (padded n b) = N.of_nat n + 1) as Hp.
  { intros n b. unfold padded. by rewrite len_cons; unfold len; rewrite length_replicate. }
  split; cbn [kit_sigs EdSigningKey EdVerifyingKey MlSigningKey MlVerifyingKey MlSignature ed_vk_from_bytes ed_vk_to_bytes
    ed_sign ed_verify_strict ed_verifying_key ml_vk_encode ml_vk_decode ml_sig_encode ml_sig_decode ml_verify ml_try_sign ml_verifying_key].
  - done.
  - intros sk m. rewrite len_app. unfold len. unfold mix_hash. by rewrite length_replicate, le_digits_length.
  - intros sk m. by apply bool_decide_eq_true.
  - intros vk. by rewrite Hp.
  - done.
  - intros s. by rewrite Hp.
  - done.
  - intros sk m s [= <-]. by apply bool_decide_eq_true.
Qed.

(** ** Codecs: the wire format *)

#[export] Instance kit_body_postcard : Postcard WalRecordBody := wire_postcard body_wire.
#[export] Instance kit_body_roundtrip : PostcardRoundtrip WalRecordBody := wire_postcard_roundtrip body_wire _.
#[export] Instance kit_record_postcard : Postcard WalRecord := wire_postcard record_wire.
#[export] Instance kit_header_postcard : Postcard WalHeader := wire_postcard header_wire.
#[export] Instance kit_wal_postcard : Postcard Wal := wire_postcard wal_wire.
#[export] Instance kit_wal_roundtrip : PostcardRoundtrip Wal := wire_postcard_roundtrip wal_wire _.

(** A unit struct encodes to no bytes and decodes from any, as under
    [postcard]. *)
Definition unit_codec {A} (x : A) : Postcard A := constant_postcard x.

(** A struct of [u64]s: eight bytes each, decoded from exactly as many. *)
Definition le_value (bs : bytes) : N := foldr (λ b acc, Byte.to_N b + 256 * acc) 0 bs.
Fixpoint words (n : nat) (bs : bytes) : option (list N) :=
  match n with
  | O => if decide (bs = []) then Some [] else None
  | S n' =>
      if decide (length bs < 8)%nat then None
      else ws ← words n' (drop 8 bs); Some (le_value (take 8 bs) :: ws)
  end.
Definition u64s_codec {A} (n : nat) (fields : A → list N) (build : list N → option A) : Postcard A := {|
  to_allocvec := λ x, Ok (mjoin (le_digits 8 <$> fields x));
  from_bytes := λ bs, match words n bs ≫= build with Some x => Ok x | None => Err "malformed"%string end
|}.

(** ** Assertions *)

(** [assert!]; a test is an [Outcome], an assertion that fails panics. *)
Definition assert (b : bool) : Outcome unit := if b then Done tt else Panicked "assertion failed".

(** [assert_eq!], [assert_ne!]. *)
Definition assert_eq {A} `{EqDecision A} (x y : A) : Outcome unit := assert (bool_decide (x = y)).
Definition assert_ne {A} `{EqDecision A} (x y : A) : Outcome unit := assert (bool_decide (x ≠ y)).

(** [str::contains]. *)
Definition str_contains (s part : string) : bool :=
  match String.index 0 part s with Some _ => true | None => false end.

(** [Result::unwrap_err] and [Option::is_none]. *)
Definition err_of {E A} (r : Result E A) : Outcome E :=
  match r with Err e => Done e | Ok _ => Panicked "called unwrap_err on an Ok value" end.
Definition is_none {A} (o : option A) : bool := match o with None => true | Some _ => false end.

(** [unwrap], [expect] on a result paired with the kernel, or alone. *)
Definition unwrap {E A} (r : Result E A * Kernel) : Outcome Kernel :=
  match r with (Ok _, k) => Done k | (Err _, _) => Panicked "called unwrap on an Err value" end.
Definition of_result {E A} (r : Result E A) : Outcome A :=
  match r with Ok a => Done a | Err _ => Panicked "called unwrap on an Err value" end.

(** [matches!(result, Err(e))]. *)
Definition is_error {E A} `{EqDecision E} (e : E) (r : Result E A) : bool :=
  match r with Err e' => bool_decide (e' = e) | Ok _ => false end.
Definition fails_with {E A} (f : E → bool) (r : Result E A) : bool := match r with Err e => f e | Ok _ => false end.

(** [k.instances.get(&inst).unwrap()]. *)
Definition the (k : Kernel) (inst : InstanceId) : Outcome Instance_ := expect "unwrap" (instances k !! inst).

Definition Suite : Type := list (string * Outcome unit).

(** The names of the tests that fail. *)
Definition failing (tests : Suite) : list string :=
  omap (λ t, match t.2 with Done _ => None | Panicked _ => Some t.1 end) tests.
