(* ===== verification/Hostile.v ===== *)
(** * What a log can do to the kernel that replays it

    Replay admits a submission under the id and without the queue limit the
    log recorded ([Kernel::submit_with_id] of
    [src/arkhe-kernel/src/runtime/kernel.rs], called by [replay_records] of
    [persist/replay.rs]). [fresh_log] is what that relies on; under it no log,
    accepted or not, breaks the invariant of the kernel, and without it one
    that verifies and is accepted does. *)
From S2P Require Import Prelude Abi Quota Extern Authz Ledger Scheduler Instance Event.
From S2P Require Import Observer Stage Dispatch Apply Signature Wal Registry Step Kernel Replay Snapshot TestKit.

Local Open Scope N_scope.

Section hostile.
Context {P1 : Postcard InstanceSnapshot} {P2 : Postcard WalRecordBody} {B3 : Blake3} {SS : SigSchemes}.
Context (error_debug : ArkheError → string).

(** ** Fresh logs *)

(** The id of a submission is not queued in its instance. *)
Definition fresh_submit (k : Kernel) (instance : InstanceId) (id : ScheduledActionId) : bool :=
  match instances k !! instance with
  | None => true
  | Some i => bool_decide (by_id (scheduler i) !! id = None)
  end.

(** Every submission of the log has a fresh id at the moment it is replayed. *)
Fixpoint fresh_log (k : Kernel) (cs : list WalRecordContent) : bool :=
  match cs with
  | [] => true
  | CSubmit _ instance principal actor caps at_ tc bs id :: cs' =>
      fresh_submit k instance id &&
      match submit_with_id k instance principal actor caps id at_ tc bs with
      | Ok k1 => fresh_log k1 cs'
      | Err _ => true
      end
  | CStep _ instance _ now caps _ _ :: cs' =>
      match process_instance_record k instance now caps true with
      | Done (_, k1) => fresh_log k1 cs'
      | Panicked _ => true
      end
  end.

(** ** Preservation *)

(** What replay keeps of a kernel: its invariant, its instances, its registry
    and its own log. *)
Definition kept (strict : bool) (k k' : Kernel) : Prop :=
  kernel_inv strict k' ∧ dom (instances k') = dom (instances k) ∧ same_frame k k'.

Lemma kept_refl strict k : kernel_inv strict k → kept strict k k.
Proof. intros Hk. by split_and!. Qed.

Lemma kept_trans strict k1 k2 k3 : kept strict k1 k2 → kept strict k2 k3 → kept strict k1 k3.
Proof.
  intros (_ & D1 & A1 & B1 & C1 & E1) (H & D2 & A2 & B2 & C2 & E2). split_and!; [done|congruence|].
  unfold same_frame. split_and!; congruence.
Qed.

(** The injected entry keeps the instance invariant. *)
Lemma inject_instance_inv i id at_ actor p c tc bs :
  inst_inv i → ScheduledActionId_get id ≤ U64_MAX → by_id (scheduler i) !! id = None →
  inst_inv (with_scheduler
    (with_id_counters i (mkCounters (next_entity (id_counters i))
       (if decide (next_scheduled (id_counters i) < ScheduledActionId_get id) then ScheduledActionId_get id
        else next_scheduled (id_counters i))
       (next_source_seq (id_counters i))))
    (schedule_with_id (scheduler i) id at_ actor p c tc bs)).
Proof.
  intros [I1 I2 I3] Hid Hfresh. split; [by apply (consistent_ext i)|cbn; by case_decide|].
  cbn [with_scheduler scheduler with_id_counters id_counters next_scheduled]. intros H1 H2.
  pose proof (schedule_with_id_seq _ _ _ _ _ _ _ _ H2) as Hq.
  destruct I3 as [Hw Hn]; [case_decide; lia|lia|]. split.
  - apply schedule_with_id_wf; [done|done|lia].
  - rewrite schedule_with_id_next_id. case_decide; lia.
Qed.

Lemma submit_with_id_kept strict k instance p a c id t tc bs k' :
  kernel_inv strict k → ScheduledActionId_get id ≤ U64_MAX → fresh_submit k instance id = true →
  submit_with_id k instance p a c id t tc bs = Ok k' → kept strict k k'.
Proof.
  intros [K1 K2] Hid Hf. unfold submit_with_id, fresh_submit in *.
  destruct (instances k !! instance) as [i|] eqn:Ei; [|done]. apply bool_decide_eq_true in Hf. intros [= <-].
  pose proof (K1 _ _ Ei) as Hok. split; [split; [|done]|split; [|done]]; cbn [set_instances instances].
  - apply map_Forall_insert_2; [|done]. apply (inst_ok_update strict instance i); try done.
    by apply inject_instance_inv; [apply Hok|..].
  - apply dom_insert_lookup_L. eauto.
Qed.

(** One record, whatever it says. *)
Lemma replay_record_kept strict st c k' x :
  kernel_inv strict (rp_kernel st) → fresh_log (rp_kernel st) [c] = true →
  match c with CSubmit _ _ _ _ _ _ _ _ id => ScheduledActionId_get id ≤ U64_MAX | CStep _ _ _ _ _ _ _ => True end →
  replay_record error_debug st c = Done (k', x) →
  kept strict (rp_kernel st) k' ∧
  (∀ st', x = Ok st' → rp_kernel st' = k' ∧ ∀ cs, fresh_log (rp_kernel st) (c :: cs) = true → fresh_log k' cs = true).
Proof.
  intros Hk. destruct st as [k w rep]. cbn [rp_kernel] in *.
  destruct c as [sq i p a cp t tc bs id|sq i id now cp v d]; cbn [replay_record fresh_log rp_kernel rp_writer rp_report].
  - intros [Hf _]%andb_true_iff Hid.
    destruct (submit_with_id k i p a cp id t tc bs) as [k1|e] eqn:Es; intros Hr.
    2:{ injection Hr as <- <-. split; [by apply kept_refl|done]. }
    pose proof (submit_with_id_kept strict _ _ _ _ _ _ _ _ _ _ Hk Hid Hf Es) as Hkept.
    destruct (append_submit w i p a cp t tc bs id) as [[rec|e] w']; injection Hr as <- <-; (split; [done|]); [|done].
    intros st' [= <-]. split; [done|]. by intros cs [_ ?]%andb_true_iff.
  - intros _ _ Hr. destruct (process_inv strict k i now cp true Hk) as (r & k1 & Hp & Hk1 & Hfr & Hd).
    rewrite Hp in Hr. cbn [mbind Outcome_bind] in Hr.
    assert (kept strict k k1) as Hkept by done.
    destruct r as [result|]; [|injection Hr as <- <-; by split].
    repeat (destruct (decide _) in Hr; [injection Hr as <- <-; by split|]).
    destruct (append_step w i id now cp v d) as [[rec|e] w']; injection Hr as <- <-; (split; [done|]); [|done].
    intros st' [= <-]. rewrite Hp. by split.
Qed.

Lemma replay_loop_kept strict st recs k' x :
  kernel_inv strict (rp_kernel st) → fresh_log (rp_kernel st) (content <$> recs) = true →
  Forall (λ rec, match content rec with
                 | CSubmit _ _ _ _ _ _ _ _ id => ScheduledActionId_get id ≤ U64_MAX
                 | CStep _ _ _ _ _ _ _ => True end) recs →
  replay_loop error_debug st recs = Done (k', x) → kept strict (rp_kernel st) k'.
Proof.
  revert st. induction recs as [|rec recs IH]; intros st Hk Hf Ht Hl; cbn [replay_loop] in Hl.
  { injection Hl as <- <-. by apply kept_refl. }
  apply Forall_cons in Ht as [Ht1 Ht2]. apply bind_Done in Hl as ([k1 y] & Hr & Hl).
  assert (fresh_log (rp_kernel st) [content rec] = true) as Hf1.
  { revert Hf. rewrite fmap_cons. destruct (content rec); cbn [fresh_log]; [|by destruct (process_instance_record _ _ _ _ _) as [[]|]].
    intros [-> _]%andb_true_iff. by destruct (submit_with_id _ _ _ _ _ _ _ _ _). }
  destruct (replay_record_kept strict st (content rec) k1 y Hk Hf1 Ht1 Hr) as [Hkept Hy].
  destruct y as [st1|e]; [|by injection Hl as <- <-].
  destruct (Hy st1 eq_refl) as [<- Hcs]. eapply kept_trans; [exact Hkept|].
  apply (IH st1); [apply Hkept|by apply Hcs|done|done].
Qed.

(** ** Properties *)

(** C10: no log breaks the kernel. Whatever the log says, and whether replay
    accepts it or stops at any record, the kernel it leaves behind satisfies
    the invariant of all reachable kernels (tables, ledger, queue and inboxes
    consistent, counters in range), has the same instances, registry and own
    log, provided each submission it tries has an id not queued at that
    moment. *)
Theorem replay_keeps_invariant strict k w k' x :
  kernel_inv strict k → ids_typed w → fresh_log k (content <$> records w) = true →
  replay_into error_debug k w = Done (k', x) →
  kernel_inv strict k' ∧ dom (instances k') = dom (instances k) ∧ same_frame k k'.
Proof.
  intros Hk Ht Hf Hr. fold (kept strict k k'). pose proof (kept_refl strict k Hk) as Hrefl. unfold replay_into in Hr.
  destruct (check_header_gates w) as [[]|e]; [|by injection Hr as <- <-].
  destruct (decide _) in Hr; [by injection Hr as <- <-|].
  apply bind_Done in Hr as ([[]|we] & _ & Hr); [|by injection Hr as <- <-].
  unfold replay_records in Hr. apply bind_Done in Hr as ([k1 [st|e]] & Hl & Hr);
    (eapply (replay_loop_kept strict) in Hl; [|exact Hk|exact Hf|exact Ht]); cbn [rp_kernel] in Hl; [|by injection Hr as <- <-].
  destruct (decide _) in Hr; by injection Hr as <- <-.
Qed.

End hostile.

(** ** Witness and counterexample *)

(** A kernel with one instance and room for one queued action. *)
Definition one_slot : Kernel :=
  mkKernel _ {[1%positive := Instance_new 1 (mkConfig caps_empty 0 1 0 0 None Reject)]} ActionRegistry_new
    ObserverRegistry_new 1 zero32 None StepStage_default.

Lemma one_slot_inv : kernel_inv false one_slot.
Proof. split; [apply map_Forall_singleton, inst_ok_new|apply computes_total_new]. Qed.

(** The log an unsigned writer seals from the given requests. *)
Definition sealed (reqs : list AppendReq) : Wal := from_writer (run_appends (with_signature zero32 zero32 SC_None) reqs).

(** [ids_typed], decided. *)
Definition ids_typedb (w : Wal) : bool :=
  forallb (λ rec, match content rec with
                  | CSubmit _ _ _ _ _ _ _ _ id => bool_decide (ScheduledActionId_get id ≤ U64_MAX)
                  | CStep _ _ _ _ _ _ _ => true
                  end) (records w).
Lemma ids_typedb_spec w : ids_typedb w = true → ids_typed w.
Proof.
  intros Hw. apply Forall_forall. intros rec Hrec%list_elem_of_In. unfold ids_typedb in Hw. rewrite forallb_forall in Hw.
  specialize (Hw rec Hrec). destruct (content rec); [by apply bool_decide_eq_true in Hw|done].
Qed.

(** A submission and its step under a forged digest. *)
Definition forged_log : Wal :=
  sealed [ReqSubmit 1 System None 0 0 9 [] 7; ReqStep 1 7 0 0 (Skipped Unregistered) zero32].

(** A fact about the kernel and the verdict that replay ends with. *)
Definition ends_with (o : Outcome (Kernel * Result ReplayError ReplayReport))
    (f : Kernel → Result ReplayError ReplayReport → bool) : bool :=
  match o with Done (k, x) => f k x | Panicked _ => false end.
Lemma ends_with_spec o f : ends_with o f = true → ∃ k x, o = Done (k, x) ∧ f k x = true.
Proof. destruct o as [[k x]|]; [eauto|done]. Qed.

Definition diverges_at (seq : N) (x : Result ReplayError ReplayReport) : bool :=
  fails_with (λ e, match e with StateDigestDivergence s => bool_decide (s = seq) | _ => false end) x.

Lemma forged_log_diverges :
  ends_with (replay_into ArkheError_display one_slot forged_log) (λ _ x, diverges_at 2 x) = true.
Proof. vm_compute. reflexivity. Qed.

Lemma replay_keeps_invariant_witness :
  ∃ k' x, replay_into ArkheError_display one_slot forged_log = Done (k', x) ∧ diverges_at 2 x = true ∧
    kernel_inv false k' ∧ dom (instances k') = dom (instances one_slot).
Proof.
  assert (ids_typed forged_log) as Ht by (apply ids_typedb_spec; vm_compute; reflexivity).
  assert (fresh_log one_slot (content <$> records forged_log) = true) as Hf by (vm_compute; reflexivity).
  destruct (ends_with_spec _ _ forged_log_diverges) as (k' & x & Hr & Hx). exists k', x. split; [exact Hr|].
  split; [exact Hx|].
  destruct (replay_keeps_invariant ArkheError_display false one_slot forged_log k' x one_slot_inv Ht Hf Hr) as (Hk & Hd & _).
  split; [exact Hk|exact Hd].
Defined.

(** A log that submits twice under one id. *)
Definition twice_log : Wal := sealed [ReqSubmit 1 System None 0 0 9 [] 7; ReqSubmit 1 System None 0 0 9 [] 7].

Definition refused (x : Result SnapshotError KernelSnapshot) : bool :=
  match x with
  | Err (Inconsistent m) => bool_decide (m = "instance InstanceId(1): scheduler ready/by_id size mismatch"%string)
  | _ => false
  end.
Definition overfull (k : Kernel) (x : Result ReplayError ReplayReport) : bool :=
  match instances k !! 1%positive, x with
  | Some i, Ok _ =>
      bool_decide (max_scheduled (config i) = 1) && bool_decide (Scheduler_len (scheduler i) = 2)
      && negb (is_ok (validate (scheduler i)))
      && match snapshot_serialize (snapshot k) with Ok bs => refused (snapshot_deserialize bs) | Err _ => false end
  | _, _ => false
  end.
Lemma overfull_spec k x :
  overfull k x = true →
  ∃ rep i bs, x = Ok rep ∧ instances k !! 1%positive = Some i ∧ max_scheduled (config i) = 1 ∧
    Scheduler_len (scheduler i) = 2 ∧ ¬ sched_wf (scheduler i) ∧ snapshot_serialize (snapshot k) = Ok bs ∧
    snapshot_deserialize bs = Err (Inconsistent "instance InstanceId(1): scheduler ready/by_id size mismatch").
Proof.
  unfold overfull, refused. destruct (instances k !! 1%positive) as [i|]; [|done]. destruct x as [rep|e]; [|done].
  destruct (snapshot_serialize (snapshot k)) as [bs|]; [|by rewrite !andb_false_r].
  intros [[[H1%bool_decide_eq_true H2%bool_decide_eq_true]%andb_true_iff H3]%andb_true_iff H4]%andb_true_iff.
  exists rep, i, bs. split_and!; [done..| |done|].
  - intros Hw%validate_wf. by rewrite Hw in H3.
  - destruct (snapshot_deserialize bs) as [|[]]; try done. apply bool_decide_eq_true in H4. by subst.
Qed.

Lemma twice_log_ends : ends_with (replay_into ArkheError_display one_slot twice_log) overfull = true.
Proof. vm_compute. reflexivity. Qed.

(** C39: replay trusts the ids and the queue of a log. A log that submits
    twice under one id has a verifying chain and is accepted by
    [replay_into], but the kernel it leaves queues two actions in an instance
    limited to one, its scheduler indexes disagree, and the kernel's own
    snapshot is refused on reload. *)
Theorem replayed_ids_counterexample :
  kernel_inv false one_slot ∧ ids_typed twice_log ∧ verify_chain twice_log zero32 = Done (Ok ()) ∧
  ∃ k' rep i bs,
    replay_into ArkheError_display one_slot twice_log = Done (k', Ok rep) ∧
    instances k' !! 1%positive = Some i ∧ max_scheduled (config i) = 1 ∧ Scheduler_len (scheduler i) = 2 ∧
    ¬ sched_wf (scheduler i) ∧ snapshot_serialize (snapshot k') = Ok bs ∧
    snapshot_deserialize bs = Err (Inconsistent "instance InstanceId(1): scheduler ready/by_id size mismatch").
Proof.
  split; [apply one_slot_inv|]. split; [apply ids_typedb_spec; vm_compute; reflexivity|]. split; [vm_compute; reflexivity|].
  destruct (ends_with_spec _ _ twice_log_ends) as (k' & x & Hr & Hf).
  destruct (overfull_spec k' x Hf) as (rep & i & bs & -> & Hrest). exists k', rep, i, bs. split; [exact Hr|exact Hrest].
Qed.
