(* ===== verification/KernelTests.v ===== *)
(** * The unit tests of the kernel, on the model

    The test module of [src/arkhe-kernel/src/runtime/kernel.rs], translated
    like the rest of the file and run by evaluation on the primitives of
    [TestKit]: a check of the model against what the authors of the code
    expect of it. *)
From S2P Require Import Prelude Abi Quota Extern Authz Ledger Scheduler Instance Event.
From S2P Require Import Observer Stage Dispatch Apply Signature Wal Registry Step Kernel Replay TestKit.

Local Open Scope N_scope.

(** ** Harness *)

(** [k.submit(inst, principal, None, SYSTEM, Tick(0), TypeCode(tc), Vec::new())]. *)
Definition sub (k : Kernel) (inst : InstanceId) (principal : Principal) (tc : TypeCode)
    : Outcome (Result ArkheError ScheduledActionId * Kernel) :=
  submit k inst principal None SYSTEM 0 tc [].
Definition sub_ok (k : Kernel) (inst : InstanceId) (principal : Principal) (tc : TypeCode) : Outcome Kernel :=
  r ← sub k inst principal tc; unwrap r.

(** How many of the events delivered to observer [h] satisfy [f]: what a
    counting observer holds in its shared counter. *)
Definition seen (k : Kernel) (h : ObserverHandle) (f : KernelEvent → bool) : N :=
  len (filter (λ d, d.1 = h ∧ f d.2 = true) (deliveries (observers k))).
Definition quiet : KernelObserver := λ _ _, false.
Definition PanicObserver : KernelObserver := λ _ _, true.

(** ** Test actions *)

Variant SpawnOneAction : Type := SpawnOne.
#[local] Instance SpawnOneAction_derived : Derived SpawnOneAction :=
  {| TYPE_CODE := 100; SCHEMA_VERSION := 1; derived_postcard := unit_codec SpawnOne |}.
Definition SpawnOneAction_ops : list Op := [SpawnEntity 42 System].
#[local] Instance SpawnOneAction_compute : ActionCompute SpawnOneAction := λ _ _, Done SpawnOneAction_ops.

Variant EmitAction : Type := Emit.
#[local] Instance EmitAction_derived : Derived EmitAction :=
  {| TYPE_CODE := 101; SCHEMA_VERSION := 1; derived_postcard := unit_codec Emit |}.
Definition EmitAction_ops : list Op := [EmitEvent None 7 (byte_str "hello")].
#[local] Instance EmitAction_compute : ActionCompute EmitAction := λ _ _, Done EmitAction_ops.

Variant SignalAction : Type := Signal.
#[local] Instance SignalAction_derived : Derived SignalAction :=
  {| TYPE_CODE := 102; SCHEMA_VERSION := 1; derived_postcard := unit_codec Signal |}.
Definition SignalAction_ops : list Op := [SendSignal 1 1 []].
#[local] Instance SignalAction_compute : ActionCompute SignalAction := λ _ _, Done SignalAction_ops.

Variant SpawnThreeAction : Type := SpawnThree.
#[local] Instance SpawnThreeAction_derived : Derived SpawnThreeAction :=
  {| TYPE_CODE := 103; SCHEMA_VERSION := 1; derived_postcard := unit_codec SpawnThree |}.
Definition SpawnThreeAction_ops : list Op := (λ n, SpawnEntity n System) <$> [1; 2; 3]%positive.
#[local] Instance SpawnThreeAction_compute : ActionCompute SpawnThreeAction := λ _ _, Done SpawnThreeAction_ops.

Variant OversizedSetAction : Type := OversizedSet.
#[local] Instance OversizedSetAction_derived : Derived OversizedSetAction :=
  {| TYPE_CODE := 104; SCHEMA_VERSION := 1; derived_postcard := unit_codec OversizedSet |}.
Definition OversizedSetAction_ops : list Op := [SetComponent 1 7 (byte_str "x") U64_MAX].
#[local] Instance OversizedSetAction_compute : ActionCompute OversizedSetAction := λ _ _, Done OversizedSetAction_ops.

Variant PhantomRemovePoisonAction : Type := PhantomRemovePoison.
#[local] Instance PhantomRemovePoisonAction_derived : Derived PhantomRemovePoisonAction :=
  {| TYPE_CODE := 105; SCHEMA_VERSION := 1; derived_postcard := unit_codec PhantomRemovePoison |}.
Definition PhantomRemovePoisonAction_ops : list Op :=
  [SpawnEntity 1 System; RemoveComponent 1 99 U64_MAX; SetComponent 1 8 (byte_str "a") 90;
   SetComponent 1 9 (byte_str "b") 90].
#[local] Instance PhantomRemovePoisonAction_compute : ActionCompute PhantomRemovePoisonAction :=
  λ _ _, Done PhantomRemovePoisonAction_ops.

Variant SpawnThenScheduleAction : Type := SpawnThenSchedule.
#[local] Instance SpawnThenScheduleAction_derived : Derived SpawnThenScheduleAction :=
  {| TYPE_CODE := 106; SCHEMA_VERSION := 1; derived_postcard := unit_codec SpawnThenSchedule |}.
Definition SpawnThenScheduleAction_ops : list Op := [SpawnEntity 1 System; ScheduleAction 10 None 100 []].
#[local] Instance SpawnThenScheduleAction_compute : ActionCompute SpawnThenScheduleAction :=
  λ _ _, Done SpawnThenScheduleAction_ops.

Variant SignalTwiceAction : Type := SignalTwice.
#[local] Instance SignalTwiceAction_derived : Derived SignalTwiceAction :=
  {| TYPE_CODE := 110; SCHEMA_VERSION := 1; derived_postcard := unit_codec SignalTwice |}.
Definition SignalTwiceAction_ops : list Op := let one := SendSignal 1 1 [] in [one; one].
#[local] Instance SignalTwiceAction_compute : ActionCompute SignalTwiceAction := λ _ _, Done SignalTwiceAction_ops.

Variant SignalMissingAction : Type := SignalMissing.
#[local] Instance SignalMissingAction_derived : Derived SignalMissingAction :=
  {| TYPE_CODE := 111; SCHEMA_VERSION := 1; derived_postcard := unit_codec SignalMissing |}.
Definition SignalMissingAction_ops : list Op := [SendSignal 99 1 []].
#[local] Instance SignalMissingAction_compute : ActionCompute SignalMissingAction := λ _ _, Done SignalMissingAction_ops.

Variant ScheduleSignalChildAction : Type := ScheduleSignalChild.
#[local] Instance ScheduleSignalChildAction_derived : Derived ScheduleSignalChildAction :=
  {| TYPE_CODE := 112; SCHEMA_VERSION := 1; derived_postcard := unit_codec ScheduleSignalChild |}.
Definition ScheduleSignalChildAction_ops : list Op := [ScheduleAction 1 None (TYPE_CODE (A := SignalAction)) []].
#[local] Instance ScheduleSignalChildAction_compute : ActionCompute ScheduleSignalChildAction :=
  λ _ _, Done ScheduleSignalChildAction_ops.

Record SetCompAction : Type := mkSetComp { sc_size : N; sc_entity_id : N }.
#[local] Instance SetCompAction_eq_dec : EqDecision SetCompAction.
Proof. solve_decision. Defined.
#[local] Instance SetCompAction_countable : Countable SetCompAction.
Proof. refine (inj_countable' (λ a, (sc_size a, sc_entity_id a)) (λ '(s, e), mkSetComp s e) _). by intros []. Defined.
#[local] Instance SetCompAction_derived : Derived SetCompAction :=
  {| TYPE_CODE := 200; SCHEMA_VERSION := 1; derived_postcard := countable_postcard |}.
Definition zeros (n : N) : bytes := replicate (N.to_nat n) Byte.x00.
Definition SetCompAction_ops (self : SetCompAction) : Outcome (list Op) :=
  entity ← expect "unwrap" (EntityId_new (sc_entity_id self));
  mret [SpawnEntity entity System; SetComponent entity 7 (zeros (sc_size self)) (sc_size self)].
#[local] Instance SetCompAction_compute : ActionCompute SetCompAction := λ self _, SetCompAction_ops self.

Record TwoSetCompAction : Type := mkTwoSetComp { tsc_a : N; tsc_b : N }.
#[local] Instance TwoSetCompAction_eq_dec : EqDecision TwoSetCompAction.
Proof. solve_decision. Defined.
#[local] Instance TwoSetCompAction_countable : Countable TwoSetCompAction.
Proof. refine (inj_countable' (λ a, (tsc_a a, tsc_b a)) (λ '(a, b), mkTwoSetComp a b) _). by intros []. Defined.
#[local] Instance TwoSetCompAction_derived : Derived TwoSetCompAction :=
  {| TYPE_CODE := 201; SCHEMA_VERSION := 1; derived_postcard := countable_postcard |}.
Definition TwoSetCompAction_ops (self : TwoSetCompAction) : list Op :=
  [SpawnEntity 1 System; SpawnEntity 2 System; SetComponent 1 7 (zeros (tsc_a self)) (tsc_a self);
   SetComponent 2 7 (zeros (tsc_b self)) (tsc_b self)].
#[local] Instance TwoSetCompAction_compute : ActionCompute TwoSetCompAction := λ self _, Done (TwoSetCompAction_ops self).

(** ** Configurations *)

Definition cfg_of (caps : CapabilityMask) (entities scheduled inbox budget : N) : InstanceConfig :=
  let d := InstanceConfig_default in mkConfig caps entities scheduled inbox budget (parent d) (quota_reduction d).
Definition cfg_sys : InstanceConfig := cfg_of SYSTEM 0 0 8 0.
Definition cfg_with_budget (budget : N) : InstanceConfig := cfg_of caps_empty 0 0 0 budget.
Definition cfg_granting_system : InstanceConfig := cfg_of SYSTEM 0 0 0 0.

Definition submit_set (k : Kernel) (inst : InstanceId) (size entity_id : N) : Outcome Kernel :=
  let action := mkSetComp size entity_id in
  bs ← Action_canonical_bytes action;
  r ← submit k inst System None SYSTEM 0 (TYPE_CODE (A := SetCompAction)) bs;
  unwrap r.

(** ** Probes *)

#[local] Instance Stats_eq_dec : EqDecision Stats.
Proof. solve_decision. Defined.

(** What the counting and capturing observers of the tests look for. *)
Definition is_action_executed (e : KernelEvent) : bool := match e with ActionExecuted _ _ _ => true | _ => false end.
Definition is_delivered (e : KernelEvent) : bool := match e with SignalDelivered _ _ _ => true | _ => false end.
Definition is_dropped (why : SignalDropReason) (e : KernelEvent) : bool :=
  match e with SignalDropped _ _ reason => bool_decide (reason = why) | _ => false end.
Definition unloads_seen (k : Kernel) (h : ObserverHandle) : list (RouteId * N) :=
  omap (λ d, match d with (h', ModuleForceUnloaded route n) => if decide (h' = h) then Some (route, n) else None | _ => None end)
    (deliveries (observers k)).
Definition failures_seen (k : Kernel) (h : ObserverHandle) : list bytes :=
  omap (λ d, match d with (h', EffectFailed _ reason) => if decide (h' = h) then Some reason else None | _ => None end)
    (deliveries (observers k)).

(** A submission at tick 0 followed by a step at tick 0. *)
Definition submit_and_step (k : Kernel) (inst : InstanceId) (tc : TypeCode) : Outcome Kernel :=
  k ← sub_ok k inst System tc;
  s ← step k 0 SYSTEM;
  mret s.2.

(** ** The tests *)

Definition create_instance_returns_monotonic_ids : Outcome unit :=
  let k := Kernel_new in
  '(i1, k) ← create_instance k InstanceConfig_default;
  '(i2, k) ← create_instance k InstanceConfig_default;
  '(i3, k) ← create_instance k InstanceConfig_default;
  _ ← assert (bool_decide (i1 < i2)%positive);
  _ ← assert (bool_decide (i2 < i3)%positive);
  _ ← assert (bool_decide (InstanceId_get i1 = 1));
  _ ← assert (bool_decide (InstanceId_get i3 = 3));
  assert (bool_decide (instances_len k = 3)).

Definition submit_unknown_instance_returns_error : Outcome unit :=
  bogus ← expect "unwrap" (InstanceId_new 99);
  r ← sub Kernel_new bogus System 100;
  assert (is_error InstanceNotFound r.1).

Definition submit_back_pressures_at_max_scheduled : Outcome unit :=
  let k := Kernel_new in
  '(inst, k) ← create_instance k (cfg_of caps_empty 0 2 0 0);
  r ← sub k inst System 100;
  _ ← assert (is_ok r.1);
  r ← sub r.2 inst System 100;
  _ ← assert (is_ok r.1);
  r ← sub r.2 inst System 100;
  assert (is_error QuotaExceeded r.1).

Definition step_denies_spawns_past_max_entities : Outcome unit :=
  let k := register_action SpawnThreeAction Kernel_new in
  '(inst, k) ← create_instance k (cfg_of caps_empty 2 0 0 0);
  k ← sub_ok k inst System 103;
  '(report, k) ← step k 0 SYSTEM;
  i ← the k inst;
  _ ← assert (bool_decide (effects_applied report = 2));
  _ ← assert (bool_decide (effects_denied report = 1));
  assert (bool_decide (entities_len i = 2)).

Definition step_denies_oversized_component_no_budget_bypass : Outcome unit :=
  let k := register_action OversizedSetAction Kernel_new in
  '(inst, k) ← create_instance k (cfg_with_budget 1000);
  k ← sub_ok k inst System 104;
  '(report, k) ← step k 0 SYSTEM;
  _ ← assert (bool_decide (effects_applied report = 0));
  assert (bool_decide (effects_denied report = 1)).

Definition step_budget_above_i64_max_still_enforced : Outcome unit :=
  let k := register_action OversizedSetAction Kernel_new in
  '(inst, k) ← create_instance k (cfg_with_budget (N.shiftl 1 63));
  k ← sub_ok k inst System 104;
  '(report, k) ← step k 0 SYSTEM;
  _ ← assert (bool_decide (effects_applied report = 0));
  assert (bool_decide (effects_denied report = 1)).

Definition step_phantom_remove_does_not_bypass_budget : Outcome unit :=
  let k := register_action PhantomRemovePoisonAction Kernel_new in
  '(inst, k) ← create_instance k (cfg_with_budget 100);
  k ← sub_ok k inst System 105;
  '(report, k) ← step k 0 SYSTEM;
  i ← the k inst;
  _ ← assert (bool_decide (effects_denied report = 1));
  assert (bool_decide (total_bytes (ledger i) = 90)).

Definition step_rollback_does_not_count_applied_effects : Outcome unit :=
  let k := register_action SpawnThenScheduleAction Kernel_new in
  let '(h, k) := register_observer k quiet in
  '(inst, k) ← create_instance k InstanceConfig_default;
  k ← sub_ok k inst (External 7) 106;
  '(report, k) ← step k 0 caps_empty;
  i ← the k inst;
  _ ← assert (bool_decide (effects_applied report = 0));
  _ ← assert (bool_decide (1 ≤ effects_denied report));
  _ ← assert (bool_decide (entities_len i = 0));
  assert (bool_decide (seen k h is_action_executed = 0)).

Definition submit_then_step_executes_action_and_spawns_entity : Outcome unit :=
  let k := register_action SpawnOneAction Kernel_new in
  '(inst, k) ← create_instance k InstanceConfig_default;
  k ← sub_ok k inst System 100;
  '(report, k) ← step k 5 SYSTEM;
  i ← the k inst;
  _ ← assert (bool_decide (actions_executed report = 1));
  _ ← assert (bool_decide (effects_applied report = 1));
  _ ← assert (bool_decide (effects_denied report = 0));
  assert (bool_decide (entities_len i = 1)).

Definition step_with_unknown_type_code_skips_action : Outcome unit :=
  let k := Kernel_new in
  '(inst, k) ← create_instance k InstanceConfig_default;
  k ← sub_ok k inst System 999;
  '(report, k) ← step k 5 SYSTEM;
  i ← the k inst;
  _ ← assert (bool_decide (actions_executed report = 1));
  _ ← assert (bool_decide (effects_applied report = 0));
  assert (bool_decide (entities_len i = 0)).

Definition observer_receives_action_executed_event : Outcome unit :=
  let k := register_action SpawnOneAction Kernel_new in
  let '(h, k) := register_observer k quiet in
  '(inst, k) ← create_instance k InstanceConfig_default;
  k ← sub_ok k inst System 100;
  '(report, k) ← step k 5 SYSTEM;
  assert (bool_decide (seen k h (λ _, true) = 1)).

Definition observer_receives_domain_event_emitted : Outcome unit :=
  let k := register_action EmitAction Kernel_new in
  let '(h, k) := register_observer k quiet in
  '(inst, k) ← create_instance k InstanceConfig_default;
  k ← sub_ok k inst System 101;
  '(report, k) ← step k 5 SYSTEM;
  _ ← assert (bool_decide (domain_events_emitted report = 1));
  assert (bool_decide (seen k h (λ _, true) = 2)).

Definition panic_observer_evicted_after_first_event : Outcome unit :=
  let k := register_action SpawnOneAction Kernel_new in
  let '(h, k) := register_observer k PanicObserver in
  '(inst, k) ← create_instance k InstanceConfig_default;
  k ← sub_ok k inst System 100;
  '(report, k) ← step k 5 SYSTEM;
  _ ← assert (bool_decide (1 ≤ observers_evicted report));
  assert (is_evicted (observers k) h).

Definition unauthenticated_principal_denies_all_effects : Outcome unit :=
  let k := register_action SpawnOneAction Kernel_new in
  '(inst, k) ← create_instance k InstanceConfig_default;
  k ← sub_ok k inst Unauthenticated 100;
  '(report, k) ← step k 5 SYSTEM;
  i ← the k inst;
  _ ← assert (bool_decide (effects_denied report = 1));
  _ ← assert (bool_decide (effects_applied report = 0));
  assert (bool_decide (entities_len i = 0)).

Definition external_without_system_cap_denies_signal : Outcome unit :=
  let k := register_action SignalAction Kernel_new in
  '(inst, k) ← create_instance k InstanceConfig_default;
  k ← sub_ok k inst (External 7) 102;
  '(report, k) ← step k 5 caps_empty;
  _ ← assert (bool_decide (effects_denied report = 1));
  assert (bool_decide (effects_applied report = 0)).

Definition wal_attached_kernel_records_submit_then_step : Outcome unit :=
  let k := register_action SpawnOneAction (new_with_wal (replicate 32 Byte.x07) (replicate 32 Byte.x03)) in
  '(inst, k) ← create_instance k InstanceConfig_default;
  _ ← assert (bool_decide (kernel_wal_record_count k = Some 0));
  k ← sub_ok k inst System 100;
  _ ← assert (bool_decide (kernel_wal_record_count k = Some 1));
  pre_tip ← expect "unwrap" (wal_chain_tip k);
  '(_, k) ← step k 5 SYSTEM;
  _ ← assert (bool_decide (kernel_wal_record_count k = Some 2));
  post_tip ← expect "unwrap" (wal_chain_tip k);
  assert (bool_decide (pre_tip ≠ post_tip)).

Definition wal_kernel_export_then_verify_chain : Outcome unit :=
  let k := register_action SpawnOneAction (new_with_wal (replicate 32 Byte.x0b) (replicate 32 Byte.x00)) in
  '(inst, k) ← create_instance k InstanceConfig_default;
  k ← fold_outcome (λ k _, submit_and_step k inst 100) k (seq 0 3);
  w ← expect "wal attached" (export_wal k);
  _ ← assert (bool_decide (len (records w) = 6));
  r ← verify_chain w (replicate 32 Byte.x0b);
  assert (is_ok r).

Definition replay_reconstructs_chain_tip : Outcome unit :=
  let k1 := register_action SpawnOneAction (new_with_wal (replicate 32 Byte.x2a) (replicate 32 Byte.x00)) in
  '(i1, k1) ← create_instance k1 InstanceConfig_default;
  k1 ← fold_outcome (λ k _, submit_and_step k i1 100) k1 (seq 0 4);
  original_tip ← expect "unwrap" (wal_chain_tip k1);
  w ← expect "unwrap" (export_wal k1);
  let k2 := register_action SpawnOneAction (new_with_wal (replicate 32 Byte.x2a) (replicate 32 Byte.x00)) in
  '(_, k2) ← create_instance k2 InstanceConfig_default;
  r ← replay_into ArkheError_display k2 w;
  match r.2 with
  | Err _ => Panicked "replay ok"
  | Ok report =>
      _ ← assert (bool_decide (submits_replayed report = 4));
      _ ← assert (bool_decide (steps_replayed report = 4));
      assert (bool_decide (final_chain_tip report = original_tip))
  end.

Definition step_processes_instances_in_ascending_order : Outcome unit :=
  let k := register_action SpawnOneAction Kernel_new in
  '(i1, k) ← create_instance k InstanceConfig_default;
  '(i2, k) ← create_instance k InstanceConfig_default;
  k ← sub_ok k i2 System 100;
  k ← sub_ok k i1 System 100;
  '(report, k) ← step k 5 SYSTEM;
  _ ← assert (bool_decide (actions_executed report = 2));
  assert (bool_decide (effects_applied report = 2)).

Definition stats_aggregate_reflects_instances_and_scheduler : Outcome unit :=
  let k := register_action SpawnOneAction Kernel_new in
  _ ← assert (bool_decide (stats k = mkStats 0 0 0 0 0 0));
  '(i1, k) ← create_instance k InstanceConfig_default;
  '(i2, k) ← create_instance k InstanceConfig_default;
  let stats_pre := stats k in
  _ ← assert (bool_decide (instance_count stats_pre = 2));
  _ ← assert (bool_decide (scheduled_action_count stats_pre = 0));
  _ ← assert (bool_decide (entity_count stats_pre = 0));
  k ← sub_ok k i1 System 100;
  k ← sub_ok k i2 System 100;
  _ ← assert (bool_decide (scheduled_action_count (stats k) = 2));
  '(_, k) ← step k 1 SYSTEM;
  _ ← assert (bool_decide (scheduled_action_count (stats k) = 0));
  assert (bool_decide (entity_count (stats k) = 2)).

Definition stats_counts_observers : Outcome unit :=
  let k := (register_observer Kernel_new quiet).2 in
  let k := (register_observer k quiet).2 in
  assert (bool_decide (observer_count (stats k) = 2)).

Definition stats_wal_record_count_reflects_writer : Outcome unit :=
  let k := register_action SpawnOneAction (new_with_wal (replicate 32 Byte.x01) (replicate 32 Byte.x00)) in
  _ ← assert (bool_decide (wal_record_count (stats k) = 0));
  '(i, k) ← create_instance k InstanceConfig_default;
  k ← sub_ok k i System 100;
  '(_, k) ← step k 1 SYSTEM;
  assert (bool_decide (wal_record_count (stats k) = 2)).

Definition force_unload_without_cap_denied : Outcome unit :=
  assert (is_error CapabilityDenied (force_unload Kernel_new 1 caps_empty).1).

Definition force_unload_removes_inflight_refs : Outcome unit :=
  let k := register_action SignalAction Kernel_new in
  '(inst, k) ← create_instance k cfg_granting_system;
  k ← sub_ok k inst System 102;
  '(report, k) ← step k 0 SYSTEM;
  _ ← assert (bool_decide (effects_applied report = 1));
  i ← the k inst;
  _ ← assert (bool_decide (inflight_refs_for i 1 = 1));
  let '(r, k) := force_unload k 1 ADMIN_UNLOAD in
  dropped ← of_result r;
  _ ← assert (bool_decide (dropped = 1));
  i ← the k inst;
  _ ← assert (bool_decide (inflight_refs_for i 1 = 0));
  assert (bool_decide (inflight_refs_len i = 0)).

Definition force_unload_emits_module_unloaded_event : Outcome unit :=
  let k := register_action SignalAction Kernel_new in
  let '(h, k) := register_observer k quiet in
  '(inst, k) ← create_instance k cfg_granting_system;
  k ← sub_ok k inst System 102;
  '(report, k) ← step k 0 SYSTEM;
  let '(r, k) := force_unload k 1 ADMIN_UNLOAD in
  _ ← of_result r;
  assert (bool_decide (unloads_seen k h = [(1, 1)])).

Definition force_unload_no_live_refs_returns_zero : Outcome unit :=
  let k := Kernel_new in
  '(_, k) ← create_instance k InstanceConfig_default;
  dropped ← of_result (force_unload k 99 ADMIN_UNLOAD).1;
  assert (bool_decide (dropped = 0)).

Definition system_no_longer_blanket_bypasses : Outcome unit :=
  let k := register_action SignalAction Kernel_new in
  '(inst, k) ← create_instance k InstanceConfig_default;
  k ← sub_ok k inst System 102;
  '(report, k) ← step k 0 SYSTEM;
  _ ← assert (bool_decide (effects_denied report = 1));
  assert (bool_decide (effects_applied report = 0)).

Definition signal_delivered_routes_to_inbox : Outcome unit :=
  let k := register_action SignalAction Kernel_new in
  let '(h, k) := register_observer k quiet in
  '(inst, k) ← create_instance k cfg_sys;
  k ← sub_ok k inst System 102;
  '(report, k) ← step k 0 SYSTEM;
  i ← the k inst;
  _ ← assert (bool_decide (effects_applied report = 1));
  _ ← assert (bool_decide (inbox_len i 1 = 1));
  _ ← assert (bool_decide (inflight_refs_for i 1 = 1));
  assert (bool_decide (seen k h is_delivered = 1)).

Definition signal_dropped_target_not_found : Outcome unit :=
  let k := register_action SignalMissingAction Kernel_new in
  let '(h, k) := register_observer k quiet in
  '(inst, k) ← create_instance k cfg_sys;
  k ← sub_ok k inst System 111;
  '(report, k) ← step k 0 SYSTEM;
  i ← the k inst;
  _ ← assert (bool_decide (effects_applied report = 1));
  _ ← assert (bool_decide (seen k h (is_dropped TargetNotFound) = 1));
  _ ← assert (bool_decide (seen k h is_delivered = 0));
  assert (bool_decide (inflight_refs_for i 1 = 0)).

Definition signal_dropped_queue_full : Outcome unit :=
  let k := register_action SignalTwiceAction Kernel_new in
  let '(h, k) := register_observer k quiet in
  '(inst, k) ← create_instance k (cfg_of SYSTEM 0 0 1 0);
  k ← sub_ok k inst System 110;
  '(_, k) ← step k 0 SYSTEM;
  i ← the k inst;
  _ ← assert (bool_decide (seen k h is_delivered = 1));
  _ ← assert (bool_decide (seen k h (is_dropped QueueFull) = 1));
  _ ← assert (bool_decide (inbox_len i 1 = 1));
  assert (bool_decide (inflight_refs_for i 1 = 1)).

Definition cap_time_shift_unrepresentable : Outcome unit :=
  let k := register_action SignalAction (register_action ScheduleSignalChildAction Kernel_new) in
  '(inst, k) ← create_instance k cfg_sys;
  k ← sub_ok k inst System 112;
  '(r0, k) ← step k 0 SYSTEM;
  _ ← assert (bool_decide (effects_applied r0 = 1));
  '(r1, k) ← step k 1 caps_empty;
  i ← the k inst;
  _ ← assert (bool_decide (actions_executed r1 = 1));
  _ ← assert (bool_decide (effects_applied r1 = 0));
  assert (bool_decide (inbox_len i 1 = 0)).

Definition budget_zero_allows_unlimited : Outcome unit :=
  let k := register_action SetCompAction Kernel_new in
  '(inst, k) ← create_instance k InstanceConfig_default;
  k ← submit_set k inst 1000000 1;
  '(report, k) ← step k 0 SYSTEM;
  i ← the k inst;
  _ ← assert (bool_decide (effects_applied report = 2));
  _ ← assert (bool_decide (effects_denied report = 0));
  assert (bool_decide (components_len i = 1)).

Definition budget_exceeded_denies_op : Outcome unit :=
  let k := register_action SetCompAction Kernel_new in
  '(inst, k) ← create_instance k (cfg_with_budget 100);
  k ← submit_set k inst 500 1;
  '(report, k) ← step k 0 SYSTEM;
  i ← the k inst;
  _ ← assert (bool_decide (effects_applied report = 1));
  _ ← assert (bool_decide (effects_denied report = 1));
  _ ← assert (bool_decide (actions_executed report = 1));
  _ ← assert (bool_decide (entities_len i = 1));
  assert (bool_decide (components_len i = 0)).

Definition budget_at_edge_allows_equal : Outcome unit :=
  let k := register_action SetCompAction Kernel_new in
  '(inst, k) ← create_instance k (cfg_with_budget 500);
  k ← submit_set k inst 500 1;
  '(report, k) ← step k 0 SYSTEM;
  i ← the k inst;
  _ ← assert (bool_decide (effects_applied report = 2));
  _ ← assert (bool_decide (effects_denied report = 0));
  _ ← assert (bool_decide (components_len i = 1));
  assert (bool_decide (total_bytes (ledger i) = 500)).

Definition multi_op_stage_respects_running_delta : Outcome unit :=
  let k := register_action TwoSetCompAction Kernel_new in
  '(inst, k) ← create_instance k (cfg_with_budget 600);
  bs ← Action_canonical_bytes (mkTwoSetComp 400 400);
  r ← submit k inst System None SYSTEM 0 (TYPE_CODE (A := TwoSetCompAction)) bs;
  k ← unwrap r;
  '(report, k) ← step k 0 SYSTEM;
  i ← the k inst;
  _ ← assert (bool_decide (effects_applied report = 3));
  _ ← assert (bool_decide (effects_denied report = 1));
  _ ← assert (bool_decide (entities_len i = 2));
  _ ← assert (bool_decide (components_len i = 1));
  assert (bool_decide (total_bytes (ledger i) = 400)).

Definition effect_failed_event_on_budget_deny : Outcome unit :=
  let k := register_action SetCompAction Kernel_new in
  let '(h, k) := register_observer k quiet in
  '(inst, k) ← create_instance k (cfg_with_budget 100);
  k ← submit_set k inst 500 1;
  '(_, k) ← step k 0 SYSTEM;
  assert (bool_decide (failures_seen k h = [byte_str "budget_exceeded"])).

Definition event_mask_default_is_all : Outcome unit :=
  let m := EventMask_default in
  _ ← assert (bool_decide (m = EM_ALL));
  _ ← assert (mask_contains m EM_ACTION_EXECUTED);
  _ ← assert (mask_contains m EM_DOMAIN_EVENT_EMITTED);
  assert (mask_contains m EM_MODULE_FORCE_UNLOADED).

Definition register_observer_backward_compat_receives_all : Outcome unit :=
  let k := register_action EmitAction Kernel_new in
  let '(h, k) := register_observer k quiet in
  '(inst, k) ← create_instance k InstanceConfig_default;
  k ← sub_ok k inst System 101;
  '(_, k) ← step k 0 SYSTEM;
  _ ← assert (bool_decide (seen k h is_action_executed = 1));
  assert (bool_decide (seen k h is_domain_event = 1)).

Definition filter_only_action_executed : Outcome unit :=
  let k := register_action EmitAction Kernel_new in
  let '(h, k) := register_observer_filtered k quiet EM_ACTION_EXECUTED in
  '(inst, k) ← create_instance k InstanceConfig_default;
  k ← sub_ok k inst System 101;
  '(_, k) ← step k 0 SYSTEM;
  _ ← assert (bool_decide (seen k h is_action_executed = 1));
  assert (bool_decide (seen k h is_domain_event = 0)).

Definition filter_domain_event_only : Outcome unit :=
  let k := register_action EmitAction Kernel_new in
  let '(h, k) := register_observer_filtered k quiet EM_DOMAIN_EVENT_EMITTED in
  '(inst, k) ← create_instance k InstanceConfig_default;
  k ← sub_ok k inst System 101;
  '(_, k) ← step k 0 SYSTEM;
  _ ← assert (bool_decide (seen k h is_action_executed = 0));
  assert (bool_decide (seen k h is_domain_event = 1)).

Definition multiple_observers_independent_masks : Outcome unit :=
  let k := register_action EmitAction Kernel_new in
  let '(a, k) := register_observer_filtered k quiet EM_ACTION_EXECUTED in
  let '(b, k) := register_observer_filtered k quiet EM_DOMAIN_EVENT_EMITTED in
  '(inst, k) ← create_instance k InstanceConfig_default;
  k ← sub_ok k inst System 101;
  '(_, k) ← step k 0 SYSTEM;
  _ ← assert (bool_decide (seen k a is_action_executed = 1));
  _ ← assert (bool_decide (seen k a is_domain_event = 0));
  _ ← assert (bool_decide (seen k b is_action_executed = 0));
  assert (bool_decide (seen k b is_domain_event = 1)).

Definition filter_empty_mask_receives_nothing : Outcome unit :=
  let k := register_action EmitAction Kernel_new in
  let '(h, k) := register_observer_filtered k quiet 0 in
  '(inst, k) ← create_instance k InstanceConfig_default;
  k ← sub_ok k inst System 101;
  '(_, k) ← step k 0 SYSTEM;
  assert (bool_decide (seen k h (λ _, true) = 0)).

Definition kernel_tests : Suite :=
  [("create_instance_returns_monotonic_ids", create_instance_returns_monotonic_ids);
   ("submit_unknown_instance_returns_error", submit_unknown_instance_returns_error);
   ("submit_back_pressures_at_max_scheduled", submit_back_pressures_at_max_scheduled);
   ("step_denies_spawns_past_max_entities", step_denies_spawns_past_max_entities);
   ("step_denies_oversized_component_no_budget_bypass", step_denies_oversized_component_no_budget_bypass);
   ("step_budget_above_i64_max_still_enforced", step_budget_above_i64_max_still_enforced);
   ("step_phantom_remove_does_not_bypass_budget", step_phantom_remove_does_not_bypass_budget);
   ("step_rollback_does_not_count_applied_effects", step_rollback_does_not_count_applied_effects);
   ("submit_then_step_executes_action_and_spawns_entity", submit_then_step_executes_action_and_spawns_entity);
   ("step_with_unknown_type_code_skips_action", step_with_unknown_type_code_skips_action);
   ("observer_receives_action_executed_event", observer_receives_action_executed_event);
   ("observer_receives_domain_event_emitted", observer_receives_domain_event_emitted);
   ("panic_observer_evicted_after_first_event", panic_observer_evicted_after_first_event);
   ("unauthenticated_principal_denies_all_effects", unauthenticated_principal_denies_all_effects);
   ("external_without_system_cap_denies_signal", external_without_system_cap_denies_signal);
   ("wal_attached_kernel_records_submit_then_step", wal_attached_kernel_records_submit_then_step);
   ("wal_kernel_export_then_verify_chain", wal_kernel_export_then_verify_chain);
   ("replay_reconstructs_chain_tip", replay_reconstructs_chain_tip);
   ("step_processes_instances_in_ascending_order", step_processes_instances_in_ascending_order);
   ("stats_aggregate_reflects_instances_and_scheduler", stats_aggregate_reflects_instances_and_scheduler);
   ("stats_counts_observers", stats_counts_observers);
   ("stats_wal_record_count_reflects_writer", stats_wal_record_count_reflects_writer);
   ("force_unload_without_cap_denied", force_unload_without_cap_denied);
   ("force_unload_removes_inflight_refs", force_unload_removes_inflight_refs);
   ("force_unload_emits_module_unloaded_event", force_unload_emits_module_unloaded_event);
   ("force_unload_no_live_refs_returns_zero", force_unload_no_live_refs_returns_zero);
   ("system_no_longer_blanket_bypasses", system_no_longer_blanket_bypasses);
   ("signal_delivered_routes_to_inbox", signal_delivered_routes_to_inbox);
   ("signal_dropped_target_not_found", signal_dropped_target_not_found);
   ("signal_dropped_queue_full", signal_dropped_queue_full);
   ("cap_time_shift_unrepresentable", cap_time_shift_unrepresentable);
   ("budget_zero_allows_unlimited", budget_zero_allows_unlimited);
   ("budget_exceeded_denies_op", budget_exceeded_denies_op);
   ("budget_at_edge_allows_equal", budget_at_edge_allows_equal);
   ("multi_op_stage_respects_running_delta", multi_op_stage_respects_running_delta);
   ("effect_failed_event_on_budget_deny", effect_failed_event_on_budget_deny);
   ("event_mask_default_is_all", event_mask_default_is_all);
   ("register_observer_backward_compat_receives_all", register_observer_backward_compat_receives_all);
   ("filter_only_action_executed", filter_only_action_executed);
   ("filter_domain_event_only", filter_domain_event_only);
   ("multiple_observers_independent_masks", multiple_observers_independent_masks);
   ("filter_empty_mask_receives_nothing", filter_empty_mask_receives_nothing)].

(** All of them pass. *)
Lemma kernel_tests_pass : len kernel_tests = 42 ∧ failing kernel_tests = [].
Proof. split; vm_compute; reflexivity. Qed.
