(* ===== verification/WalTests.v ===== *)
(** * The unit tests of the log, on the model

    The test module of [src/arkhe-kernel/src/persist/wal.rs], translated and
    run by evaluation: on the BLAKE3 of [Blake3], the wire format of [Wire] and
    the signature scheme of [TestKit]. The digests the tests pin are those of
    the repository, so the header, the records and the sealing are checked
    down to their bytes. *)
From S2P Require Import Prelude Abi Quota Extern Blake3 Authz Ledger Scheduler Instance Event.
From S2P Require Import Observer Stage Signature Wal Registry Kernel Replay TestKit Wire.

Local Open Scope N_scope.

(** ** Fixtures *)

Definition fill (b : byte) : bytes := replicate 32 b.
Definition world : bytes := fill Byte.x07.
Definition manifest : bytes := fill Byte.x03.
Definition fresh : WalWriter := WalWriter_new world manifest.

(** [w.append_...(...).unwrap()]. *)
Definition appended (r : Result WalError WalRecord * WalWriter) : Outcome WalWriter :=
  match r with (Ok _, w) => Done w | (Err _, _) => Panicked "called unwrap on an Err value" end.
Definition submit_one (w : WalWriter) : Outcome WalWriter :=
  appended (append_submit w 1 System None 0xFF 0 100 [Byte.x01; Byte.x02; Byte.x03] 1).
Definition step_n (w : WalWriter) (n : byte) : Outcome WalWriter :=
  appended (append_step w 1 1 (Byte.to_N n) 0xFF Committed (fill n)).
Definition append_one (w : WalWriter) : Outcome WalWriter := step_n w Byte.x01.
Definition append_times (n : nat) (w : WalWriter) : Outcome WalWriter := fold_outcome (λ w _, append_one w) w (seq 0 n).
Definition step_each (w : WalWriter) (ns : list byte) : Outcome WalWriter := fold_outcome step_n w ns.

Definition ed25519_writer (secret : byte) : WalWriter := with_signature world manifest (new_ed25519_from_secret (fill secret)).
Definition hybrid_writer (secret seed : byte) : WalWriter :=
  with_signature world manifest (new_hybrid_from_secrets (fill secret) (fill seed)).

(** [wal.verify_chain(world).expect("...")]. *)
Definition verifies (w : Wal) : Outcome unit := r ← verify_chain w world; assert (is_ok r).
Definition verify_fails (w : Wal) (in_world : bytes) (f : WalError → bool) : Outcome unit :=
  r ← verify_chain w in_world; assert (fails_with f r).
(** [Wal::deserialize(&wal.serialize().unwrap()).unwrap()]. *)
Definition reread (w : Wal) : Outcome Wal := bs ← of_result (serialize w); of_result (deserialize bs).

(** Tampering: [bytes[0] ^= m], and edits of one record. *)
Definition flip (m : N) (bs : bytes) : bytes :=
  match bs with b :: bs' => default b (Byte.of_N (N.lxor (Byte.to_N b) m)) :: bs' | [] => [] end.
Definition tamper (i : nat) (f : WalRecord → WalRecord) (w : Wal) : Wal := mkWal (header w) (alter f i (records w)).
Definition set_content (f : WalRecordContent → WalRecordContent) (r : WalRecord) : WalRecord :=
  mkRecord (f (content r)) (prev_chain_hash r) (this_chain_hash r) (signature r) (signature_pqc r).
Definition set_prev (f : bytes → bytes) (r : WalRecord) : WalRecord :=
  mkRecord (content r) (f (prev_chain_hash r)) (this_chain_hash r) (signature r) (signature_pqc r).
Definition set_signature (f : option bytes → option bytes) (r : WalRecord) : WalRecord :=
  mkRecord (content r) (prev_chain_hash r) (this_chain_hash r) (f (signature r)) (signature_pqc r).
Definition set_signature_pqc (f : option bytes → option bytes) (r : WalRecord) : WalRecord :=
  mkRecord (content r) (prev_chain_hash r) (this_chain_hash r) (signature r) (f (signature_pqc r)).
Definition set_vk (vk : option bytes) (w : Wal) : Wal :=
  let h := header w in
  mkWal (mkHeader (magic h) (kernel_semver h) (postcard_version h) (blake3_version h) (domain_separation_context h)
           (world_id h) (abi_version h) (header_manifest_digest h) (type_registry_pins h) vk (header_verifying_key_pqc h))
    (records w).

(** ** The chain *)

Definition empty_writer_serializes_and_deserializes : Outcome unit :=
  let w := from_writer fresh in
  back ← reread w;
  _ ← assert (bool_decide (to_allocvec (header back) = to_allocvec (header w)));
  _ ← assert (bool_decide (len (records back) = 0));
  assert (bool_decide (chain_tip back = zero32)).

Definition single_step_append_produces_nonzero_chain_tip : Outcome unit :=
  w ← append_one fresh;
  _ ← assert (bool_decide (writer_chain_tip w ≠ zero32));
  assert (bool_decide (record_count w = 1)).

Definition multi_record_chain_links_each_record : Outcome unit :=
  w ← step_each fresh [Byte.x00; Byte.x01; Byte.x02; Byte.x03; Byte.x04];
  let wal := from_writer w in
  _ ← assert (bool_decide (len (records wal) = 5));
  _ ← fold_outcome (λ prev rec, _ ← assert (bool_decide (prev_chain_hash rec = prev)); mret (this_chain_hash rec))
        zero32 (records wal);
  verifies wal.

Definition submit_and_step_chain_verifies : Outcome unit :=
  w ← submit_one fresh;
  w ← step_n w Byte.x02;
  let wal := from_writer w in
  _ ← assert (bool_decide ((λ r, (record_kind r, record_seq r)) <$> records wal = [(KindSubmit, 1); (KindStep, 2)]));
  verifies wal.

Definition tampered_step_body_breaks_verify_chain : Outcome unit :=
  w ← step_each fresh [Byte.x00; Byte.x01; Byte.x02];
  let forge c := match c with
                 | CStep s i id t cs v d => CStep s i id t cs v (flip 0xFF d)
                 | CSubmit _ _ _ _ _ _ _ _ _ => c
                 end in
  verify_fails (tamper 1 (set_content forge) (from_writer w)) world
    (λ e, match e with HashMismatch _ => true | _ => false end).

Definition verify_chain_detects_broken_prev_link : Outcome unit :=
  w ← step_each fresh [Byte.x00; Byte.x01; Byte.x02];
  verify_fails (tamper 1 (set_prev (flip 1)) (from_writer w)) world
    (λ e, match e with ChainBroken i => bool_decide (i = 1) | _ => false end).

Definition different_world_id_produces_different_chain : Outcome unit :=
  w1 ← append_one (WalWriter_new (fill Byte.x01) manifest);
  w2 ← append_one (WalWriter_new (fill Byte.x02) manifest);
  assert (bool_decide (writer_chain_tip w1 ≠ writer_chain_tip w2)).

Definition verify_chain_against_wrong_world_id_fails : Outcome unit :=
  w ← append_one fresh;
  verify_fails (from_writer w) (fill Byte.x63) (λ e, match e with HashMismatch _ => true | _ => false end).

Definition step_verdict_round_trips : Outcome unit :=
  w ← appended (append_step fresh 1 1 0 0xFF (BudgetPartial 3) (fill Byte.x04));
  back ← reread (from_writer w);
  match content <$> records back with
  | CStep _ _ _ _ _ verdict _ :: _ => assert (bool_decide (verdict = BudgetPartial 3))
  | _ => Panicked "expected Step"
  end.

Definition submit_record_round_trips_inputs : Outcome unit :=
  let action_bytes := [Byte.x09; Byte.x08; Byte.x07] in
  w ← appended (append_submit fresh 9 (External 7) (Some 42%positive) 0xDEADBEEF 5 101 action_bytes 3);
  back ← reread (from_writer w);
  match content <$> records back with
  | CSubmit _ instance _ actor caps _ _ bs id :: _ =>
      _ ← assert (bool_decide (instance = 9%positive));
      _ ← assert (bool_decide (actor = Some 42%positive));
      _ ← assert (bool_decide (caps = 0xDEADBEEF));
      _ ← assert (bool_decide (id = 3%positive));
      _ ← assert (bool_decide (bs = action_bytes));
      verifies back
  | _ => Panicked "expected Submit"
  end.

Definition header_carries_magic_and_versions : Outcome unit :=
  let h := w_header fresh in
  _ ← assert (bool_decide (magic h = byte_str "ARKHEWAL"));
  _ ← assert (bool_decide (kernel_semver h = (0, 15, 0)));
  _ ← assert (bool_decide (abi_version h = (0, 15)));
  _ ← assert (bool_decide (world_id h = world));
  _ ← assert (bool_decide (header_manifest_digest h = manifest));
  _ ← assert (match type_registry_pins h with [] => true | _ => false end);
  assert (bool_decide (header_verifying_key h = None)).

(** ** Ed25519 *)

Definition signature_class_none_produces_no_signature : Outcome unit :=
  w ← append_one fresh;
  let wal := from_writer w in
  _ ← assert (bool_decide (header_verifying_key (header wal) = None));
  _ ← assert (bool_decide (signature <$> records wal = [None]));
  verifies wal.

Definition signature_class_ed25519_signs_each_record : Outcome unit :=
  w ← append_times 3 (ed25519_writer Byte.x07);
  let wal := from_writer w in
  _ ← assert (bool_decide (is_Some (header_verifying_key (header wal))));
  assert (bool_decide ((λ r, len <$> signature r) <$> records wal = [Some 64; Some 64; Some 64])).

Definition verify_chain_validates_signatures : Outcome unit :=
  w ← append_times 3 (ed25519_writer Byte.x0b);
  back ← reread (from_writer w);
  verifies back.

Definition tampered_signature_fails_verify : Outcome unit :=
  w ← append_times 2 (ed25519_writer Byte.x0d);
  verify_fails (tamper 1 (set_signature (fmap (flip 0xFF))) (from_writer w)) world
    (λ e, match e with SignatureMismatch i => bool_decide (i = 1) | _ => false end).

Definition missing_signature_fails_verify_when_header_has_key : Outcome unit :=
  w ← append_one (ed25519_writer Byte.x11);
  verify_fails (tamper 0 (set_signature (λ _, None)) (from_writer w)) world
    (λ e, match e with MissingSignature i => bool_decide (i = 0) | _ => false end).

Definition wrong_key_fails_verify : Outcome unit :=
  w ← append_one (ed25519_writer Byte.x13);
  other ← expect "unwrap" (verifying_key_bytes (new_ed25519_from_secret (fill Byte.x17)));
  verify_fails (set_vk (Some other) (from_writer w)) world
    (λ e, match e with SignatureMismatch i => bool_decide (i = 0) | _ => false end).

Definition signature_deterministic_across_runs : Outcome unit :=
  let mk := w ← append_times 2 (ed25519_writer Byte.x1d); mret (signature <$> w_records w) in
  sigs1 ← mk;
  sigs2 ← mk;
  _ ← assert (bool_decide (sigs1 = sigs2));
  assert (bool_decide (head sigs1 ≫= (λ s, len <$> s) = Some 64)).

Definition wal_record_persists_actor_for_replay_determinism : Outcome unit :=
  w ← appended (append_submit fresh 1 System (Some 42%positive) 0 0 100 [Byte.x01; Byte.x02; Byte.x03] 1);
  let wal := from_writer w in
  match content <$> records wal with
  | CSubmit _ _ _ actor _ _ _ _ _ :: _ => _ ← assert (bool_decide (actor = Some 42%positive)); verifies wal
  | _ => Panicked "expected Submit"
  end.

Definition verify_chain_anchored_rejects_downgrade_and_substitution : Outcome unit :=
  let sig := new_ed25519_from_secret (fill Byte.x07) in
  vk ← expect "unwrap" (verifying_key_bytes sig);
  w ← append_one (with_signature world manifest sig);
  let wal := from_writer w in
  good ← verify_chain_anchored wal world (mkAnchor (Some TierEd25519) (Some vk) None None None);
  _ ← assert (is_ok good);
  downgrade ← verify_chain_anchored wal world (mkAnchor (Some TierHybrid) None None None None);
  _ ← assert (fails_with (λ e, match e with TierDowngrade => true | _ => false end) downgrade);
  wrong_key ← verify_chain_anchored wal world (mkAnchor (Some TierEd25519) (Some (fill Byte.xab)) None None None);
  assert (fails_with (λ e, match e with VerifyingKeyMismatch => true | _ => false end) wrong_key).

(** ** Hybrid *)

Definition hybrid_writer_emits_both_signatures : Outcome unit :=
  w ← append_times 3 (hybrid_writer Byte.x07 Byte.x0b);
  let wal := from_writer w in
  _ ← assert (bool_decide (len <$> header_verifying_key (header wal) = Some 32));
  _ ← assert (bool_decide (len <$> header_verifying_key_pqc (header wal) = Some 1952));
  let lengths r := (len <$> signature r, len <$> signature_pqc r) in
  assert (bool_decide (lengths <$> records wal = replicate 3 (Some 64, Some 3309))).

Definition hybrid_verify_chain_and_mode_passes_with_both_valid : Outcome unit :=
  w ← append_times 3 (hybrid_writer Byte.x0d Byte.x11);
  back ← reread (from_writer w);
  verifies back.

Definition hybrid_verify_chain_rejects_missing_pqc : Outcome unit :=
  w ← append_one (hybrid_writer Byte.x13 Byte.x17);
  verify_fails (tamper 0 (set_signature_pqc (λ _, None)) (from_writer w)) world
    (λ e, match e with MissingPqcSignature i => bool_decide (i = 0) | _ => false end).

Definition hybrid_verify_chain_rejects_corrupt_pqc_signature : Outcome unit :=
  w ← append_times 2 (hybrid_writer Byte.x1d Byte.x1f);
  verify_fails (tamper 1 (set_signature_pqc (fmap (flip 0xFF))) (from_writer w)) world
    (λ e, match e with PqcSignatureMismatch i => bool_decide (i = 1) | _ => false end).

Definition hybrid_verify_chain_rejects_corrupt_ed25519_when_pqc_valid : Outcome unit :=
  w ← append_times 2 (hybrid_writer Byte.x25 Byte.x29);
  verify_fails (tamper 0 (set_signature (fmap (flip 0xFF))) (from_writer w)) world
    (λ e, match e with PqcSignatureMismatch i => bool_decide (i = 0) | _ => false end).

Definition ed25519_only_wal_replays_under_hybrid_kernel : Outcome unit :=
  w ← append_times 3 (ed25519_writer Byte.x2b);
  let wal := from_writer w in
  _ ← assert (bool_decide (is_Some (header_verifying_key (header wal))));
  _ ← assert (bool_decide (header_verifying_key_pqc (header wal) = None));
  _ ← assert (forallb (λ r, bool_decide (is_Some (signature r)) && bool_decide (signature_pqc r = None)) (records wal));
  back ← reread wal;
  verifies back.

Definition pqc_without_ed25519_envelope_rejected : Outcome unit :=
  verify_fails (set_vk None (from_writer (hybrid_writer Byte.x2f Byte.x35))) world
    (λ e, match e with PqcWithoutEd25519 => true | _ => false end).

(** ** Frozen bytes *)

(** [wal.records[0]] of a log of one record. *)
Definition first_record (w : WalWriter) : Outcome WalRecord := expect "index" (head (records (from_writer w))).
Definition encoded {A} `{Postcard A} (x : A) : Outcome bytes := of_result (to_allocvec x).
Definition hash_hex (bs : bytes) : string := to_hex (blake3_hash bs).

Definition domain_ctx_byte_identity_blake3 : Outcome unit :=
  _ ← assert (bool_decide (DOMAIN_CTX = byte_str "arkhe-kernel v0.15 WAL chain domain separation context"));
  _ ← assert (bool_decide (len DOMAIN_CTX = 54));
  assert (String.eqb (hash_hex DOMAIN_CTX) "3e1aa9478e76820fbdb31ca8fdf136df81d83635e2925584934cfa110f682129").

Definition submit_record_postcard_layout_byte_identity : Outcome unit :=
  w ← appended (append_submit fresh 99 System (Some 5%positive) 0xCAFE 42 0xBEEF [Byte.xaa; Byte.xbb; Byte.xcc] 7);
  rec ← first_record w;
  bs ← encoded rec;
  assert (String.eqb (hash_hex bs) "43e10a825aa2b78cbbe59114fc546c31f64c8ffdf00dada54127bdc598967562").

Definition step_record_postcard_layout_byte_identity : Outcome unit :=
  w ← appended (append_step fresh 99 13 42 0xC0FFEE (BudgetPartial 2) (fill Byte.x5a));
  rec ← first_record w;
  bs ← encoded rec;
  assert (String.eqb (hash_hex bs) "44a440370648b160fa342075d77a1fd72629c1fde3467c0458c34c36d2ae4aa9").

Definition chain_hash_frozen_for_step_record : Outcome unit :=
  w ← appended (append_step fresh 1 1 0 0xFF Committed (fill Byte.x09));
  rec ← first_record w;
  assert (String.eqb (to_hex (this_chain_hash rec)) "0627f6472e44e5af82b9019698b80adc08fe02a5ffcf081b79a3ea824556df14").

Definition wal_record_hybrid_layout_byte_identity : Outcome unit :=
  w ← append_one (ed25519_writer Byte.x13);
  rec ← first_record w;
  baseline_encoded ← encoded rec;
  with_pqc_encoded ← encoded (set_signature_pqc (λ _, Some (replicate 3309 Byte.xab)) rec);
  assert (bool_decide (len with_pqc_encoded - len baseline_encoded = 3311)).

Definition wal_header_verifying_key_pqc_slot_pinned : Outcome unit :=
  let h := w_header fresh in
  _ ← assert (bool_decide (header_verifying_key h = None));
  _ ← assert (bool_decide (header_verifying_key_pqc h = None));
  let h_pqc := mkHeader (magic h) (kernel_semver h) (postcard_version h) (blake3_version h)
                 (domain_separation_context h) (world_id h) (abi_version h) (header_manifest_digest h)
                 (type_registry_pins h) (header_verifying_key h) (Some (replicate 1952 Byte.xcd)) in
  baseline ← encoded h;
  with_pqc ← encoded h_pqc;
  assert (bool_decide (len with_pqc - len baseline = 1954)).

Definition wal_tests : Suite :=
  [("empty_writer_serializes_and_deserializes", empty_writer_serializes_and_deserializes);
   ("single_step_append_produces_nonzero_chain_tip", single_step_append_produces_nonzero_chain_tip);
   ("multi_record_chain_links_each_record", multi_record_chain_links_each_record);
   ("submit_and_step_chain_verifies", submit_and_step_chain_verifies);
   ("tampered_step_body_breaks_verify_chain", tampered_step_body_breaks_verify_chain);
   ("verify_chain_detects_broken_prev_link", verify_chain_detects_broken_prev_link);
   ("different_world_id_produces_different_chain", different_world_id_produces_different_chain);
   ("verify_chain_against_wrong_world_id_fails", verify_chain_against_wrong_world_id_fails);
   ("step_verdict_round_trips", step_verdict_round_trips);
   ("submit_record_round_trips_inputs", submit_record_round_trips_inputs);
   ("header_carries_magic_and_versions", header_carries_magic_and_versions);
   ("signature_class_none_produces_no_signature", signature_class_none_produces_no_signature);
   ("signature_class_ed25519_signs_each_record", signature_class_ed25519_signs_each_record);
   ("verify_chain_validates_signatures", verify_chain_validates_signatures);
   ("tampered_signature_fails_verify", tampered_signature_fails_verify);
   ("missing_signature_fails_verify_when_header_has_key", missing_signature_fails_verify_when_header_has_key);
   ("wrong_key_fails_verify", wrong_key_fails_verify);
   ("signature_deterministic_across_runs", signature_deterministic_across_runs);
   ("wal_record_persists_actor_for_replay_determinism", wal_record_persists_actor_for_replay_determinism);
   ("verify_chain_anchored_rejects_downgrade_and_substitution", verify_chain_anchored_rejects_downgrade_and_substitution);
   ("hybrid_writer_emits_both_signatures", hybrid_writer_emits_both_signatures);
   ("hybrid_verify_chain_and_mode_passes_with_both_valid", hybrid_verify_chain_and_mode_passes_with_both_valid);
   ("hybrid_verify_chain_rejects_missing_pqc", hybrid_verify_chain_rejects_missing_pqc);
   ("hybrid_verify_chain_rejects_corrupt_pqc_signature", hybrid_verify_chain_rejects_corrupt_pqc_signature);
   ("hybrid_verify_chain_rejects_corrupt_ed25519_when_pqc_valid", hybrid_verify_chain_rejects_corrupt_ed25519_when_pqc_valid);
   ("ed25519_only_wal_replays_under_hybrid_kernel", ed25519_only_wal_replays_under_hybrid_kernel);
   ("pqc_without_ed25519_envelope_rejected", pqc_without_ed25519_envelope_rejected);
   ("domain_ctx_byte_identity_blake3", domain_ctx_byte_identity_blake3);
   ("submit_record_postcard_layout_byte_identity", submit_record_postcard_layout_byte_identity);
   ("step_record_postcard_layout_byte_identity", step_record_postcard_layout_byte_identity);
   ("chain_hash_frozen_for_step_record", chain_hash_frozen_for_step_record);
   ("wal_record_hybrid_layout_byte_identity", wal_record_hybrid_layout_byte_identity);
   ("wal_header_verifying_key_pqc_slot_pinned", wal_header_verifying_key_pqc_slot_pinned)].

(** All of them pass. *)
Lemma wal_tests_pass : len wal_tests = 33 ∧ failing wal_tests = [].
Proof. split; vm_compute; reflexivity. Qed.
