(* ===== verification/ReplayTests.v ===== *)
(** * The unit tests of replay, on the model

    The test module of [src/arkhe-kernel/src/persist/replay.rs], translated
    and run by evaluation on the primitives of [TestKit]. *)
From S2P Require Import Prelude Abi Quota Extern Authz Ledger Scheduler Instance Event.
From S2P Require Import Observer Stage Dispatch Apply Signature Wal Registry Step Kernel Replay TestKit.

Local Open Scope N_scope.

(** ** Fixtures *)

Definition world : bytes := replicate 32 Byte.x0b.
Definition priv_cfg : InstanceConfig :=
  let d := InstanceConfig_default in mkConfig SYSTEM 1024 1024 16 (N.shiftl 1 20) (parent d) (quota_reduction d).

Record SpawnAction : Type := mkSpawn { spawn_id : N }.
#[local] Instance SpawnAction_derived : Derived SpawnAction := {|
  TYPE_CODE := 100; SCHEMA_VERSION := 1;
  derived_postcard := u64s_codec 1 (λ a, [spawn_id a]) (λ ws, match ws with [n] => Some (mkSpawn n) | _ => None end) |}.
Definition SpawnAction_ops (self : SpawnAction) : Outcome (list Op) :=
  id ← expect "unwrap" (EntityId_new (spawn_id self)); mret [SpawnEntity id System].
#[local] Instance SpawnAction_compute : ActionCompute SpawnAction := λ self _, SpawnAction_ops self.

(** An internal schedule of a child [SpawnAction]. *)
Definition schedule_spawn (at_ : Tick) (id : N) : Outcome Op :=
  bs ← Action_canonical_bytes (mkSpawn id);
  mret (ScheduleAction at_ None (TYPE_CODE (A := SpawnAction)) bs).

Record ScheduleChildAction : Type := mkScheduleChild { child_id : N; child_at : N }.
#[local] Instance ScheduleChildAction_derived : Derived ScheduleChildAction := {|
  TYPE_CODE := 200; SCHEMA_VERSION := 1;
  derived_postcard := u64s_codec 2 (λ a, [child_id a; child_at a])
    (λ ws, match ws with [c; t] => Some (mkScheduleChild c t) | _ => None end) |}.
Definition ScheduleChildAction_ops (self : ScheduleChildAction) : Outcome (list Op) :=
  op ← schedule_spawn (child_at self) (child_id self); mret [op].
#[local] Instance ScheduleChildAction_compute : ActionCompute ScheduleChildAction :=
  λ self _, ScheduleChildAction_ops self.

Record SignalAction : Type := mkSignalAction { signal_target : N }.
#[local] Instance SignalAction_derived : Derived SignalAction := {|
  TYPE_CODE := 300; SCHEMA_VERSION := 1;
  derived_postcard := u64s_codec 1 (λ a, [signal_target a])
    (λ ws, match ws with [n] => Some (mkSignalAction n) | _ => None end) |}.
Definition SignalAction_ops (self : SignalAction) : Outcome (list Op) :=
  target ← expect "unwrap" (InstanceId_new (signal_target self)); mret [SendSignal target 1 (byte_str "ping")].
#[local] Instance SignalAction_compute : ActionCompute SignalAction := λ self _, SignalAction_ops self.

Record TwoSetAction : Type := mkTwoSet { ts_a : N; ts_b : N }.
#[local] Instance TwoSetAction_derived : Derived TwoSetAction := {|
  TYPE_CODE := 400; SCHEMA_VERSION := 1;
  derived_postcard := u64s_codec 2 (λ a, [ts_a a; ts_b a]) (λ ws, match ws with [a; b] => Some (mkTwoSet a b) | _ => None end) |}.
Definition TwoSetAction_ops (self : TwoSetAction) : list Op :=
  [SpawnEntity 1 System;
   SetComponent 1 7 (replicate (N.to_nat (ts_a self)) Byte.x00) (ts_a self);
   SetComponent 1 8 (replicate (N.to_nat (ts_b self)) Byte.x00) (ts_b self)].
#[local] Instance TwoSetAction_compute : ActionCompute TwoSetAction := λ self _, Done (TwoSetAction_ops self).

Variant ScheduleNeedsSystemAction : Type := ScheduleNeedsSystem.
#[local] Instance ScheduleNeedsSystemAction_derived : Derived ScheduleNeedsSystemAction :=
  {| TYPE_CODE := 500; SCHEMA_VERSION := 1; derived_postcard := unit_codec ScheduleNeedsSystem |}.
Definition ScheduleNeedsSystemAction_ops : list Op := [ScheduleAction 9 None (TYPE_CODE (A := SpawnAction)) []].
#[local] Instance ScheduleNeedsSystemAction_compute : ActionCompute ScheduleNeedsSystemAction :=
  λ _ _, Done ScheduleNeedsSystemAction_ops.

Variant ScheduleTwoSameTick : Type := ScheduleTwo.
#[local] Instance ScheduleTwoSameTick_derived : Derived ScheduleTwoSameTick :=
  {| TYPE_CODE := 600; SCHEMA_VERSION := 1; derived_postcard := unit_codec ScheduleTwo |}.
Definition ScheduleTwoSameTick_ops : Outcome (list Op) :=
  a ← schedule_spawn 5 11; b ← schedule_spawn 5 22; mret [a; b].
#[local] Instance ScheduleTwoSameTick_compute : ActionCompute ScheduleTwoSameTick := λ _ _, ScheduleTwoSameTick_ops.

(** ** Helpers the tests repeat *)

Definition manifest (b : byte) : bytes := replicate 32 b.
(** [k.submit(inst, principal, None, caps, at, tc, bytes).unwrap()]. *)
Definition submit_ok (k : Kernel) (inst : InstanceId) (p : Principal) (caps : CapabilityMask) (at_ : Tick)
    (tc : TypeCode) (bs : bytes) : Outcome Kernel :=
  r ← submit k inst p None caps at_ tc bs; unwrap r.
Definition run_at (k : Kernel) (at_ : Tick) : Outcome Kernel := s ← step k at_ SYSTEM; mret s.2.
(** The exported log and its tip. *)
Definition exported (k : Kernel) : Outcome (Wal * bytes) :=
  tip ← expect "unwrap" (wal_chain_tip k);
  w ← expect "unwrap" (export_wal k);
  mret (w, tip).
Definition replay (k : Kernel) (w : Wal) : Outcome (Result ReplayError ReplayReport) :=
  r ← replay_into ArkheError_display k w; mret r.2.
(** Replay into [k2] must succeed with this tip. *)
Definition replays_to (k2 : Kernel) (w : Wal) (tip : bytes) : Outcome ReplayReport :=
  r ← replay k2 w;
  report ← of_result r;
  _ ← assert (bool_decide (final_chain_tip report = tip));
  mret report.
Definition verdicts (w : Wal) : list StepVerdict :=
  omap (λ r, match content r with CStep _ _ _ _ _ v _ => Some v | CSubmit _ _ _ _ _ _ _ _ _ => None end) (records w).
Definition empty_wal : Wal := from_writer (WalWriter_new world (manifest Byte.x00)).
Definition with_header (w : Wal) (f : WalHeader → WalHeader) : Wal := mkWal (f (header w)) (records w).

(** ** Header gates *)

Definition replay_empty_wal_succeeds : Outcome unit :=
  r ← replay Kernel_new empty_wal;
  report ← of_result r;
  _ ← assert (bool_decide (submits_replayed report = 0));
  assert (bool_decide (steps_replayed report = 0)).

Definition set_magic (m : bytes) (h : WalHeader) : WalHeader :=
  mkHeader m (kernel_semver h) (postcard_version h) (blake3_version h) (domain_separation_context h) (world_id h)
    (abi_version h) (header_manifest_digest h) (type_registry_pins h) (header_verifying_key h) (header_verifying_key_pqc h).
Definition set_semver (v : N * N * N) (h : WalHeader) : WalHeader :=
  mkHeader (magic h) v (postcard_version h) (blake3_version h) (domain_separation_context h) (world_id h)
    (abi_version h) (header_manifest_digest h) (type_registry_pins h) (header_verifying_key h) (header_verifying_key_pqc h).
Definition set_postcard (v : N) (h : WalHeader) : WalHeader :=
  mkHeader (magic h) (kernel_semver h) v (blake3_version h) (domain_separation_context h) (world_id h)
    (abi_version h) (header_manifest_digest h) (type_registry_pins h) (header_verifying_key h) (header_verifying_key_pqc h).

Definition replay_rejects_wrong_magic : Outcome unit :=
  r ← replay Kernel_new (with_header empty_wal (set_magic (byte_str "BADMAGIC")));
  assert (fails_with (λ e, match e with ReplayHeaderIncompatible _ => true | _ => false end) r).

Definition replay_rejects_kernel_semver_major_mismatch : Outcome unit :=
  r ← replay Kernel_new (with_header empty_wal (set_semver (99, 0, 0)));
  assert (fails_with (λ e, match e with KernelSemverMismatch _ _ => true | _ => false end) r).

Definition replay_rejects_postcard_version_mismatch : Outcome unit :=
  r ← replay Kernel_new (with_header empty_wal (set_postcard 999));
  assert (fails_with (λ e, match e with PostcardVersionMismatch _ _ => true | _ => false end) r).

Definition replay_rejects_corrupted_chain : Outcome unit :=
  let w := (append_step (WalWriter_new world (manifest Byte.x00)) 1 1 0 SYSTEM Committed (replicate 32 Byte.x09)).2 in
  let corrupt rec := mkRecord (content rec) (prev_chain_hash rec) (replicate 32 Byte.xff) (signature rec) (signature_pqc rec) in
  let wal := mkWal (w_header w) (corrupt <$> w_records w) in
  r ← replay Kernel_new wal;
  assert (fails_with (λ e, match e with WalCorrupted _ => true | _ => false end) r).

(** ** Replay determinism *)

Definition replay_internal_scheduling_is_bit_identical : Outcome unit :=
  let register k := register_action SpawnAction (register_action ScheduleChildAction k) in
  '(inst, k) ← create_instance (register (new_with_wal world (manifest Byte.x00))) priv_cfg;
  bs ← Action_canonical_bytes (mkScheduleChild 77 1);
  k ← submit_ok k inst System SYSTEM 0 (TYPE_CODE (A := ScheduleChildAction)) bs;
  k ← run_at k 0;
  k1 ← run_at k 1;
  '(w, original_tip) ← exported k1;
  let count kind := len (filter (λ r, record_kind r = kind) (records w)) in
  _ ← assert (bool_decide (count KindSubmit = 1));
  _ ← assert (bool_decide (count KindStep = 2));
  '(_, k2) ← create_instance (register (new_with_wal world (manifest Byte.x00))) priv_cfg;
  report ← replays_to k2 w original_tip;
  _ ← assert (bool_decide (submits_replayed report = 1));
  assert (bool_decide (steps_replayed report = 2)).

Definition replay_history_with_authorize_denial : Outcome unit :=
  let register k := register_action SpawnAction (register_action ScheduleNeedsSystemAction k) in
  let d := InstanceConfig_default in
  let cfg := mkConfig (default_caps d) (max_entities d) 1024 (max_inbox_per_route d) (memory_budget_bytes d) (parent d)
               (quota_reduction d) in
  '(inst, k) ← create_instance (register (new_with_wal world (manifest Byte.x00))) cfg;
  k ← submit_ok k inst (External 7) caps_empty 0 (TYPE_CODE (A := ScheduleNeedsSystemAction)) [];
  k1 ← run_at k 0;
  '(w, original_tip) ← exported k1;
  _ ← assert (bool_decide (verdicts w = [AuthDenied]));
  '(_, k2) ← create_instance (register (new_with_wal world (manifest Byte.x00))) cfg;
  _ ← replays_to k2 w original_tip;
  mret tt.

Definition replay_history_with_budget_partial : Outcome unit :=
  let register k := register_action TwoSetAction k in
  let d := InstanceConfig_default in
  let cfg := mkConfig (default_caps d) 1024 (max_scheduled d) (max_inbox_per_route d) 100 (parent d) (quota_reduction d) in
  '(inst, k) ← create_instance (register (new_with_wal world (manifest Byte.x00))) cfg;
  bs ← Action_canonical_bytes (mkTwoSet 40 80);
  k ← submit_ok k inst System SYSTEM 0 (TYPE_CODE (A := TwoSetAction)) bs;
  k1 ← run_at k 0;
  '(w, original_tip) ← exported k1;
  _ ← assert (bool_decide (verdicts w = [BudgetPartial 1]));
  '(_, k2) ← create_instance (register (new_with_wal world (manifest Byte.x00))) cfg;
  _ ← replays_to k2 w original_tip;
  mret tt.

Definition replay_skipped_unregistered_and_deserfailed : Outcome unit :=
  let register k := register_action SpawnAction k in
  '(inst, k) ← create_instance (register (new_with_wal world (manifest Byte.x00))) priv_cfg;
  k ← submit_ok k inst System SYSTEM 0 200 [Byte.x01; Byte.x02; Byte.x03];
  k ← submit_ok k inst System SYSTEM 1 (TYPE_CODE (A := SpawnAction)) [];
  k ← run_at k 0;
  k1 ← run_at k 1;
  '(w, original_tip) ← exported k1;
  _ ← assert (bool_decide (Skipped Unregistered ∈ verdicts w));
  _ ← assert (bool_decide (Skipped DeserFailed ∈ verdicts w));
  '(_, k2) ← create_instance (register (new_with_wal world (manifest Byte.x00))) priv_cfg;
  _ ← replays_to k2 w original_tip;
  mret tt.

Definition next_seq_tiebreak_survives_replay : Outcome unit :=
  let register k := register_action SpawnAction (register_action ScheduleTwoSameTick k) in
  '(inst, k) ← create_instance (register (new_with_wal world (manifest Byte.x00))) priv_cfg;
  k ← submit_ok k inst System SYSTEM 0 600 [];
  k ← run_at k 0;
  k ← run_at k 5;
  k1 ← run_at k 5;
  '(w, original_tip) ← exported k1;
  '(_, k2) ← create_instance (register (new_with_wal world (manifest Byte.x00))) priv_cfg;
  _ ← replays_to k2 w original_tip;
  mret tt.

Definition signal_routing_replays_bit_identical : Outcome unit :=
  let register k := register_action SignalAction k in
  '(a, k) ← create_instance (register (new_with_wal world (manifest Byte.x00))) priv_cfg;
  '(_, k) ← create_instance k priv_cfg;
  bs ← Action_canonical_bytes (mkSignalAction 2);
  k ← submit_ok k a System SYSTEM 0 (TYPE_CODE (A := SignalAction)) bs;
  k1 ← run_at k 0;
  '(w, original_tip) ← exported k1;
  '(_, k2) ← create_instance (register (new_with_wal world (manifest Byte.x00))) priv_cfg;
  '(_, k2) ← create_instance k2 priv_cfg;
  _ ← replays_to k2 w original_tip;
  mret tt.

(** The session several tests share: one [SpawnAction], executed. *)
Definition spawn_session (md : bytes) (id : N) : Outcome (Wal * bytes) :=
  '(inst, k) ← create_instance (register_action SpawnAction (new_with_wal world md)) priv_cfg;
  bs ← Action_canonical_bytes (mkSpawn id);
  k ← submit_ok k inst System SYSTEM 0 (TYPE_CODE (A := SpawnAction)) bs;
  k ← run_at k 0;
  exported k.

Definition manifest_digest_validated_on_default_path : Outcome unit :=
  '(w, _) ← spawn_session (manifest Byte.xab) 1;
  '(_, k2) ← create_instance (register_action SpawnAction (new_with_wal world (manifest Byte.xcd))) priv_cfg;
  r ← replay k2 w;
  _ ← assert (fails_with (λ e, match e with ReplayManifestDigestMismatch _ _ => true | _ => false end) r);
  '(_, k3) ← create_instance (register_action SpawnAction (new_with_wal world (manifest Byte.xab))) priv_cfg;
  r ← replay k3 w;
  assert (is_ok r).

Definition replay_measures_not_copies_tip : Outcome unit :=
  '(w, _) ← spawn_session (manifest Byte.x00) 5;
  '(_, k2) ← create_instance (new_with_wal world (manifest Byte.x00)) priv_cfg;
  r ← replay k2 w;
  assert (fails_with (λ e, match e with VerdictDivergence _ _ _ => true | _ => false end) r).

Definition replay_into_kernel_missing_instance_is_graceful_error : Outcome unit :=
  '(w, _) ← spawn_session (manifest Byte.x00) 1;
  let k2 := register_action SpawnAction (new_with_wal world (manifest Byte.x00)) in
  r ← replay k2 w;
  assert (fails_with (λ e, match e with SubmitFailed _ => true | _ => false end) r).

Definition replay_tests : Suite :=
  [("replay_empty_wal_succeeds", replay_empty_wal_succeeds);
   ("replay_rejects_wrong_magic", replay_rejects_wrong_magic);
   ("replay_rejects_kernel_semver_major_mismatch", replay_rejects_kernel_semver_major_mismatch);
   ("replay_rejects_postcard_version_mismatch", replay_rejects_postcard_version_mismatch);
   ("replay_rejects_corrupted_chain", replay_rejects_corrupted_chain);
   ("replay_internal_scheduling_is_bit_identical", replay_internal_scheduling_is_bit_identical);
   ("replay_history_with_authorize_denial", replay_history_with_authorize_denial);
   ("replay_history_with_budget_partial", replay_history_with_budget_partial);
   ("replay_skipped_unregistered_and_deserfailed", replay_skipped_unregistered_and_deserfailed);
   ("next_seq_tiebreak_survives_replay", next_seq_tiebreak_survives_replay);
   ("signal_routing_replays_bit_identical", signal_routing_replays_bit_identical);
   ("manifest_digest_validated_on_default_path", manifest_digest_validated_on_default_path);
   ("replay_measures_not_copies_tip", replay_measures_not_copies_tip);
   ("replay_into_kernel_missing_instance_is_graceful_error", replay_into_kernel_missing_instance_is_graceful_error)].

(** All of them pass. *)
Lemma replay_tests_pass : len replay_tests = 14 ∧ failing replay_tests = [].
Proof. split; vm_compute; reflexivity. Qed.
