(* ===== verification/StateTests.v ===== *)
(** * The unit tests of identifiers and per-instance state, on the model

    The test modules of [src/arkhe-kernel/src/abi/] and
    [src/arkhe-kernel/src/state/], translated and run by evaluation. Tests
    that only state a trait bound hold by typing and have no counterpart;
    [clone] is the identity. *)
From S2P Require Import Prelude Abi Quota Extern Authz Ledger Scheduler Instance Event.
From S2P Require Import Observer Signature Wal Registry Kernel TestKit.

Local Open Scope N_scope.

(** ** Identifiers, principals, masks, errors ([abi]) *)

Definition caps_combine_via_bitor : Outcome unit :=
  let c := N.lor SYSTEM ADMIN_UNLOAD in
  _ ← assert (caps_contains c SYSTEM);
  _ ← assert (caps_contains c ADMIN_UNLOAD);
  _ ← assert (negb (caps_contains c INTROSPECT));
  assert (negb (caps_contains c OBSERVER_REGISTER)).

Definition caps_default_is_empty : Outcome unit :=
  _ ← assert_eq caps_empty 0;
  assert (negb (caps_contains caps_empty SYSTEM)).

Definition caps_all_reserved_bits_have_distinct_positions : Outcome unit :=
  assert_eq (N.lor (N.lor (N.lor SYSTEM ADMIN_UNLOAD) OBSERVER_REGISTER) INTROSPECT) 15.

Definition caps_intersection_contains : Outcome unit :=
  let a := N.lor SYSTEM INTROSPECT in
  let b := N.lor INTROSPECT OBSERVER_REGISTER in
  assert_eq (caps_and a b) INTROSPECT.

Definition caps_subset_relationship : Outcome unit :=
  let full := N.lor SYSTEM ADMIN_UNLOAD in
  let partial := SYSTEM in
  _ ← assert (caps_contains full partial);
  assert (negb (caps_contains partial full)).

Definition domain_error_carries_code_and_payload : Outcome unit :=
  match DomainError 42 (byte_str "opaque") with
  | DomainError code payload => _ ← assert_eq code 42; assert_eq payload (byte_str "opaque")
  | _ => Panicked "expected Domain variant"
  end.

Definition domain_error_payload_can_be_empty : Outcome unit :=
  match DomainError 0 [] with
  | DomainError _ payload => assert_eq payload []
  | _ => Panicked "expected Domain variant"
  end.

Definition error_display_instance_not_found : Outcome unit :=
  assert_eq (ArkheError_display InstanceNotFound) "instance not found"%string.
Definition error_display_capability_denied : Outcome unit :=
  assert_eq (ArkheError_display CapabilityDenied) "capability denied"%string.

Definition error_display_domain_includes_code : Outcome unit :=
  let s := ArkheError_display (DomainError 7 (byte_str "xyz")) in
  _ ← assert (str_contains s "code=7");
  assert (str_contains s "payload_len=3").

Definition instance_id_zero_is_unrepresentable : Outcome unit := assert (is_none (InstanceId_new 0)).
Definition instance_id_nonzero_roundtrip : Outcome unit :=
  id ← expect "42 is non-zero" (InstanceId_new 42); assert_eq (InstanceId_get id) 42.
Definition entity_id_zero_is_unrepresentable : Outcome unit := assert (is_none (EntityId_new 0)).
Definition entity_id_nonzero_roundtrip : Outcome unit :=
  id ← expect "max is non-zero" (EntityId_new U64_MAX); assert_eq (EntityId_get id) U64_MAX.

Definition tick_advance_saturates_without_wrapping : Outcome unit :=
  _ ← assert_eq (Tick_advance Tick_ZERO 100) 100;
  _ ← assert_eq (Tick_advance U64_MAX 1) U64_MAX;
  assert_eq (Tick_advance (U64_MAX - 5) 10) U64_MAX.

Definition type_code_and_route_id_are_totally_ordered : Outcome unit :=
  let '(t1, t2, r10, r5) := (1 : TypeCode, 2 : TypeCode, 10 : RouteId, 5 : RouteId) in
  _ ← assert (bool_decide (t1 < t2));
  assert (bool_decide (r5 < r10)).

Definition classify (p : Principal) : string :=
  match p with Unauthenticated => "unauth" | External _ => "external" | System => "system" end.
Definition principal_exhaustive_classify : Outcome unit :=
  _ ← assert_eq (classify Unauthenticated) "unauth"%string;
  _ ← assert_eq (classify (External 7)) "external"%string;
  assert_eq (classify System) "system"%string.

(** [ExternalId] is a transparent [u64]. *)
Definition external_id_is_transparent_u64 : Outcome unit :=
  let id : ExternalId := 0xDEADBEEF in assert_eq id 0xDEADBEEF.
Definition external_id_is_total_ordered : Outcome unit :=
  let '(a, b) := (1 : ExternalId, 2 : ExternalId) in assert (bool_decide (a < b)).

Definition principal_equality : Outcome unit :=
  _ ← assert_eq Unauthenticated Unauthenticated;
  _ ← assert_eq (External 3) (External 3);
  _ ← assert_ne (External 3) (External 4);
  assert_ne System Unauthenticated.

Definition scope_carries_instance_id : Outcome unit :=
  id ← expect "unwrap" (InstanceId_new 42);
  assert_eq (InstanceId_get (scope_instance_id (new_for_skeleton id))) 42.

Definition scope_independent_construction_compiles : Outcome unit :=
  i1 ← expect "unwrap" (InstanceId_new 1);
  let s1 := new_for_skeleton i1 in
  i2 ← expect "unwrap" (InstanceId_new 2);
  let s2 := new_for_skeleton i2 in
  _ ← assert_eq (InstanceId_get (scope_instance_id s1)) 1;
  assert_eq (InstanceId_get (scope_instance_id s2)) 2.

(** ** Authorization ([state/authz.rs]) *)

Definition op_variants_clone : Outcome unit :=
  id ← expect "unwrap" (EntityId_new 1);
  let _ := [SpawnEntity id System; DespawnEntity id; SetComponent id 1 (byte_str "x") 1; RemoveComponent id 1 1;
            EmitEvent (Some id) 2 []; ScheduleAction 0 None 3 []] in
  target ← expect "unwrap" (InstanceId_new 1);
  let _ := SendSignal target 1 [] in
  Done tt.

Definition spawn_op : Op := SpawnEntity 1 System.
Definition schedule_op : Op := ScheduleAction 0 None 0 [].
Definition signal_op : Op := SendSignal 1 1 [].

(** [authorize(caps, Effect::new(inst(), principal, op))]. *)
Definition judged (caps : CapabilityMask) (principal : Principal) (op : Op) : Result DenyReason (Effect Authorized) :=
  authorize caps (Effect_new 1 principal op).
Definition is_denied (r : Result DenyReason (Effect Authorized)) : bool :=
  fails_with (λ e, match e with DR_CapabilityDenied => true | _ => false end) r.

Definition effect_carries_instance_id_and_op : Outcome unit :=
  assert_eq (InstanceId_get (eff_instance_id (Effect_new 1 System spawn_op))) 1.

Definition deny_reason_display_and_error : Outcome unit :=
  _ ← assert_eq (DenyReason_display DR_CapabilityDenied) "capability denied"%string;
  assert_eq (DenyReason_display DR_OperationRestricted) "operation restricted"%string.

Definition system_principal_gated_by_effective_caps_not_blanket_bypass : Outcome unit :=
  _ ← assert (forallb (λ op, is_denied (judged caps_empty System op)) [schedule_op; signal_op]);
  assert (forallb (λ op, is_ok (judged SYSTEM System op)) [spawn_op; schedule_op; signal_op]).

Definition effective_caps_intersects_config_and_ceiling_for_authenticated_principals : Outcome unit :=
  let full := caps_all in
  let none := caps_empty in
  let ext := External 7 in
  let sys := System in
  _ ← assert_eq (effective_caps full ext none) none;
  _ ← assert_eq (effective_caps none ext full) none;
  _ ← assert_eq (effective_caps full ext full) full;
  _ ← assert_eq (effective_caps full sys none) none;
  _ ← assert_eq (effective_caps none sys full) none;
  _ ← assert_eq (effective_caps full sys full) full;
  assert_eq (effective_caps full Unauthenticated full) none.

Definition scheduled_system_child_cannot_rewiden_past_caps_ceiling : Outcome unit :=
  let full := caps_all in
  let parent_effective := SYSTEM in
  let child := effective_caps full System parent_effective in
  _ ← assert_eq child parent_effective;
  assert (bool_decide (child ≤ parent_effective)).

Definition unauthenticated_principal_always_denied : Outcome unit :=
  assert (is_denied (judged SYSTEM Unauthenticated spawn_op)).
Definition external_with_system_cap_authorized : Outcome unit := assert (is_ok (judged SYSTEM (External 7) schedule_op)).
Definition external_without_cap_denied_for_schedule : Outcome unit :=
  assert (is_denied (judged caps_empty (External 7) schedule_op)).
Definition external_without_cap_denied_for_send_signal : Outcome unit :=
  assert (is_denied (judged caps_empty (External 7) signal_op)).
Definition external_with_basic_cap_authorized_for_state_op : Outcome unit :=
  assert (is_ok (judged caps_empty (External 7) spawn_op)).

(** ** Quota reduction ([state/quota.rs]) *)

#[local] Instance Result_eq_dec {E A} `{EqDecision E, EqDecision A} : EqDecision (Result E A).
Proof. solve_decision. Defined.

Definition policy_default_is_reject : Outcome unit := assert_eq QuotaReductionPolicy_default Reject.

Definition policy_three_distinct_variants : Outcome unit :=
  let a := Reject in
  let b := GrandfatherExisting in
  let c := ThrottleProportional in
  _ ← assert_ne a b;
  _ ← assert_ne b c;
  assert_ne a c.

Definition error_display_includes_numbers : Outcome unit :=
  let s := QuotaReductionError_display (WouldViolateChildren 100 50) in
  _ ← assert (str_contains s "current_usage=100");
  assert (str_contains s "new_quota=50").

Definition reject_allows_under_quota : Outcome unit :=
  let cs := [(1%positive, 25); (2%positive, 25)] in
  assert_eq (apply_quota_reduction Reject 100 cs) (Ok cs).
Definition reject_denies_over_quota : Outcome unit :=
  let cs := [(1%positive, 100); (2%positive, 100)] in
  err ← err_of (apply_quota_reduction Reject 100 cs);
  assert_eq err (WouldViolateChildren 200 100).
Definition reject_at_exact_limit_allows : Outcome unit :=
  let cs := [(1%positive, 50); (2%positive, 50)] in
  assert_eq (apply_quota_reduction Reject 100 cs) (Ok cs).
Definition grandfather_returns_children_unchanged : Outcome unit :=
  let cs := [(1%positive, 100); (2%positive, 100)] in
  assert_eq (apply_quota_reduction GrandfatherExisting 100 cs) (Ok cs).
Definition throttle_basic : Outcome unit :=
  let cs := [(1%positive, 100); (2%positive, 200); (3%positive, 300)] in
  assert_eq (apply_quota_reduction ThrottleProportional 300 cs)
    (Ok [(1%positive, 50); (2%positive, 100); (3%positive, 150)]).
Definition throttle_remainder_distributes_ascending : Outcome unit :=
  let cs := [(1%positive, 100); (2%positive, 100); (3%positive, 100)] in
  result ← of_result (apply_quota_reduction ThrottleProportional 100 cs);
  _ ← assert_eq result [(1%positive, 34); (2%positive, 33); (3%positive, 33)];
  let sum := quota_sum result in
  assert_eq sum 100.
Definition throttle_does_not_scale_up_when_quota_exceeds_total : Outcome unit :=
  let cs := [(1%positive, 100); (2%positive, 200)] in
  assert_eq (apply_quota_reduction ThrottleProportional 600 cs) (Ok cs).
Definition throttle_at_exact_total_is_identity : Outcome unit :=
  let cs := [(1%positive, 100); (2%positive, 200)] in
  assert_eq (apply_quota_reduction ThrottleProportional 300 cs) (Ok cs).
Definition throttle_zero_total_idempotent : Outcome unit :=
  let cs := [(1%positive, 0); (2%positive, 0)] in
  assert_eq (apply_quota_reduction ThrottleProportional 100 cs) (Ok cs).
Definition throttle_deterministic : Outcome unit :=
  let cs := [(1%positive, 100); (2%positive, 100); (3%positive, 100)] in
  let r1 := apply_quota_reduction ThrottleProportional 100 cs in
  let r2 := apply_quota_reduction ThrottleProportional 100 cs in
  assert_eq r1 r2.
Definition apply_to_empty_children_returns_empty : Outcome unit :=
  assert (forallb (λ policy, bool_decide (apply_quota_reduction policy 100 [] = Ok []))
            [Reject; GrandfatherExisting; ThrottleProportional]).

(** ** The ledger ([state/ledger.rs]) *)

(** [l.add_entity(e)] and the like, for their effect or with their result. *)
Definition spawned (l : ResourceLedger) (e : EntityId) : ResourceLedger := (ledger_add_entity l e).2.
Definition set (l : ResourceLedger) (e : EntityId) (tc : TypeCode) (size : N) : ResourceLedger :=
  (ledger_add_component l e tc size).2.
Definition unset (l : ResourceLedger) (e : EntityId) (tc : TypeCode) (size : N) : ResourceLedger :=
  (ledger_remove_component l e tc size).2.
Definition fresh_entity : ResourceLedger := spawned ledger_new 1.

Definition empty_ledger_zeroes : Outcome unit :=
  let l := ledger_new in
  _ ← assert_eq (total_entities l) 0;
  _ ← assert_eq (total_bytes l) 0;
  _ ← assert_eq (entity_bytes l 1) 0;
  assert_eq (type_count l 1) 0.

Definition add_entity_increments_total : Outcome unit :=
  let '(b1, l) := ledger_add_entity ledger_new 1 in
  let '(b2, l) := ledger_add_entity l 2 in
  _ ← assert b1;
  _ ← assert b2;
  assert_eq (total_entities l) 2.

Definition add_entity_idempotent : Outcome unit :=
  let '(b1, l) := ledger_add_entity ledger_new 1 in
  let '(b2, l) := ledger_add_entity l 1 in
  _ ← assert b1;
  _ ← assert (negb b2);
  assert_eq (total_entities l) 1.

Definition add_component_updates_bytes_and_count : Outcome unit :=
  let '(b, l) := ledger_add_component fresh_entity 1 10 100 in
  _ ← assert b;
  _ ← assert_eq (entity_bytes l 1) 100;
  _ ← assert_eq (total_bytes l) 100;
  assert_eq (type_count l 10) 1.

Definition add_component_to_unknown_entity_is_noop : Outcome unit :=
  let '(b, l) := ledger_add_component ledger_new 1 10 100 in
  _ ← assert (negb b);
  _ ← assert_eq (total_bytes l) 0;
  assert_eq (type_count l 10) 0.

Definition remove_component_balances_add : Outcome unit :=
  let l := set (set fresh_entity 1 10 100) 1 20 50 in
  _ ← assert_eq (total_bytes l) 150;
  let l := unset l 1 10 100 in
  _ ← assert_eq (total_bytes l) 50;
  _ ← assert_eq (entity_bytes l 1) 50;
  _ ← assert_eq (type_count l 10) 0;
  assert_eq (type_count l 20) 1.

Definition remove_entity_returns_bytes_and_drops_total : Outcome unit :=
  let l := set (set fresh_entity 1 10 100) 1 20 50 in
  let '(freed, l) := ledger_remove_entity l 1 in
  _ ← assert_eq freed 150;
  _ ← assert_eq (total_entities l) 0;
  _ ← assert_eq (total_bytes l) 0;
  assert_eq (entity_bytes l 1) 0.

Definition remove_unknown_entity_is_noop : Outcome unit := assert_eq (ledger_remove_entity ledger_new 999).1 0.

Definition add_remove_balanced_yields_empty : Outcome unit :=
  let l := unset (set fresh_entity 1 10 100) 1 10 100 in
  let '(_, l) := ledger_remove_entity l 1 in
  _ ← assert_eq (total_bytes l) 0;
  assert_eq (total_entities l) 0.

Definition type_count_aggregates_across_entities : Outcome unit :=
  let l := set (set (spawned fresh_entity 2) 1 7 10) 2 7 20 in
  _ ← assert_eq (type_count l 7) 2;
  assert_eq (total_bytes l) 30.

Definition type_count_underflow_is_saturating : Outcome unit :=
  assert_eq (type_count (unset fresh_entity 1 99 50) 99) 0.

Definition set_component_replace_adjusts_by_delta_no_double_count : Outcome unit :=
  let '(b1, l) := ledger_add_component fresh_entity 1 7 100 in
  let '(b2, l) := ledger_add_component l 1 7 400 in
  _ ← assert (b1 && b2);
  _ ← assert_eq (total_bytes l) 400;
  _ ← assert_eq (entity_bytes l 1) 400;
  _ ← assert_eq (type_count l 7) 1;
  let '(b3, l) := ledger_add_component l 1 7 50 in
  _ ← assert b3;
  _ ← assert_eq (total_bytes l) 50;
  assert_eq (type_count l 7) 1.

Definition remove_entity_cascades_component_accounting : Outcome unit :=
  let l := set (set fresh_entity 1 7 100) 1 9 50 in
  _ ← assert_eq (total_bytes l) 150;
  _ ← assert_eq (type_count l 7) 1;
  _ ← assert_eq (type_count l 9) 1;
  let '(freed, l) := ledger_remove_entity l 1 in
  _ ← assert_eq freed 150;
  _ ← assert_eq (total_bytes l) 0;
  _ ← assert_eq (total_entities l) 0;
  _ ← assert_eq (type_count l 7) 0;
  assert_eq (type_count l 9) 0.

Definition remove_component_uses_stored_size_not_caller_size : Outcome unit :=
  let '(b, l) := ledger_remove_component (set fresh_entity 1 7 100) 1 7 999999 in
  _ ← assert b;
  _ ← assert_eq (total_bytes l) 0;
  assert_eq (entity_bytes l 1) 0.

(** ** The scheduler ([state/scheduler.rs]) *)

(** [s.schedule(Tick(at), actor, p(), caps(), tc(), bs)]. *)
Definition sched (s : Scheduler) (at_ : Tick) (actor : option EntityId) (bs : bytes)
    : Outcome (ScheduledActionId * Scheduler) := schedule s at_ actor System caps_all 1 bs.

(** [assert_eq!(s.pop_due(now).unwrap().id, id)]. *)
Definition pops (id : ScheduledActionId) (s : Scheduler) (now : Tick) : Outcome Scheduler :=
  '(o, s) ← pop_due s now;
  entry ← expect "unwrap" o;
  _ ← assert_eq (se_id entry) id;
  mret s.
Definition bs_of (n : N) : bytes := [default Byte.x00 (Byte.of_N n)].

Definition empty_state : Outcome unit :=
  let s := Scheduler_new in
  _ ← assert_eq (Scheduler_len s) 0;
  assert (Scheduler_is_empty s).

Definition schedule_then_pop_due_single : Outcome unit :=
  let payload := bs_of 1 ++ bs_of 2 ++ bs_of 3 in
  '(id, s) ← sched Scheduler_new 5 None payload;
  _ ← assert_eq (Scheduler_len s) 1;
  '(o, s) ← pop_due s 5;
  entry ← expect "entry due" o;
  _ ← assert_eq (se_id entry) id;
  _ ← assert_eq (se_at entry) 5;
  _ ← assert_eq (se_bytes entry) payload;
  assert (Scheduler_is_empty s).

Definition pop_due_before_time_returns_none : Outcome unit :=
  '(_, s) ← sched Scheduler_new 10 None [];
  '(o, s) ← pop_due s 9;
  _ ← assert (is_none o);
  assert_eq (Scheduler_len s) 1.

Definition pop_due_at_exact_tick_pops : Outcome unit :=
  '(id, s) ← sched Scheduler_new 5 None [];
  _ ← pops id s 5;
  mret tt.

Definition pop_due_ordering_by_tick : Outcome unit :=
  '(id_late, s) ← sched Scheduler_new 20 None [];
  '(id_early, s) ← sched s 5 None [];
  '(id_mid, s) ← sched s 10 None [];
  s ← pops id_early s 100;
  s ← pops id_mid s 100;
  _ ← pops id_late s 100;
  mret tt.

Definition pop_due_tiebreak_by_seq : Outcome unit :=
  '(id1, s) ← sched Scheduler_new 5 None (bs_of 1);
  '(id2, s) ← sched s 5 None (bs_of 2);
  '(id3, s) ← sched s 5 None (bs_of 3);
  s ← pops id1 s 5;
  s ← pops id2 s 5;
  _ ← pops id3 s 5;
  mret tt.

Definition cancel_removes_entry : Outcome unit :=
  '(id, s) ← sched Scheduler_new 5 None [];
  '(o, s) ← cancel s id;
  cancelled ← expect "found" o;
  _ ← assert_eq (se_id cancelled) id;
  _ ← assert (Scheduler_is_empty s);
  '(o, _) ← pop_due s 100;
  assert (is_none o).

Definition cancel_unknown_returns_none : Outcome unit :=
  bogus ← expect "unwrap" (ScheduledActionId_new 999);
  '(o, _) ← cancel Scheduler_new bogus;
  assert (is_none o).

Definition cancel_by_actor_removes_all : Outcome unit :=
  let actor := 1%positive in
  let other := 2%positive in
  '(_, s) ← sched Scheduler_new 5 (Some actor) [];
  '(_, s) ← sched s 10 (Some actor) [];
  '(id_other, s) ← sched s 7 (Some other) [];
  _ ← assert_eq (Scheduler_len s) 3;
  let '(cancelled, s) := cancel_by_actor s actor in
  _ ← assert_eq (len cancelled) 2;
  _ ← assert_eq (Scheduler_len s) 1;
  _ ← pops id_other s 100;
  mret tt.

Definition cancel_by_actor_unknown_returns_empty : Outcome unit :=
  assert_eq (len (cancel_by_actor Scheduler_new 99).1) 0.

Definition schedule_id_monotonic : Outcome unit :=
  '(id1, s) ← sched Scheduler_new 0 None [];
  '(id2, s) ← sched s 0 None [];
  '(id3, s) ← sched s 0 None [];
  _ ← assert (bool_decide (id1 < id2)%positive);
  _ ← assert (bool_decide (id2 < id3)%positive);
  _ ← assert_eq (ScheduledActionId_get id1) 1;
  assert_eq (ScheduledActionId_get id3) 3.

Definition no_tombstones : Outcome unit :=
  '(id1, s) ← sched Scheduler_new 5 None [];
  '(_, s) ← sched s 5 None [];
  _ ← assert_eq (Scheduler_len s) 2;
  '(_, s) ← cancel s id1;
  assert_eq (Scheduler_len s) 1.

Definition determinism_same_sequence : Outcome unit :=
  let run :=
    '(_, s) ← sched Scheduler_new 3 None [];
    '(_, s) ← sched s 1 None [];
    '(_, s) ← sched s 2 None [];
    '(_, s) ← sched s 1 None [];
    '(out, _) ← drain_due 5 s 100;
    mret (se_id <$> out) in
  a ← run;
  b ← run;
  _ ← assert_eq a b;
  assert_eq a [2; 4; 3; 1]%positive.

Definition validate_accepts_consistent_scheduler : Outcome unit :=
  '(_, s) ← sched Scheduler_new 5 (Some 1%positive) (bs_of 1);
  '(_, s) ← sched s 3 None (bs_of 2);
  '(_, s) ← sched s 5 (Some 1%positive) (bs_of 3);
  assert (is_ok (validate s)).

Definition validate_rejects_broken_ready_by_id_bijection : Outcome unit :=
  '(_, s) ← sched Scheduler_new 5 None (bs_of 1);
  let s := mkScheduler (ready s) ∅ (by_actor s) (next_seq s) (next_id s) in
  assert (negb (is_ok (validate s))).

Definition validate_rejects_missing_by_actor_index : Outcome unit :=
  '(_, s) ← sched Scheduler_new 5 (Some 1%positive) (bs_of 1);
  let s := mkScheduler (ready s) (by_id s) ∅ (next_seq s) (next_id s) in
  assert (negb (is_ok (validate s))).

(** ** Configuration, instance, context, traits *)

Definition config_default_is_zero_quota_reject_policy : Outcome unit :=
  let c := InstanceConfig_default in
  _ ← assert_eq (max_entities c) 0;
  _ ← assert_eq (max_scheduled c) 0;
  _ ← assert_eq (max_inbox_per_route c) 0;
  _ ← assert_eq (memory_budget_bytes c) 0;
  _ ← assert (is_none (parent c));
  _ ← assert_eq (quota_reduction c) Reject;
  assert_eq (default_caps c) caps_empty.

#[local] Instance InstanceConfig_eq_dec : EqDecision InstanceConfig.
Proof. solve_decision. Defined.

Definition config_clone_eq : Outcome unit :=
  let c1 := mkConfig SYSTEM 10 100 16 1024 (InstanceId_new 7) ThrottleProportional in
  let c2 := c1 in
  assert_eq c1 c2.

Definition config_field_assignment : Outcome unit :=
  let d := InstanceConfig_default in
  let c := mkConfig (default_caps d) 42 (max_scheduled d) (max_inbox_per_route d) (memory_budget_bytes d)
             (InstanceId_new 3) GrandfatherExisting in
  _ ← assert_eq (max_entities c) 42;
  _ ← assert_eq (parent c) (InstanceId_new 3);
  assert_eq (quota_reduction c) GrandfatherExisting.

Definition cfg : InstanceConfig := mkConfig caps_empty 100 1000 16 (N.shiftl 1 20) None Reject.

Definition instance_new_initial_state : Outcome unit :=
  let inst := Instance_new 1 cfg in
  _ ← assert_eq (inst_id inst) 1%positive;
  _ ← assert_eq (entities_len inst) 0;
  _ ← assert_eq (components_len inst) 0;
  _ ← assert_eq (local_tick inst) 0;
  _ ← assert_eq (wall_remainder inst) 0;
  _ ← assert_eq (total_entities (ledger inst)) 0;
  _ ← assert (Scheduler_is_empty (scheduler inst));
  assert_eq (inflight_refs_len inst) 0.

Definition instance_id_counters_default_zero : Outcome unit :=
  let c := id_counters (Instance_new 1 cfg) in
  _ ← assert_eq (next_entity c) 0;
  _ ← assert_eq (next_scheduled c) 0;
  assert_eq (next_source_seq c) 0.

Definition instance_config_carried_through : Outcome unit :=
  let config_ := mkConfig (default_caps cfg) 7 (max_scheduled cfg) (max_inbox_per_route cfg) (memory_budget_bytes cfg)
                   (Some 99%positive) (quota_reduction cfg) in
  let inst := Instance_new 2 config_ in
  _ ← assert_eq (max_entities (config inst)) 7;
  assert_eq (parent (config inst)) (Some 99%positive).

Definition multiple_instances_independent : Outcome unit :=
  let inst1 := Instance_new 1 cfg in
  let inst2 := Instance_new 2 cfg in
  _ ← assert_ne (inst_id inst1) (inst_id inst2);
  _ ← assert (Scheduler_is_empty (scheduler inst1));
  _ ← assert (Scheduler_is_empty (scheduler inst2));
  _ ← assert_eq (total_bytes (ledger inst1)) 0;
  assert_eq (total_bytes (ledger inst2)) 0.

Definition context_accessor_matches_instance : Outcome unit :=
  let inst := Instance_new 7 InstanceConfig_default in
  let ctx := ActionContext_new (Some 1%positive) 0 7 inst in
  _ ← assert_eq (ctx_entities_len ctx) 0;
  _ ← assert_eq (ctx_components_len ctx) 0;
  _ ← assert_eq (ctx_local_tick ctx) 0;
  _ ← assert_eq (ctx_now ctx) 0;
  _ ← assert_eq (ctx_instance_id ctx) 7%positive;
  assert_eq (ctx_actor ctx) (Some 1%positive).

Definition entity_meta_clone_preserves_fields : Outcome unit :=
  let m1 := mkMeta System 5 in
  let m2 := m1 in
  _ ← assert (match owner m2 with System => true | _ => false end);
  assert_eq (created m2) 5.

Definition id_counters_default_clone_independent : Outcome unit :=
  let c1 := IdCounters_default in
  let c2 := c1 in
  let c2 := mkCounters 10 (next_scheduled c2) (next_source_seq c2) in
  _ ← assert_eq (next_entity c1) 0;
  assert_eq (next_entity c2) 10.

Definition deserialize_error_display_includes_versions : Outcome unit :=
  let s := DeserializeError_display (SchemaVersionMismatch 1 2) in
  _ ← assert (str_contains s "expected 1");
  assert (str_contains s "got 2").

Definition deserialize_error_payload_malformed_displays : Outcome unit :=
  assert_eq (DeserializeError_display PayloadMalformed) "payload malformed"%string.

Definition state_tests : Suite :=
  [("caps_combine_via_bitor", caps_combine_via_bitor);
   ("caps_default_is_empty", caps_default_is_empty);
   ("caps_all_reserved_bits_have_distinct_positions", caps_all_reserved_bits_have_distinct_positions);
   ("caps_intersection_contains", caps_intersection_contains);
   ("caps_subset_relationship", caps_subset_relationship);
   ("domain_error_carries_code_and_payload", domain_error_carries_code_and_payload);
   ("domain_error_payload_can_be_empty", domain_error_payload_can_be_empty);
   ("error_display_instance_not_found", error_display_instance_not_found);
   ("error_display_capability_denied", error_display_capability_denied);
   ("error_display_domain_includes_code", error_display_domain_includes_code);
   ("instance_id_zero_is_unrepresentable", instance_id_zero_is_unrepresentable);
   ("instance_id_nonzero_roundtrip", instance_id_nonzero_roundtrip);
   ("entity_id_zero_is_unrepresentable", entity_id_zero_is_unrepresentable);
   ("entity_id_nonzero_roundtrip", entity_id_nonzero_roundtrip);
   ("tick_advance_saturates_without_wrapping", tick_advance_saturates_without_wrapping);
   ("principal_equality", principal_equality);
   ("scope_carries_instance_id", scope_carries_instance_id);
   ("effect_carries_instance_id_and_op", effect_carries_instance_id_and_op);
   ("deny_reason_display_and_error", deny_reason_display_and_error);
   ("system_principal_gated_by_effective_caps_not_blanket_bypass", system_principal_gated_by_effective_caps_not_blanket_bypass);
   ("effective_caps_intersects_config_and_ceiling_for_authenticated_principals", effective_caps_intersects_config_and_ceiling_for_authenticated_principals);
   ("scheduled_system_child_cannot_rewiden_past_caps_ceiling", scheduled_system_child_cannot_rewiden_past_caps_ceiling);
   ("unauthenticated_principal_always_denied", unauthenticated_principal_always_denied);
   ("external_with_system_cap_authorized", external_with_system_cap_authorized);
   ("external_without_cap_denied_for_schedule", external_without_cap_denied_for_schedule);
   ("external_without_cap_denied_for_send_signal", external_without_cap_denied_for_send_signal);
   ("external_with_basic_cap_authorized_for_state_op", external_with_basic_cap_authorized_for_state_op);
   ("policy_default_is_reject", policy_default_is_reject);
   ("policy_three_distinct_variants", policy_three_distinct_variants);
   ("error_display_includes_numbers", error_display_includes_numbers);
   ("reject_allows_under_quota", reject_allows_under_quota);
   ("reject_denies_over_quota", reject_denies_over_quota);
   ("reject_at_exact_limit_allows", reject_at_exact_limit_allows);
   ("grandfather_returns_children_unchanged", grandfather_returns_children_unchanged);
   ("throttle_basic", throttle_basic);
   ("throttle_remainder_distributes_ascending", throttle_remainder_distributes_ascending);
   ("throttle_does_not_scale_up_when_quota_exceeds_total", throttle_does_not_scale_up_when_quota_exceeds_total);
   ("throttle_at_exact_total_is_identity", throttle_at_exact_total_is_identity);
   ("throttle_zero_total_idempotent", throttle_zero_total_idempotent);
   ("throttle_deterministic", throttle_deterministic);
   ("apply_to_empty_children_returns_empty", apply_to_empty_children_returns_empty);
   ("empty_ledger_zeroes", empty_ledger_zeroes);
   ("add_entity_increments_total", add_entity_increments_total);
   ("add_entity_idempotent", add_entity_idempotent);
   ("add_component_updates_bytes_and_count", add_component_updates_bytes_and_count);
   ("add_component_to_unknown_entity_is_noop", add_component_to_unknown_entity_is_noop);
   ("remove_component_balances_add", remove_component_balances_add);
   ("remove_entity_returns_bytes_and_drops_total", remove_entity_returns_bytes_and_drops_total);
   ("remove_unknown_entity_is_noop", remove_unknown_entity_is_noop);
   ("add_remove_balanced_yields_empty", add_remove_balanced_yields_empty);
   ("type_count_aggregates_across_entities", type_count_aggregates_across_entities);
   ("type_count_underflow_is_saturating", type_count_underflow_is_saturating);
   ("set_component_replace_adjusts_by_delta_no_double_count", set_component_replace_adjusts_by_delta_no_double_count);
   ("remove_entity_cascades_component_accounting", remove_entity_cascades_component_accounting);
   ("remove_component_uses_stored_size_not_caller_size", remove_component_uses_stored_size_not_caller_size);
   ("empty_state", empty_state);
   ("schedule_then_pop_due_single", schedule_then_pop_due_single);
   ("pop_due_before_time_returns_none", pop_due_before_time_returns_none);
   ("pop_due_at_exact_tick_pops", pop_due_at_exact_tick_pops);
   ("pop_due_ordering_by_tick", pop_due_ordering_by_tick);
   ("pop_due_tiebreak_by_seq", pop_due_tiebreak_by_seq);
   ("cancel_removes_entry", cancel_removes_entry);
   ("cancel_unknown_returns_none", cancel_unknown_returns_none);
   ("cancel_by_actor_removes_all", cancel_by_actor_removes_all);
   ("cancel_by_actor_unknown_returns_empty", cancel_by_actor_unknown_returns_empty);
   ("schedule_id_monotonic", schedule_id_monotonic);
   ("no_tombstones", no_tombstones);
   ("determinism_same_sequence", determinism_same_sequence);
   ("validate_accepts_consistent_scheduler", validate_accepts_consistent_scheduler);
   ("validate_rejects_broken_ready_by_id_bijection", validate_rejects_broken_ready_by_id_bijection);
   ("validate_rejects_missing_by_actor_index", validate_rejects_missing_by_actor_index);
   ("config_default_is_zero_quota_reject_policy", config_default_is_zero_quota_reject_policy);
   ("config_field_assignment", config_field_assignment);
   ("instance_new_initial_state", instance_new_initial_state);
   ("instance_id_counters_default_zero", instance_id_counters_default_zero);
   ("instance_config_carried_through", instance_config_carried_through);
   ("multiple_instances_independent", multiple_instances_independent);
   ("context_accessor_matches_instance", context_accessor_matches_instance);
   ("deserialize_error_display_includes_versions", deserialize_error_display_includes_versions);
   ("deserialize_error_payload_malformed_displays", deserialize_error_payload_malformed_displays);
   ("type_code_and_route_id_are_totally_ordered", type_code_and_route_id_are_totally_ordered);
   ("principal_exhaustive_classify", principal_exhaustive_classify);
   ("external_id_is_transparent_u64", external_id_is_transparent_u64);
   ("external_id_is_total_ordered", external_id_is_total_ordered);
   ("scope_independent_construction_compiles", scope_independent_construction_compiles);
   ("op_variants_clone", op_variants_clone);
   ("config_clone_eq", config_clone_eq);
   ("entity_meta_clone_preserves_fields", entity_meta_clone_preserves_fields);
   ("id_counters_default_clone_independent", id_counters_default_clone_independent)]%string.

(** All of them pass. *)
Lemma state_tests_pass : len state_tests = 89 ∧ failing state_tests = [].
Proof. split; vm_compute; reflexivity. Qed.
