(* ===== verification/RuntimeTests.v ===== *)
(** * The unit tests of the runtime, signatures and snapshots, on the model

    The test modules of [runtime/stage.rs], [dispatch.rs], [apply.rs],
    [event.rs], [observer.rs], [registry.rs], [view.rs] and of
    [persist/signature.rs], [snapshot.rs] under [src/arkhe-kernel/src/], and
    the derive tests [src/arkhe-kernel/tests/derive_macros.rs], translated and
    run by evaluation, the derive tests on the wire format of [Wire]. Tests
    that only state a trait bound hold by typing; [clone] is the identity. *)
From S2P Require Import Prelude Abi Quota Extern Authz Ledger Scheduler Instance Event.
From S2P Require Import Observer Stage Dispatch Apply Signature Wal Registry Step Kernel Snapshot Macros Wire TestKit.

Local Open Scope N_scope.

(** ** The stage ([runtime/stage.rs]) *)

(** [assert!(bucket.is_empty())] over every bucket. *)
Definition all_buckets_empty (s : StepStage) : Outcome unit :=
  _ ← assert_eq (len (state_ops s)) 0;
  _ ← assert_eq (len (events s)) 0;
  _ ← assert_eq (len (schedule_deltas s)) 0;
  _ ← assert_eq (len (pending_signals s)) 0;
  let c := stage_id_counters s in
  _ ← assert_eq (next_entity_advance c) 0;
  _ ← assert_eq (next_scheduled_advance c) 0;
  _ ← assert_eq (next_source_seq_advance c) 0;
  _ ← assert_eq (len (ledger_ops (ledger_delta s))) 0;
  _ ← assert_eq (wall_remainder_delta s) 0;
  _ ← assert_eq (local_tick_delta s) 0;
  assert_eq (len (observer_eviction_pending s)) 0.

Definition step_stage_default_all_buckets_empty : Outcome unit := all_buckets_empty StepStage_default.

Definition clear_resets_all_buckets : Outcome unit :=
  let s := mkStage [SD_DespawnEntity 1] [ActionExecuted 1 1 1] [SchedRemove 1] [mkPending 1 1 (byte_str "x") System]
             (mkCountersDelta 9 9 9) (mkLedgerDelta [LO_AddEntity 1]) 12345 7 [] in
  all_buckets_empty (clear s).

(** A stage with these ledger operations only, with these state and ledger
    operations. *)
Definition ledger_stage (ops : list LedgerOp) : StepStage := mkStage [] [] [] [] (mkCountersDelta 0 0 0) (mkLedgerDelta ops) 0 0 [].
Definition stage_of (ops : list StagedStateDelta) (lops : list LedgerOp) : StepStage :=
  mkStage ops [] [] [] (mkCountersDelta 0 0 0) (mkLedgerDelta lops) 0 0 [].

Definition projected_oversized_add_saturates_no_negative_wrap : Outcome unit :=
  assert_eq (projected_component_bytes 0 (ledger_stage [LO_AddComponent 1 1 U64_MAX]) ledger_new) U64_MAX.

Definition projected_remove_credits_stored_size_not_caller_size : Outcome unit :=
  let l := (ledger_add_component (ledger_add_entity ledger_new 1).2 1 1 100).2 in
  assert_eq (projected_component_bytes 100 (ledger_stage [LO_RemoveComponent 1 1 U64_MAX]) l) 0.

Definition projected_remove_of_unaccounted_component_credits_zero : Outcome unit :=
  assert_eq (projected_component_bytes 0 (ledger_stage [LO_RemoveComponent 1 1 50]) ledger_new) 0.

Definition staged_state_delta_variants_clone : Outcome unit :=
  id ← expect "unwrap" (EntityId_new 1);
  let meta := mkMeta System 0 in
  let _ := [SD_SpawnEntity id meta; SD_DespawnEntity id; SD_SetComponent id 1 (byte_str "x") 1;
            SD_RemoveComponent id 1 1] in
  Done tt.

Definition scheduled_entry_delta_variants : Outcome unit :=
  id ← expect "unwrap" (ScheduledActionId_new 1);
  let entry := mkEntry id 0 None System 0 [] caps_all in
  let _ := SchedAdd entry in
  id ← expect "unwrap" (ScheduledActionId_new 1);
  let _ := SchedRemove id in
  Done tt.

Definition ledger_op_variants : Outcome unit :=
  id ← expect "unwrap" (EntityId_new 1);
  let _ := [LO_AddEntity id; LO_RemoveEntity id; LO_AddComponent id 1 100; LO_RemoveComponent id 1 100] in
  Done tt.

Definition pending_signal_construction : Outcome unit :=
  assert_eq (len (ps_payload (mkPending 1 1 (byte_str "hello") System))) 5.

(** ** The dispatcher ([runtime/dispatch.rs]) *)

Definition auth_system (op : Op) : Outcome (Effect Authorized) :=
  match authorize SYSTEM (Effect_new 1 System op) with
  | Ok e => Done e
  | Err _ => Panicked "system always authorized"
  end.

(** [dispatch(auth_system(op), &mut stage, now, &mut next_id, caps())] from an
    empty stage. *)
Definition dispatch_system (op : Op) (st : StepStage * N) (now : Tick) : Outcome (StepStage * N) :=
  e ← auth_system op; dispatch e st.1 now st.2 caps_all.
Definition dispatch_fresh (op : Op) (now : Tick) : Outcome (StepStage * N) := dispatch_system op (StepStage_default, 0) now.
Definition ledger_op_count (s : StepStage) : N := len (ledger_ops (ledger_delta s)).

Definition dispatch_spawn_entity_pushes_state_op_ledger_and_advances_counter : Outcome unit :=
  '(stage, next_id) ← dispatch_fresh (SpawnEntity 1 System) 5;
  _ ← assert_eq (len (state_ops stage)) 1;
  _ ← assert_eq (ledger_op_count stage) 1;
  _ ← assert_eq (next_entity_advance (stage_id_counters stage)) 1;
  assert_eq next_id 0.

Definition dispatch_despawn_entity_pushes_state_and_ledger_remove : Outcome unit :=
  '(stage, _) ← dispatch_fresh (DespawnEntity 1) 0;
  _ ← assert_eq (len (state_ops stage)) 1;
  assert_eq (ledger_op_count stage) 1.

Definition dispatch_set_component_pushes_state_and_ledger_add : Outcome unit :=
  '(stage, _) ← dispatch_fresh (SetComponent 1 7 (byte_str "data") 4) 0;
  _ ← assert_eq (len (state_ops stage)) 1;
  assert_eq (ledger_op_count stage) 1.

Definition dispatch_remove_component_pushes_state_and_ledger_remove : Outcome unit :=
  '(stage, _) ← dispatch_fresh (RemoveComponent 1 7 4) 0;
  _ ← assert_eq (len (state_ops stage)) 1;
  assert_eq (ledger_op_count stage) 1.

Definition dispatch_emit_event_pushes_kernel_event : Outcome unit :=
  '(stage, _) ← dispatch_fresh (EmitEvent (Some 1%positive) 2 (byte_str "evt")) 0;
  _ ← assert_eq (len (events stage)) 1;
  match events stage with
  | DomainEventEmitted _ _ event_type_code _ :: _ => assert_eq event_type_code 2
  | _ => Panicked "expected DomainEventEmitted"
  end.

Definition dispatch_schedule_action_advances_id_and_pushes_delta : Outcome unit :=
  '(stage, next_id) ← dispatch_fresh (ScheduleAction 10 None 3 (byte_str "a")) 0;
  _ ← assert_eq (len (schedule_deltas stage)) 1;
  _ ← assert_eq next_id 1;
  _ ← assert_eq (next_scheduled_advance (stage_id_counters stage)) 1;
  match schedule_deltas stage with
  | SchedAdd entry :: _ =>
      _ ← assert_eq (se_principal entry) System;
      assert_eq (se_caps_ceiling entry) caps_all
  | _ => Panicked "expected Add"
  end.

Definition dispatch_send_signal_stages_pending_without_speculative_refcount : Outcome unit :=
  '(stage, _) ← dispatch_fresh (SendSignal 1 42 (byte_str "hello")) 0;
  assert_eq (len (pending_signals stage)) 1.

Definition dispatch_send_signal_twice_stages_two_pending : Outcome unit :=
  '(stage, _) ← fold_outcome (λ st _, dispatch_system (SendSignal 1 42 []) st 0) (StepStage_default, 0) [1; 2; 3];
  assert_eq (len (pending_signals stage)) 3.

(** ** Applying a stage ([runtime/apply.rs]) *)

Definition cfg : InstanceConfig := mkConfig caps_empty 100 1000 16 (N.shiftl 1 20) None Reject.
Definition fresh : Instance_ := Instance_new 1 cfg.

(** [apply_stage(&mut inst, &mut stage)] for its effect on the instance. *)
Definition applied (inst : Instance_) (stage : StepStage) : Outcome Instance_ :=
  r ← apply_stage inst stage; mret r.1.2.
Definition spawn_delta (e : EntityId) : StagedStateDelta := SD_SpawnEntity e (mkMeta System 0).

Definition apply_empty_stage_leaves_instance_untouched : Outcome unit :=
  inst ← applied fresh StepStage_default;
  _ ← assert_eq (entities_len inst) 0;
  _ ← assert_eq (components_len inst) 0;
  _ ← assert_eq (local_tick inst) 0;
  _ ← assert_eq (wall_remainder inst) 0;
  _ ← assert_eq (total_entities (ledger inst)) 0;
  assert_eq (next_entity (id_counters inst)) 0.

Definition apply_spawn_entity : Outcome unit :=
  inst ← applied fresh (stage_of [spawn_delta 1] []);
  assert_eq (entities_len inst) 1.

Definition apply_despawn_entity : Outcome unit :=
  inst ← applied fresh (stage_of [spawn_delta 1] []);
  _ ← assert_eq (entities_len inst) 1;
  inst ← applied inst (stage_of [SD_DespawnEntity 1] []);
  assert_eq (entities_len inst) 0.

Definition apply_set_and_remove_component : Outcome unit :=
  inst ← applied fresh (stage_of [spawn_delta 1] []);
  inst ← applied inst (stage_of [SD_SetComponent 1 7 (byte_str "data") 4] []);
  _ ← assert_eq (components_len inst) 1;
  inst ← applied inst (stage_of [SD_RemoveComponent 1 7 4] []);
  assert_eq (components_len inst) 0.

Definition apply_set_component_on_unknown_entity_is_noop : Outcome unit :=
  inst ← applied fresh (stage_of [SD_SetComponent 999 7 (byte_str "orphan") 6] [LO_AddComponent 999 7 6]);
  _ ← assert_eq (components_len inst) 0;
  _ ← assert_eq (total_bytes (ledger inst)) 0;
  assert (is_none (component inst 999 7)).

Definition apply_spawn_then_set_in_same_stage_stores_component : Outcome unit :=
  inst ← applied fresh (stage_of [spawn_delta 5; SD_SetComponent 5 7 (byte_str "data") 4]
                          [LO_AddEntity 5; LO_AddComponent 5 7 4]);
  _ ← assert_eq (components_len inst) 1;
  assert_eq (total_bytes (ledger inst)) 4.

Definition apply_ledger_delta_balanced : Outcome unit :=
  inst ← applied fresh (ledger_stage [LO_AddEntity 1; LO_AddComponent 1 1 100]);
  _ ← assert_eq (total_entities (ledger inst)) 1;
  _ ← assert_eq (total_bytes (ledger inst)) 100;
  assert_eq (entity_bytes (ledger inst) 1) 100.

Definition apply_id_counters_advance : Outcome unit :=
  inst ← applied fresh (set_stage_counters StepStage_default (mkCountersDelta 5 3 7));
  _ ← assert_eq (next_entity (id_counters inst)) 5;
  _ ← assert_eq (next_scheduled (id_counters inst)) 3;
  assert_eq (next_source_seq (id_counters inst)) 7.

Definition apply_wall_and_local_tick_advance : Outcome unit :=
  inst ← applied fresh (mkStage [] [] [] [] (mkCountersDelta 0 0 0) (mkLedgerDelta []) 12345 7 []);
  _ ← assert_eq (wall_remainder inst) 12345;
  assert_eq (local_tick inst) 7.

Definition apply_schedule_delta_add_inserts_into_scheduler : Outcome unit :=
  let payload := [Byte.x01; Byte.x02; Byte.x03] in
  inst ← applied fresh (push_schedule StepStage_default (SchedAdd (mkEntry 1 10 None System 0 payload caps_all)));
  assert_eq (Scheduler_len (scheduler inst)) 1.

Definition apply_then_clear_reuse_is_state_clean : Outcome unit :=
  let spawning (e : EntityId) (s : StepStage) :=
    mkStage (state_ops s ++ [spawn_delta e]) (events s) (schedule_deltas s) (pending_signals s) (stage_id_counters s)
      (mkLedgerDelta (ledger_ops (ledger_delta s) ++ [LO_AddEntity e])) (wall_remainder_delta s) 1
      (observer_eviction_pending s) in
  '(_, inst, scratch) ← apply_stage fresh (spawning 1%positive StepStage_default);
  '(_, inst, _) ← apply_stage inst (spawning 2%positive (clear scratch));
  _ ← assert_eq (entities_len inst) 2;
  _ ← assert_eq (total_entities (ledger inst)) 2;
  assert_eq (local_tick inst) 2.

(** ** Events and observers ([runtime/event.rs], [runtime/observer.rs]) *)

Definition kernel_event_all_variants_constructible : Outcome unit :=
  inst ← expect "unwrap" (InstanceId_new 1);
  let route : RouteId := 1 in
  let _ := [ActionExecuted inst 1 0; ActionFailed inst 1 (byte_str "r"); EffectFailed inst []; ObserverPanic 0;
            ObserverEvicted 0 1 1; SignalDropped inst route QueueFull; ModuleForceUnloaded route 0] in
  action_id ← expect "unwrap" (ScheduledActionId_new 1);
  let _ := [ActionDeferredToNextTick action_id SchedulerBusy; ObserversFlushed 0 0] in
  Done tt.

Definition observer_handle_total_order : Outcome unit :=
  let '(h1, h2) := (1 : ObserverHandle, 2 : ObserverHandle) in
  _ ← assert (bool_decide (h1 < h2));
  assert_eq h1 1.

Definition signal_drop_reason_copy_eq : Outcome unit :=
  let r1 := QueueFull in
  let r2 := r1 in
  _ ← assert_eq r1 r2;
  assert_ne r1 TargetNotFound.

Definition defer_reason_copy_distinct : Outcome unit := assert_ne SchedulerBusy BudgetExceeded.

Definition CountingObserver : KernelObserver := λ _ _, false.
Definition PanicObserver : KernelObserver := λ _ _, true.

(** What a counting observer holds in its shared counter. *)
Definition count_of (r : ObserverRegistry) (h : ObserverHandle) : N := len (filter (λ d, d.1 = h) (deliveries r)).
Definition evt : KernelEvent := ActionExecuted 1 1 0.

Definition register_and_len : Outcome unit :=
  let '(_, r) := register_all ObserverRegistry_new CountingObserver in
  assert_eq (observers_len r) 1.

Definition deliver_increments_observer_count : Outcome unit :=
  let '(h, r) := register_all ObserverRegistry_new CountingObserver in
  let '(_, r) := deliver r evt in
  let '(_, r) := deliver r evt in
  assert_eq (count_of r h) 2.

Definition first_panic_evicts_observer : Outcome unit :=
  let '(h, r) := register_all ObserverRegistry_new PanicObserver in
  let '(gone, r) := deliver r evt in
  _ ← assert_eq gone [h];
  _ ← assert (is_evicted r h);
  assert_eq (observers_len r) 0.

Definition evicted_observer_does_not_receive_subsequent_events : Outcome unit :=
  let '(_, r) := register_all ObserverRegistry_new PanicObserver in
  let '(h, r) := register_all r CountingObserver in
  let '(_, r) := deliver r evt in
  let '(_, r) := deliver r evt in
  assert_eq (count_of r h) 2.

Definition handles_are_monotonic : Outcome unit :=
  let '(h0, r) := register_all ObserverRegistry_new CountingObserver in
  let '(h1, _) := register_all r CountingObserver in
  assert (bool_decide (h0 < h1)).

(** ** The action registry ([runtime/registry.rs]) *)

Variant ProbeAction : Type := Probe.
#[local] Instance ProbeAction_derived : Derived ProbeAction :=
  {| TYPE_CODE := 0xABCD; SCHEMA_VERSION := 1; derived_postcard := unit_codec Probe |}.
#[local] Instance ProbeAction_compute : ActionCompute ProbeAction := λ _ _, Done [].

Definition registry_register_and_lookup : Outcome unit :=
  let r := ActionRegistry_new in
  _ ← assert_eq (registry_len r) 0;
  let r := register ProbeAction r in
  _ ← assert_eq (registry_len r) 1;
  reg ← expect "registered" (registry_get r 0xABCD);
  assert_eq (schema_version reg) 1.

Definition registry_deserializer_roundtrip : Outcome unit :=
  let r := register ProbeAction ActionRegistry_new in
  reg ← expect "unwrap" (registry_get r 0xABCD);
  action ← of_result (deserializer reg 1 []);
  _ ← canonical_bytes_dyn action;
  let inst := Instance_new 1 InstanceConfig_default in
  ops ← compute_dyn action (ActionContext_new None 0 (inst_id inst) inst);
  assert_eq (len ops) 0.

Definition registry_unknown_type_code_returns_none : Outcome unit :=
  assert (is_none (registry_get ActionRegistry_new 0xDEAD)).

(** ** Read views ([runtime/view.rs]) *)

Record SpawnManyAction : Type := mkSpawnMany { sm_count : N; sm_type_code : N; sm_size : N }.
#[local] Instance SpawnManyAction_derived : Derived SpawnManyAction := {|
  TYPE_CODE := 900; SCHEMA_VERSION := 1;
  derived_postcard := u64s_codec 3 (λ a, [sm_count a; sm_type_code a; sm_size a])
    (λ ws, match ws with [c; t; s] => Some (mkSpawnMany c t s) | _ => None end) |}.
Definition SpawnManyAction_ops (self : SpawnManyAction) : Outcome (list Op) :=
  fold_outcome (λ ops n,
      entity ← expect "unwrap" (EntityId_new (N.of_nat n));
      mret (ops ++ [SpawnEntity entity System;
                    SetComponent entity (sm_type_code self) (replicate (N.to_nat (sm_size self)) Byte.xab) (sm_size self)]))
    [] (seq 1 (N.to_nat (sm_count self))).
#[local] Instance SpawnManyAction_compute : ActionCompute SpawnManyAction := λ self _, SpawnManyAction_ops self.

(** [submit(&mut k, inst, &action)], then [k.step(Tick(0), SYSTEM)]. *)
Definition submit_action {A} `{Derived A} (k : Kernel) (inst : InstanceId) (action : A) : Outcome Kernel :=
  bs ← Action_canonical_bytes action;
  r ← submit k inst System None SYSTEM 0 (TYPE_CODE (A := A)) bs;
  unwrap r.
Definition run_action {A} `{Derived A} (k : Kernel) (inst : InstanceId) (action : A) : Outcome Kernel :=
  k ← submit_action k inst action;
  r ← step k 0 SYSTEM;
  mret r.2.
Definition boot : Outcome (Kernel * InstanceId) :=
  let k := register_action SpawnManyAction Kernel_new in
  '(inst, k) ← create_instance k InstanceConfig_default;
  mret (k, inst).
Definition view_of (k : Kernel) (inst : InstanceId) : Outcome InstanceView := expect "view present" (instance_view k inst).

Definition view_none_for_missing_instance : Outcome unit :=
  bogus ← expect "unwrap" (InstanceId_new 99);
  assert (is_none (instance_view Kernel_new bogus)).

Definition view_reflects_entity_count : Outcome unit :=
  '(k, inst) ← boot;
  k ← run_action k inst (mkSpawnMany 1 7 10);
  view ← view_of k inst;
  _ ← assert_eq (view_id view) inst;
  _ ← assert_eq (view_entity_count view) 1;
  assert_eq (view_component_count view) 1.

Definition view_component_bytes_match_set : Outcome unit :=
  '(k, inst) ← boot;
  k ← run_action k inst (mkSpawnMany 1 7 4);
  view ← view_of k inst;
  comp ← expect "component present" (view_component view 1 7);
  assert_eq comp [Byte.xab; Byte.xab; Byte.xab; Byte.xab].

Definition view_entities_iter_ascending : Outcome unit :=
  '(k, inst) ← boot;
  k ← run_action k inst (mkSpawnMany 3 7 1);
  view ← view_of k inst;
  _ ← assert_eq ((λ x, EntityId_get x.1) <$> view_entities view) [1; 2; 3];
  meta ← expect "meta" (view_entity_meta view 2);
  _ ← assert_eq (owner meta) System;
  assert_eq (created meta) 0.

Definition view_components_by_type_filter : Outcome unit :=
  '(k, inst) ← boot;
  k ← run_action k inst (mkSpawnMany 2 7 1);
  k ← run_action k inst (mkSpawnMany 2 8 1);
  view ← view_of k inst;
  _ ← assert_eq (view_component_count view) 4;
  _ ← assert_eq ((λ x, EntityId_get x.1) <$> view_components_by_type view 7) [1; 2];
  assert_eq ((λ x, EntityId_get x.1) <$> view_components_by_type view 8) [1; 2].

Definition view_local_tick_updates_after_step : Outcome unit :=
  '(k, inst) ← boot;
  k ← submit_action k inst (mkSpawnMany 1 7 1);
  pre ← view_of k inst;
  r ← step k 0 SYSTEM;
  post ← view_of r.2 inst;
  assert_eq (view_local_tick pre) (view_local_tick post).

(** ** Signatures ([persist/signature.rs]) *)

Definition secret (b : byte) : bytes := replicate 32 b.

(** [bytes[0] ^= 0xFF]. *)
Definition corrupted (bs : bytes) : bytes :=
  match bs with b :: bs' => default Byte.x00 (Byte.of_N (N.lxor (Byte.to_N b) 255)) :: bs' | [] => [] end.

(** The verifier rebuilt from the key a class publishes. *)
Definition verifier_of (c : SignatureClass) : Outcome VerifierClass :=
  vk ← expect "unwrap" (verifying_key_bytes c);
  of_result (from_header_bytes (Some vk) None).

Definition none_default_and_no_verifying_key : Outcome unit :=
  let s := SignatureClass_default in
  _ ← assert (is_none (verifying_key_bytes s));
  _ ← assert (is_none (verifying_key_pqc_bytes s));
  _ ← assert (is_none (sign s (byte_str "anything")));
  assert (is_none (sign_hybrid s (byte_str "anything"))).

Definition ed25519_from_secret_yields_verifying_key : Outcome unit :=
  let s := new_ed25519_from_secret (secret Byte.x07) in
  vk ← expect "Ed25519 has key" (verifying_key_bytes s);
  _ ← assert_eq (len vk) 32;
  assert (is_none (verifying_key_pqc_bytes s)).

Definition ed25519_sign_is_deterministic : Outcome unit :=
  let body := byte_str "the body bytes to sign" in
  sig1 ← expect "ed25519 signs" (sign (new_ed25519_from_secret (secret Byte.x03)) body);
  sig2 ← expect "ed25519 signs" (sign (new_ed25519_from_secret (secret Byte.x03)) body);
  assert_eq sig1 sig2.

Definition debug_redacts_signing_key : Outcome unit :=
  let dbg := SignatureClass_debug (new_ed25519_from_secret (secret Byte.x2a)) in
  _ ← assert (str_contains dbg "<redacted>");
  assert (negb (str_contains dbg "signing_key:") || str_contains dbg "<redacted>").

Definition verifier_class_good_signature_validates : Outcome unit :=
  let sig_class := new_ed25519_from_secret (secret Byte.x1d) in
  let body := byte_str "verifier round-trip body" in
  sig ← expect "ed25519 signs" (sign sig_class body);
  verifier ← verifier_of sig_class;
  r ← verify verifier body sig;
  assert (is_ok r).

Definition verifier_class_wrong_length_signature_rejected : Outcome unit :=
  verifier ← verifier_of (new_ed25519_from_secret (secret Byte.x1f));
  let wrong_length e := match e with SV_WrongLength => true | SV_Mismatch => false end in
  r ← verify verifier (byte_str "any body") (replicate 63 Byte.x00);
  _ ← assert (fails_with wrong_length r);
  r ← verify verifier (byte_str "any body") (replicate 65 Byte.x00);
  assert (fails_with wrong_length r).

Definition verifier_class_wrong_sig_bytes_rejected : Outcome unit :=
  let sig_class := new_ed25519_from_secret (secret Byte.x25) in
  let body := byte_str "wrong-sig body" in
  sig ← expect "ed25519 signs" (sign sig_class body);
  verifier ← verifier_of sig_class;
  r ← verify verifier body (corrupted sig);
  assert (fails_with (λ e, match e with SV_Mismatch => true | SV_WrongLength => false end) r).

Definition ml_dsa_65_software_signer_round_trip : Outcome unit :=
  let signer := SoftwareMlDsa65Signer_dyn (SoftwareMlDsa65Signer_from_seed (secret Byte.x0b)) in
  let body := byte_str "ml-dsa 65 round-trip body" in
  sig ← of_result (pqc_sign signer body);
  v ← of_result (SoftwareMlDsa65Verifier_from_bytes (pqc_verifying_key_bytes signer));
  assert (is_ok (pqc_verify (SoftwareMlDsa65Verifier_dyn v) body sig)).

Definition ml_dsa_65_signature_size_3309_bytes : Outcome unit :=
  let signer := SoftwareMlDsa65Signer_dyn (SoftwareMlDsa65Signer_from_seed (secret Byte.x0d)) in
  sig ← of_result (pqc_sign signer (byte_str "size pin"));
  assert_eq (len sig) 3309.

Definition ml_dsa_65_verifying_key_size_1952_bytes : Outcome unit :=
  let signer := SoftwareMlDsa65Signer_dyn (SoftwareMlDsa65Signer_from_seed (secret Byte.x11)) in
  assert_eq (len (pqc_verifying_key_bytes signer)) 1952.

Definition hybrid_signature_class_construct : Outcome unit :=
  let s := new_hybrid_from_secrets (secret Byte.x17) (secret Byte.x1d) in
  vk_ed ← expect "Hybrid has Ed25519 key" (verifying_key_bytes s);
  _ ← assert_eq (len vk_ed) 32;
  vk_pqc ← expect "Hybrid has PQC key" (verifying_key_pqc_bytes s);
  _ ← assert_eq (len vk_pqc) 1952;
  hyb ← expect "hybrid signs" (sign_hybrid s (byte_str "hybrid construct body"));
  _ ← assert_eq (len (hs_ed25519 hyb)) 64;
  assert_eq (len (hs_pqc hyb)) 3309.

(** ** Snapshots ([persist/snapshot.rs]) *)

Record SpawnSetAction : Type := mkSpawnSet { ss_id : N }.
#[local] Instance SpawnSetAction_derived : Derived SpawnSetAction := {|
  TYPE_CODE := 900; SCHEMA_VERSION := 1;
  derived_postcard := u64s_codec 1 (λ a, [ss_id a]) (λ ws, match ws with [n] => Some (mkSpawnSet n) | _ => None end) |}.
Definition SpawnSetAction_ops (self : SpawnSetAction) : Outcome (list Op) :=
  entity ← expect "unwrap" (EntityId_new (ss_id self));
  mret [SpawnEntity entity System; SetComponent entity 7 (replicate 4 Byte.xcd) 4].
#[local] Instance SpawnSetAction_compute : ActionCompute SpawnSetAction := λ self _, SpawnSetAction_ops self.

Definition boot_with_state (actions : list N) : Outcome (Kernel * InstanceId) :=
  let k := register_action SpawnSetAction Kernel_new in
  '(inst, k) ← create_instance k InstanceConfig_default;
  k ← fold_outcome (λ k id, run_action k inst (mkSpawnSet id)) k actions;
  mret (k, inst).

(** [Kernel::from_snapshot(KernelSnapshot::deserialize(&k.snapshot().serialize())?)]. *)
Definition serialized (k : Kernel) : Outcome bytes := of_result (snapshot_serialize (snapshot k)).
Definition reloaded (k : Kernel) : Outcome Kernel :=
  bs ← serialized k;
  snap ← of_result (snapshot_deserialize bs);
  mret (Kernel_from_snapshot snap).

Definition snapshot_empty_kernel_serdes_roundtrip : Outcome unit :=
  let snap := snapshot Kernel_new in
  _ ← assert_eq (snapshot_instance_count snap) 0;
  bs ← of_result (snapshot_serialize snap);
  back ← of_result (snapshot_deserialize bs);
  assert_eq (snapshot_instance_count back) 0.

Definition snapshot_captures_instance_state : Outcome unit :=
  '(k, inst) ← boot_with_state [1; 2; 3];
  let snap := snapshot k in
  _ ← assert_eq (snapshot_instance_count snap) 1;
  assert_eq (snapshot_instance_ids snap) [inst].

Definition snapshot_preserves_entities_and_components : Outcome unit :=
  '(k1, inst) ← boot_with_state [1; 2];
  k2 ← reloaded k1;
  v1 ← view_of k1 inst;
  v2 ← view_of k2 inst;
  _ ← assert_eq (view_entity_count v1) (view_entity_count v2);
  _ ← assert_eq (view_component_count v1) (view_component_count v2);
  _ ← assert_eq (view_component v1 1 7) (view_component v2 1 7);
  _ ← assert_eq (view_component v1 2 7) (view_component v2 2 7);
  k2 ← run_action (register_action SpawnSetAction k2) inst (mkSpawnSet 3);
  v2 ← view_of k2 inst;
  assert_eq (view_entity_count v2) 3.

Definition snapshot_preserves_id_counters : Outcome unit :=
  '(_, k1) ← create_instance Kernel_new InstanceConfig_default;
  '(_, k1) ← create_instance k1 InstanceConfig_default;
  '(_, k1) ← create_instance k1 InstanceConfig_default;
  k2 ← reloaded k1;
  '(next1, _) ← create_instance k1 InstanceConfig_default;
  '(next2, _) ← create_instance k2 InstanceConfig_default;
  _ ← assert_eq next1 next2;
  assert_eq (InstanceId_get next1) 4.

Definition snapshot_preserves_local_tick_and_wall_remainder : Outcome unit :=
  '(k1, inst) ← boot_with_state [1];
  k2 ← reloaded k1;
  v1 ← view_of k1 inst;
  v2 ← view_of k2 inst;
  assert_eq (view_local_tick v1) (view_local_tick v2).

Definition snapshot_deserialize_fresh_kernel_no_observers_no_registry : Outcome unit :=
  '(k1, inst) ← boot_with_state [1];
  k2 ← reloaded k1;
  _ ← assert_eq (observer_count (stats k2)) 0;
  r ← submit k2 inst System None SYSTEM 0 900 [Byte.x01];
  k2 ← unwrap r;
  '(report, _) ← step k2 0 SYSTEM;
  _ ← assert_eq (actions_executed report) 1;
  assert_eq (effects_applied report) 0.

Definition is_integrity_mismatch (r : Result SnapshotError KernelSnapshot) : bool :=
  fails_with (λ e, match e with IntegrityMismatch => true | _ => false end) r.

Definition snapshot_deserialize_verified_checks_digest : Outcome unit :=
  '(k, _) ← boot_with_state [1; 2];
  bs ← serialized k;
  let digest := snapshot_digest bs in
  _ ← assert (is_ok (deserialize_verified bs digest));
  _ ← assert (is_integrity_mismatch (deserialize_verified bs (corrupted digest)));
  assert (is_integrity_mismatch (deserialize_verified (corrupted bs) digest)).

Definition snapshot_deterministic_same_state_same_bytes : Outcome unit :=
  '(k1, _) ← boot_with_state [1; 2; 3];
  '(k2, _) ← boot_with_state [1; 2; 3];
  b1 ← serialized k1;
  b2 ← serialized k2;
  assert_eq b1 b2.

(** ** Derived components and events ([tests/derive_macros.rs]) *)

(** The constants of the trait implementation a derive emits. *)
Definition emitted_consts (out : TokenStream unit) : option (N * N) :=
  match out with
  | compile_error _ => None
  | expanded impls =>
      head (omap (λ i, match impl_trait i with
                       | ActionDeriv c v | Component c v | Event c v => Some (c, v)
                       | Sealed => None
                       end) impls)
  end.
Definition derived_by {A} (out : TokenStream unit) (p : Postcard A) : Derived A :=
  let consts := default (0, 0) (emitted_consts out) in
  {| TYPE_CODE := consts.1; SCHEMA_VERSION := consts.2; derived_postcard := p |}.

(** [#[arkhe(items)] struct name]. *)
Definition struct_with (name : string) (items : list (string * Z)) : Result SynError (DeriveInput unit) :=
  Ok (mkInput name [mkAttribute "arkhe" ((λ x, mkMeta_ x.1 (Ok x.2)) <$> items) None] tt).

Record CounterComponent : Type := mkCounterComponent { value : N; label : bytes }.
#[local] Instance CounterComponent_derived : Derived CounterComponent :=
  derived_by
    (derive_arkhe_component (struct_with "CounterComponent" [("type_code", 5001%Z); ("schema_version", 1%Z)]%string))
    (wire_postcard (iso_wire (pair_wire u64_wire blob_wire) (λ c, (value c, label c)) (λ x, Some (mkCounterComponent x.1 x.2)))).
Variant DefaultedComponent : Type := mkDefaulted (flag : bool).
#[local] Instance DefaultedComponent_derived : Derived DefaultedComponent :=
  derived_by (derive_arkhe_component (struct_with "DefaultedComponent" [("type_code", 5002%Z)]%string))
    (wire_postcard (iso_wire bool_wire (λ '(mkDefaulted b), b) (λ b, Some (mkDefaulted b)))).
Record PostCreatedEvent : Type := mkPostCreated { author_id : N; body : bytes }.
#[local] Instance PostCreatedEvent_derived : Derived PostCreatedEvent :=
  derived_by
    (derive_arkhe_event (struct_with "PostCreatedEvent" [("type_code", 8001%Z); ("schema_version", 1%Z)]%string))
    (wire_postcard (iso_wire (pair_wire u64_wire blob_wire) (λ e, (author_id e, body e)) (λ x, Some (mkPostCreated x.1 x.2)))).

Definition is_version_mismatch {A} (expected got : N) (r : Result DeserializeError A) : bool :=
  fails_with (λ e, match e with
                   | SchemaVersionMismatch e' g' => bool_decide (e' = expected) && bool_decide (g' = got)
                   | _ => false
                   end) r.

Definition component_derive_emits_consts : Outcome unit :=
  _ ← assert_eq (TYPE_CODE (A := CounterComponent)) 5001;
  assert_eq (SCHEMA_VERSION (A := CounterComponent)) 1.

Definition component_canonical_roundtrip : Outcome unit :=
  let c := mkCounterComponent 42 (byte_str "hits") in
  bs ← Component_canonical_bytes c;
  back ← of_result (Component_from_bytes (A := CounterComponent) 1 bs);
  _ ← assert_eq (value back) 42;
  _ ← assert_eq (label back) (byte_str "hits");
  size ← Component_approx_size c;
  assert (bool_decide (0 < size)).

Definition component_schema_version_mismatch_errors : Outcome unit :=
  bs ← Component_canonical_bytes (mkCounterComponent 1 (byte_str "x"));
  assert (is_version_mismatch 1 99 (Component_from_bytes (A := CounterComponent) 99 bs)).

Definition component_schema_version_defaults_to_one : Outcome unit :=
  _ ← assert_eq (TYPE_CODE (A := DefaultedComponent)) 5002;
  assert_eq (SCHEMA_VERSION (A := DefaultedComponent)) 1.

Definition component_canonical_bytes_pinned : Outcome unit :=
  let c := mkCounterComponent 42 (byte_str "hits") in
  bs ← Component_canonical_bytes c;
  _ ← assert (bool_decide (bs = [Byte.x2a; Byte.x04] ++ byte_str "hits"));
  parsed ← of_result (Component_from_bytes (A := CounterComponent) 1 bs);
  _ ← assert_eq (value parsed) 42;
  assert_eq (label parsed) (byte_str "hits").

Definition event_derive_emits_consts : Outcome unit :=
  _ ← assert_eq (TYPE_CODE (A := PostCreatedEvent)) 8001;
  assert_eq (SCHEMA_VERSION (A := PostCreatedEvent)) 1.

Definition event_canonical_roundtrip : Outcome unit :=
  bs ← Event_canonical_bytes (mkPostCreated 7 (byte_str "first post"));
  back ← of_result (Event_from_bytes (A := PostCreatedEvent) 1 bs);
  _ ← assert_eq (author_id back) 7;
  assert_eq (body back) (byte_str "first post").

Definition event_schema_version_mismatch_errors : Outcome unit :=
  bs ← Event_canonical_bytes (mkPostCreated 1 (byte_str "x"));
  assert (is_version_mismatch 1 7 (Event_from_bytes (A := PostCreatedEvent) 7 bs)).

Definition event_canonical_bytes_pinned : Outcome unit :=
  let e := mkPostCreated 7 (byte_str "first post") in
  bs ← Event_canonical_bytes e;
  _ ← assert (bool_decide (bs = [Byte.x07; Byte.x0a] ++ byte_str "first post"));
  parsed ← of_result (Event_from_bytes (A := PostCreatedEvent) 1 bs);
  _ ← assert_eq (author_id parsed) 7;
  assert_eq (body parsed) (byte_str "first post").

Definition runtime_tests : Suite :=
  [("step_stage_default_all_buckets_empty", step_stage_default_all_buckets_empty);
   ("clear_resets_all_buckets", clear_resets_all_buckets);
   ("projected_oversized_add_saturates_no_negative_wrap", projected_oversized_add_saturates_no_negative_wrap);
   ("projected_remove_credits_stored_size_not_caller_size", projected_remove_credits_stored_size_not_caller_size);
   ("projected_remove_of_unaccounted_component_credits_zero", projected_remove_of_unaccounted_component_credits_zero);
   ("pending_signal_construction", pending_signal_construction);
   ("dispatch_spawn_entity_pushes_state_op_ledger_and_advances_counter", dispatch_spawn_entity_pushes_state_op_ledger_and_advances_counter);
   ("dispatch_despawn_entity_pushes_state_and_ledger_remove", dispatch_despawn_entity_pushes_state_and_ledger_remove);
   ("dispatch_set_component_pushes_state_and_ledger_add", dispatch_set_component_pushes_state_and_ledger_add);
   ("dispatch_remove_component_pushes_state_and_ledger_remove", dispatch_remove_component_pushes_state_and_ledger_remove);
   ("dispatch_emit_event_pushes_kernel_event", dispatch_emit_event_pushes_kernel_event);
   ("dispatch_schedule_action_advances_id_and_pushes_delta", dispatch_schedule_action_advances_id_and_pushes_delta);
   ("dispatch_send_signal_stages_pending_without_speculative_refcount", dispatch_send_signal_stages_pending_without_speculative_refcount);
   ("dispatch_send_signal_twice_stages_two_pending", dispatch_send_signal_twice_stages_two_pending);
   ("apply_empty_stage_leaves_instance_untouched", apply_empty_stage_leaves_instance_untouched);
   ("apply_spawn_entity", apply_spawn_entity);
   ("apply_despawn_entity", apply_despawn_entity);
   ("apply_set_and_remove_component", apply_set_and_remove_component);
   ("apply_set_component_on_unknown_entity_is_noop", apply_set_component_on_unknown_entity_is_noop);
   ("apply_spawn_then_set_in_same_stage_stores_component", apply_spawn_then_set_in_same_stage_stores_component);
   ("apply_ledger_delta_balanced", apply_ledger_delta_balanced);
   ("apply_id_counters_advance", apply_id_counters_advance);
   ("apply_wall_and_local_tick_advance", apply_wall_and_local_tick_advance);
   ("apply_schedule_delta_add_inserts_into_scheduler", apply_schedule_delta_add_inserts_into_scheduler);
   ("apply_then_clear_reuse_is_state_clean", apply_then_clear_reuse_is_state_clean);
   ("signal_drop_reason_copy_eq", signal_drop_reason_copy_eq);
   ("defer_reason_copy_distinct", defer_reason_copy_distinct);
   ("register_and_len", register_and_len);
   ("deliver_increments_observer_count", deliver_increments_observer_count);
   ("first_panic_evicts_observer", first_panic_evicts_observer);
   ("evicted_observer_does_not_receive_subsequent_events", evicted_observer_does_not_receive_subsequent_events);
   ("handles_are_monotonic", handles_are_monotonic);
   ("registry_register_and_lookup", registry_register_and_lookup);
   ("registry_deserializer_roundtrip", registry_deserializer_roundtrip);
   ("registry_unknown_type_code_returns_none", registry_unknown_type_code_returns_none);
   ("view_none_for_missing_instance", view_none_for_missing_instance);
   ("view_reflects_entity_count", view_reflects_entity_count);
   ("view_component_bytes_match_set", view_component_bytes_match_set);
   ("view_entities_iter_ascending", view_entities_iter_ascending);
   ("view_components_by_type_filter", view_components_by_type_filter);
   ("view_local_tick_updates_after_step", view_local_tick_updates_after_step);
   ("none_default_and_no_verifying_key", none_default_and_no_verifying_key);
   ("ed25519_from_secret_yields_verifying_key", ed25519_from_secret_yields_verifying_key);
   ("ed25519_sign_is_deterministic", ed25519_sign_is_deterministic);
   ("debug_redacts_signing_key", debug_redacts_signing_key);
   ("verifier_class_good_signature_validates", verifier_class_good_signature_validates);
   ("verifier_class_wrong_length_signature_rejected", verifier_class_wrong_length_signature_rejected);
   ("verifier_class_wrong_sig_bytes_rejected", verifier_class_wrong_sig_bytes_rejected);
   ("ml_dsa_65_software_signer_round_trip", ml_dsa_65_software_signer_round_trip);
   ("ml_dsa_65_signature_size_3309_bytes", ml_dsa_65_signature_size_3309_bytes);
   ("ml_dsa_65_verifying_key_size_1952_bytes", ml_dsa_65_verifying_key_size_1952_bytes);
   ("hybrid_signature_class_construct", hybrid_signature_class_construct);
   ("snapshot_empty_kernel_serdes_roundtrip", snapshot_empty_kernel_serdes_roundtrip);
   ("snapshot_captures_instance_state", snapshot_captures_instance_state);
   ("snapshot_preserves_entities_and_components", snapshot_preserves_entities_and_components);
   ("snapshot_preserves_id_counters", snapshot_preserves_id_counters);
   ("snapshot_preserves_local_tick_and_wall_remainder", snapshot_preserves_local_tick_and_wall_remainder);
   ("snapshot_deserialize_fresh_kernel_no_observers_no_registry", snapshot_deserialize_fresh_kernel_no_observers_no_registry);
   ("snapshot_deserialize_verified_checks_digest", snapshot_deserialize_verified_checks_digest);
   ("snapshot_deterministic_same_state_same_bytes", snapshot_deterministic_same_state_same_bytes);
   ("component_derive_emits_consts", component_derive_emits_consts);
   ("component_canonical_roundtrip", component_canonical_roundtrip);
   ("component_schema_version_mismatch_errors", component_schema_version_mismatch_errors);
   ("component_schema_version_defaults_to_one", component_schema_version_defaults_to_one);
   ("event_derive_emits_consts", event_derive_emits_consts);
   ("event_canonical_roundtrip", event_canonical_roundtrip);
   ("event_schema_version_mismatch_errors", event_schema_version_mismatch_errors);
   ("component_canonical_bytes_pinned", component_canonical_bytes_pinned);
   ("event_canonical_bytes_pinned", event_canonical_bytes_pinned);
   ("staged_state_delta_variants_clone", staged_state_delta_variants_clone);
   ("scheduled_entry_delta_variants", scheduled_entry_delta_variants);
   ("ledger_op_variants", ledger_op_variants);
   ("kernel_event_all_variants_constructible", kernel_event_all_variants_constructible);
   ("observer_handle_total_order", observer_handle_total_order)]%string.

(** All of them pass. *)
Lemma runtime_tests_pass : len runtime_tests = 74 ∧ failing runtime_tests = [].
Proof. split; vm_compute; reflexivity. Qed.
