(* ===== verification/DiceTests.v ===== *)
(** * The unit tests of the dice example, on the model

    The test module of [src/examples/dice/src/main.rs], translated and run by
    evaluation on the BLAKE3 of [Blake3] and the wire format of [Wire], with
    the two payloads encoded as [postcard] encodes them. *)
From S2P Require Import Prelude Abi Quota Extern Blake3 Authz Ledger Scheduler Instance Event.
From S2P Require Import Observer Stage Signature Wal Registry Kernel Replay Dice Wire TestKit.

Local Open Scope N_scope.

(** ** Payload formats *)

#[local] Notation "a ** b" := (pair_wire a b) (at level 40, left associativity).

Definition roll_wire : Wire RollAction :=
  iso_wire (array_wire 32 ** u64_wire ** u8_wire) (λ a, (roll_seed a, roll_nonce a, roll_target_sum a))
    (λ '(s, n, t), Some (mkRoll s n t)).
#[export] Instance roll_wire_ok : WireOk roll_wire.
Proof. apply iso_wire_ok; [apply _|by intros []]. Qed.
Definition rolled_wire : Wire DiceRolled :=
  iso_wire (u64_wire ** (u8_wire ** u8_wire ** u8_wire) ** u8_wire ** u8_wire ** bool_wire ** array_wire 32)
    (λ o, (rolled_nonce o, rolled_dice o, rolled_sum o, rolled_target_sum o, rolled_won o, rolled_entropy_digest o))
    (λ '(n, d, s, t, w, e), Some (mkRolled n d s t w e)).
#[export] Instance rolled_wire_ok : WireOk rolled_wire.
Proof. apply iso_wire_ok; [apply _|by intros []]. Qed.

#[local] Instance roll_postcard : Postcard RollAction := wire_postcard roll_wire.
#[local] Instance rolled_postcard : Postcard DiceRolled := wire_postcard rolled_wire.

(** ** The tests *)

Definition filled (b : byte) : bytes := replicate 32 b.

Definition roll_action_round_trips_via_canonical_bytes : Outcome unit :=
  let a := mkRoll (filled Byte.x03) 42 12 in
  bs ← Action_canonical_bytes a;
  back ← of_result (Action_from_bytes (A := RollAction) (SCHEMA_VERSION (A := RollAction)) bs);
  _ ← assert_eq (roll_seed back) (filled Byte.x03);
  _ ← assert_eq (roll_nonce back) 42;
  assert_eq (roll_target_sum back) 12.

Definition roll_is_deterministic_for_same_inputs : Outcome unit :=
  let a := mkRoll (filled Byte.x07) 99 10 in
  o1 ← roll a 5;
  o2 ← roll a 5;
  assert_eq o1 o2.

Definition roll_differs_when_tick_changes : Outcome unit :=
  let a := mkRoll (filled Byte.x07) 1 10 in
  o1 ← roll a 0;
  o2 ← roll a 1;
  assert_ne (rolled_entropy_digest o1) (rolled_entropy_digest o2).

Definition replay_reconstructs_chain_tip_and_outcomes : Outcome unit :=
  f1 ← fresh_kernel_with_wal;
  let '(k1, inst1, log1) := f1 in
  k1 ← roll_n k1 inst1 (filled Byte.xa5) 4 11;
  original_tip ← expect "unwrap" (wal_chain_tip k1);
  original_records ← expect "unwrap" (kernel_wal_record_count k1);
  let original := roll_log log1 (observers k1) in
  wal ← expect "unwrap" (export_wal k1);
  let k2 := register_action RollAction (new_with_wal WORLD_ID MANIFEST_DIGEST) in
  let '(replay_log, k2) := register_observer k2 CaptureObserver in
  let d := InstanceConfig_default in
  c ← create_instance k2 (mkConfig (default_caps d) 1024 1024 (max_inbox_per_route d) (N.shiftl 1 20) (parent d)
                            (quota_reduction d));
  r ← replay_into ArkheError_display c.2 wal;
  match r with
  | (k2, Ok report) =>
      _ ← assert_eq (submits_replayed report + steps_replayed report) original_records;
      _ ← assert_eq (final_chain_tip report) original_tip;
      assert_eq (roll_log replay_log (observers k2)) original
  | (_, Err _) => Panicked "called unwrap on an Err value"
  end.

Definition dice_tests : Suite :=
  [("roll_action_round_trips_via_canonical_bytes", roll_action_round_trips_via_canonical_bytes);
   ("roll_is_deterministic_for_same_inputs", roll_is_deterministic_for_same_inputs);
   ("roll_differs_when_tick_changes", roll_differs_when_tick_changes);
   ("replay_reconstructs_chain_tip_and_outcomes", replay_reconstructs_chain_tip_and_outcomes)]%string.

(** All of them pass. *)
Lemma dice_tests_pass : len dice_tests = 4 ∧ failing dice_tests = [].
Proof. split; vm_compute; reflexivity. Qed.

(** The program itself, run: five rolls, a verified replay, exit status 0. *)
Lemma main_runs :
  match main ArkheError_display with Done (lines, code) => (length lines, code) | Panicked _ => (0%nat, 1) end = (18%nat, 0).
Proof. vm_compute. reflexivity. Qed.
